(* ===== verification/_CoqProject ===== *)
-Q . S2P
Prelude.v
CLib.v
Slice.v
Status.v
Random.v
Logging.v
Pmkv.v
Double.v
Histogram.v
DoubleBound.v
Format.v
Stats.v
Report.v
Progress.v
TestUtil.v
Workload.v
WorkloadLogic.v
Fill.v
Mixed.v
WhileWriting.v
FillThreads.v
ReadWriteThreads.v
Barrier.v
PosixOS.v
PosixFile.v
Env.v
PosixEnv.v
FileLocks.v
Limiter.v
RandomAccess.v
Background.v
CommandLine.v
MachineInfo.v
Run.v
Logger.v
LogFile.v
Runs.v
PmemObj.v
PmemLogic.v
PoolExamples.v
LinkedList.v
Port.v
Threads.v
AtomicPointer.v
WeakMemory.v
RunThreads.v
ThreadRuns.v
RunSafety.v
WriterRuns.v
PmkvTests.v
RecoveryTests.v
Output.v
Summary.v
Usage.v
Grading.v
