(* ===== verification/Prelude.v ===== *)
(** * Verification of the PMKV lab code base

    ** The program

    The repository is a lab around a small key-value interface for persistent
    memory.  [include/pmkv.h] declares the interface; [src/pmkv.c] is the stub
    handed out to be completed and [src/pmemkv.c] the reference implementation
    on the library libpmemkv.  [bench/bench.cc] is a benchmark derived from
    LevelDB's: [main] reads flags, [Benchmark::Run] takes a list of names, opens
    the store and runs one workload per name in a number of threads that start
    and finish together, each with its own random generator and statistics.
    Below it lies what the benchmark took over from LevelDB: [Slice], [Status],
    [Random], [Histogram], number and string printing, random test data, and the
    environment [Env] with its POSIX implementation (files, locks, limits, a
    background thread, a logger), and the port layer (mutexes, condition
    variables, atomic pointers).  [test/] holds the tests an implementation of
    the interface has to pass, some of which kill the process that writes;
    [bench/summarize.py] adds up what runs of the benchmark printed, and scripts
    collect the results of the tests.  [example/]
    holds six programs that introduce libpmemobj, the last a linked list in
    persistent memory.

    ** The files

    - [Prelude] (this file): machine integers, bytes and memory blocks, outcomes
      (normal, undefined, aborted, thrown, exited), tactics and hint databases.
    - [CLib]: the functions of the C library the sources call.
    - [Slice] (include/leveldb/slice.h), [Status] (status.h, status.cc: the layout
      of the block, and objects that own their blocks), [Random] (random.h, on
      32- and 64-bit words), [Logging] (logging.cc).
    - [Pmkv]: the interface as a class [PmkvOps], its contract [PmkvContract]
      (README.md), the stub, and src/pmemkv.c over libpmemkv, which is a
      parameter [LibPmemkv] with the laws of its manual, [LibPmemkvLaws].
    - [Double]: binary64 numbers and when their arithmetic is exact;
      [DoubleBound]: bounds on rounded results; [Histogram] (histogram.cc) and
      [Stats] (class Stats of bench.cc) on them; [Format]: the conversion [%w.pf]
      of printf; [Report]: Histogram::ToString and the lines of Stats::Report;
      [Progress]: what FinishedSingleOp writes to stderr.
    - [TestUtil]: testutil.cc and class RandomGenerator of bench.cc.
    - [Workload]: flags, Duration, PMKVWrapper and the workloads of Benchmark as
      programs over a state and an outcome; [WorkloadLogic]: weakest
      preconditions and the loops against the contract; [Fill], [Mixed],
      [WhileWriting]: the properties of the workloads; [FillThreads] and
      [ReadWriteThreads]: the fill and readwhilewriting in several threads, under
      every interleaving.
    - [Barrier]: RunBenchmark, ThreadBody and the polling of BGWriter as threads
      over a mutex and a condition variable; [RunThreads]: the barrier composed
      with the workloads, each a loop whose rounds interleave with those of the
      other threads; [ThreadRuns]: RunBenchmark with any number of threads as the
      outcomes its schedules have, and what the workloads leave and report;
      [RunSafety]: the workloads on a store of which only some keys are known and
      the program with any list of names; [WriterRuns]: how the writer and the
      readers of readwhilewriting come to their ends.
    - [PosixOS]: the system calls as a class with POSIX's laws, and a small
      system to run on; [PosixFile]: the file classes of env_posix.cc; [Env]:
      the interface env.h, the utilities of env.cc, EnvWrapper, ErrorEnv;
      [PosixEnv]: the operations of PosixEnv, the lock table, the limits;
      [FileLocks]: LockFile and UnlockFile in several processes over the locks
      of the kernel; [RandomAccess]: the life of a random-access file.
    - [Limiter], [Background]: class Limiter and the pair Schedule/BGThread, as
      threads.
    - [CommandLine]: main's flags; [MachineInfo]: TrimSpace and the header of a
      report, with what PrintEnvironment reads from /proc/cpuinfo; [Run]: Run with
      its header, Open, RunBenchmark, main; [Output]: the text of a whole
      run and how summarize.py reads it; [Summary]: the rest of that script and
      the reading of its file by the grader; [Usage]: the usage text.
    - [PmkvTests], [RecoveryTests]: test/basic_test.cc and test/recovery_test.cc,
      statement by statement over an implementation of pmkv.h; [Grading]: the
      scripts that run them (run_all.sh), turn their reports into files
      (parse_result.py) and collect these (part of Runner.py, lab.py).
    - [Logger]: PosixLogger::Logv; [LogFile]: NewLogger and Log over stdio, a
      class [Stdio] with its laws.
    - [Runs]: programs whose intermediate states matter; [PmemObj]: libpmemobj
      as a class with the laws of its manual (transactions, undo log, crashes),
      and a small library to run on; [PmemLogic]: proof rules for programs over
      it; [PoolExamples], [LinkedList]: the programs of example/.
    - [Port]: port_posix.h, port_posix.cc and mutexlock.h over the pthread calls;
      [Threads]: StartThread, Env::Default and the test helper of env_posix.cc;
      [AtomicPointer]: atomic_pointer.h as gcc compiles it for x86; [WeakMemory]:
      the choice the header makes by platform, and its four classes.

    ** How code is modelled

    An integer of a C type is a [Z], with conversions [u32], [u64], [i32], [i64]
    where the width matters, and signed overflow as an undefined outcome, the
    counters of [Stats] and the parser's count of digits included.  Memory
    is a list of bytes; reading or writing outside a block is undefined, and
    fresh memory holds arbitrary bytes ([junk]).  Exceptions, [exit], [abort]
    and undefined behaviour are constructors of [outcome]; a function that has no
    other way to fail than to leave its memory returns an [option] instead.
    bench/Makefile defines NDEBUG, so the assertions of bench/ are nothing; those
    of [Slice], [Status] and env_posix.cc are modelled for both builds
    ([assert_in]), and those of src/ and example/ are enabled.  One read has a
    value where C++ gives none: the constructor of [Stats] reads [start_] before
    it is set, and gets an arbitrary number ([junk_stats]), since every run of the
    program would otherwise be undefined.  What the header of a run depends on
    (/proc/cpuinfo, the date, the macros) is a record [MachineInfo.host].
    A thread's next
    action is a function of (or a relation on) the shared state; schedules are
    arbitrary, waits may end without a signal, and the bounds on schedules count
    these wake-ups.  The clock is an argument.

    A program on persistent memory is a [Run]: its outcome with the list of the
    states it passes, in any of which a crash may stop it.  A crash leaves what
    is durable and recovery applies the undo log ([PmemObj.recovers]); [rwp C m Q]
    says that [C] holds in every state on the way and [Q] at the end.  Atomic
    pointers are sequences of instructions; the compiler may exchange independent
    ones that no barrier separates, and the processor runs them with store
    buffers (x86-TSO); on the other platforms a machine performs any access that
    no fence, acquire load, release store or dependency holds back.  A test that
    kills a process is a relation: the child may leave any state between its
    calls, or whatever else [PmkvCrash] lets it leave.

    Components meet at interfaces: the benchmark is verified against
    [PmkvContract], which [Pmkv] discharges for src/pmemkv.c from the laws of
    libpmemkv, and the tests against it with [PmkvDurable] and [PmkvCrash]; the
    file layer against [PosixLaws], which [PosixOS.MemOS]
    satisfies, and the locks against [LockLaws]; the string utilities against [Env], which [PosixEnv.posix_env]
    and [Env.error_env] implement; the examples against [PmemObjLaws], which
    [PmemObj.MemPmem] satisfies; the mutexes against [PthreadLaws]; the log
    against [StdioLaws].

    ** What the theorems show

    - The store: src/pmemkv.c refines a finite map, call by call (C2); whatever
      implementation keeps the contract passes the tests, crashes included
      (C17, C19).
    - Persistent memory: the linked list survives a crash in any state of the
      program, and any number of runs and crashes (C3, C10); an example that
      allocates leaves the pool as it found it, and stops at its assertion exactly
      when the allocation fails (C33).
    - The program: [main] with any number of threads, from the command line to
      the lines it prints, under every schedule: a fill, a read and a delete,
      sequential or random, exactly (C1), and any list of benchmarks as far as the
      store lets them go, the header included, without overflow or undefined
      behaviour for flags and a machine that allow it, where reads
      find the keys that fills have left (C4); the list of names (C16) and the
      flags (C22).
    - The lab: the mean rate the grader gets is that of the rates the runs printed
      (C31), and every test has the result its report gives (C40).
    - The workloads: the mixed workload ends with its ratio, and finds its keys
      where they are (C29); the readers of readwhilewriting find their keys while
      the writer writes (C8), and it does not run on (C28).
    - Threads: the barrier is safe and ends within a bound on its actions (C5, C6),
      and so are the threads with their workloads (C7, C20), each bound growing by
      two with every wake-up without a signal; the background thread loses
      nothing (C11), a message passed through an atomic pointer arrives on every
      platform (C12), one default environment is made (C14), started threads run
      and free their blocks (C15), a scope holds its lock (C18), the limit is
      kept (C30).
    - Files: buffered writing, writing and reading back, random access, the log
      file (C9, C13, C26, C27); locks between processes, and how a second attempt
      loses one (C21, C32).
    - Data: the parsing and printing of numbers, the generator's full period,
      histograms and their text, the description of the machine (C23 to C25, C37
      to C39), what a status says (C34) and that status objects behave like values
      with blocks of their own (C35), the operations on slices (C36).

    Beside these stand theorems on single parts: absence of deadlock in the
    barrier, the writer of readwhilewriting on its own, that fill then read finds
    every key and fill then delete restores the store, the threads of a fill
    without the barrier, one thread from the command line on, the lock table of
    one process, the generator as multiplication, the generated keys, ErrorEnv,
    escaping, percentiles, durations, the counters of Stats, the branches of a
    mapped read, the order of slices, the milestones at which progress is shown,
    and that the usage text names the flags, defaults and
    benchmarks the program has.

    ** Fuel

    Loops that the code ends by a test on data take fuel, and running out of it
    is the undefined outcome, so every theorem that a function returns normally
    shows the fuel to be enough: [rw_loop] gets one round more than there are
    operations, [run_loop] one more than the length of the list of names, the
    retries of interrupted system calls the number of interruptions still to
    come, [WriteRaw] the bytes to write besides, [read_loop] one round more than
    there are bytes, and [RandomGenerator]'s loop the number of pieces that fill
    its megabyte; [scan] one round for each element of the list, [TrimSpace]'s
    loops one for each byte and [cpu_loop] one for each byte of the file.  A schedule of
    [RunBenchmark] with [n] threads of [r] rounds has at most
    [17 n + 14 + n (r + 2)] actions and two more for each wake-up without a
    signal; [run_threads_first], which makes no such wake-ups, is given that many
    and one more; [run_looking_first] gets the same for readwhilewriting.

    ** What is not modelled

    Memory reclamation, where it is not what a definition is about (as in [Status]
    and [Threads.StartThread]), the attributes of thread_annotations.h (compile-time
    checks, empty with gcc), declarations without code, the failure of [fork],
    what the signal handler and
    the progress lines of the crash tests print, the text of the tests' XML reports, and
    the parts of the scripts that start processes, load settings or use the
    network.  A mutex and a condition variable are primitives of
    the thread models, which do not go through [Port].  An infinite
    schedule is not an object of the machine of [RunThreads]: that fair ones come
    to the end is stated there as a bound on the turns beside the writer's rounds
    and the absence of a state in which only the writer can go on for ever; the
    machine of [ReadWriteThreads] has the fair schedules themselves. *)

From Stdlib Require Export ZArith Lia.
From stdpp Require Export prelude gmap list strings.

Declare Scope pmkv_scope.
Delimit Scope pmkv_scope with pmkv.
#[global] Open Scope pmkv_scope.

(** ** Machine integers

    A value of a C integer type is a [Z]; these functions are the conversions
    to the unsigned and to the two's-complement signed type of a width. *)
Definition u32 (z : Z) : Z := (z mod 2 ^ 32)%Z.

Definition u64 (z : Z) : Z := (z mod 2 ^ 64)%Z.

Definition i32 (z : Z) : Z := ((z + 2 ^ 31) mod 2 ^ 32 - 2 ^ 31)%Z.

Definition i64 (z : Z) : Z := ((z + 2 ^ 63) mod 2 ^ 64 - 2 ^ 63)%Z.

(** ** Bytes

    Memory is a list of bytes, each a [Z] in [0, 256). *)
Abbreviation bytes := (list Z).

Definition is_byte (b : Z) : Prop := (0 <= b < 256)%Z.

Definition zlen {A} (l : list A) : Z := Z.of_nat (length l).

(** The bytes of a string literal, without the terminating NUL. *)
Fixpoint str (s : string) : bytes :=
  match s with
  | EmptyString => []
  | String c s' => Z.of_N (Ascii.N_of_ascii c) :: str s'
  end.

Arguments str s : simpl never.

Notation "b! s" := (str s%string) (at level 1, s at level 0) : pmkv_scope.

(** Little-endian encoding on [n] bytes, the object representation of an
    unsigned integer on the targets of the build. *)
Fixpoint le_bytes (n : nat) (z : Z) : bytes :=
  match n with
  | O => []
  | S n' => (z mod 256)%Z :: le_bytes n' (z / 256)%Z
  end.

Fixpoint le_value (l : bytes) : Z :=
  match l with
  | [] => 0%Z
  | b :: l' => (b + 256 * le_value l')%Z
  end.

(** ** Memory blocks

    A block is the list of its bytes.  An access outside the block has no
    defined behaviour: it is [None]. *)
Definition mem_read (m : bytes) (off n : Z) : option bytes :=
  if ((0 <=? off) && (0 <=? n) && (off + n <=? zlen m))%Z
  then Some (take (Z.to_nat n) (drop (Z.to_nat off) m)) else None.

Definition mem_write (m : bytes) (off : Z) (src : bytes) : option bytes :=
  if ((0 <=? off) && (off + zlen src <=? zlen m))%Z
  then Some (take (Z.to_nat off) m ++ src
             ++ drop (Z.to_nat off + length src) m)
  else None.

(** [new char[n]]: a block of [n] bytes of indeterminate contents, given by
    the function [junk]. *)
Definition new_block (junk : nat -> Z) (n : Z) : bytes :=
  map junk (seq 0 (Z.to_nat n)).

(** ** Outcomes

    How a piece of C++ code ends: with a value, with behaviour the language
    leaves undefined, by [abort] (a failed [assert] too), by an exception that
    carries a message, or by [exit]. *)
Inductive outcome (A : Type) : Type :=
  | Normal (a : A)
  | Undefined
  | Aborted
  | Thrown (what : bytes)
  | Exited (code : Z).
Arguments Normal {A} a.
Arguments Undefined {A}.
Arguments Aborted {A}.
Arguments Thrown {A} what.
Arguments Exited {A} code.

#[export] Instance outcome_ret : MRet outcome := fun A a => Normal a.

#[export] Instance outcome_bind : MBind outcome := fun A B k x =>
  match x with
  | Normal a => k a
  | Undefined => Undefined
  | Aborted => Aborted
  | Thrown what => Thrown what
  | Exited code => Exited code
  end.

(** An access that may fall outside its block. *)
Definition defined {A} (o : option A) : outcome A :=
  match o with Some a => Normal a | None => Undefined end.

(** [assert] in a build without NDEBUG. *)
Definition assert_ (b : bool) : outcome unit := if b then Normal tt else Aborted.

(** [assert] in a function that has no other way to fail than to leave its
    memory: with NDEBUG it is nothing, and without it there is no result. *)
Definition assert_in (ndebug b : bool) : option unit := if ndebug || b then Some tt else None.

(** A result of [int] arithmetic: overflow is undefined. *)
Definition int_result (z : Z) : outcome Z :=
  if ((- 2 ^ 31 <=? z) && (z <? 2 ^ 31))%Z then Normal z else Undefined.

(** ... and of [int64_t] arithmetic. *)
Definition int64_result (z : Z) : outcome Z :=
  if ((- 2 ^ 63 <=? z) && (z <? 2 ^ 63))%Z then Normal z else Undefined.

(** ** Tactics and hint databases *)
Create HintDb pmkv.
Create Rewrite HintDb pmkv_rw.

Ltac zlen_simpl :=
  unfold zlen in *;
  repeat (rewrite ?length_app, ?length_take, ?length_drop, ?length_map,
            ?length_seq, ?length_replicate, ?length_cons, ?length_nil in *).

Ltac zlia := zlen_simpl; cbn [length] in *; lia.

(** Case analysis on every boolean comparison of integers in sight. *)
Ltac zcases :=
  repeat match goal with
  | |- context [(?a <=? ?b)%Z] => destruct (Z.leb_spec a b)
  | |- context [(?a <? ?b)%Z] => destruct (Z.ltb_spec a b)
  | |- context [(?a =? ?b)%Z] => destruct (Z.eqb_spec a b)
  end; cbn [andb orb negb].

Open Scope Z_scope.

(** ** Lemmas on machine integers *)
Lemma u32_range z : 0 <= u32 z < 2 ^ 32.
Proof. apply Z.mod_pos_bound. lia. Qed.

Lemma u64_range z : 0 <= u64 z < 2 ^ 64.
Proof. apply Z.mod_pos_bound. lia. Qed.

Lemma u32_id z : 0 <= z < 2 ^ 32 -> u32 z = z.
Proof. apply Z.mod_small. Qed.

Lemma u64_id z : 0 <= z < 2 ^ 64 -> u64 z = z.
Proof. apply Z.mod_small. Qed.

Lemma i32_id z : - 2 ^ 31 <= z < 2 ^ 31 -> i32 z = z.
Proof. intros. unfold i32. rewrite Z.mod_small; lia. Qed.

Lemma i64_id z : - 2 ^ 63 <= z < 2 ^ 63 -> i64 z = z.
Proof. intros. unfold i64. rewrite Z.mod_small; lia. Qed.

Lemma i32_range z : - 2 ^ 31 <= i32 z < 2 ^ 31.
Proof. unfold i32. pose proof (Z.mod_pos_bound (z + 2 ^ 31) (2 ^ 32)). lia. Qed.

Lemma int_result_ok z : - 2 ^ 31 <= z < 2 ^ 31 -> int_result z = Normal z.
Proof. intros. unfold int_result. zcases; lia || done. Qed.

Lemma int64_result_ok z : - 2 ^ 63 <= z < 2 ^ 63 -> int64_result z = Normal z.
Proof. intros. unfold int64_result. zcases; lia || done. Qed.

Lemma i64_range z : - 2 ^ 63 <= i64 z < 2 ^ 63.
Proof. unfold i64. pose proof (Z.mod_pos_bound (z + 2 ^ 63) (2 ^ 64)). lia. Qed.

#[export] Hint Resolve u32_range u64_range i32_range i64_range : pmkv.

(** ** Lemmas on lists of bytes *)
Lemma zlen_nonneg {A} (l : list A) : 0 <= zlen l.
Proof. unfold zlen. lia. Qed.

Lemma zlen_app {A} (l k : list A) : zlen (l ++ k) = zlen l + zlen k.
Proof. zlia. Qed.

Lemma zlen_nil {A} : zlen (@nil A) = 0.
Proof. reflexivity. Qed.

Lemma zlen_cons {A} (x : A) l : zlen (x :: l) = 1 + zlen l.
Proof. zlia. Qed.

Lemma zlen_zero {A} (l : list A) : zlen l = 0 -> l = [].
Proof. destruct l; [done|]. zlia. Qed.

Lemma to_nat_zlen {A} (l : list A) : Z.to_nat (zlen l) = length l.
Proof. unfold zlen. lia. Qed.

#[export] Hint Resolve zlen_nonneg : pmkv.
#[export] Hint Rewrite @zlen_app @zlen_nil @zlen_cons @to_nat_zlen : pmkv_rw.

Lemma str_is_byte s : Forall is_byte (str s).
Proof.
  induction s as [|c s IH]; simpl; constructor; [|done].
  pose proof (Ascii.N_ascii_bounded c). unfold is_byte. lia.
Qed.

Lemma length_le_bytes n z : length (le_bytes n z) = n.
Proof. revert z; induction n as [|n IH]; intros; simpl; [done|]. by rewrite IH. Qed.

Lemma zlen_le_bytes n z : zlen (le_bytes n z) = Z.of_nat n.
Proof. unfold zlen. by rewrite length_le_bytes. Qed.

Lemma le_bytes_is_byte n z : Forall is_byte (le_bytes n z).
Proof.
  revert z; induction n as [|n IH]; intros z; simpl; constructor; [|done].
  apply Z.mod_pos_bound. lia.
Qed.

Lemma le_value_le_bytes n z : le_value (le_bytes n z) = z mod 256 ^ Z.of_nat n.
Proof.
  revert z; induction n as [|n IH]; intros z; cbn [le_bytes le_value].
  { by rewrite Z.mod_1_r. }
  rewrite IH, Nat2Z.inj_succ, Z.pow_succ_r by lia.
  rewrite (Z.rem_mul_r z 256 (256 ^ Z.of_nat n)); lia.
Qed.

Lemma le_value_small n z :
  0 <= z < 256 ^ Z.of_nat n -> le_value (le_bytes n z) = z.
Proof. intros. rewrite le_value_le_bytes. by apply Z.mod_small. Qed.

Lemma le_bytes_eq_iff n x y :
  le_bytes n x = le_bytes n y <-> x mod 256 ^ Z.of_nat n = y mod 256 ^ Z.of_nat n.
Proof.
  split.
  - intros H. by rewrite <- !le_value_le_bytes, H.
  - revert x y; induction n as [|n IH]; intros x y; [done|].
    rewrite Nat2Z.inj_succ, Z.pow_succ_r by lia.
    rewrite !(Z.rem_mul_r _ 256 (256 ^ Z.of_nat n)) by lia.
    intros H. cbn [le_bytes].
    pose proof (Z.mod_pos_bound x 256). pose proof (Z.mod_pos_bound y 256).
    f_equal; [lia|]. apply IH. lia.
Qed.

(** ** Lemmas on memory blocks *)
Lemma length_new_block junk n : length (new_block junk n) = Z.to_nat n.
Proof. unfold new_block. by rewrite length_map, length_seq. Qed.

Lemma mem_read_all m : mem_read m 0 (zlen m) = Some m.
Proof.
  unfold mem_read. pose proof (zlen_nonneg m). zcases; try lia.
  by rewrite to_nat_zlen, drop_0, firstn_all.
Qed.

Lemma mem_read_middle (p q s : bytes) :
  mem_read (p ++ q ++ s) (zlen p) (zlen q) = Some q.
Proof.
  unfold mem_read. rewrite !zlen_app.
  pose proof (zlen_nonneg p). pose proof (zlen_nonneg q). pose proof (zlen_nonneg s).
  zcases; try lia. rewrite !to_nat_zlen, drop_app_length. by rewrite take_app_length.
Qed.

Lemma mem_read_prefix (q s : bytes) : mem_read (q ++ s) 0 (zlen q) = Some q.
Proof. apply (mem_read_middle []). Qed.

Lemma mem_write_middle (p q s src : bytes) :
  length src = length q ->
  mem_write (p ++ q ++ s) (zlen p) src = Some (p ++ src ++ s).
Proof.
  intros Hl. unfold mem_write.
  pose proof (zlen_nonneg p). pose proof (zlen_nonneg q). pose proof (zlen_nonneg s).
  assert (zlen src = zlen q) by zlia. rewrite !zlen_app. zcases; try lia.
  rewrite to_nat_zlen, take_app_length, Hl, <- drop_drop, drop_app_length,
    drop_app_length. done.
Qed.
