(* ===== verification/CLib.v ===== *)
(** * The parts of the C library the sources use

    [strlen], [memcmp], [isspace], and the conversions of [snprintf] that the
    sources ask for: [%llu], [%d] and [%02x].  Memory is a list of bytes; a
    read past the end of a block is [None]. *)

From S2P Require Import Prelude.

Local Open Scope Z_scope.

(** [strlen(s)]: the index of the first NUL; [None] when there is none. *)
Fixpoint strlen (s : bytes) : option Z :=
  match s with
  | [] => None
  | c :: s' => if c =? 0 then Some 0 else (Z.add 1) <$> strlen s'
  end.

(** The C string a [std::string] passes to the system with [c_str()]. *)
Fixpoint c_str (s : bytes) : bytes :=
  match s with
  | [] => []
  | c :: s' => if c =? 0 then [] else c :: c_str s'
  end.

(** The sign of the first difference: C promises no more of [memcmp]. *)
Fixpoint memcmp_sign (a b : bytes) : Z :=
  match a, b with
  | x :: a', y :: b' =>
      if x <? y then -1 else if y <? x then 1 else memcmp_sign a' b'
  | _, _ => 0
  end.

Definition memcmp (a b : bytes) (n : Z) : option Z :=
  x ← mem_read a 0 n;
  y ← mem_read b 0 n;
  Some (memcmp_sign x y).

(** [isspace] in the C locale: space, and the codes of \t \n \v \f \r. *)
Definition isspace (c : Z) : bool := (c =? 32) || ((9 <=? c) && (c <=? 13)).

Definition isdigit (c : Z) : bool := (48 <=? c) && (c <=? 57).

(** Decimal digits of a non-negative number below [10 ^ fuel], in front of
    [acc]. *)
Fixpoint dec_digits (fuel : nat) (n : Z) (acc : bytes) : bytes :=
  match fuel with
  | O => acc
  | S fuel' =>
      let acc' := (48 + n mod 10) :: acc in
      if n / 10 =? 0 then acc' else dec_digits fuel' (n / 10) acc'
  end.

(** [%llu]: [2 ^ 64 - 1] has 20 digits. *)
Definition format_llu (n : Z) : bytes := dec_digits 20 n [].

(** [%d] *)
Definition format_d (n : Z) : bytes :=
  if n <? 0 then 45 :: dec_digits 20 (- n) [] else dec_digits 20 n [].

Definition hex_digit (d : Z) : Z := if d <? 10 then 48 + d else 87 + d.

(** [%02x] of a value below 256 *)
Definition format_02x (n : Z) : bytes := [hex_digit (n / 16); hex_digit (n mod 16)].

(** The text [snprintf(buf, n, ...)] leaves in [buf], without the NUL. *)
Definition snprintf (n : Z) (text : bytes) : bytes := take (Z.to_nat (n - 1)) text.

(** A byte read as a (signed) [char]. *)
Definition schar (b : Z) : Z := if b <? 128 then b else b - 256.

(** The number a list of decimal digits denotes. *)
Definition dec_value_from (v : Z) (l : bytes) : Z :=
  fold_left (fun v c => v * 10 + (c - 48)) l v.

Definition dec_value (l : bytes) : Z := dec_value_from 0 l.

(** ** Lemmas *)
Lemma strlen_app_nul (s r : bytes) :
  Forall (fun c => c <> 0) s -> strlen (s ++ 0 :: r) = Some (zlen s).
Proof.
  induction 1 as [|c s Hc _ IH]; [done|].
  cbn [app strlen]. rewrite (proj2 (Z.eqb_neq c 0) Hc), IH. simpl.
  f_equal. zlia.
Qed.

Lemma strlen_bound s n : strlen s = Some n -> 0 <= n < zlen s.
Proof.
  revert n; induction s as [|c s IH]; intros n; cbn [strlen]; [done|].
  rewrite zlen_cons. pose proof (zlen_nonneg s). zcases.
  - intros [= <-]. lia.
  - destruct (strlen s) as [m|]; simpl; [|done]. intros [= <-].
    specialize (IH m eq_refl). lia.
Qed.

Lemma memcmp_sign_refl a : memcmp_sign a a = 0.
Proof. induction a; simpl; [done|]. zcases; lia || done. Qed.

Lemma memcmp_sign_eq a b :
  length a = length b -> memcmp_sign a b = 0 <-> a = b.
Proof.
  revert b; induction a as [|x a IH]; intros [|y b]; simpl; try done.
  intros [= Hl]. specialize (IH b Hl). zcases; try (split; [lia|intros [=]; lia]).
  assert (x = y) as -> by lia. rewrite IH. split; congruence.
Qed.

Lemma memcmp_sign_opp a b : memcmp_sign b a = - memcmp_sign a b.
Proof.
  revert b; induction a as [|x a IH]; intros [|y b]; simpl; try done.
  rewrite IH. zcases; lia.
Qed.

Lemma dec_value_from_app v a b :
  dec_value_from v (a ++ b) = dec_value_from (dec_value_from v a) b.
Proof. apply fold_left_app. Qed.

Lemma dec_digits_value fuel : forall n acc,
  0 <= n < 10 ^ Z.of_nat fuel -> (0 < fuel)%nat ->
  dec_value (dec_digits fuel n acc) = dec_value_from n acc.
Proof.
  induction fuel as [|fuel IH]; intros n acc Hn Hf; [lia|].
  cbn [dec_digits]. pose proof (Z.div_mod n 10). pose proof (Z.mod_pos_bound n 10).
  zcases.
  - unfold dec_value, dec_value_from. simpl. f_equal. lia.
  - rewrite Nat2Z.inj_succ, Z.pow_succ_r in Hn by lia.
    assert (0 < n / 10) by (pose proof (Z.div_pos n 10); lia).
    assert (fuel <> 0%nat) by (intros ->; simpl in Hn; lia).
    rewrite IH; [|lia..]. unfold dec_value_from. simpl. f_equal. lia.
Qed.

Lemma dec_digits_isdigit fuel : forall n acc,
  0 <= n -> Forall (fun c => isdigit c = true) acc ->
  Forall (fun c => isdigit c = true) (dec_digits fuel n acc).
Proof.
  induction fuel as [|fuel IH]; intros n acc Hn Ha; cbn [dec_digits]; [done|].
  assert (Hc : isdigit (48 + n mod 10) = true).
  { unfold isdigit. pose proof (Z.mod_pos_bound n 10). zcases; lia. }
  case_match; [by constructor|]. apply IH; [|by constructor].
  apply Z.div_pos; lia.
Qed.

Lemma dec_digits_length fuel : forall n acc,
  (length acc <= length (dec_digits fuel n acc) <= fuel + length acc)%nat.
Proof.
  induction fuel as [|fuel IH]; intros n acc; cbn [dec_digits]; [lia|].
  case_match; simpl; [lia|]. specialize (IH (n / 10) ((48 + n mod 10) :: acc)).
  simpl in IH. lia.
Qed.

Lemma dec_digits_nonempty fuel n acc :
  (0 < fuel)%nat -> (length acc < length (dec_digits fuel n acc))%nat.
Proof.
  destruct fuel as [|fuel]; [lia|]. intros _. cbn [dec_digits].
  case_match; simpl; [lia|].
  pose proof (dec_digits_length fuel (n / 10) ((48 + n mod 10) :: acc)) as H0.
  simpl in H0. lia.
Qed.

Lemma format_llu_value n : 0 <= n < 2 ^ 64 -> dec_value (format_llu n) = n.
Proof. intros. unfold format_llu. rewrite dec_digits_value; [done|lia..]. Qed.

Lemma format_llu_isdigit n :
  0 <= n -> Forall (fun c => isdigit c = true) (format_llu n).
Proof. intros. apply dec_digits_isdigit; [done|constructor]. Qed.

Lemma format_llu_length n : (0 < length (format_llu n) <= 20)%nat.
Proof.
  pose proof (dec_digits_length 20 n []). pose proof (dec_digits_nonempty 20 n []).
  unfold format_llu. cbn [length] in *. lia.
Qed.

Lemma snprintf_fits n text : zlen text < n -> snprintf n text = text.
Proof. intros H. apply take_ge. unfold zlen in H. lia. Qed.
