(* ===== verification/Slice.v ===== *)
(** * Slices (bench/include/leveldb/slice.h)

    A [Slice] is a pointer into some storage and a size.  The pointer is
    modelled by the bytes that can be read from it onwards, so that an
    operation whose size runs past the storage is visible: it is [None].  The two
    operations with an [assert] come for a build with NDEBUG and one without;
    bench/Makefile passes -DNDEBUG, so [index] and [remove_prefix] are the first. *)

From S2P Require Import Prelude CLib.

Local Open Scope Z_scope.

Module Slice.

Record Slice := mkSlice { data_ : bytes; size_ : Z }.

(** [Slice()]: the literal "" is a single NUL byte. *)
Definition Slice_empty : Slice := mkSlice [0] 0.

(** [Slice(const char* d, size_t n)] *)
Definition Slice_of_ptr (d : bytes) (n : Z) : Slice := mkSlice d n.

(** [Slice(const std::string& s)]: [s.data()] is NUL-terminated. *)
Definition Slice_of_string (s : bytes) : Slice := mkSlice (s ++ [0]) (zlen s).

(** [Slice(const char* s)] *)
Definition Slice_of_cstr (s : bytes) : option Slice :=
  n ← strlen s; Some (mkSlice s n).

Definition data (s : Slice) : bytes := data_ s.

Definition size (s : Slice) : Z := size_ s.

Definition empty (s : Slice) : bool := size_ s =? 0.

(** [operator[]] with a [size_t] argument *)
Definition index_in (ndebug : bool) (s : Slice) (n : Z) : option Z :=
  _ ← assert_in ndebug (n <? size_ s);
  data_ s !! Z.to_nat n.

Definition index : Slice -> Z -> option Z := index_in true.

Definition clear (s : Slice) : Slice := mkSlice [0] 0.

(** [data_ += n; size_ -= n] after [assert(n <= size())], for a [size_t]; to form
    a pointer past the storage is undefined; the size wraps around. *)
Definition remove_prefix_in (ndebug : bool) (s : Slice) (n : Z) : option Slice :=
  _ ← assert_in ndebug (n <=? size_ s);
  if n <=? zlen (data_ s)
  then Some (mkSlice (drop (Z.to_nat n) (data_ s)) (u64 (size_ s - n)))
  else None.

Definition remove_prefix : Slice -> Z -> option Slice := remove_prefix_in true.

Definition ToString (s : Slice) : option bytes := mem_read (data_ s) 0 (size_ s).

Definition starts_with (s x : Slice) : option bool :=
  if size_ x <=? size_ s
  then (fun r => r =? 0) <$> memcmp (data_ s) (data_ x) (size_ x)
  else Some false.

(** [operator==] *)
Definition slice_eq (x y : Slice) : option bool :=
  if size x =? size y
  then (fun r => r =? 0) <$> memcmp (data x) (data y) (size x)
  else Some false.

(** [operator!=] *)
Definition slice_neq (x y : Slice) : option bool := negb <$> slice_eq x y.

Definition compare (s b : Slice) : option Z :=
  let min_len := if size_ s <? size_ b then size_ s else size_ b in
  r ← memcmp (data_ s) (data_ b) min_len;
  Some (if r =? 0
        then if size_ s <? size_ b then -1
             else if size_ b <? size_ s then 1 else r
        else r).

(** ** Specification

    A slice denotes the string of its first [size_] bytes. *)
Definition view (s : Slice) : bytes := take (Z.to_nat (size_ s)) (data_ s).

Record slice_ok (s : Slice) : Prop := {
  ok_size : 0 <= size_ s <= zlen (data_ s);
  ok_width : size_ s < 2 ^ 64
}.

(** Lexicographic comparison of byte strings, a proper prefix being smaller. *)
Fixpoint lex_compare (a b : bytes) : comparison :=
  match a, b with
  | [], [] => Eq
  | [], _ => Lt
  | _, [] => Gt
  | x :: a', y :: b' =>
      match x ?= y with Eq => lex_compare a' b' | c => c end
  end.

Definition sign_of (c : comparison) : Z :=
  match c with Lt => -1 | Eq => 0 | Gt => 1 end.

(** ** Lemmas *)
Lemma length_view s : slice_ok s -> zlen (view s) = size_ s.
Proof. intros [H _]. unfold view. revert H. zlia. Qed.

Lemma index_lookup s n : index s n = data_ s !! Z.to_nat n.
Proof. reflexivity. Qed.

(** Within the size the two builds agree. *)
Lemma index_in_view ndebug s n :
  slice_ok s -> 0 <= n < size_ s -> index_in ndebug s n = view s !! Z.to_nat n.
Proof.
  intros Hs Hn. unfold index_in, assert_in. rewrite (proj2 (Z.ltb_lt _ _)), orb_true_r by lia.
  cbn [mbind option_bind]. unfold view. by rewrite lookup_take_lt by lia.
Qed.

Lemma remove_prefix_in_eq ndebug s n :
  slice_ok s -> 0 <= n <= size_ s ->
  remove_prefix_in ndebug s n = Some (mkSlice (drop (Z.to_nat n) (data_ s)) (size_ s - n)).
Proof.
  intros [Hs Hw] Hn. unfold remove_prefix_in, assert_in. rewrite (proj2 (Z.leb_le n (size_ s))), orb_true_r by lia.
  cbn [mbind option_bind]. rewrite (proj2 (Z.leb_le n _)), u64_id by lia. done.
Qed.

Lemma remove_prefix_view ndebug s n :
  slice_ok s -> 0 <= n <= size s ->
  exists s', remove_prefix_in ndebug s n = Some s' /\ slice_ok s' /\ view s' = drop (Z.to_nat n) (view s).
Proof.
  intros Hok Hn. rewrite remove_prefix_in_eq by done. eexists. split; [reflexivity|].
  destruct Hok as [Hs Hw]. unfold size in Hn. split; [split; cbn [size_ data_]; [|lia]|].
  - unfold zlen in *. rewrite length_drop. lia.
  - unfold view. cbn [size_ data_]. rewrite skipn_firstn_comm. f_equal. lia.
Qed.

(** With NDEBUG a prefix longer than the slice, but inside its storage, leaves a
    slice of nearly 2^64 bytes. *)
Lemma remove_prefix_beyond s n :
  slice_ok s -> size s < n <= zlen (data_ s) -> n < 2 ^ 64 ->
  exists s', remove_prefix s n = Some s' /\ size s' = 2 ^ 64 + size s - n /\
    (zlen (data_ s) < 2 ^ 63 -> ~ slice_ok s').
Proof.
  intros [Hs Hw] Hn Hn'. unfold size in *. unfold remove_prefix, remove_prefix_in, assert_in. cbn [orb mbind option_bind].
  rewrite (proj2 (Z.leb_le n _)) by lia. eexists. split; [reflexivity|]. cbn [size_].
  assert (E : u64 (size_ s - n) = 2 ^ 64 + size_ s - n).
  { unfold u64. rewrite <- (Z_mod_plus_full _ 1), Z.mod_small; lia. }
  rewrite E. split; [done|]. intros Hd [[_ Hle] _]. cbn [size_ data_] in Hle. unfold zlen in *. rewrite length_drop in Hle. lia.
Qed.

Lemma ToString_view s : slice_ok s -> ToString s = Some (view s).
Proof.
  intros [H _]. unfold ToString, mem_read, view. zcases; try lia.
  by rewrite drop_0.
Qed.

Lemma mem_read_view s n :
  slice_ok s -> 0 <= n <= size_ s ->
  mem_read (data_ s) 0 n = Some (take (Z.to_nat n) (view s)).
Proof.
  intros [H _] Hn. unfold mem_read, view. zcases; try lia.
  rewrite drop_0, take_take. do 2 f_equal. lia.
Qed.

Lemma memcmp_view s b n :
  slice_ok s -> slice_ok b -> 0 <= n <= size_ s -> n <= size_ b ->
  memcmp (data_ s) (data_ b) n =
  Some (memcmp_sign (take (Z.to_nat n) (view s)) (take (Z.to_nat n) (view b))).
Proof.
  intros Hs Hb Hn Hm. unfold memcmp.
  rewrite (mem_read_view s), (mem_read_view b) by (done || lia). done.
Qed.

(** The comparison of the common part, then of the lengths. *)
Lemma lex_compare_split a b :
  sign_of (lex_compare a b) =
  let n := Nat.min (length a) (length b) in
  let r := memcmp_sign (take n a) (take n b) in
  if r =? 0
  then if (length a <? length b)%nat then -1
       else if (length b <? length a)%nat then 1 else 0
  else r.
Proof.
  revert b; induction a as [|x a IH]; intros [|y b]; cbn -[Z.eqb]; try done.
  destruct (Z.compare_spec x y); subst.
  - rewrite Z.ltb_irrefl. apply IH.
  - rewrite (proj2 (Z.ltb_lt x y)) by done. done.
  - rewrite (proj2 (Z.ltb_ge x y)), (proj2 (Z.ltb_lt y x)) by lia. done.
Qed.

Lemma compare_lex s b :
  slice_ok s -> slice_ok b ->
  compare s b = Some (sign_of (lex_compare (view s) (view b))).
Proof.
  intros Hs Hb. unfold compare.
  pose proof (length_view s Hs) as Ls. pose proof (length_view b Hb) as Lb.
  pose proof (ok_size s Hs). pose proof (ok_size b Hb).
  rewrite memcmp_view by (try done; zcases; lia). cbn [mbind option_bind].
  rewrite lex_compare_split. cbv zeta. f_equal.
  replace (Z.to_nat (if size_ s <? size_ b then size_ s else size_ b))
    with (Nat.min (length (view s)) (length (view b)))
    by (unfold zlen in *; zcases; lia).
  case_match eqn:E; [|done]. apply Z.eqb_eq in E.
  unfold zlen in *.
  destruct (Nat.ltb_spec (length (view s)) (length (view b)));
  destruct (Nat.ltb_spec (length (view b)) (length (view s)));
    zcases; try lia; done.
Qed.

Lemma lex_compare_refl a : lex_compare a a = Eq.
Proof. induction a; simpl; [done|]. by rewrite Z.compare_refl. Qed.

Lemma lex_compare_eq a b : lex_compare a b = Eq <-> a = b.
Proof.
  split; [|intros ->; apply lex_compare_refl].
  revert b; induction a as [|x a IH]; intros [|y b]; simpl; try done.
  destruct (Z.compare_spec x y); intros; try done. f_equal; auto.
Qed.

Lemma lex_compare_opp a b : lex_compare b a = CompOpp (lex_compare a b).
Proof.
  revert b; induction a as [|x a IH]; intros [|y b]; simpl; try done.
  rewrite (Z.compare_antisym x y). destruct (x ?= y); simpl; auto.
Qed.

Lemma lex_compare_trans c a b d :
  lex_compare a b = c -> lex_compare b d = c -> lex_compare a d = c.
Proof.
  revert b d; induction a as [|x a IH]; intros [|y b] [|z d]; simpl; try congruence.
  destruct (Z.compare_spec x y), (Z.compare_spec y z), (Z.compare_spec x z);
    subst; intros; try congruence; try lia; eauto.
Qed.

Lemma slice_eq_view x y :
  slice_ok x -> slice_ok y ->
  slice_eq x y = Some (bool_decide (view x = view y)).
Proof.
  intros Hx Hy. unfold slice_eq, size, data.
  pose proof (length_view x Hx) as Lx. pose proof (length_view y Hy) as Ly.
  pose proof (ok_size x Hx). pose proof (ok_size y Hy).
  destruct (Z.eqb_spec (size_ x) (size_ y)) as [E|E].
  - rewrite memcmp_view by (done || lia). simpl. f_equal.
    assert (length (view x) = length (view y)) as Hl by (unfold zlen in *; lia).
    rewrite !take_ge by (unfold zlen in *; lia).
    destruct (Z.eqb_spec (memcmp_sign (view x) (view y)) 0) as [Hm|Hm];
      symmetry; [apply bool_decide_true|apply bool_decide_false];
      by rewrite <- memcmp_sign_eq.
  - f_equal. symmetry. apply bool_decide_false. intros Hv. rewrite Hv in Lx. lia.
Qed.

Lemma slice_neq_view x y :
  slice_ok x -> slice_ok y -> slice_neq x y = Some (bool_decide (view x <> view y)).
Proof. intros Hx Hy. unfold slice_neq. rewrite slice_eq_view by done. simpl. f_equal. by rewrite bool_decide_not. Qed.

Lemma starts_with_view s x :
  slice_ok s -> slice_ok x ->
  starts_with s x = Some (bool_decide (view x `prefix_of` view s)).
Proof.
  intros Hs Hx. unfold starts_with.
  pose proof (length_view s Hs) as Ls. pose proof (length_view x Hx) as Lx.
  pose proof (ok_size s Hs). pose proof (ok_size x Hx). unfold zlen in *.
  destruct (Z.leb_spec (size_ x) (size_ s)) as [E|E].
  - rewrite memcmp_view by (done || lia). simpl. f_equal.
    rewrite (take_ge (view x)) by lia.
    assert (length (take (Z.to_nat (size_ x)) (view s)) = length (view x)) as Hl
      by (rewrite length_take; lia).
    destruct (Z.eqb_spec (memcmp_sign (take (Z.to_nat (size_ x)) (view s)) (view x)) 0)
      as [Hm|Hm]; symmetry; rewrite memcmp_sign_eq in Hm by done;
      [apply bool_decide_true|apply bool_decide_false].
    + rewrite <- Hm. apply prefix_take.
    + intros [k Hk]. apply Hm. rewrite Hk, take_app_le, take_ge by lia. done.
  - f_equal. symmetry. apply bool_decide_false. intros Hp%prefix_length. lia.
Qed.

Lemma Slice_of_string_ok s : zlen s < 2 ^ 64 -> slice_ok (Slice_of_string s).
Proof. pose proof (zlen_nonneg s). split; simpl; [rewrite zlen_app|]; simpl; zlia. Qed.

Lemma view_of_string s : view (Slice_of_string s) = s.
Proof. unfold view, Slice_of_string; simpl. by rewrite to_nat_zlen, take_app_length. Qed.

Lemma view_empty : view Slice_empty = [].
Proof. reflexivity. Qed.

Lemma Slice_empty_ok : slice_ok Slice_empty.
Proof. by split. Qed.

#[export] Hint Resolve Slice_of_string_ok Slice_empty_ok ok_size ok_width : pmkv.

(** ** Properties *)

(** On slices whose size lies within their storage, [compare] returns a
    result, its sign is that of the lexicographic comparison of the two
    strings, and this makes it a total order: zero exactly on equal strings,
    antisymmetric and transitive. *)
Theorem compare_total_order a b c (Ha : slice_ok a) (Hb : slice_ok b) (Hc : slice_ok c) :
  compare a b = Some (sign_of (lex_compare (view a) (view b))) /\
  (compare a b = Some 0 <-> view a = view b) /\
  compare b a = Z.opp <$> compare a b /\
  (compare a b = Some (-1) -> compare b c = Some (-1) -> compare a c = Some (-1)).
Proof.
  rewrite !compare_lex by done. split_and!.
  - done.
  - rewrite <- lex_compare_eq. destruct (lex_compare _ _); simpl; split; congruence.
  - rewrite (lex_compare_opp (view a)). by destruct (lex_compare _ _).
  - intros H1 H2.
    rewrite (lex_compare_trans Lt (view a) (view b) (view c)); [done|..].
    + by destruct (lex_compare (view a) (view b)).
    + by destruct (lex_compare (view b) (view c)).
Qed.

Lemma compare_total_order_witness :
  compare (Slice_of_string b!"abc") (Slice_of_string b!"abd") = Some (-1) /\
  compare (Slice_of_string b!"abd") (Slice_of_string b!"abc") = Some 1.
Proof.
  destruct (compare_total_order (Slice_of_string b!"abc") (Slice_of_string b!"abd")
    (Slice_of_string b!"b")) as [H [_ [H' _]]];
    [apply Slice_of_string_ok; reflexivity..|].
  split; [exact H|rewrite H', H; reflexivity].
Defined.

(** [starts_with], [==] and [!=] never read outside the storage of slices
    whose size lies within it, and decide the prefix relation and the equality
    of the two strings. *)
Theorem slice_predicates_correct x y (Hx : slice_ok x) (Hy : slice_ok y) :
  starts_with x y = Some (bool_decide (view y `prefix_of` view x)) /\
  slice_eq x y = Some (bool_decide (view x = view y)) /\
  slice_neq x y = Some (bool_decide (view x <> view y)).
Proof.
  split_and!; [by apply starts_with_view|by apply slice_eq_view|by apply slice_neq_view].
Qed.

Lemma slice_predicates_correct_witness :
  starts_with (Slice_of_string b!"--benchmarks=x") (Slice_of_string b!"--benchmarks=")
    = Some true.
Proof.
  destruct (slice_predicates_correct (Slice_of_string b!"--benchmarks=x")
    (Slice_of_string b!"--benchmarks=")) as [H _];
    [apply Slice_of_string_ok; reflexivity..|exact H].
Defined.

End Slice.
