(* ===== verification/Status.v ===== *)
(** * Status values (bench/include/leveldb/status.h, bench/util/status.cc)

    A [Status] owns a block of memory, NULL for success, whose layout is the
    private format of the class: four bytes of message length, one byte of
    code, the message.  The constructor, the copy and the accessors work on
    that block byte by byte.

    The other files use a [Status] as the value that its block is.  Who owns
    which block, and when it is deleted, is the matter of the second half of this
    file: objects with pointers into a heap, where [operator=] deletes what the
    target had, and a block that has been deleted cannot be read. *)

From S2P Require Import Prelude CLib Slice.

Local Open Scope Z_scope.

Module Status.

Inductive Code := kOk | kNotFound | kCorruption | kNotSupported | kInvalidArgument | kIOError.

#[export] Instance Code_eq_dec : EqDecision Code.
Proof. solve_decision. Defined.

Definition code_value (c : Code) : Z :=
  match c with
  | kOk => 0 | kNotFound => 1 | kCorruption => 2
  | kNotSupported => 3 | kInvalidArgument => 4 | kIOError => 5
  end.

Record Status := mkStatus { state_ : option bytes }.

(** [Status()] and [Status::OK()] *)
Definition OK : Status := mkStatus None.

(** [Status::Status(Code code, const Slice& msg, const Slice& msg2)]; [junk]
    is the contents of freshly allocated memory, [ndebug] whether the build
    leaves [assert(code != kOk)] out. *)
Definition make_in (ndebug : bool) (junk : nat -> Z) (code : Code) (msg msg2 : Slice.Slice) : option Status :=
  _ ← assert_in ndebug (negb (code_value code =? code_value kOk));
  let len1 := u32 (Slice.size msg) in
  let len2 := u32 (Slice.size msg2) in
  let size := u32 (len1 + (if len2 =? 0 then 0 else u32 (2 + len2))) in
  let result := new_block junk (u32 (size + 5)) in
  result ← mem_write result 0 (le_bytes 4 size);
  result ← mem_write result 4 [code_value code];
  d1 ← mem_read (Slice.data msg) 0 len1;
  result ← mem_write result 5 d1;
  if len2 =? 0 then Some (mkStatus (Some result))
  else
    result ← mem_write result (u32 (5 + len1)) [58];
    result ← mem_write result (u32 (6 + len1)) [32];
    d2 ← mem_read (Slice.data msg2) 0 len2;
    result ← mem_write result (7 + len1) d2;
    Some (mkStatus (Some result)).

(** bench/Makefile passes -DNDEBUG *)
Definition make : (nat -> Z) -> Code -> Slice.Slice -> Slice.Slice -> option Status := make_in true.

Definition NotFound junk msg msg2 := make junk kNotFound msg msg2.
Definition Corruption junk msg msg2 := make junk kCorruption msg msg2.
Definition NotSupported junk msg msg2 := make junk kNotSupported msg msg2.
Definition InvalidArgument junk msg msg2 := make junk kInvalidArgument msg msg2.
Definition IOError junk msg msg2 := make junk kIOError msg msg2.

Definition ok (s : Status) : bool :=
  match state_ s with None => true | Some _ => false end.

(** [code()]: the byte is a [char] read back as an enumerator. *)
Definition code (s : Status) : option Z :=
  match state_ s with
  | None => Some (code_value kOk)
  | Some st => st !! 4%nat
  end.

Definition is_code (c : Code) (s : Status) : option bool :=
  (fun v => v =? code_value c) <$> code s.

Definition IsNotFound := is_code kNotFound.
Definition IsCorruption := is_code kCorruption.
Definition IsIOError := is_code kIOError.
Definition IsNotSupportedError := is_code kNotSupported.
Definition IsInvalidArgument := is_code kInvalidArgument.

(** [Status::CopyState] *)
Definition CopyState (junk : nat -> Z) (state : bytes) : option bytes :=
  sz ← mem_read state 0 4;
  let size := le_value sz in
  let result := new_block junk (u32 (size + 5)) in
  src ← mem_read state 0 (u32 (size + 5));
  mem_write result 0 src.

(** [Status(const Status& s)] *)
Definition copy (junk : nat -> Z) (s : Status) : option Status :=
  match state_ s with
  | None => Some (mkStatus None)
  | Some st => (fun r => mkStatus (Some r)) <$> CopyState junk st
  end.

Definition type_name (c : Z) : bytes :=
  if c =? code_value kOk then b!"OK"
  else if c =? code_value kNotFound then b!"NotFound: "
  else if c =? code_value kCorruption then b!"Corruption: "
  else if c =? code_value kNotSupported then b!"Not implemented: "
  else if c =? code_value kInvalidArgument then b!"Invalid argument: "
  else if c =? code_value kIOError then b!"IO error: "
  else b!"Unknown code(" ++ format_d c ++ b!"): ".

Definition ToString (s : Status) : option bytes :=
  match state_ s with
  | None => Some b!"OK"
  | Some st =>
      c ← code s;
      l ← mem_read st 0 4;
      let length := le_value l in
      msg ← mem_read st 5 length;
      Some (type_name c ++ msg)
  end.

(** ** Specification *)

(** The text of an error: the two messages joined by ": ". *)
Definition message (m1 m2 : bytes) : bytes :=
  m1 ++ match m2 with [] => [] | _ => [58; 32] ++ m2 end.

(** The block of an error with code [c] and text [m]. *)
Definition layout (c : Z) (m : bytes) : bytes := le_bytes 4 (zlen m) ++ [c] ++ m.

(** The status the constructor makes of a code and two messages. *)
Definition error (c : Code) (m1 m2 : bytes) : Status :=
  mkStatus (Some (layout (code_value c) (message m1 m2))).

(** The message fits the 32-bit length field with its five bytes of header. *)
Definition fits (m : bytes) : Prop := zlen m + 5 < 2 ^ 32.

(** What a status is made of: success, or a well-formed block. *)
Definition status_ok (s : Status) : Prop :=
  match state_ s with
  | None => True
  | Some st => exists c m, st = layout c m /\ fits m
  end.

(** ** Lemmas *)
Lemma length_message m1 m2 :
  zlen (message m1 m2) = zlen m1 + (if zlen m2 =? 0 then 0 else 2 + zlen m2).
Proof.
  unfold message. destruct m2 as [|x m2]; rewrite !zlen_app.
  - done.
  - pose proof (zlen_nonneg m2). rewrite !zlen_cons, zlen_nil.
    destruct (Z.eqb_spec (1 + zlen m2) 0); lia.
Qed.

Lemma layout_length c m : zlen (layout c m) = zlen m + 5.
Proof. unfold layout. rewrite !zlen_app, zlen_le_bytes, zlen_cons, zlen_nil. lia. Qed.

Lemma layout_code c m : layout c m !! 4%nat = Some c.
Proof. reflexivity. Qed.

Lemma layout_head c m :
  fits m -> mem_read (layout c m) 0 4 = Some (le_bytes 4 (zlen m)) /\
            le_value (le_bytes 4 (zlen m)) = zlen m.
Proof.
  intros Hf. unfold fits in Hf. split.
  - apply (mem_read_prefix (le_bytes 4 (zlen m))).
  - apply le_value_small. pose proof (zlen_nonneg m). lia.
Qed.

Lemma layout_message c m : mem_read (layout c m) 5 (zlen m) = Some m.
Proof.
  unfold layout. rewrite app_assoc.
  rewrite <- (app_nil_r m) at 2. apply (mem_read_middle (le_bytes 4 (zlen m) ++ [c]) m []).
Qed.

Lemma block_split (l : bytes) n :
  0 <= n <= zlen l -> exists p q, l = p ++ q /\ zlen p = n.
Proof.
  intros H. exists (take (Z.to_nat n) l), (drop (Z.to_nat n) l).
  rewrite take_drop. split; [done|]. zlia.
Qed.

(** Filling a block piece by piece, from left to right. *)
Lemma mem_write_next (d r src : bytes) off :
  off = zlen d -> zlen src <= zlen r ->
  exists r', mem_write (d ++ r) off src = Some ((d ++ src) ++ r') /\
             zlen r' = zlen r - zlen src.
Proof.
  intros -> H. destruct (block_split r (zlen src)) as (p & q & -> & Hp);
    [pose proof (zlen_nonneg src); lia|].
  exists q. rewrite mem_write_middle by zlia. rewrite app_assoc, zlen_app.
  split; [done|lia].
Qed.

Ltac fill_next :=
  match goal with
  | |- context [mem_write (?d ++ ?r) ?off ?src] =>
      let r' := fresh "r" in let E := fresh "E" in let L := fresh "L" in
      destruct (mem_write_next d r src off) as (r' & E & L);
      [rewrite ?zlen_le_bytes; autorewrite with pmkv_rw; rewrite ?zlen_le_bytes; lia
      |rewrite ?zlen_le_bytes; autorewrite with pmkv_rw; rewrite ?zlen_le_bytes; lia
      |rewrite E; clear E; cbn [mbind option_bind];
       rewrite ?zlen_le_bytes in L; autorewrite with pmkv_rw in L]
  end.

(** The constructor on the bytes of its two messages. *)
Lemma fill_layout (r v1 v2 : bytes) c :
  zlen r = zlen (message v1 v2) + 5 -> fits (message v1 v2) ->
  (result ← mem_write r 0 (le_bytes 4 (zlen (message v1 v2)));
   result ← mem_write result 4 [c];
   result ← mem_write result 5 v1;
   if zlen v2 =? 0 then Some (mkStatus (Some result))
   else
     result ← mem_write result (u32 (5 + zlen v1)) [58];
     result ← mem_write result (u32 (6 + zlen v1)) [32];
     result ← mem_write result (7 + zlen v1) v2;
     Some (mkStatus (Some result))) =
  Some (mkStatus (Some (layout c (message v1 v2)))).
Proof.
  intros Hn Hf. unfold fits in Hf. pose proof (length_message v1 v2) as Hm.
  pose proof (zlen_nonneg v1). pose proof (zlen_nonneg v2).
  change r with ([] ++ r). revert Hm. destruct (Z.eqb_spec (zlen v2) 0) as [E2|E2]; intros Hm.
  - apply zlen_zero in E2 as ->.
    do 3 fill_next. rewrite (zlen_zero r2) by lia.
    unfold layout, message. by rewrite !app_nil_r, <- !app_assoc.
  - rewrite (u32_id (5 + zlen v1)), (u32_id (6 + zlen v1)) by lia. do 6 fill_next.
    rewrite (zlen_zero r5) by lia.
    unfold layout, message. destruct v2; [done|].
    by rewrite !app_nil_r, <- !app_assoc.
Qed.

Lemma make_layout ndebug junk c msg msg2 :
  (ndebug = true \/ c <> kOk) -> Slice.slice_ok msg -> Slice.slice_ok msg2 ->
  fits (message (Slice.view msg) (Slice.view msg2)) ->
  make_in ndebug junk c msg msg2 =
  Some (mkStatus (Some (layout (code_value c)
                          (message (Slice.view msg) (Slice.view msg2))))).
Proof.
  intros Hc H1 H2 Hf. rewrite <- (fill_layout
    (new_block junk (zlen (message (Slice.view msg) (Slice.view msg2)) + 5))); [|unfold zlen at 1;
    rewrite length_new_block; pose proof (zlen_nonneg (message (Slice.view msg) (Slice.view msg2))); lia|done].
  unfold fits in Hf. pose proof (length_message (Slice.view msg) (Slice.view msg2)) as Hm.
  pose proof (Slice.length_view msg H1) as L1. pose proof (Slice.length_view msg2 H2) as L2.
  pose proof (zlen_nonneg (Slice.view msg)). pose proof (zlen_nonneg (Slice.view msg2)).
  unfold make_in, Slice.size, Slice.data.
  assert (Ha : assert_in ndebug (negb (code_value c =? code_value kOk)) = Some tt)
    by (unfold assert_in; destruct Hc as [-> |Hc]; [done|destruct c; try done; by rewrite orb_true_r]).
  rewrite Ha. cbn [mbind option_bind].
  assert (zlen (Slice.view msg) < 2 ^ 32 /\ zlen (Slice.view msg2) + 2 < 2 ^ 32) as [B1 B2].
  { revert Hm. destruct (Z.eqb_spec (zlen (Slice.view msg2)) 0); lia. }
  rewrite (u32_id (Slice.size_ msg)), (u32_id (Slice.size_ msg2)) by lia.
  rewrite (Slice.mem_read_view msg), (Slice.mem_read_view msg2) by (done || lia).
  rewrite !take_ge by (unfold zlen in *; lia).
  rewrite <- L1, <- L2.
  replace (u32 (zlen (Slice.view msg) + _)) with (zlen (message (Slice.view msg) (Slice.view msg2))).
  - rewrite (u32_id (zlen (message _ _) + 5)); [done|].
    pose proof (zlen_nonneg (message (Slice.view msg) (Slice.view msg2))). lia.
  - rewrite (u32_id (2 + _)), <- Hm by lia. symmetry. apply u32_id.
    pose proof (zlen_nonneg (message (Slice.view msg) (Slice.view msg2))). lia.
Qed.

Lemma CopyState_id junk c m : fits m -> CopyState junk (layout c m) = Some (layout c m).
Proof.
  intros Hf. destruct (layout_head c m Hf) as [Hr Hv]. unfold fits in Hf.
  pose proof (zlen_nonneg m). unfold CopyState. rewrite Hr. cbn [mbind option_bind].
  rewrite Hv, u32_id by lia. rewrite <- (layout_length c m), mem_read_all.
  cbn [mbind option_bind].
  pose proof (mem_write_middle [] (new_block junk (zlen (layout c m))) [] (layout c m))
    as Hw.
  rewrite !app_nil_r in Hw. apply Hw. by rewrite length_new_block, to_nat_zlen.
Qed.

Lemma copy_id junk s : status_ok s -> copy junk s = Some s.
Proof.
  destruct s as [[st|]]; unfold status_ok, copy; simpl; [|done].
  intros (c & m & -> & Hf). by rewrite CopyState_id.
Qed.

Lemma ToString_layout c m :
  fits m -> ToString (mkStatus (Some (layout c m))) = Some (type_name c ++ m).
Proof.
  intros Hf. destruct (layout_head c m Hf) as [Hr Hv].
  unfold ToString, code. cbn [state_]. rewrite layout_code. cbn [mbind option_bind].
  rewrite Hr. cbn [mbind option_bind]. by rewrite Hv, layout_message.
Qed.

(** ** Objects and their blocks *)

(** The live blocks by address. *)
Abbreviation heap := (gmap Z bytes).

(** A [Status] object by the pointer [state_]; NULL is [None]. *)
Abbreviation object := (option Z).

Section objects.
(** where [new char[]] puts the next block *)
Context (new_addr : heap -> Z).

Definition h_new (block : bytes) (h : heap) : Z * heap := (new_addr h, <[new_addr h := block]> h).

(** [delete[] state_]: nothing for NULL, undefined for what is not a live block *)
Definition h_delete (p : object) (h : heap) : option heap :=
  match p with
  | None => Some h
  | Some a => _ ← h !! a; Some (delete a h)
  end.

(** [CopyState(s.state_)], which reads a live block and makes another *)
Definition h_CopyState (junk : nat -> Z) (a : Z) (h : heap) : option (Z * heap) :=
  state ← h !! a;
  result ← CopyState junk state;
  Some (h_new result h).

(** [(s.state_ == NULL) ? NULL : CopyState(s.state_)], the copy constructor *)
Definition h_copy (junk : nat -> Z) (s : object) (h : heap) : option (object * heap) :=
  match s with
  | None => Some (None, h)
  | Some a => '(b, h) ← h_CopyState junk a h; Some (Some b, h)
  end.

(** the constructor of an error *)
Definition h_make (ndebug : bool) (junk : nat -> Z) (code : Code) (msg msg2 : Slice.Slice) (h : heap)
  : option (object * heap) :=
  s ← make_in ndebug junk code msg msg2;
  block ← state_ s;
  let '(a, h) := h_new block h in
  Some (Some a, h).

(** [operator=] *)
Definition assign (junk : nat -> Z) (this s : object) (h : heap) : option (object * heap) :=
  if negb (bool_decide (this = s)) then
    h ← h_delete this h;
    h_copy junk s h
  else Some (this, h).

(** [~Status()] *)
Definition destroy (s : object) (h : heap) : option heap := h_delete s h.

(** *** Statements of a client on its variables *)
Inductive statement :=
  | SOk (x : nat)                                                (* Status x; *)
  | SError (x : nat) (code : Code) (msg msg2 : Slice.Slice)      (* Status x(code, msg, msg2); *)
  | SCopy (x y : nat)                                            (* Status x(y); *)
  | SAssign (x y : nat)                                          (* x = y; *)
  | SDestroy (x : nat).                                          (* the end of x's life *)

Record store := mkStore { vars : gmap nat object; blocks : heap }.

Definition set_var (x : nat) (r : object * heap) (s : store) : store := mkStore (<[x := fst r]> (vars s)) (snd r).

Definition exec (ndebug : bool) (junk : nat -> Z) (c : statement) (s : store) : option store :=
  match c with
  | SOk x => Some (set_var x (None, blocks s) s)
  | SError x code msg msg2 => r ← h_make ndebug junk code msg msg2 (blocks s); Some (set_var x r s)
  | SCopy x y => q ← vars s !! y; r ← h_copy junk q (blocks s); Some (set_var x r s)
  | SAssign x y => p ← vars s !! x; q ← vars s !! y; r ← assign junk p q (blocks s); Some (set_var x r s)
  | SDestroy x => p ← vars s !! x; h ← destroy p (blocks s); Some (mkStore (delete x (vars s)) h)
  end.

Fixpoint exec_all (ndebug : bool) (junk : nat -> nat -> Z) (cs : list statement) (s : store) : option store :=
  match cs with
  | [] => Some s
  | c :: cs' => s ← exec ndebug (junk (length cs')) c s; exec_all ndebug junk cs' s
  end.

(** *** What they mean for the values

    A statement is allowed when it makes a new variable of an error that has a
    code and fits its block, or uses variables that live. *)
Definition meaning (c : statement) (m : gmap nat Status) : option (gmap nat Status) :=
  match c with
  | SOk x => if decide (m !! x = None) then Some (<[x := OK]> m) else None
  | SError x code msg msg2 =>
      if decide (m !! x = None /\ code <> kOk)
      then Some (<[x := error code (Slice.view msg) (Slice.view msg2)]> m) else None
  | SCopy x y => v ← m !! y; if decide (m !! x = None) then Some (<[x := v]> m) else None
  | SAssign x y => _ ← m !! x; v ← m !! y; Some (<[x := v]> m)
  | SDestroy x => _ ← m !! x; Some (delete x m)
  end.

Fixpoint meaning_all (cs : list statement) (m : gmap nat Status) : option (gmap nat Status) :=
  match cs with [] => Some m | c :: cs' => m ← meaning c m; meaning_all cs' m end.

Definition messages_ok (c : statement) : Prop :=
  match c with
  | SError _ _ msg msg2 =>
      Slice.slice_ok msg /\ Slice.slice_ok msg2 /\ fits (message (Slice.view msg) (Slice.view msg2))
  | _ => True
  end.

(** The value of an object. *)
Definition value (h : heap) (p : object) : option Status :=
  match p with None => Some OK | Some a => (fun b => mkStatus (Some b)) <$> h !! a end.

(** The variables have their values, each in a block of its own, and there are
    no other blocks. *)
Record holds (s : store) (m : gmap nat Status) : Prop := {
  h_values x p : vars s !! x = Some p -> exists v, m !! x = Some v /\ value (blocks s) p = Some v /\ status_ok v;
  h_live x v : m !! x = Some v -> is_Some (vars s !! x);
  h_own x y a : vars s !! x = Some (Some a) -> vars s !! y = Some (Some a) -> x = y;
  h_all a b : blocks s !! a = Some b -> exists x, vars s !! x = Some (Some a)
}.

(** [new] does not give out what is in use. *)
Context (Hnew : forall h, h !! new_addr h = None).

Lemma value_insert h a b p v : h !! a = None -> value h p = Some v -> value (<[a := b]> h) p = Some v.
Proof using.
  intros Ha. destruct p as [a'|]; cbn [value]; [|done]. intros (b' & Hb & ->)%fmap_Some.
  rewrite lookup_insert_ne by congruence. by rewrite Hb.
Qed.

Lemma value_delete h a p v : p <> Some a -> value h p = Some v -> value (delete a h) p = Some v.
Proof using. destruct p as [a'|]; cbn [value]; [|done]. intros Hne. by rewrite lookup_delete_ne by congruence. Qed.

(** A variable gets a pointer that is NULL or to a block nobody else has. *)
Lemma holds_bind s m x p h v :
  holds s m -> status_ok v -> value h p = Some v ->
  (forall y q w, y <> x -> vars s !! y = Some q -> value (blocks s) q = Some w -> value h q = Some w) ->
  (forall y a, y <> x -> vars s !! y = Some (Some a) -> p <> Some a) ->
  (forall a b, h !! a = Some b -> p = Some a \/ exists y, y <> x /\ vars s !! y = Some (Some a)) ->
  holds (set_var x (p, h) s) (<[x := v]> m).
Proof using.
  intros [H1 H2 H3 H4] Hv Hp Hkeep Hown Hall. split; cbn [set_var vars blocks fst snd].
  - intros y q [[<- <-]|[Hne Hq]]%lookup_insert_Some.
    + exists v. by rewrite lookup_insert_eq.
    + destruct (H1 y q Hq) as (w & Hm & Hw & Hok). exists w. rewrite lookup_insert_ne by done. eauto.
  - intros y w [[<- _]|[Hne Hy]]%lookup_insert_Some; [rewrite lookup_insert_eq; eauto|].
    rewrite lookup_insert_ne by done. eauto.
  - intros y z a [[<- Ey]|[Hy Ey]]%lookup_insert_Some [[<- Ez]|[Hz Ez]]%lookup_insert_Some; [done|..|eauto].
    + destruct (Hown z a); auto.
    + destruct (Hown y a); auto.
  - intros a b Hab. destruct (Hall a b Hab) as [->|(y & Hy & Ey)]; [exists x; by rewrite lookup_insert_eq|].
    exists y. by rewrite lookup_insert_ne by done.
Qed.

(** ... a new variable a block that has just been made. *)
Lemma holds_new s m x b :
  holds s m -> m !! x = None -> status_ok (mkStatus (Some b)) ->
  holds (set_var x (Some (new_addr (blocks s)), <[new_addr (blocks s) := b]> (blocks s)) s)
    (<[x := mkStatus (Some b)]> m).
Proof using Hnew.
  intros Hs Hx Hb. pose proof Hs as [H1 H2 H3 H4]. pose proof (Hnew (blocks s)) as Hn.
  apply holds_bind; [done|done|cbn; by rewrite lookup_insert_eq|..].
  - intros y q w _ _. by apply value_insert.
  - intros y a _ Hy [= <-]. destruct (H1 y _ Hy) as (w & _ & Hw & _). cbn in Hw. by rewrite Hn in Hw.
  - intros a b' [[<- _]|[_ Ha]]%lookup_insert_Some; [by left|right]. destruct (H4 a b' Ha) as [y Hy].
    exists y. split; [|done]. intros ->. destruct (H1 x _ Hy) as (w & Hw & _). congruence.
Qed.

(** ... and a new variable NULL. *)
Lemma holds_null s m x : holds s m -> m !! x = None -> holds (set_var x (None, blocks s) s) (<[x := OK]> m).
Proof using.
  intros Hs Hx. pose proof Hs as [H1 H2 H3 H4]. apply holds_bind; try done. intros a b Hab. right.
  destruct (H4 a b Hab) as [y Hy]. exists y. split; [|done]. intros ->.
  destruct (H1 x _ Hy) as (w & Hw & _). congruence.
Qed.

Lemma holds_copy junk s m x q v :
  holds s m -> m !! x = None -> value (blocks s) q = Some v -> status_ok v ->
  exists r, h_copy junk q (blocks s) = Some r /\ holds (set_var x r s) (<[x := v]> m).
Proof using Hnew.
  intros Hs Hx Hq Hok. destruct q as [a|]; cbn [h_copy value] in *.
  - apply fmap_Some in Hq as (b & Hb & ->). unfold h_CopyState. rewrite Hb. cbn [mbind option_bind].
    destruct Hok as (c & t & Eb & Hf). cbn [state_] in Eb. subst b. rewrite CopyState_id by done. cbn [mbind option_bind h_new].
    eexists. split; [reflexivity|]. apply holds_new; [done|done|]. by exists c, t.
  - injection Hq as <-. eexists. split; [reflexivity|]. by apply holds_null.
Qed.

(** The end of a variable frees its block. *)
Lemma holds_destroy s m x p :
  holds s m -> vars s !! x = Some p ->
  exists h, h_delete p (blocks s) = Some h /\ holds (mkStore (delete x (vars s)) h) (delete x m) /\
    (forall y q w, y <> x -> vars s !! y = Some q -> value (blocks s) q = Some w -> value h q = Some w).
Proof using.
  intros Hs Hx. pose proof Hs as [H1 H2 H3 H4]. destruct (H1 x p Hx) as (v & _ & Hv & _).
  assert (Hdel : forall h, (forall y q w, y <> x -> vars s !! y = Some q -> value (blocks s) q = Some w -> value h q = Some w) ->
    (forall a b, h !! a = Some b -> exists y, y <> x /\ vars s !! y = Some (Some a)) ->
    holds (mkStore (delete x (vars s)) h) (delete x m)).
  { intros h Hkeep Hall. split; cbn [vars blocks].
    - intros y q [Hne Hq]%lookup_delete_Some. destruct (H1 y q Hq) as (w & Hm & Hw & Hok). exists w.
      rewrite lookup_delete_ne by done. eauto.
    - intros y w [Hne Hy]%lookup_delete_Some. rewrite lookup_delete_ne by done. eauto.
    - intros y z a [_ Hy]%lookup_delete_Some [_ Hz]%lookup_delete_Some. eauto.
    - intros a b Hab. destruct (Hall a b Hab) as (y & Hne & Hy). exists y. by rewrite lookup_delete_ne by done. }
  destruct p as [a|]; cbn [h_delete value] in *.
  - apply fmap_Some in Hv as (b & Hb & _). rewrite Hb. eexists. split; [reflexivity|].
    assert (Hkeep : forall y q w, y <> x -> vars s !! y = Some q -> value (blocks s) q = Some w ->
      value (delete a (blocks s)) q = Some w).
    { intros y q w Hne Hq. apply value_delete. intros ->. destruct Hne. eauto. }
    split; [|done]. apply Hdel; [done|].
    intros a' b' [Hne Ha']%lookup_delete_Some. destruct (H4 a' b' Ha') as [y Hy]. exists y. split; [|done]. intros ->. congruence.
  - eexists. split; [reflexivity|]. split; [|done]. apply Hdel; [done|].
    intros a b Hab. destruct (H4 a b Hab) as [y Hy]. exists y. split; [|done]. intros ->. congruence.
Qed.

Lemma holds_assign junk s m x y p q v :
  holds s m -> vars s !! x = Some p -> vars s !! y = Some q -> m !! y = Some v ->
  exists r, assign junk p q (blocks s) = Some r /\ holds (set_var x r s) (<[x := v]> m).
Proof using Hnew.
  intros Hs Hx Hy Hm. pose proof Hs as [H1 H2 H3 H4]. destruct (H1 y q Hy) as (v' & Hm' & Hq & Hok).
  rewrite Hm in Hm'. injection Hm' as <-. unfold assign. case_bool_decide as Hpq; cbn [negb].
  - subst q. exists (p, blocks s). split; [done|]. unfold set_var. cbn [fst snd]. rewrite insert_id by done.
    rewrite insert_id; [by destruct s|]. destruct (H1 x p Hx) as (v' & Hv' & Hp & _). congruence.
  - destruct (holds_destroy s m x p Hs Hx) as (h & Eh & Hd & Hkeep). rewrite Eh. cbn [mbind option_bind].
    assert (Hne : y <> x) by congruence.
    destruct (holds_copy junk (mkStore (delete x (vars s)) h) (delete x m) x q v) as (r & Er & Hr);
      [done|apply lookup_delete_eq|by eapply Hkeep|done|]. exists r. split; [exact Er|].
    unfold set_var in *. cbn [vars blocks] in Hr. by rewrite !insert_delete_eq in Hr.
Qed.

(** A statement that has a meaning has no undefined behaviour and that effect. *)
Lemma exec_holds ndebug junk c s m m' :
  holds s m -> messages_ok c -> meaning c m = Some m' ->
  exists s', exec ndebug junk c s = Some s' /\ holds s' m'.
Proof using Hnew.
  intros Hs Hc. pose proof Hs as [H1 H2 H3 H4]. destruct c as [x|x code msg msg2|x y|x y|x]; cbn [meaning exec messages_ok] in *.
  - case_decide; [|done]. intros [= <-]. eexists. split; [reflexivity|]. by apply holds_null.
  - case_decide as Hd; [|done]. intros [= <-]. destruct Hd as [Hx Hk], Hc as (M1 & M2 & Hf).
    unfold h_make. rewrite (make_layout ndebug junk code msg msg2) by auto. cbn [mbind option_bind state_ h_new].
    eexists. split; [reflexivity|]. apply holds_new; [done|done|]. by do 2 eexists.
  - intros (v & Hy & Hm)%bind_Some. case_decide as Hx; [|done]. injection Hm as <-.
    destruct (H2 y v Hy) as [q Hq]. destruct (H1 y q Hq) as (v' & Hv & Hval & Hok). rewrite Hy in Hv. injection Hv as <-.
    destruct (holds_copy junk s m x q v Hs Hx Hval Hok) as (r & Er & Hr). rewrite Hq. cbn [mbind option_bind].
    rewrite Er. by eexists.
  - intros (u & Hx & (v & Hy & [= <-])%bind_Some)%bind_Some.
    destruct (H2 x u Hx) as [p Hp], (H2 y v Hy) as [q Hq].
    destruct (holds_assign junk s m x y p q v Hs Hp Hq Hy) as (r & Er & Hr). rewrite Hp, Hq. cbn [mbind option_bind].
    rewrite Er. by eexists.
  - intros (u & Hx & [= <-])%bind_Some. destruct (H2 x u Hx) as [p Hp].
    destruct (holds_destroy s m x p Hs Hp) as (h & Eh & Hd & _). rewrite Hp. cbn [mbind option_bind]. unfold destroy.
    rewrite Eh. by eexists.
Qed.

Lemma exec_all_holds ndebug junk cs : forall s m m',
  holds s m -> Forall messages_ok cs -> meaning_all cs m = Some m' ->
  exists s', exec_all ndebug junk cs s = Some s' /\ holds s' m'.
Proof using Hnew.
  induction cs as [|c cs IH]; intros s m m' Hs Hc; cbn [meaning_all exec_all]; [intros [= <-]; by exists s|].
  apply Forall_cons in Hc as [Hc Hcs]. intros (m1 & Hm & Hrest)%bind_Some.
  destruct (exec_holds ndebug (junk (length cs)) c s m m1 Hs Hc Hm) as (s1 & E1 & Hs1).
  destruct (IH s1 m1 m' Hs1 Hcs Hrest) as (s' & E & Hs'). exists s'. by rewrite E1.
Qed.

End objects.
(** ** Properties *)

(** C34: an error status built from two messages that fit the length field, with
    a code that is not [kOk] as the constructor asserts, is the same in a build
    with assertions and in one without, and whatever the fresh memory held.  It
    is not [ok], answers exactly its own code to the code predicates, and prints
    as its type name followed by the first message and, when the second is not
    empty, ": " and the second.  With assertions on, there is no status of the
    code [kOk]. *)
Theorem make_observed ndebug junk c msg msg2
  (H1 : Slice.slice_ok msg) (H2 : Slice.slice_ok msg2)
  (Hf : fits (message (Slice.view msg) (Slice.view msg2))) :
  (c <> kOk -> exists s, make_in ndebug junk c msg msg2 = Some s /\ ok s = false /\
    (forall c', is_code c' s = Some (bool_decide (c' = c))) /\
    ToString s = Some (type_name (code_value c) ++
                       message (Slice.view msg) (Slice.view msg2))) /\
  make_in false junk kOk msg msg2 = None.
Proof.
  split; [|done]. intros Hc.
  eexists. rewrite make_layout by auto. split_and!; [done|done| |by apply ToString_layout].
  intros c'. unfold is_code, code. cbn [state_]. rewrite layout_code. simpl. f_equal.
  by destruct c, c'.
Qed.

Lemma make_observed_witness :
  exists s, NotFound (fun _ => 170) (Slice.Slice_of_string b!"/db/x")
      (Slice.Slice_of_string b!"No such file") = Some s /\
    ToString s = Some b!"NotFound: /db/x: No such file".
Proof.
  destruct (make_observed true (fun _ => 170) kNotFound (Slice.Slice_of_string b!"/db/x")
    (Slice.Slice_of_string b!"No such file")) as [H _].
  - apply Slice.Slice_of_string_ok. reflexivity.
  - apply Slice.Slice_of_string_ok. reflexivity.
  - vm_compute. reflexivity.
  - destruct H as (s & Hs & _ & _ & Ht); [discriminate|].
    exists s. split; [exact Hs|]. rewrite Ht. vm_compute. reflexivity.
Defined.

(** C35: status objects behave like values and own their memory.  A client makes,
    copies, assigns and destroys status objects in any order, assignments of an
    object to itself included, as long as it uses objects that live.  Then no
    block is read or deleted after it has been deleted, every variable has the
    value that copying and assigning values would give it, no two objects share
    a block, and the live blocks are exactly those of the live objects: when the
    last object is gone, no memory is left. *)
Theorem status_objects_are_values new_addr ndebug junk cs m
  (Hnew : forall h : heap, h !! new_addr h = None)
  (Hc : Forall messages_ok cs) (Hm : meaning_all cs ∅ = Some m) :
  exists s, exec_all new_addr ndebug junk cs (mkStore ∅ ∅) = Some s /\
    (forall x, (p ← vars s !! x; value (blocks s) p) = m !! x) /\
    (forall x y a, vars s !! x = Some (Some a) -> vars s !! y = Some (Some a) -> x = y) /\
    (forall a, is_Some (blocks s !! a) <-> exists x, vars s !! x = Some (Some a)) /\
    (m = ∅ -> blocks s = ∅).
Proof.
  destruct (exec_all_holds new_addr Hnew ndebug junk cs (mkStore ∅ ∅) ∅ m) as (s & E & Hs); [by split|done..|].
  exists s. split; [exact E|]. destruct Hs as [H1 H2 H3 H4]. split; [|split; [|split]].
  - intros x. destruct (vars s !! x) as [p|] eqn:Ex; cbn [mbind option_bind].
    + destruct (H1 x p Ex) as (v & -> & Hv & _). done.
    + destruct (m !! x) as [v|] eqn:Em; [|done]. destruct (H2 x v Em) as [p Hp]. congruence.
  - exact H3.
  - intros a. split; [intros [b Hb]; eauto|]. intros [x Hx]. destruct (H1 x _ Hx) as (v & _ & Hv & _).
    cbn [value] in Hv. apply fmap_Some in Hv as (b & Hb & _). eauto.
  - intros ->. apply map_empty. intros a. destruct (blocks s !! a) as [b|] eqn:Ea; [|done].
    destruct (H4 a b Ea) as [x Hx]. destruct (H1 x _ Hx) as (v & Hv & _). done.
Qed.

(** An error, a copy of it, an object assigned to itself and then an error to a
    success. *)
Definition demo_statements : list statement :=
  [SError 0 kIOError (Slice.Slice_of_string b!"/db/x") (Slice.Slice_of_string b!"disk"); SCopy 1 0; SOk 2;
   SAssign 0 0; SAssign 2 1; SDestroy 1].

Lemma status_objects_are_values_witness :
  exists s, exec_all (fun h => fresh (dom h)) true (fun _ _ => 7) demo_statements (mkStore ∅ ∅) = Some s /\
    (p ← vars s !! 2%nat; value (blocks s) p) = Some (error kIOError b!"/db/x" b!"disk").
Proof.
  destruct (status_objects_are_values (fun h => fresh (dom h)) true (fun _ _ => 7) demo_statements
    (<[2%nat := error kIOError b!"/db/x" b!"disk"]> {[ 0%nat := error kIOError b!"/db/x" b!"disk" ]}))
    as (s & E & Hv & _).
  - intros h. apply not_elem_of_dom, is_fresh.
  - repeat constructor; vm_compute; congruence.
  - vm_compute. reflexivity.
  - exists s. split; [exact E|]. rewrite Hv. vm_compute. reflexivity.
Defined.

End Status.
