(* ===== verification/Random.v ===== *)
(** * The random number generator (bench/util/random.h)

    The state is the 32-bit seed.  [Next] multiplies it modulo the Mersenne
    number 2^31 - 1 by shifts and masks; the theorems relate it to the modular
    product, show that a seed never leaves the good range, and that the
    sequence visits every number of that range, as the comment in the source
    says. *)

From Stdlib Require Import Zpow_facts.
From S2P Require Import Prelude.

Local Open Scope Z_scope.

Module Random.

Definition M : Z := 2147483647.

Definition A : Z := 16807.

Record Random := mkRandom { seed_ : Z }.

(** [Random(uint32_t s)] *)
Definition new (s : Z) : Random :=
  let seed := Z.land s 2147483647 in
  mkRandom (if (seed =? 0) || (seed =? 2147483647) then 1 else seed).

(** [Next]: the new seed is also the result. *)
Definition Next (r : Random) : Random * Z :=
  let product := u64 (seed_ r * A) in
  let seed := u32 (u64 (Z.shiftr product 31 + Z.land product M)) in
  let seed := if M <? seed then u32 (seed - M) else seed in
  (mkRandom seed, seed).

(** [Next() % n] with [n] an [int] converted to [uint32_t]; division by zero
    is undefined. *)
Definition Uniform (r : Random) (n : Z) : option (Random * Z) :=
  let '(r', x) := Next r in
  if u32 n =? 0 then None else Some (r', x mod u32 n).

Definition OneIn (r : Random) (n : Z) : option (Random * bool) :=
  '(r', x) ← Uniform r n; Some (r', x =? 0).

(** [Uniform(1 << Uniform(max_log + 1))]: the [int] shift is undefined from
    31 on. *)
Definition Skewed (r : Random) (max_log : Z) : option (Random * Z) :=
  '(r1, b) ← Uniform r (i32 (max_log + 1));
  if b <? 31 then Uniform r1 (Z.shiftl 1 b) else None.

(** ** Specification *)

(** A good seed: neither zero nor [M]. *)
Definition seed_ok (r : Random) : Prop := 1 <= seed_ r <= M - 1.

Definition lehmer (s : Z) : Z := (s * A) mod M.

(** The state after [k] calls of [Next]. *)
Fixpoint run (k : nat) (r : Random) : Random :=
  match k with O => r | S k' => run k' (fst (Next r)) end.

(** ** The modular product by shift and mask *)
Lemma land_M p : Z.land p M = p mod 2 ^ 31.
Proof. apply (Z.land_ones p 31). lia. Qed.

Lemma fold_mersenne p :
  0 <= p < 2 ^ 46 -> p mod M = (p / 2 ^ 31 + p mod 2 ^ 31) mod M.
Proof.
  intros H. rewrite (Z.div_mod p (2 ^ 31)) at 1 by lia.
  replace (2 ^ 31 * (p / 2 ^ 31) + p mod 2 ^ 31)
    with (p / 2 ^ 31 + p mod 2 ^ 31 + (p / 2 ^ 31) * M) by (unfold M; lia).
  apply Z_mod_plus_full.
Qed.

(** [A] is invertible modulo [M], hence so is every product by it. *)
Lemma A_inverse : (A * 1407677000) mod M = 1.
Proof. reflexivity. Qed.

Lemma lehmer_nonzero s : 1 <= s <= M - 1 -> (s * A) mod M <> 0.
Proof.
  intros H E.
  assert (s mod M = 0) as Hs.
  { rewrite <- (Z.mul_1_r s), <- A_inverse, Z.mul_mod_idemp_r, Z.mul_assoc,
      <- Z.mul_mod_idemp_l, E by (unfold M; lia). done. }
  rewrite Z.mod_small in Hs; lia.
Qed.

Lemma lehmer_range s : 1 <= s <= M - 1 -> 1 <= lehmer s <= M - 1.
Proof.
  intros H. pose proof (lehmer_nonzero s H). pose proof (Z.mod_pos_bound (s * A) M).
  unfold lehmer, M in *. lia.
Qed.

Lemma Next_lehmer r :
  seed_ok r -> Next r = (mkRandom (lehmer (seed_ r)), lehmer (seed_ r)).
Proof.
  intros H. unfold seed_ok in H. unfold Next.
  assert (Hp : 0 <= seed_ r * A < 2 ^ 46) by (unfold A, M in *; lia).
  rewrite (u64_id (seed_ r * A)) by lia.
  rewrite Z.shiftr_div_pow2, land_M by lia.
  pose proof (fold_mersenne _ Hp) as Hf. pose proof (lehmer_range _ H) as Hr.
  unfold lehmer in *.
  pose proof (Z.mod_pos_bound (seed_ r * A) (2 ^ 31)).
  assert (0 <= seed_ r * A / 2 ^ 31 < 2 ^ 15).
  { split; [apply Z.div_pos; lia|apply Z.div_lt_upper_bound; lia]. }
  set (q := seed_ r * A / 2 ^ 31) in *. set (l := seed_ r * A mod 2 ^ 31) in *.
  rewrite (u64_id (q + l)), (u32_id (q + l)) by lia.
  destruct (Z.ltb_spec M (q + l)) as [Hgt|Hle].
  - assert (E : (q + l) mod M = q + l - M).
    { symmetry. apply (Z.mod_unique_pos _ _ 1); unfold M in *; lia. }
    rewrite u32_id by (unfold M in *; lia). by rewrite Hf, E.
  - destruct (Z.eq_dec (q + l) M) as [E|E].
    { rewrite Hf, E, Z.mod_same in Hr by (unfold M; lia). lia. }
    rewrite Hf, Z.mod_small by (unfold M in *; lia). done.
Qed.

Lemma new_ok s : seed_ok (new s).
Proof.
  unfold seed_ok, new. cbn [seed_].
  change (Z.land s 2147483647) with (Z.land s M). rewrite land_M.
  pose proof (Z.mod_pos_bound s (2 ^ 31)). unfold M.
  destruct (Z.eqb_spec (s mod 2 ^ 31) 0), (Z.eqb_spec (s mod 2 ^ 31) 2147483647);
    cbn [orb]; lia.
Qed.

Lemma Next_ok r : seed_ok r -> seed_ok (fst (Next r)) /\ seed_ok (mkRandom (snd (Next r))).
Proof. intros H. rewrite Next_lehmer by done. by split; apply lehmer_range. Qed.

Lemma run_ok k r : seed_ok r -> seed_ok (run k r).
Proof.
  revert r; induction k as [|k IH]; intros r H; cbn [run]; [done|].
  apply IH. by apply Next_ok.
Qed.

#[export] Hint Resolve new_ok run_ok : pmkv.

(** [k] steps multiply the seed by the [k]th power of [A]. *)
Lemma run_power k r :
  seed_ok r -> seed_ (run k r) = (seed_ r * A ^ Z.of_nat k) mod M.
Proof.
  revert r; induction k as [|k IH]; intros r H; cbn [run].
  { unfold seed_ok in H. rewrite Z.mul_1_r, Z.mod_small; unfold M in *; lia. }
  rewrite IH by (by apply Next_ok). rewrite Next_lehmer by done. cbn [fst seed_].
  unfold lehmer. rewrite Z.mul_mod_idemp_l by (unfold M; lia).
  rewrite Nat2Z.inj_succ, Z.pow_succ_r by lia. f_equal. ring.
Qed.

(** ** The period

    [A] has multiplicative order exactly [M - 1] modulo [M].  The prime
    factors of [M - 1] and the powers of [A] are evaluated by the kernel. *)
Definition one_at (k : Z) : Prop := A ^ k mod M = 1.

Lemma M_pos : 0 < M.
Proof. done. Qed.

Lemma one_at_add a b :
  0 <= a -> 0 <= b -> one_at a -> A ^ (a + b) mod M = A ^ b mod M.
Proof.
  intros Ha Hb H. rewrite Z.pow_add_r, <- Z.mul_mod_idemp_l by (done || lia).
  rewrite H. by rewrite Z.mul_1_l.
Qed.

Lemma one_at_mul a n : 0 <= a -> 0 <= n -> one_at a -> one_at (a * n).
Proof.
  intros Ha Hn H. unfold one_at. rewrite Z.pow_mul_r by done.
  rewrite Zpower_mod by done. rewrite H, Z.pow_1_l by done. done.
Qed.

Lemma one_at_mod a b : 0 <= a -> 0 < b -> one_at a -> one_at b -> one_at (a mod b).
Proof.
  intros Ha Hb Ia Ib. unfold one_at.
  pose proof (Z.mod_pos_bound a b). pose proof (Z.div_pos a b).
  rewrite <- (one_at_add (b * (a / b)) (a mod b)); [|lia|lia|].
  - by rewrite <- (Z.div_mod a b) by lia.
  - apply one_at_mul; [lia..|done].
Qed.

(** Euclid's algorithm on exponents. *)
Lemma one_at_gcd b : 0 <= b -> forall a, 0 <= a -> one_at a -> one_at b -> one_at (Z.gcd a b).
Proof.
  intros Hb. pattern b. apply Z_lt_induction; [|done]. clear b Hb.
  intros b IH a Ha Ia Ib. destruct (Z.lt_trichotomy b 0) as [Hb|[->|Hb]].
  - rewrite <- Z.gcd_opp_r. unfold one_at in Ib. rewrite Z.pow_neg_r in Ib; done.
  - rewrite Z.gcd_0_r, Z.abs_eq; done.
  - rewrite <- (Z.gcd_comm b a), <- Z.gcd_mod by lia. rewrite Z.gcd_comm.
    apply IH; [apply Z.mod_pos_bound; lia|lia|done|by apply one_at_mod].
Qed.

(** A number is prime when no smaller one divides it. *)
Definition prime_check (p : Z) : bool :=
  (1 <? p) && forallb (fun n => negb (p mod Z.of_nat n =? 0)) (seq 2 (Z.to_nat p - 2)).

Lemma prime_check_sound p : prime_check p = true -> Z.prime p.
Proof.
  unfold prime_check. intros [H1 H2]%andb_prop. apply Z.ltb_lt in H1.
  rewrite forallb_forall in H2. split; [done|]. intros n Hn Hd.
  specialize (H2 (Z.to_nat n)). rewrite Z2Nat.id in H2 by lia.
  apply Z.mod_divide in Hd; [|lia]. rewrite Hd in H2.
  discriminate H2. apply in_seq. lia.
Qed.

Definition factors : list Z := [2; 3; 3; 7; 11; 31; 151; 331].

Lemma factors_prime q : q ∈ factors -> Z.prime q.
Proof.
  intros H. apply prime_check_sound. revert q H. apply Forall_forall.
  repeat constructor.
Qed.

Lemma factors_product : fold_right Z.mul 1 factors = M - 1.
Proof. reflexivity. Qed.

(** No proper divisor of the period of the form [(M - 1) / q] is a period. *)
Lemma factors_no_period q : q ∈ factors -> ~ one_at ((M - 1) / q).
Proof.
  intros H. unfold one_at. rewrite <- Zpow_mod_correct by done.
  revert q H. apply Forall_forall. unfold factors, M, A.
  repeat constructor; vm_compute; discriminate.
Qed.

Lemma one_at_period : one_at (M - 1).
Proof. unfold one_at. rewrite <- Zpow_mod_correct by done. vm_compute. done. Qed.

(** A divisor of a product of primes that none of them divides is 1. *)
Lemma divisor_of_primes (l : list Z) c :
  (forall q, q ∈ l -> Z.prime q) -> (c | fold_right Z.mul 1 l) ->
  (forall q, q ∈ l -> ~ (q | c)) -> (c | 1).
Proof.
  induction l as [|q l IH]; intros Hp Hd Hn; [done|].
  apply IH; [intros; apply Hp; set_solver| |intros; apply Hn; set_solver].
  apply Z.gauss with q; [done|]. rewrite Z.gcd_comm. apply Z.coprime_prime_l.
  - apply Hp. set_solver.
  - apply Hn. set_solver.
Qed.

Lemma order_exact k : 0 < k < M - 1 -> ~ one_at k.
Proof.
  intros Hk Ik. set (g := Z.gcd k (M - 1)).
  assert (Ig : one_at g) by (apply one_at_gcd; [done|lia|done|apply one_at_period]).
  assert (Hg : 0 < g <= k).
  { pose proof (Z.gcd_nonneg k (M - 1)). pose proof (Z.gcd_divide_l k (M - 1)) as Hd.
    pose proof (Z.gcd_eq_0_l k (M - 1)).
    apply Z.divide_pos_le in Hd; unfold g; lia. }
  destruct (Z.gcd_divide_r k (M - 1)) as [c Hc]. fold g in Hc.
  assert (c <> 1) by nia. assert (0 < c) by nia.
  assert (Hq : exists q, q ∈ factors /\ (q | c)).
  { assert (Hm : forall q, q ∈ factors -> c mod q = 0 <-> (q | c)).
    { intros q Hin. apply Z.mod_divide. pose proof (proj1 (factors_prime q Hin)). lia. }
    destruct (decide (Exists (fun q => c mod q = 0) factors)) as [He|He].
    { apply Exists_exists in He as (q & Hin & Hd). exists q. by rewrite <- Hm. }
    exfalso. assert (Hone : (c | 1)).
    { apply (divisor_of_primes factors); [apply factors_prime| |].
      - rewrite factors_product, Hc. apply Z.divide_factor_l.
      - intros q Hin Hd. apply He, Exists_exists. exists q. by rewrite Hm. }
    apply Z.divide_1_r_nonneg in Hone; lia. }
  destruct Hq as (q & Hin & d & ->). apply (factors_no_period q Hin).
  pose proof (proj1 (factors_prime q Hin)).
  replace ((M - 1) / q) with (g * d).
  - apply one_at_mul; [lia|nia|done].
  - rewrite Hc. apply Z.div_unique_exact; nia.
Qed.

Lemma powers_injective i j :
  0 <= i -> i < j < M - 1 -> A ^ i mod M <> A ^ j mod M.
Proof.
  intros Hi Hj E. apply (order_exact (j - i)); [lia|]. unfold one_at.
  pose proof one_at_period as Hp.
  assert (Hone : A ^ ((M - 1 - i) + i) mod M = 1) by (rewrite Z.sub_add; exact Hp).
  rewrite Z.pow_add_r in Hone by lia.
  rewrite <- (one_at_add (M - 1)); [|lia|lia|exact Hp].
  replace (M - 1 + (j - i)) with ((M - 1 - i) + j) by ring.
  rewrite Z.pow_add_r by lia.
  rewrite <- Z.mul_mod_idemp_r, <- E, Z.mul_mod_idemp_r by (unfold M; lia).
  exact Hone.
Qed.

(** An injection of [n] numbers into [1, n] reaches every one of them. *)
Lemma injection_covers (n : Z) (f : Z -> Z) :
  (forall i, 0 <= i < n -> 1 <= f i <= n) ->
  (forall i j, 0 <= i -> i < j < n -> f i <> f j) ->
  forall t, 1 <= t <= n -> exists i, 0 <= i < n /\ f i = t.
Proof.
  intros Hr Hinj t Ht.
  set (l := map (fun i => f (Z.of_nat i)) (seq 0 (Z.to_nat n))).
  set (k := map Z.of_nat (seq 1 (Z.to_nat n))).
  assert (Hin : In t l).
  { apply (NoDup_length_incl (l := l) (l' := k)).
    - apply NoDup_ListNoDup, NoDup_alt. intros i j x Hi Hj. unfold l in *.
      rewrite list_lookup_fmap in Hi, Hj.
      apply fmap_Some in Hi as (i' & Hi & ->). apply fmap_Some in Hj as (j' & Hj & E).
      apply lookup_seq in Hi as [-> Hi], Hj as [-> Hj]. simpl in E.
      destruct (Nat.lt_trichotomy i j) as [H|[H|H]]; [|done|]; exfalso.
      + by apply (Hinj (Z.of_nat i) (Z.of_nat j)); [lia..|].
      + by apply (Hinj (Z.of_nat j) (Z.of_nat i)); [lia..|].
    - unfold l, k. rewrite !length_map, !length_seq. done.
    - intros x Hx. unfold l, k in *. apply in_map_iff in Hx as (i & <- & Hi).
      apply in_seq in Hi. apply in_map_iff. exists (Z.to_nat (f (Z.of_nat i))).
      pose proof (Hr (Z.of_nat i)). split; [lia|]. apply in_seq. lia.
    - apply in_map_iff. exists (Z.to_nat t). split; [lia|]. apply in_seq. lia. }
  unfold l in Hin. apply in_map_iff in Hin as (i & Hi & Hs).
  exists (Z.of_nat i). split; [|done]. apply in_seq in Hs. lia.
Qed.

Lemma power_unit k : 0 <= k -> 1 <= A ^ k mod M <= M - 1.
Proof.
  intros Hk. replace k with (Z.of_nat (Z.to_nat k)) by lia.
  pose proof (run_power (Z.to_nat k) (mkRandom 1)) as E.
  pose proof (run_ok (Z.to_nat k) (mkRandom 1)) as H. unfold seed_ok in *.
  cbn [seed_] in *. rewrite E, Z.mul_1_l in H by (unfold M; lia). apply H. unfold M; lia.
Qed.

Lemma power_covers t : 1 <= t <= M - 1 -> exists k, 0 <= k < M - 1 /\ A ^ k mod M = t.
Proof.
  apply injection_covers.
  - intros i Hi. apply power_unit. lia.
  - intros i j Hi Hj. by apply powers_injective.
Qed.

Lemma run_reaches r t :
  seed_ok r -> 1 <= t <= M - 1 ->
  exists k, 0 <= k < M - 1 /\ seed_ (run (Z.to_nat k) r) = t.
Proof.
  intros Hr Ht. destruct (power_covers _ Hr) as (i & Hi & Ei).
  destruct (power_covers t Ht) as (j & Hj & Ej).
  exists ((j - i) mod (M - 1)). assert (0 < M - 1) by done.
  pose proof (Z.mod_pos_bound (j - i) (M - 1)) as Hb. split; [lia|].
  rewrite run_power by done. rewrite Z2Nat.id by lia.
  rewrite <- Ei, Z.mul_mod_idemp_l by (unfold M; lia). rewrite <- Z.pow_add_r by lia.
  rewrite <- Ej. destruct (Z.le_gt_cases i j).
  - rewrite (Z.mod_small (j - i)) by lia. f_equal. f_equal. ring.
  - replace ((j - i) mod (M - 1)) with (j - i + (M - 1)).
    + replace (i + (j - i + (M - 1))) with (M - 1 + j) by ring.
      apply one_at_add; [lia..|apply one_at_period].
    + apply (Z.mod_unique_pos _ _ (-1)); lia.
Qed.

Lemma Uniform_spec r n :
  seed_ok r -> 0 < n < 2 ^ 31 ->
  Uniform r n = Some (mkRandom (lehmer (seed_ r)), lehmer (seed_ r) mod n).
Proof.
  intros Hr Hn. unfold Uniform. rewrite Next_lehmer by done.
  rewrite u32_id by lia. destruct (Z.eqb_spec n 0); [lia|done].
Qed.

(** ** Properties *)

(** From any seed argument the constructor yields a good seed, and from a
    good seed the shift-and-mask computation of [Next] is the product by 16807
    modulo 2^31 - 1, which is again a good seed. *)
Theorem Next_is_lehmer s r (Hr : seed_ok r) :
  seed_ok (new s) /\
  Next r = (mkRandom ((seed_ r * 16807) mod (2 ^ 31 - 1)),
            (seed_ r * 16807) mod (2 ^ 31 - 1)) /\
  seed_ok (fst (Next r)).
Proof. split_and!; [apply new_ok|by apply Next_lehmer|by apply Next_ok]. Qed.

Lemma Next_is_lehmer_witness :
  snd (Next (new 301)) = 5058907 /\ seed_ok (fst (Next (new 301))).
Proof.
  destruct (Next_is_lehmer 0 (new 301)) as (_ & H & H').
  - vm_compute. split; discriminate.
  - split; [rewrite H; reflexivity|exact H'].
Defined.

(** C24: the sequence of seeds is a full cycle: from any good seed every number
    of [1, 2^31 - 2] is reached within 2^31 - 2 calls, the seed comes back after
    exactly 2^31 - 2 calls and not before. *)
Theorem Next_full_cycle r t (Hr : seed_ok r) (Ht : 1 <= t <= 2147483646) :
  (exists k, 0 <= k < 2147483646 /\ seed_ (run (Z.to_nat k) r) = t) /\
  seed_ (run (Z.to_nat 2147483646) r) = seed_ r /\
  (forall k, 0 < k < 2147483646 -> seed_ (run (Z.to_nat k) r) <> seed_ r).
Proof.
  change 2147483646 with (M - 1) in *. split_and!.
  - by apply run_reaches.
  - rewrite run_power by exact Hr. rewrite Z2Nat.id by (unfold M; lia).
    rewrite <- Z.mul_mod_idemp_r, one_at_period by (unfold M; lia).
    rewrite Z.mul_1_r. apply Z.mod_small. unfold seed_ok in Hr. lia.
  - intros k Hk E. destruct (power_covers _ Hr) as (i & Hi & Ei).
    rewrite run_power in E by exact Hr. rewrite Z2Nat.id in E by lia.
    rewrite <- Ei, Z.mul_mod_idemp_l, <- Z.pow_add_r in E by (unfold M in *; lia).
    destruct (Z.lt_ge_cases (i + k) (M - 1)).
    + apply (powers_injective i (i + k)); [lia..|]. by symmetry.
    + replace (i + k) with (M - 1 + (i + k - (M - 1))) in E by ring.
      rewrite one_at_add in E; [|lia|lia|apply one_at_period].
      apply (powers_injective (i + k - (M - 1)) i); [lia..|exact E].
Qed.

Lemma Next_full_cycle_witness :
  exists k, 0 <= k < 2147483646 /\ seed_ (run (Z.to_nat k) (new 1000)) = 42.
Proof.
  apply (Next_full_cycle (new 1000) 42).
  - vm_compute. split; discriminate.
  - lia.
Defined.

(** for a positive [int] bound [n], [Uniform] and [OneIn] are defined and
    keep the seed good, and [Uniform] stays in [0, n); [Skewed] is defined for
    [max_log] up to 30 and stays in [0, 2^max_log). *)
Theorem bounded_draws r n max_log
  (Hr : seed_ok r) (Hn : 0 < n < 2 ^ 31) (Hm : 0 <= max_log <= 30) :
  (exists r' x, Uniform r n = Some (r', x) /\ seed_ok r' /\ 0 <= x < n /\
                OneIn r n = Some (r', x =? 0)) /\
  (exists r' x, Skewed r max_log = Some (r', x) /\ seed_ok r' /\ 0 <= x < 2 ^ max_log).
Proof.
  assert (Hok : seed_ok (mkRandom (lehmer (seed_ r)))) by by apply lehmer_range.
  split.
  - do 2 eexists. rewrite Uniform_spec by done. split_and!; [done|done| | |].
    1,2: apply Z.mod_pos_bound; lia.
    unfold OneIn. by rewrite Uniform_spec.
  - unfold Skewed. rewrite i32_id, Uniform_spec by (done || lia). cbn [mbind option_bind].
    set (b := lehmer (seed_ r) mod (max_log + 1)).
    assert (Hb : 0 <= b < max_log + 1) by (apply Z.mod_pos_bound; lia).
    destruct (Z.ltb_spec b 31); [|lia]. rewrite Z.shiftl_1_l.
    assert (0 < 2 ^ b) by (apply Z.pow_pos_nonneg; lia).
    assert (2 ^ b <= 2 ^ max_log) by (apply Z.pow_le_mono_r; lia).
    assert (2 ^ max_log <= 2 ^ 30) by (apply Z.pow_le_mono_r; lia).
    rewrite Uniform_spec by (done || lia). do 2 eexists. split_and!; [done| | |].
    + by apply lehmer_range.
    + apply Z.mod_pos_bound. lia.
    + pose proof (Z.mod_pos_bound (lehmer (seed_ (mkRandom (lehmer (seed_ r))))) (2 ^ b)). lia.
Qed.

Lemma bounded_draws_witness :
  exists r' x, Uniform (new 301) 95 = Some (r', x) /\ 0 <= x < 95.
Proof.
  destruct (bounded_draws (new 301) 95 10) as [(r' & x & H & _ & Hx & _) _].
  - vm_compute. split; discriminate.
  - lia.
  - lia.
  - exists r', x. split; [exact H|exact Hx].
Defined.

End Random.
