(* ===== verification/Logging.v ===== *)
(** * Number and string printing and parsing (bench/util/logging.cc)

    [AppendNumberTo], [AppendEscapedStringTo] and [ConsumeDecimalNumber], with
    the parser's loop as it is written, on the slice it consumes. *)

From S2P Require Import Prelude CLib Slice.

Local Open Scope Z_scope.

Module Logging.

Definition AppendNumberTo (s : bytes) (num : Z) : bytes :=
  s ++ snprintf 30 (format_llu num).

Definition NumberToString (num : Z) : bytes := AppendNumberTo [] num.

(** The body of the escaping loop for one character. *)
Definition escape_char (b : Z) : bytes :=
  let c := schar b in
  if (32 <=? c) && (c <=? 126) then [b]
  else snprintf 10 (b!"\x" ++ format_02x (Z.land (u32 c) 255)).

(** The loop [for (size_t i = 0; i < value.size(); i++)], with [n] rounds
    left from index [i]. *)
Fixpoint escape_loop (n : nat) (i : Z) (s : bytes) (value : Slice.Slice) : option bytes :=
  match n with
  | O => Some s
  | S n' =>
      c ← Slice.index value i;
      escape_loop n' (i + 1) (s ++ escape_char c) value
  end.

Definition AppendEscapedStringTo (s : bytes) (value : Slice.Slice) : option bytes :=
  escape_loop (Z.to_nat (Slice.size value)) 0 s value.

Definition EscapeString (value : Slice.Slice) : option bytes :=
  AppendEscapedStringTo [] value.

Definition kMaxUint64 : Z := 2 ^ 64 - 1.

(** What the call leaves: its result, [*in], and [*val] when it is set. *)
Record Consumed := mkConsumed { returned : bool; in_ : Slice.Slice; val_ : option Z }.

(** The loop [while (!in->empty())]; each round drops a byte of [in].  [digits]
    is an [int], whose overflow is undefined. *)
Fixpoint consume_loop (fuel : nat) (inp : Slice.Slice) (v digits : Z) : option Consumed :=
  match fuel with
  | O => None
  | S fuel' =>
      if Slice.empty inp then Some (mkConsumed (0 <? digits) inp (Some v))
      else
        b ← Slice.index inp 0;
        let c := schar b in
        if (48 <=? c) && (c <=? 57) then
          if 2 ^ 31 - 1 <=? digits then None else
          let delta := u64 (c - 48) in
          if (kMaxUint64 / 10 <? v) ||
             ((v =? kMaxUint64 / 10) && (kMaxUint64 mod 10 <? delta))
          then Some (mkConsumed false inp None)
          else
            inp' ← Slice.remove_prefix inp 1;
            consume_loop fuel' inp' (u64 (v * 10 + delta)) (digits + 1)
        else Some (mkConsumed (0 <? digits) inp (Some v))
  end.

Definition ConsumeDecimalNumber (inp : Slice.Slice) : option Consumed :=
  consume_loop (S (Z.to_nat (Slice.size inp))) inp 0 0.

(** ** Specification *)

(** The digits a string begins with, and what follows them. *)
Fixpoint digit_prefix (l : bytes) : bytes :=
  match l with
  | c :: l' => if isdigit c then c :: digit_prefix l' else []
  | [] => []
  end.

(** The digits the loop counts before it returns, [v] being their value so far:
    all of them, or those up to the one that makes the value too large. *)
Fixpoint counted (v : Z) (l : bytes) : Z :=
  match l with
  | c :: l' =>
      if isdigit c then
        let v' := v * 10 + (c - 48) in
        1 + (if kMaxUint64 <? v' then 0 else counted v' l')
      else 0
  | [] => 0
  end.

Definition after_digits (l : bytes) : bytes := drop (length (digit_prefix l)) l.

Definition escape (l : bytes) : bytes := l ≫= escape_char.

Definition hex_value (c : Z) : Z := if c <? 58 then c - 48 else c - 87.

(** A decoder of the escaped form. *)
Fixpoint unescape (l : bytes) : bytes :=
  match l with
  | 92 :: 120 :: h :: k :: l' => (16 * hex_value h + hex_value k) :: unescape l'
  | c :: l' => c :: unescape l'
  | [] => []
  end.

(** ** Lemmas *)
Lemma isdigit_schar b : is_byte b -> (48 <=? schar b) && (schar b <=? 57) = isdigit b.
Proof.
  unfold is_byte, schar, isdigit. intros. destruct (Z.ltb_spec b 128); zcases; lia || done.
Qed.

Lemma isdigit_delta b : isdigit b = true -> schar b = b /\ u64 (schar b - 48) = b - 48.
Proof.
  unfold isdigit. intros [H1%Z.leb_le H2%Z.leb_le]%andb_prop. unfold schar.
  zcases; [|lia]. split; [done|]. apply u64_id. lia.
Qed.

(** The overflow test of the loop is exact. *)
Lemma overflow_test v d :
  0 <= v -> 0 <= d <= 9 ->
  (kMaxUint64 / 10 <? v) || ((v =? kMaxUint64 / 10) && (kMaxUint64 mod 10 <? d))
  = (kMaxUint64 <? v * 10 + d).
Proof.
  intros Hv Hd. pose proof (Z.div_mod kMaxUint64 10).
  pose proof (Z.mod_pos_bound kMaxUint64 10).
  destruct (Z.ltb_spec (kMaxUint64 / 10) v), (Z.eqb_spec v (kMaxUint64 / 10)),
    (Z.ltb_spec (kMaxUint64 mod 10) d), (Z.ltb_spec kMaxUint64 (v * 10 + d));
    cbn [orb andb]; lia || done.
Qed.

Lemma dec_value_from_le l v :
  0 <= v -> Forall (fun c => isdigit c = true) l -> v <= dec_value_from v l.
Proof.
  intros Hv H. revert v Hv. induction H as [|c l Hc _ IH]; intros v Hv; [done|].
  apply isdigit_delta in Hc as Hd. unfold isdigit in Hc.
  apply andb_prop in Hc as [H1%Z.leb_le H2%Z.leb_le].
  change (dec_value_from v (c :: l)) with (dec_value_from (v * 10 + (c - 48)) l).
  specialize (IH (v * 10 + (c - 48))). lia.
Qed.

Lemma digit_prefix_digits l : Forall (fun c => isdigit c = true) (digit_prefix l).
Proof. induction l as [|c l IH]; simpl; [done|]. case_match; [by constructor|done]. Qed.

Lemma digit_prefix_app l r :
  Forall (fun c => isdigit c = true) l ->
  match r with [] => True | c :: _ => isdigit c = false end ->
  digit_prefix (l ++ r) = l.
Proof.
  intros Hl Hr. induction Hl as [|c l Hc _ IH]; simpl.
  - destruct r; [done|]. simpl. by rewrite Hr.
  - by rewrite Hc, IH.
Qed.

Lemma view_cons s c l :
  Slice.slice_ok s -> Slice.view s = c :: l ->
  Slice.empty s = false /\ Slice.index s 0 = Some c /\
  exists s', Slice.remove_prefix s 1 = Some s' /\ Slice.slice_ok s' /\ Slice.view s' = l.
Proof.
  intros [Hs Hw] Hv. destruct s as [[|d m] n]; unfold Slice.view in Hv; simpl in *.
  { by rewrite take_nil in Hv. }
  destruct (Z.to_nat n) as [|n'] eqn:En; simpl in Hv; [done|].
  injection Hv as -> <-. rewrite zlen_cons in Hs. pose proof (zlen_nonneg m).
  set (s := Slice.mkSlice (c :: m) n).
  assert (Hok : Slice.slice_ok s) by (split; cbn; rewrite ?zlen_cons; lia).
  split; [unfold Slice.empty; cbn; zcases; lia|]. split; [done|].
  destruct (Slice.remove_prefix_view true s 1) as (s' & E & Hs' & Hd); [done|cbn; lia|].
  exists s'. split; [exact E|]. split; [done|]. rewrite Hd. unfold Slice.view. cbn. by rewrite En.
Qed.

Lemma view_nil s : Slice.slice_ok s -> Slice.view s = [] -> Slice.empty s = true.
Proof.
  intros H Hv. unfold Slice.empty. apply Z.eqb_eq.
  by rewrite <- (Slice.length_view s H), Hv.
Qed.

Lemma counted_bounds v l : 0 <= counted v l <= zlen (digit_prefix l).
Proof.
  revert v. induction l as [|c l IH]; intros v; cbn [counted digit_prefix]; [done|].
  destruct (isdigit c); [|done]. rewrite zlen_cons. cbv zeta. specialize (IH (v * 10 + (c - 48))).
  case_match; lia.
Qed.

(** Zeros do not make the value too large, however many there are. *)
Lemma counted_zeros n : counted 0 (replicate n 48) = Z.of_nat n.
Proof. induction n as [|n IH]; [done|]. change (1 + counted 0 (replicate n 48) = Z.of_nat (S n)). lia. Qed.

Lemma consume_loop_spec l : forall fuel inp v digits,
  Slice.slice_ok inp -> Slice.view inp = l -> Forall is_byte l ->
  0 <= v <= kMaxUint64 -> 0 <= digits < 2 ^ 31 -> (length l < fuel)%nat ->
  let d := digit_prefix l in
  exists inp',
    if 2 ^ 31 <=? digits + counted v l then consume_loop fuel inp v digits = None
    else if kMaxUint64 <? dec_value_from v d
    then consume_loop fuel inp v digits = Some (mkConsumed false inp' None)
    else consume_loop fuel inp v digits =
         Some (mkConsumed (0 <? digits + zlen d) inp' (Some (dec_value_from v d))) /\
         Slice.slice_ok inp' /\ Slice.view inp' = after_digits l.
Proof.
  induction l as [|c l IH]; intros [|fuel] inp v digits Hs Hv Hb Hr Hd Hf; simpl in Hf; cbv zeta; try lia.
  - cbn [consume_loop digit_prefix counted]. rewrite (view_nil inp Hs Hv). exists inp.
    rewrite (proj2 (Z.leb_gt (2 ^ 31) (digits + 0))) by lia. change (zlen (@nil Z)) with 0. rewrite Z.add_0_r. unfold dec_value_from; simpl.
    destruct (Z.ltb_spec kMaxUint64 v); [lia|done].
  - destruct (view_cons inp c l Hs Hv) as (He & Hi & s' & Hp & Hs' & Hv').
    inversion Hb as [|? ? Hc Hb']; subst.
    cbn [consume_loop]. rewrite He, Hi. cbn [mbind option_bind]. rewrite isdigit_schar by done.
    unfold after_digits. cbn [digit_prefix counted]. destruct (isdigit c) eqn:Ec.
    2: { exists inp. rewrite (proj2 (Z.leb_gt (2 ^ 31) (digits + 0))) by lia. change (zlen (@nil Z)) with 0. rewrite Z.add_0_r. unfold dec_value_from; simpl.
         destruct (Z.ltb_spec kMaxUint64 v); [lia|done]. }
    destruct (isdigit_delta c Ec) as [_ ->].
    pose proof Ec as [H1%Z.leb_le H2%Z.leb_le]%andb_prop. cbv zeta.
    pose proof (counted_bounds (v * 10 + (c - 48)) (Slice.view s')) as [Hc0 _].
    destruct (Z.leb_spec (2 ^ 31 - 1) digits) as [Hov|Hov].
    { exists inp. rewrite (proj2 (Z.leb_le (2 ^ 31) _)); [done|]. case_match; lia. }
    rewrite overflow_test by lia.
    change (dec_value_from v (c :: digit_prefix (Slice.view s')))
      with (dec_value_from (v * 10 + (c - 48)) (digit_prefix (Slice.view s'))).
    pose proof (dec_value_from_le (digit_prefix (Slice.view s')) (v * 10 + (c - 48))
      ltac:(lia) (digit_prefix_digits _)) as Hmono.
    destruct (Z.ltb_spec kMaxUint64 (v * 10 + (c - 48))) as [Ho|Ho].
    { exists inp. rewrite (proj2 (Z.leb_gt (2 ^ 31) _)) by lia. destruct (Z.ltb_spec kMaxUint64
        (dec_value_from (v * 10 + (c - 48)) (digit_prefix (Slice.view s')))); [done|lia]. }
    rewrite Hp. cbn [mbind option_bind].
    rewrite u64_id by (unfold kMaxUint64 in *; lia).
    destruct (IH fuel s' (v * 10 + (c - 48)) (digits + 1)) as (inp' & IH');
      [done|done|done|lia..|].
    exists inp'. cbv zeta in IH'. rewrite zlen_cons.
    by rewrite !Z.add_assoc.
Qed.

Lemma Consume_spec inp :
  Slice.slice_ok inp -> Forall is_byte (Slice.view inp) ->
  let d := digit_prefix (Slice.view inp) in
  exists inp',
    if 2 ^ 31 <=? counted 0 (Slice.view inp) then ConsumeDecimalNumber inp = None
    else if kMaxUint64 <? dec_value d
    then ConsumeDecimalNumber inp = Some (mkConsumed false inp' None)
    else ConsumeDecimalNumber inp =
         Some (mkConsumed (0 <? zlen d) inp' (Some (dec_value d))) /\
         Slice.slice_ok inp' /\ Slice.view inp' = after_digits (Slice.view inp).
Proof.
  intros Hs Hb. unfold ConsumeDecimalNumber, Slice.size.
  rewrite <- (Slice.length_view inp Hs), to_nat_zlen.
  apply (consume_loop_spec (Slice.view inp) _ inp 0 0); try done; unfold kMaxUint64; lia.
Qed.

Lemma NumberToString_eq n : NumberToString n = format_llu n.
Proof.
  unfold NumberToString, AppendNumberTo. simpl. apply snprintf_fits.
  pose proof (format_llu_length n). unfold zlen. lia.
Qed.

Lemma escape_loop_spec n : forall i s value,
  Slice.slice_ok value -> 0 <= i -> i + Z.of_nat n = Slice.size_ value ->
  escape_loop n i s value =
  Some (s ++ escape (drop (Z.to_nat i) (Slice.view value))).
Proof.
  induction n as [|n IH]; intros i s value Hv Hi Hn; cbn [escape_loop];
    pose proof (Slice.length_view value Hv) as Hl; unfold zlen in Hl.
  - rewrite drop_ge by lia. unfold escape; simpl. by rewrite app_nil_r.
  - assert (Hlt : (Z.to_nat i < length (Slice.view value))%nat) by lia.
    apply lookup_lt_is_Some in Hlt as [c Hc].
    assert (Slice.index value i = Some c) as ->.
    { rewrite Slice.index_lookup. unfold Slice.view in Hc. apply lookup_take_Some in Hc. tauto. }
    cbn [mbind option_bind]. rewrite IH by (done || lia).
    rewrite (drop_S _ _ _ Hc). replace (Z.to_nat (i + 1)) with (S (Z.to_nat i)) by lia.
    unfold escape. simpl. by rewrite app_assoc.
Qed.

Lemma EscapeString_escape value :
  Slice.slice_ok value -> EscapeString value = Some (escape (Slice.view value)).
Proof.
  intros H. unfold EscapeString, AppendEscapedStringTo.
  pose proof (Slice.ok_size value H).
  rewrite escape_loop_spec; [by rewrite drop_0|done|lia|unfold Slice.size; lia].
Qed.

(** A byte is left as it is, or becomes a backslash, an x and two hexadecimal
    digits of its value. *)
Definition printable (c : Z) : bool := (32 <=? c) && (c <=? 126).

Lemma escape_char_cases b :
  is_byte b ->
  escape_char b = if printable b then [b]
                  else [92; 120; hex_digit (b / 16); hex_digit (b mod 16)].
Proof.
  unfold is_byte. intros H. unfold escape_char, printable, schar.
  destruct (Z.ltb_spec b 128).
  - case_match; [done|]. rewrite u32_id by lia.
    change 255 with (Z.ones 8). rewrite Z.land_ones, Z.mod_small by lia. done.
  - destruct (Z.leb_spec 32 (b - 256)); [lia|]. cbn [andb].
    destruct (Z.leb_spec b 126); [lia|]. rewrite andb_false_r.
    change 255 with (Z.ones 8). rewrite Z.land_ones by lia.
    replace (u32 (b - 256) mod 2 ^ 8) with b; [done|].
    unfold u32. apply (Z.mod_unique_pos _ _ (2 ^ 24 - 1)); [lia|].
    symmetry. apply (Z.mod_unique_pos _ _ (-1)); lia.
Qed.

Lemma hex_digit_range d : 0 <= d < 16 -> printable (hex_digit d) = true /\ hex_value (hex_digit d) = d.
Proof.
  intros H. unfold printable, hex_value, hex_digit. destruct (Z.ltb_spec d 10).
  - destruct (Z.ltb_spec (48 + d) 58); [|lia]. split; [zcases; lia || done|lia].
  - destruct (Z.ltb_spec (87 + d) 58); [lia|]. split; [zcases; lia || done|lia].
Qed.

Lemma escape_printable l : Forall is_byte l -> Forall (fun c => printable c = true) (escape l).
Proof.
  induction 1 as [|b l Hb _ IH]; [constructor|].
  unfold escape in *. simpl. apply Forall_app. split; [|done].
  rewrite escape_char_cases by done. unfold is_byte in Hb.
  destruct (printable b) eqn:E; [by repeat constructor|].
  pose proof (Z.mod_pos_bound b 16).
  repeat constructor; try done; apply hex_digit_range; [|lia].
  split; [apply Z.div_pos; lia|apply Z.div_lt_upper_bound; lia].
Qed.

Lemma unescape_plain b l : b <> 92 -> unescape (b :: l) = b :: unescape l.
Proof. intros H. destruct b as [|p|p]; try done. do 7 (try destruct p as [p|p|]); done. Qed.

Lemma unescape_hex h k l :
  unescape (92 :: 120 :: h :: k :: l) = (16 * hex_value h + hex_value k) :: unescape l.
Proof. reflexivity. Qed.

Lemma unescape_escape l :
  Forall is_byte l -> Forall (fun c => c <> 92) l -> unescape (escape l) = l.
Proof.
  induction 1 as [|b l Hb _ IH]; intros Hn; [done|]. inversion Hn; subst.
  change (escape (b :: l)) with (escape_char b ++ escape l).
  rewrite escape_char_cases by done.
  pose proof (Z.mod_pos_bound b 16). unfold is_byte in Hb.
  destruct (printable b) eqn:E; cbn [app].
  - rewrite unescape_plain by done. by rewrite IH.
  - rewrite unescape_hex, IH by done. f_equal.
    rewrite !(fun d H => proj2 (hex_digit_range d H)).
    + symmetry. apply Z.div_mod. lia.
    + lia.
    + split; [apply Z.div_pos; lia|apply Z.div_lt_upper_bound; lia].
Qed.

(** ** Properties *)

(** C23: what [ConsumeDecimalNumber] does on any slice of bytes within its
    storage.  If it comes to count 2^31 digits, which takes as many digits in
    front of the input, its counter overflows and the behaviour is undefined.
    Otherwise it returns: it fails on the digits the input begins with when they
    denote a number above 2^64 - 1, and else stores the number they denote,
    leaves the input just after them, and answers whether there was a digit. *)
Theorem ConsumeDecimalNumber_correct inp
  (Hs : Slice.slice_ok inp) (Hb : Forall is_byte (Slice.view inp)) :
  exists inp',
    ConsumeDecimalNumber inp =
      (if 2 ^ 31 <=? counted 0 (Slice.view inp) then None
       else if 2 ^ 64 - 1 <? dec_value (digit_prefix (Slice.view inp))
       then Some (mkConsumed false inp' None)
       else Some (mkConsumed (0 <? zlen (digit_prefix (Slice.view inp))) inp'
                    (Some (dec_value (digit_prefix (Slice.view inp)))))) /\
    counted 0 (Slice.view inp) <= zlen (digit_prefix (Slice.view inp)) /\
    (counted 0 (Slice.view inp) < 2 ^ 31 -> dec_value (digit_prefix (Slice.view inp)) <= 2 ^ 64 - 1 ->
     Slice.view inp' = after_digits (Slice.view inp)).
Proof.
  destruct (Consume_spec inp Hs Hb) as (inp' & H). exists inp'. cbv zeta in H.
  unfold kMaxUint64 in H. pose proof (proj2 (counted_bounds 0 (Slice.view inp))) as Hc.
  destruct (Z.leb_spec (2 ^ 31) (counted 0 (Slice.view inp))); [split_and!; [exact H|exact Hc|lia]|].
  destruct (Z.ltb_spec (2 ^ 64 - 1) (dec_value (digit_prefix (Slice.view inp)))).
  - split_and!; [exact H|exact Hc|lia].
  - destruct H as (H & _ & Hv). by split_and!.
Qed.

Lemma ConsumeDecimalNumber_correct_witness :
  exists inp', ConsumeDecimalNumber (Slice.Slice_of_string b!"18446744073709551616 x")
    = Some (mkConsumed false inp' None).
Proof.
  destruct (ConsumeDecimalNumber_correct (Slice.Slice_of_string b!"18446744073709551616 x"))
    as (inp' & H & _).
  - apply Slice.Slice_of_string_ok. reflexivity.
  - apply (str_is_byte "18446744073709551616 x").
  - exists inp'. exact H.
Defined.

(** C37: printing a 64-bit number and parsing it back gives the number and
    leaves exactly the text after it, when that does not begin with a digit. *)
Theorem number_round_trip n rest
  (Hn : 0 <= n < 2 ^ 64) (Hb : Forall is_byte rest) (Hl : zlen rest < 2 ^ 63)
  (Hr : match rest with [] => True | c :: _ => isdigit c = false end) :
  exists inp',
    ConsumeDecimalNumber (Slice.Slice_of_string (AppendNumberTo [] n ++ rest)) =
      Some (mkConsumed true inp' (Some n)) /\
    Slice.view inp' = rest /\ Slice.slice_ok inp'.
Proof.
  fold (NumberToString n). rewrite NumberToString_eq.
  pose proof (format_llu_isdigit n (proj1 Hn)) as Hd.
  pose proof (format_llu_length n) as Hlen.
  assert (Hz : zlen (format_llu n ++ rest) < 2 ^ 64) by (rewrite zlen_app; unfold zlen in *; lia).
  destruct (Consume_spec (Slice.Slice_of_string (format_llu n ++ rest)))
    as (inp' & H); [by apply Slice.Slice_of_string_ok| |].
  - rewrite Slice.view_of_string. apply Forall_app. split; [|done].
    eapply Forall_impl; [exact Hd|]. cbv beta. unfold isdigit, is_byte.
    intros c [?%Z.leb_le ?%Z.leb_le]%andb_prop. lia.
  - unfold after_digits in H. rewrite Slice.view_of_string, digit_prefix_app in H by done.
    rewrite format_llu_value, drop_app_length in H by done.
    rewrite (proj2 (Z.leb_gt (2 ^ 31) _)) in H.
    2:{ pose proof (proj2 (counted_bounds 0 (format_llu n ++ rest))) as Hc.
        rewrite digit_prefix_app in Hc by done. unfold zlen in Hc. lia. }
    destruct (Z.ltb_spec kMaxUint64 n); [unfold kMaxUint64 in *; lia|].
    destruct H as (H & Hok & Hv). exists inp'. rewrite H. split; [|by split].
    destruct (Z.ltb_spec 0 (zlen (format_llu n))); [done|unfold zlen in *; lia].
Qed.

Lemma number_round_trip_witness :
  exists inp', ConsumeDecimalNumber (Slice.Slice_of_string (AppendNumberTo [] 65536 ++ b!" kB"))
    = Some (mkConsumed true inp' (Some 65536)).
Proof.
  destruct (number_round_trip 65536 b!" kB") as (inp' & H & _).
  - lia.
  - apply (str_is_byte " kB").
  - reflexivity.
  - reflexivity.
  - exists inp'. exact H.
Defined.

(** [EscapeString] of any slice of bytes returns a string of printable
    characters only, from which the bytes can be recovered when none of them is
    a backslash; a backslash is not escaped, so the text of an escape and the
    byte it stands for print alike. *)
Theorem EscapeString_readable value
  (Hs : Slice.slice_ok value) (Hb : Forall is_byte (Slice.view value)) :
  (exists r, EscapeString value = Some r /\
     Forall (fun c => printable c = true) r /\
     (Forall (fun c => c <> 92) (Slice.view value) -> unescape r = Slice.view value)) /\
  EscapeString (Slice.Slice_of_string [92; 120; 48; 49]) =
  EscapeString (Slice.Slice_of_string [1]).
Proof.
  split; [|reflexivity]. exists (escape (Slice.view value)). split_and!.
  - by apply EscapeString_escape.
  - by apply escape_printable.
  - by apply unescape_escape.
Qed.

Lemma EscapeString_readable_witness :
  exists r, EscapeString (Slice.Slice_of_string [97; 0; 255]) = Some r /\
    unescape r = [97; 0; 255].
Proof.
  destruct (EscapeString_readable (Slice.Slice_of_string [97; 0; 255]))
    as [(r & H & _ & Hu) _].
  - apply Slice.Slice_of_string_ok. reflexivity.
  - repeat constructor; unfold is_byte; lia.
  - exists r. split; [exact H|apply Hu]. repeat constructor; lia.
Defined.

End Logging.
