(* ===== verification/Pmkv.v ===== *)
(** * The key-value store interface and its implementations
    (include/pmkv.h, src/pmkv.c, src/pmemkv.c)

    [PmkvOps] is the header as a record of operations on a world [W].
    [PmkvContract] is what README.md promises of an implementation, against
    which the benchmark is verified.  [Stub] is src/pmkv.c, the file handed out
    to be completed.  [PmemkvImpl] is src/pmemkv.c, the reference
    implementation, over the operations [LibPmemkv] of the external library
    libpmemkv, whose documented behaviour is [LibPmemkvLaws].  [MemLib] is a
    small library with that behaviour, to run the definitions on. *)

From S2P Require Import Prelude.

Local Open Scope Z_scope.

(** ** include/pmkv.h *)
Definition MAX_VAL_LEN : Z := 1048576.

Class PmkvOps (W kv : Type) := {
  pmkv_open : bytes -> Z -> Z -> W -> outcome (option kv * W);
  pmkv_close : option kv -> W -> W;
  (** the status, and the bytes left in [out_val[0, *out_val_size)] *)
  pmkv_get : kv -> bytes -> W -> Z * bytes;
  pmkv_put : kv -> bytes -> bytes -> W -> Z * W;
  pmkv_delete : kv -> bytes -> W -> Z * W;
  (** the status and [*out_cnt] *)
  pmkv_count_all : kv -> W -> Z * Z;
  pmkv_exists : kv -> bytes -> W -> Z
}.

(** ** The contract of README.md

    [contents w h] is the map an open handle stands for.  An operation
    succeeds with status 0 and fails with another one; [put] may fail for lack
    of space, and then changes nothing. *)
Class PmkvContract (W kv : Type) `{PmkvOps W kv}
  (contents : W -> kv -> option (gmap bytes bytes)) : Prop := {
  get_found w h m k v :
    contents w h = Some m -> m !! k = Some v -> zlen v <= MAX_VAL_LEN ->
    pmkv_get h k w = (0, v);
  get_missing w h m k :
    contents w h = Some m -> m !! k = None -> fst (pmkv_get h k w) <> 0;
  put_stores w h m k v :
    contents w h = Some m ->
    (fst (pmkv_put h k v w) = 0 /\ contents (snd (pmkv_put h k v w)) h = Some (<[k := v]> m)) \/
    (fst (pmkv_put h k v w) <> 0 /\ contents (snd (pmkv_put h k v w)) h = Some m);
  delete_found w h m k :
    contents w h = Some m -> is_Some (m !! k) ->
    fst (pmkv_delete h k w) = 0 /\ contents (snd (pmkv_delete h k w)) h = Some (delete k m);
  delete_missing w h m k :
    contents w h = Some m -> m !! k = None ->
    fst (pmkv_delete h k w) <> 0 /\ contents (snd (pmkv_delete h k w)) h = Some m;
  count_all_size w h m :
    contents w h = Some m -> pmkv_count_all h w = (0, Z.of_nat (size m));
  exists_domain w h m k :
    contents w h = Some m -> pmkv_exists h k w = if decide (is_Some (m !! k)) then 1 else 0;
  open_fresh w path sz h w' :
    pmkv_open path sz 1 w = Normal (Some h, w') -> contents w' h = Some ∅
}.

(** ** Sequences of calls

    A call of the interface on an open handle, its observable answer, and the
    execution of a sequence of calls. *)
Inductive kv_call :=
  | CGet (k : bytes) | CPut (k v : bytes) | CDelete (k : bytes) | CCount | CExists (k : bytes).

(** status, and the value or the count the call reports *)
Definition kv_answer : Type := Z * bytes * Z.

Section calls.
Context {W kv : Type} `{PmkvOps W kv}.

Definition exec_call (h : kv) (c : kv_call) (w : W) : kv_answer * W :=
  match c with
  | CGet k => let '(s, v) := pmkv_get h k w in (s, if s =? 0 then v else [], 0, w)
  | CPut k v => let '(s, w') := pmkv_put h k v w in (s, [], 0, w')
  | CDelete k => let '(s, w') := pmkv_delete h k w in (s, [], 0, w')
  | CCount => let '(s, n) := pmkv_count_all h w in (s, [], n, w)
  | CExists k => (pmkv_exists h k w, [], 0, w)
  end.

Fixpoint exec_calls (h : kv) (cs : list kv_call) (w : W) : list kv_answer * W :=
  match cs with
  | [] => ([], w)
  | c :: cs' =>
      let '(a, w1) := exec_call h c w in
      let '(l, w2) := exec_calls h cs' w1 in
      (a :: l, w2)
  end.

End calls.

(** The abstract store: which answers a call may give on a map, and the map it
    leaves. *)
Inductive spec_call (m : gmap bytes bytes) : kv_call -> kv_answer -> gmap bytes bytes -> Prop :=
  | SGetFound k v : m !! k = Some v -> spec_call m (CGet k) (0, v, 0) m
  | SGetMissing k s : m !! k = None -> s <> 0 -> spec_call m (CGet k) (s, [], 0) m
  | SPut k v : spec_call m (CPut k v) (0, [], 0) (<[k := v]> m)
  | SPutFull k v s : s <> 0 -> spec_call m (CPut k v) (s, [], 0) m
  | SDelete k : is_Some (m !! k) -> spec_call m (CDelete k) (0, [], 0) (delete k m)
  | SDeleteMissing k s : m !! k = None -> s <> 0 -> spec_call m (CDelete k) (s, [], 0) m
  | SCount : spec_call m CCount (0, [], Z.of_nat (size m)) m
  | SExists k : is_Some (m !! k) -> spec_call m (CExists k) (1, [], 0) m
  | SExistsNot k : m !! k = None -> spec_call m (CExists k) (0, [], 0) m.

Inductive spec_calls : gmap bytes bytes -> list kv_call -> list kv_answer ->
    gmap bytes bytes -> Prop :=
  | SNil m : spec_calls m [] [] m
  | SCons m c cs a l m1 m2 :
      spec_call m c a m1 -> spec_calls m1 cs l m2 -> spec_calls m (c :: cs) (a :: l) m2.

(** Every value of the map and of the calls fits the buffer of [pmkv_get]. *)
Definition values_fit (m : gmap bytes bytes) : Prop :=
  map_Forall (fun _ v => zlen v <= MAX_VAL_LEN) m.

Definition call_fits (c : kv_call) : Prop :=
  match c with CPut _ v => zlen v <= MAX_VAL_LEN | _ => True end.

(** ** src/pmkv.c *)
Module Stub.

Definition pmkv_open {W kv} (path : bytes) (pool_size force_create : Z) (w : W)
  : outcome (option kv * W) := Normal (None, w).

Definition pmkv_close {W kv} (h : option kv) (w : W) : W := w.

Definition pmkv_get {W kv} (h : kv) (key : bytes) (w : W) : Z * bytes := (1, []).

Definition pmkv_put {W kv} (h : kv) (key val : bytes) (w : W) : Z * W := (1, w).

Definition pmkv_delete {W kv} (h : kv) (key : bytes) (w : W) : Z * W := (1, w).

Definition pmkv_count_all {W kv} (h : kv) (w : W) : Z * Z := (1, 0).

Definition pmkv_exists {W kv} (h : kv) (key : bytes) (w : W) : Z := 0.

(** src/pmkv.c as an implementation of the header *)
Definition stub_ops (W kv : Type) : PmkvOps W kv := Build_PmkvOps _ _
  pmkv_open pmkv_close pmkv_get pmkv_put pmkv_delete pmkv_count_all pmkv_exists.

End Stub.

(** ** libpmemkv, as src/pmemkv.c calls it *)
Class LibPmemkv (W db config : Type) := {
  PMEMKV_STATUS_OK : Z;
  pmemkv_config_new : option config;
  pmemkv_config_put_string : config -> bytes -> bytes -> Z * config;
  pmemkv_config_put_uint64 : config -> bytes -> Z -> Z * config;
  (** status, [*db], world *)
  pmemkv_open : bytes -> config -> W -> Z * option db * W;
  pmemkv_close : option db -> W -> W;
  pmemkv_get_copy : db -> bytes -> Z -> W -> Z * bytes;
  pmemkv_put : db -> bytes -> bytes -> W -> Z * W;
  pmemkv_remove : db -> bytes -> W -> Z * W;
  pmemkv_count_all : db -> W -> Z * Z;
  pmemkv_exists : db -> bytes -> W -> Z
}.

(** ** src/pmemkv.c *)
Module PmemkvImpl.
Section impl.
Context {W db config : Type} `{LibPmemkv W db config}.

Definition pmkv_open (path : bytes) (pool_size force_create : Z) (w : W)
  : outcome (option db * W) :=
  match pmemkv_config_new with
  | None => Aborted
  | Some cfg =>
      let '(s, cfg) := pmemkv_config_put_string cfg b!"path" path in
      _ ← assert_ (s =? PMEMKV_STATUS_OK);
      let '(s, cfg) := pmemkv_config_put_uint64 cfg b!"size" pool_size in
      _ ← assert_ (s =? PMEMKV_STATUS_OK);
      let '(s, cfg) := pmemkv_config_put_uint64 cfg b!"force_create" (u64 force_create) in
      _ ← assert_ (s =? PMEMKV_STATUS_OK);
      let '(s, d, w) := pmemkv_open b!"cmap" cfg w in
      Normal (if negb (s =? PMEMKV_STATUS_OK) then None else d, w)
  end.

Definition pmkv_close (h : option db) (w : W) : W := pmemkv_close h w.

Definition pmkv_get (h : db) (key : bytes) (w : W) : Z * bytes :=
  pmemkv_get_copy h key MAX_VAL_LEN w.

Definition pmkv_put (h : db) (key val : bytes) (w : W) : Z * W := pmemkv_put h key val w.

Definition pmkv_delete (h : db) (key : bytes) (w : W) : Z * W := pmemkv_remove h key w.

Definition pmkv_count_all (h : db) (w : W) : Z * Z := pmemkv_count_all h w.

Definition pmkv_exists (h : db) (key : bytes) (w : W) : Z :=
  let s := pmemkv_exists h key w in
  if s =? PMEMKV_STATUS_OK then 1 else 0.

(** src/pmemkv.c as an implementation of the header *)
Definition pmemkv_ops : PmkvOps W db := Build_PmkvOps _ _
  pmkv_open pmkv_close pmkv_get pmkv_put pmkv_delete pmkv_count_all pmkv_exists.

End impl.
End PmemkvImpl.

(** What the manual pages of libpmemkv say of the engine "cmap".  [store w d]
    is the map of an open database; [cfg_string] and [cfg_uint64] read a
    configuration back. *)
Class LibPmemkvLaws (W db config : Type) `{LibPmemkv W db config}
  (store : W -> db -> option (gmap bytes bytes))
  (cfg_uint64 : config -> bytes -> option Z) : Prop := {
  status_ok_zero : PMEMKV_STATUS_OK = 0;
  cfg_put_string c k v :
    fst (pmemkv_config_put_string c k v) = PMEMKV_STATUS_OK ->
    forall k', cfg_uint64 (snd (pmemkv_config_put_string c k v)) k' = cfg_uint64 c k';
  cfg_put_uint64 c k n :
    fst (pmemkv_config_put_uint64 c k n) = PMEMKV_STATUS_OK ->
    cfg_uint64 (snd (pmemkv_config_put_uint64 c k n)) k = Some n;
  (** "force_create": if 1, pmemkv creates the pool, removing what was there *)
  open_force_create c w s d w' :
    cfg_uint64 c b!"force_create" = Some 1 ->
    pmemkv_open b!"cmap" c w = (s, Some d, w') -> s = PMEMKV_STATUS_OK ->
    store w' d = Some ∅;
  get_copy_found w d m k v n :
    store w d = Some m -> m !! k = Some v -> zlen v <= n ->
    pmemkv_get_copy d k n w = (PMEMKV_STATUS_OK, v);
  get_copy_missing w d m k n :
    store w d = Some m -> m !! k = None ->
    fst (pmemkv_get_copy d k n w) <> PMEMKV_STATUS_OK;
  put_ok w d m k v :
    store w d = Some m -> fst (pmemkv_put d k v w) = PMEMKV_STATUS_OK ->
    store (snd (pmemkv_put d k v w)) d = Some (<[k := v]> m);
  put_error w d m k v :
    store w d = Some m -> fst (pmemkv_put d k v w) <> PMEMKV_STATUS_OK ->
    store (snd (pmemkv_put d k v w)) d = Some m;
  remove_found w d m k v :
    store w d = Some m -> m !! k = Some v ->
    fst (pmemkv_remove d k w) = PMEMKV_STATUS_OK /\
    store (snd (pmemkv_remove d k w)) d = Some (delete k m);
  remove_missing w d m k :
    store w d = Some m -> m !! k = None ->
    fst (pmemkv_remove d k w) <> PMEMKV_STATUS_OK /\
    store (snd (pmemkv_remove d k w)) d = Some m;
  count_all_ok w d m :
    store w d = Some m ->
    pmemkv_count_all d w = (PMEMKV_STATUS_OK, Z.of_nat (size m));
  exists_ok w d m k :
    store w d = Some m ->
    (pmemkv_exists d k w = PMEMKV_STATUS_OK <-> is_Some (m !! k))
}.

(** ** A library with the documented behaviour

    Pools are kept by path; a database is the path it was opened on.  A pool
    holds at most [mem_capacity] entries, so that [put] can fail. *)
Module MemLib.

Abbreviation world := (gmap bytes (gmap bytes bytes)).

(** The configuration of a pool: its path and its unsigned items. *)
Record config := mkConfig { cfg_path : bytes; cfg_items : gmap bytes Z }.

Definition mem_capacity : nat := 1000.

Definition open_ (engine : bytes) (c : config) (w : world) : Z * option bytes * world :=
  match cfg_items c !! b!"force_create" with
  | Some 1 => (0, Some (cfg_path c), <[cfg_path c := ∅]> w)
  | _ => match w !! cfg_path c with
         | Some _ => (0, Some (cfg_path c), w)
         | None => (4, None, w)
         end
  end.

Definition get_ (d k : bytes) (n : Z) (w : world) : Z * bytes :=
  match w !! d ≫= lookup k with
  | Some v => if zlen v <=? n then (0, v) else (8, [])
  | None => (2, [])
  end.

Definition put_ (d k v : bytes) (w : world) : Z * world :=
  match w !! d with
  | Some m => if decide (size m < mem_capacity)%nat then (0, <[d := <[k := v]> m]> w) else (8, w)
  | None => (4, w)
  end.

Definition remove_ (d k : bytes) (w : world) : Z * world :=
  match w !! d with
  | Some m => if decide (is_Some (m !! k)) then (0, <[d := delete k m]> w) else (2, w)
  | None => (4, w)
  end.

Definition count_ (d : bytes) (w : world) : Z * Z :=
  match w !! d with Some m => (0, Z.of_nat (size m)) | None => (4, 0) end.

Definition exists_ (d k : bytes) (w : world) : Z :=
  match w !! d ≫= lookup k with Some _ => 0 | None => 2 end.

#[export] Instance mem_lib : LibPmemkv world bytes config := {|
  PMEMKV_STATUS_OK := 0;
  pmemkv_config_new := Some (mkConfig [] ∅);
  pmemkv_config_put_string c k v :=
    (0, if decide (k = b!"path") then mkConfig v (cfg_items c) else c);
  pmemkv_config_put_uint64 c k n := (0, mkConfig (cfg_path c) (<[k := n]> (cfg_items c)));
  pmemkv_open := open_;
  pmemkv_close _ w := w;
  pmemkv_get_copy := get_;
  pmemkv_put := put_;
  pmemkv_remove := remove_;
  pmemkv_count_all := count_;
  pmemkv_exists := exists_
|}.

Definition mem_store (w : world) (d : bytes) : option (gmap bytes bytes) := w !! d.

Definition mem_uint64 (c : config) (k : bytes) : option Z := cfg_items c !! k.

#[export] Instance mem_lib_laws : LibPmemkvLaws world bytes config mem_store mem_uint64.
Proof.
  constructor; unfold mem_store, mem_uint64; simpl;
    unfold open_, get_, put_, remove_, count_, exists_; simpl; intros.
  - done.
  - by case_decide.
  - by simplify_map_eq.
  - match goal with Hc : cfg_items c !! _ = _ |- _ => rewrite Hc in * end.
    simplify_eq. apply lookup_insert_eq.
  - simplify_map_eq. by destruct (Z.leb_spec (zlen v) n); [|lia].
  - by simplify_map_eq.
  - simplify_map_eq. repeat case_decide; by simplify_map_eq.
  - simplify_map_eq. by repeat case_decide; simplify_map_eq.
  - by simplify_map_eq.
  - simplify_map_eq. rewrite decide_False by (intros []; congruence). done.
  - by simplify_map_eq.
  - simplify_map_eq. destruct (m !! k); split; [by eauto|done|done|by intros []].
Qed.

End MemLib.

(** ** Lemmas *)
Section refinement.
Context {W db config : Type} `{LibPmemkv W db config}
  {store : W -> db -> option (gmap bytes bytes)} {cfg_uint64 : config -> bytes -> option Z}
  `{!LibPmemkvLaws W db config store cfg_uint64}.

Lemma impl_open_fresh w path sz h w' :
  PmemkvImpl.pmkv_open path sz 1 w = Normal (Some h, w') -> store w' h = Some ∅.
Proof.
  unfold PmemkvImpl.pmkv_open. destruct (@pmemkv_config_new W db config _) as [c|]; [|discriminate].
  destruct (pmemkv_config_put_string c b!"path" path) as [s1 c1] eqn:E1.
  unfold assert_. destruct (Z.eqb_spec s1 PMEMKV_STATUS_OK); [|discriminate]. cbn [mbind outcome_bind].
  destruct (pmemkv_config_put_uint64 c1 b!"size" sz) as [s2 c2] eqn:E2.
  destruct (Z.eqb_spec s2 PMEMKV_STATUS_OK); [|discriminate]. cbn [mbind outcome_bind].
  rewrite u64_id by lia.
  destruct (pmemkv_config_put_uint64 c2 b!"force_create" 1) as [s3 c3] eqn:E3.
  destruct (Z.eqb_spec s3 PMEMKV_STATUS_OK) as [->|]; [|discriminate]. cbn [mbind outcome_bind].
  destruct (pmemkv_open b!"cmap" c3 w) as [[s d] w1] eqn:E4.
  destruct (Z.eqb_spec s PMEMKV_STATUS_OK) as [->|]; cbn [negb]; [|discriminate].
  intros [= -> ->]. eapply open_force_create; [|exact E4|done].
  change c3 with (snd (PMEMKV_STATUS_OK, c3)). rewrite <- E3.
  apply cfg_put_uint64. by rewrite E3.
Qed.

Lemma pmemkv_contract :
  @PmkvContract W db (PmemkvImpl.pmemkv_ops (config := config)) store.
Proof.
  constructor; simpl; unfold PmemkvImpl.pmkv_get, PmemkvImpl.pmkv_put,
    PmemkvImpl.pmkv_delete, PmemkvImpl.pmkv_count_all, PmemkvImpl.pmkv_exists; intros.
  - rewrite <- status_ok_zero. by eapply get_copy_found.
  - rewrite <- status_ok_zero. by eapply get_copy_missing.
  - rewrite <- status_ok_zero. destruct (decide (fst (pmemkv_put h k v w) = PMEMKV_STATUS_OK)).
    + left. split; [done|]. by eapply put_ok.
    + right. split; [done|]. by eapply put_error.
  - rewrite <- status_ok_zero. destruct H1 as [v Hv]. by eapply remove_found.
  - rewrite <- status_ok_zero. by eapply remove_missing.
  - rewrite <- status_ok_zero. by eapply count_all_ok.
  - pose proof (exists_ok w h m k H0) as He.
    destruct (Z.eqb_spec (pmemkv_exists h k w) PMEMKV_STATUS_OK), (decide (is_Some (m !! k)));
      tauto.
  - by eapply impl_open_fresh.
Qed.

End refinement.

Section simulation.
Context {W kv : Type} `{PmkvOps W kv} {contents : W -> kv -> option (gmap bytes bytes)}
  `{!PmkvContract W kv contents}.

Lemma exec_call_refines h c w m :
  contents w h = Some m -> values_fit m -> call_fits c ->
  exists m', spec_call m c (fst (exec_call h c w)) m' /\
    contents (snd (exec_call h c w)) h = Some m' /\ values_fit m'.
Proof.
  intros Hw Hm Hc. destruct c as [k|k v|k| |k]; simpl.
  - destruct (m !! k) as [v|] eqn:E.
    + rewrite (get_found w h m k v) by eauto. exists m. simpl. eauto using spec_call.
    + pose proof (get_missing w h m k Hw E) as Hn. destruct (pmkv_get h k w) as [s v].
      simpl in *. rewrite (proj2 (Z.eqb_neq s 0)) by done. exists m. eauto using spec_call.
  - pose proof (put_stores w h m k v Hw) as Hp. destruct (pmkv_put h k v w) as [s w'].
    simpl in *. destruct Hp as [[-> Hp]|[Hs Hp]].
    + eexists. split_and!; [constructor|exact Hp|]. by apply map_Forall_insert_2.
    + exists m. eauto using spec_call.
  - destruct (m !! k) as [v|] eqn:E.
    + pose proof (delete_found w h m k Hw ltac:(eauto)) as Hd.
      destruct (pmkv_delete h k w) as [s w']. simpl in *. destruct Hd as [-> Hd].
      eexists. split_and!; [constructor; eauto|exact Hd|]. by apply map_Forall_delete.
    + pose proof (delete_missing w h m k Hw E) as Hd.
      destruct (pmkv_delete h k w) as [s w']. simpl in *. destruct Hd as [Hs Hd].
      exists m. eauto using spec_call.
  - rewrite (count_all_size w h m Hw). exists m. eauto using spec_call.
  - rewrite (exists_domain w h m k Hw). exists m.
    case_decide; split_and!; try done; constructor; [done|by apply eq_None_not_Some].
Qed.

Lemma exec_calls_refines h cs : forall w m,
  contents w h = Some m -> values_fit m -> Forall call_fits cs ->
  exists m', spec_calls m cs (fst (exec_calls h cs w)) m' /\
    contents (snd (exec_calls h cs w)) h = Some m'.
Proof.
  induction cs as [|c cs IH]; intros w m Hw Hm Hc; simpl.
  - exists m. eauto using spec_calls.
  - inversion Hc; subst. destruct (exec_call_refines h c w m) as (m1 & Hs1 & Hw1 & Hm1);
      [done..|]. destruct (exec_call h c w) as [a w1]. simpl in *.
    destruct (IH w1 m1) as (m2 & Hs2 & Hw2); [done..|].
    destruct (exec_calls h cs w1) as [l w2]. simpl in *. exists m2.
    eauto using spec_calls.
Qed.

End simulation.

(** The reference implementation over [MemLib]. *)
Definition mem_ops : PmkvOps MemLib.world bytes :=
  PmemkvImpl.pmemkv_ops (config := MemLib.config) (H := MemLib.mem_lib).

Lemma mem_contract : @PmkvContract MemLib.world bytes mem_ops MemLib.mem_store.
Proof. exact (pmemkv_contract (LibPmemkvLaws0 := MemLib.mem_lib_laws)). Qed.

(** ** Properties *)

(** C2: src/pmemkv.c refines the abstract store.  Over any library that
    behaves as libpmemkv documents, opening with [force_create] set gives a
    handle on the empty map, and from there every sequence of get, put, delete,
    count and exists calls, with values within [MAX_VAL_LEN], answers as the
    abstract map does. *)
Theorem pmemkv_refines_map {W db config : Type} {L : LibPmemkv W db config}
  (store : W -> db -> option (gmap bytes bytes)) (cfg_uint64 : config -> bytes -> option Z)
  (Laws : LibPmemkvLaws W db config store cfg_uint64)
  path sz w h w' cs
  (Hopen : PmemkvImpl.pmkv_open path sz 1 w = Normal (Some h, w'))
  (Hfit : Forall call_fits cs) :
  let run := exec_calls (H := PmemkvImpl.pmemkv_ops) h cs w' in
  exists m', spec_calls ∅ cs (fst run) m' /\ store (snd run) h = Some m'.
Proof.
  cbv zeta. apply (exec_calls_refines (H := PmemkvImpl.pmemkv_ops)
    (PmkvContract0 := pmemkv_contract)); [|apply map_Forall_empty|done].
  by eapply impl_open_fresh.
Qed.

Lemma pmemkv_refines_map_witness :
  exists m', spec_calls ∅ [CPut b!"k" b!"v"; CGet b!"k"; CCount; CDelete b!"x"]
    [(0, [], 0); (0, b!"v", 0); (0, [], 1); (2, [], 0)] m'.
Proof.
  destruct (pmemkv_refines_map (L := MemLib.mem_lib) MemLib.mem_store MemLib.mem_uint64
    MemLib.mem_lib_laws b!"/mnt/ramdisk/test" 512 ∅ b!"/mnt/ramdisk/test"
    (<[b!"/mnt/ramdisk/test" := ∅]> ∅)
    [CPut b!"k" b!"v"; CGet b!"k"; CCount; CDelete b!"x"]) as (m' & H & _).
  - vm_compute. reflexivity.
  - repeat constructor; vm_compute; discriminate.
  - exists m'. revert H. vm_compute fst. exact id.
Defined.
