(* ===== verification/Double.v ===== *)
(** * The type double

    IEEE 754 binary64 numbers are the Standard Library's executable
    specification of them, with a 53-bit significand and maximal exponent
    1024; every operation rounds to nearest, ties to even, as the hardware of
    the build does.  The lemmas show where the rounding does not show: sums,
    differences and comparisons of whole numbers below 2^53. *)

From Stdlib Require Import SpecFloat.
From S2P Require Import Prelude.

Local Open Scope Z_scope.

Abbreviation double := spec_float.

(** Conversion of an integer, and of an integer constant too large for one. *)
Definition d_of_Z (z : Z) : double := binary_normalize 53 1024 z 0 false.

Definition dadd : double -> double -> double := SFadd 53 1024.
Definition dsub : double -> double -> double := SFsub 53 1024.
Definition dmul : double -> double -> double := SFmul 53 1024.
Definition ddiv : double -> double -> double := SFdiv 53 1024.
Definition dsqrt : double -> double := SFsqrt 53 1024.
Definition dlt : double -> double -> bool := SFltb.
Definition dle : double -> double -> bool := SFleb.
Definition deq : double -> double -> bool := SFeqb.

(** [static_cast<int>] of a double: truncation towards zero, undefined when
    the result does not fit. *)
Definition d_to_int (x : double) : option Z :=
  let chk z := if (- 2 ^ 31 <=? z) && (z <? 2 ^ 31) then Some z else None in
  match x with
  | S754_zero _ => Some 0
  | S754_finite s m e =>
      let a := if 0 <=? e then Zpos m * 2 ^ e else Zpos m / 2 ^ (- e) in
      chk (if s then - a else a)
  | _ => None
  end.

Declare Scope double_scope.
Delimit Scope double_scope with double.
Infix "+" := dadd : double_scope.
Infix "-" := dsub : double_scope.
Infix "*" := dmul : double_scope.
Infix "/" := ddiv : double_scope.
Infix "<?" := dlt : double_scope.
Infix "<=?" := dle : double_scope.

(** ** Lemmas *)

(** The number of binary digits. *)
Lemma digits2_log2 p : Zpos (digits2_pos p) = Z.log2 (Zpos p) + 1.
Proof.
  induction p as [p IH|p IH|]; cbn [digits2_pos]; [| |done].
  - rewrite Pos2Z.inj_succ, IH. change (Zpos p~1) with (2 * Zpos p + 1).
    rewrite Z.log2_succ_double by lia. lia.
  - rewrite Pos2Z.inj_succ, IH. change (Zpos p~0) with (2 * Zpos p).
    rewrite Z.log2_double by lia. lia.
Qed.

Lemma iter_pos_iter {A} (f : A -> A) p x : SpecFloat.iter_pos f p x = Pos.iter f x p.
Proof.
  revert x; induction p as [p IH|p IH|]; intros x; simpl; rewrite ?IH; try done.
  f_equal. by rewrite <- !Pos.iter_swap.
Qed.

Lemma iter_xO p d : Zpos (Pos.iter xO p d) = Zpos p * 2 ^ Zpos d.
Proof.
  revert p; induction d as [|d IH] using Pos.peano_ind; intros p; [simpl; lia|].
  rewrite Pos.iter_succ. change (Zpos (xO (Pos.iter xO p d))) with (2 * Zpos (Pos.iter xO p d)).
  rewrite IH, Pos2Z.inj_succ, Z.pow_succ_r by lia. lia.
Qed.

Lemma iter_shr_exact m d :
  0 < m ->
  SpecFloat.iter_pos shr_1 d (Build_shr_record (m * 2 ^ Zpos d) false false) = Build_shr_record m false false.
Proof.
  intros Hm. rewrite iter_pos_iter. revert m Hm.
  induction d as [|d IH] using Pos.peano_ind; intros m Hm.
  - destruct m as [|p|p]; [lia| |lia].
    replace (Zpos p * 2 ^ 1) with (Zpos p~0) by lia. reflexivity.
  - rewrite Pos.iter_succ_r, Pos2Z.inj_succ, Z.pow_succ_r by lia.
    replace (m * (2 * 2 ^ Zpos d)) with (2 * (m * 2 ^ Zpos d)) by ring.
    assert (0 < m * 2 ^ Zpos d) by (apply Z.mul_pos_pos; [lia|apply Z.pow_pos_nonneg; lia]).
    destruct (m * 2 ^ Zpos d) as [|p|p] eqn:E; [lia| |lia].
    change (shr_1 (Build_shr_record (2 * Zpos p) false false)) with (Build_shr_record (Zpos p) false false).
    rewrite <- E. by apply IH.
Qed.

(** The significand and exponent of a whole number of at most 53 bits. *)
Definition sig (z : Z) : Z := z * 2 ^ (52 - Z.log2 z).

Definition canon (z : Z) : double := S754_finite false (Z.to_pos (sig z)) (Z.log2 z - 52).

Definition whole (z : Z) : Prop := 0 <= z < 2 ^ 53.

Lemma log2_whole z : 0 < z < 2 ^ 53 -> 0 <= Z.log2 z <= 52.
Proof.
  intros H. split; [apply Z.log2_nonneg|].
  assert (Z.log2 z < 53) by (apply Z.log2_lt_pow2; lia). lia.
Qed.

Lemma sig_pos z : 0 < z < 2 ^ 53 -> 0 < sig z.
Proof.
  intros H. pose proof (log2_whole z H). unfold sig.
  apply Z.mul_pos_pos; [lia|apply Z.pow_pos_nonneg; lia].
Qed.

Lemma log2_shift z k : 0 < z -> 0 <= k -> Z.log2 (z * 2 ^ k) = Z.log2 z + k.
Proof. intros. rewrite Z.log2_mul_pow2 by lia. lia. Qed.

Lemma fexp_small d : 1 <= d <= 53 -> fexp 53 1024 d = d - 53.
Proof. intros H. unfold fexp, emin. lia. Qed.

Lemma round_aux_canon z m e :
  0 < z < 2 ^ 53 -> e <= Z.log2 z - 52 -> m = z * 2 ^ (- e) ->
  binary_round_aux 53 1024 false m e loc_Exact = canon z.
Proof.
  intros Hz He ->. pose proof (log2_whole z Hz) as Hl. pose proof (sig_pos z Hz) as Hs.
  assert (Hd : forall k, 0 <= k -> Zdigits2 (z * 2 ^ k) = Z.log2 z + k + 1).
  { intros k Hk. assert (0 < z * 2 ^ k) by (apply Z.mul_pos_pos; [lia|apply Z.pow_pos_nonneg; lia]).
    rewrite <- log2_shift by lia. destruct (z * 2 ^ k) as [|p|p] eqn:E; try lia.
    simpl. apply digits2_log2. }
  assert (Hm : z * 2 ^ (- e) = sig z * 2 ^ (Z.log2 z - 52 - e)).
  { unfold sig. rewrite <- Z.mul_assoc, <- Z.pow_add_r by lia. do 2 f_equal. lia. }
  unfold binary_round_aux, shr_fexp at 1. rewrite Hd by lia.
  replace (Z.log2 z + - e + 1 + e) with (Z.log2 z + 1) by ring.
  rewrite fexp_small by lia.
  assert (E : shr (shr_record_of_loc (z * 2 ^ (- e)) loc_Exact) e (Z.log2 z + 1 - 53 - e)
              = (Build_shr_record (sig z) false false, Z.log2 z - 52)).
  { rewrite Hm. unfold shr, shr_record_of_loc.
    destruct (Z.log2 z + 1 - 53 - e) as [|p|p] eqn:Ep; [| |lia].
    - replace (Z.log2 z - 52 - e) with 0 by lia. rewrite Z.mul_1_r. f_equal. lia.
    - replace (Z.log2 z - 52 - e) with (Zpos p) by lia. rewrite iter_shr_exact by done.
      f_equal. lia. }
  rewrite E. cbn [shr_m loc_of_shr_record round_nearest_even].
  unfold shr_fexp. unfold sig at 1 2. rewrite Hd by lia.
  replace (Z.log2 z + (52 - Z.log2 z) + 1 + (Z.log2 z - 52)) with (Z.log2 z + 1) by ring.
  rewrite fexp_small by lia. replace (Z.log2 z + 1 - 53 - (Z.log2 z - 52)) with 0 by ring.
  fold (sig z). cbn [shr shr_record_of_loc shr_m].
  unfold canon. destruct (sig z) as [|p|p] eqn:Es; [lia| |lia]. cbn [Z.to_pos].
  destruct (Z.leb_spec (Z.log2 z - 52) (1024 - 53)); [done|lia].
Qed.

Lemma normalize_canon z e s :
  0 < z < 2 ^ 53 -> e <= 0 ->
  binary_normalize 53 1024 (z * 2 ^ (- e)) e s = canon z.
Proof.
  intros Hz He. pose proof (log2_whole z Hz) as Hl.
  assert (Hp : 0 < z * 2 ^ (- e)) by (apply Z.mul_pos_pos; [lia|apply Z.pow_pos_nonneg; lia]).
  pose proof (log2_shift z (- e) ltac:(lia) ltac:(lia)) as Hlog.
  destruct (z * 2 ^ (- e)) as [|p|p] eqn:E; [lia| |lia].
  cbn [binary_normalize]. unfold binary_round. rewrite digits2_log2, Hlog.
  replace (Z.log2 z + - e + 1 + e) with (Z.log2 z + 1) by ring.
  rewrite fexp_small by lia. unfold shl_align.
  destruct (Z.log2 z + 1 - 53 - e) as [|d|d] eqn:Ed.
  - apply round_aux_canon; [done|lia|by rewrite E].
  - apply round_aux_canon; [done|lia|by rewrite E].
  - apply round_aux_canon; [done|lia|]. rewrite iter_xO, <- E, <- Z.mul_assoc, <- Z.pow_add_r by lia.
    do 2 f_equal. lia.
Qed.

Lemma d_of_Z_canon z : 0 < z < 2 ^ 53 -> d_of_Z z = canon z.
Proof.
  intros Hz. unfold d_of_Z. rewrite <- (normalize_canon z 0 false) by lia.
  by rewrite Z.mul_1_r.
Qed.

Lemma d_of_0 : d_of_Z 0 = S754_zero false.
Proof. reflexivity. Qed.

Lemma shl_align_sig z e :
  0 < z < 2 ^ 53 -> e <= Z.log2 z - 52 ->
  Zpos (fst (shl_align (Z.to_pos (sig z)) (Z.log2 z - 52) e)) = z * 2 ^ (- e).
Proof.
  intros Hz He. pose proof (log2_whole z Hz). pose proof (sig_pos z Hz).
  unfold shl_align. destruct (e - (Z.log2 z - 52)) as [|d|d] eqn:Ed; [|lia|].
  - cbn [fst]. rewrite Z2Pos.id by done. unfold sig. do 2 f_equal. lia.
  - cbn [fst]. rewrite iter_xO, Z2Pos.id by done. unfold sig.
    rewrite <- Z.mul_assoc, <- Z.pow_add_r by lia. do 2 f_equal. lia.
Qed.

(** Sums and differences of whole numbers are exact. *)
Lemma dadd_exact a b :
  whole a -> whole b -> whole (a + b) -> (d_of_Z a + d_of_Z b)%double = d_of_Z (a + b).
Proof.
  unfold whole. intros Ha Hb Hab.
  destruct (Z.eq_dec a 0) as [->|Na].
  { rewrite d_of_0, Z.add_0_l. destruct (Z.eq_dec b 0) as [->|Nb]; [done|].
    rewrite d_of_Z_canon by lia. done. }
  destruct (Z.eq_dec b 0) as [->|Nb].
  { rewrite d_of_0, Z.add_0_r, d_of_Z_canon by lia. done. }
  rewrite !d_of_Z_canon by lia. unfold dadd, canon at 1 2. cbn [SFadd cond_Zopp]. cbv zeta.
  pose proof (log2_whole a ltac:(lia)). pose proof (log2_whole b ltac:(lia)).
  rewrite !shl_align_sig by lia. rewrite <- Z.mul_add_distr_r.
  apply normalize_canon; lia.
Qed.

Lemma dsub_exact a b :
  whole a -> whole b -> b <= a -> (d_of_Z a - d_of_Z b)%double = d_of_Z (a - b).
Proof.
  unfold whole. intros Ha Hb Hab.
  destruct (Z.eq_dec b 0) as [->|Nb].
  { rewrite d_of_0, Z.sub_0_r. destruct (Z.eq_dec a 0) as [->|Na]; [done|].
    rewrite d_of_Z_canon by lia. done. }
  rewrite (d_of_Z_canon a), (d_of_Z_canon b) by lia. unfold dsub, canon. cbn [SFsub cond_Zopp].
  cbv zeta. pose proof (log2_whole a ltac:(lia)). pose proof (log2_whole b ltac:(lia)).
  rewrite !shl_align_sig by lia. rewrite <- Z.mul_sub_distr_r.
  destruct (Z.eq_dec (a - b) 0) as [->|]; [done|].
  rewrite normalize_canon by lia. by rewrite d_of_Z_canon by lia.
Qed.

Lemma sig_range z : 0 < z < 2 ^ 53 -> 2 ^ 52 <= sig z < 2 ^ 53.
Proof.
  intros Hz. pose proof (log2_whole z Hz). pose proof (Z.log2_spec z ltac:(lia)) as [H1 H2].
  unfold sig. replace (2 ^ 52) with (2 ^ Z.log2 z * 2 ^ (52 - Z.log2 z))
    by (rewrite <- Z.pow_add_r by lia; f_equal; lia).
  replace (2 ^ 53) with (2 ^ Z.succ (Z.log2 z) * 2 ^ (52 - Z.log2 z))
    by (rewrite <- Z.pow_add_r by lia; f_equal; lia).
  assert (0 < 2 ^ (52 - Z.log2 z)) by (apply Z.pow_pos_nonneg; lia).
  split; [by apply Z.mul_le_mono_pos_r|by apply Z.mul_lt_mono_pos_r].
Qed.

(** Comparison of whole numbers is that of the integers. *)
Lemma dcompare_exact a b :
  whole a -> whole b -> SFcompare (d_of_Z a) (d_of_Z b) = Some (a ?= b).
Proof.
  unfold whole. intros Ha Hb.
  destruct (Z.eq_dec a 0) as [->|Na], (Z.eq_dec b 0) as [->|Nb]; [done| | |].
  - rewrite d_of_0, d_of_Z_canon, (proj2 (Z.compare_lt_iff 0 b)) by lia. done.
  - rewrite d_of_0, d_of_Z_canon, (proj2 (Z.compare_gt_iff a 0)) by lia. done.
  - rewrite !d_of_Z_canon by lia. unfold canon. cbn [SFcompare]. f_equal.
    pose proof (sig_pos a ltac:(lia)). pose proof (sig_pos b ltac:(lia)).
    destruct (Z.compare_spec (Z.log2 a - 52) (Z.log2 b - 52)) as [E|E|E].
    + change (Pos.compare_cont Eq ?x ?y) with (Pos.compare x y).
      rewrite Pos2Z.inj_compare, !Z2Pos.id by done. unfold sig.
      replace (Z.log2 b) with (Z.log2 a) by lia. symmetry. apply Zmult_compare_compat_r.
      pose proof (log2_whole a ltac:(lia)). apply Z.lt_gt, Z.pow_pos_nonneg; lia.
    + symmetry. apply Z.compare_lt_iff. apply Z.log2_lt_cancel. lia.
    + symmetry. apply Z.compare_gt_iff. apply Z.log2_lt_cancel. lia.
Qed.

Lemma dlt_exact a b : whole a -> whole b -> (d_of_Z a <? d_of_Z b)%double = (a <? b).
Proof. intros. unfold dlt, SFltb. rewrite dcompare_exact by done. unfold Z.ltb. by destruct (a ?= b). Qed.

Lemma dle_exact a b : whole a -> whole b -> (d_of_Z a <=? d_of_Z b)%double = (a <=? b).
Proof. intros. unfold dle, SFleb. rewrite dcompare_exact by done. unfold Z.leb. by destruct (a ?= b). Qed.

(** A whole number is below any constant that rounds to an exponent of 1 or
    more. *)
Lemma dlt_large z m e : whole z -> 0 < e -> (d_of_Z z <? S754_finite false m e)%double = true.
Proof.
  unfold whole. intros Hz He. destruct (Z.eq_dec z 0) as [->|]; [done|].
  rewrite d_of_Z_canon by lia. unfold dlt, SFltb, canon. cbn [SFcompare].
  pose proof (log2_whole z ltac:(lia)).
  by rewrite (proj2 (Z.compare_lt_iff (Z.log2 z - 52) e)) by lia.
Qed.

(** Products of whole numbers below 2^53 are exact. *)
Lemma dmul_exact a b :
  whole a -> whole b -> whole (a * b) -> (d_of_Z a * d_of_Z b)%double = d_of_Z (a * b).
Proof.
  unfold whole. intros Ha Hb Hab.
  destruct (Z.eq_dec a 0) as [->|Na].
  { rewrite d_of_0, Z.mul_0_l. destruct (Z.eq_dec b 0) as [->|Nb]; [done|].
    rewrite d_of_Z_canon by lia. done. }
  destruct (Z.eq_dec b 0) as [->|Nb].
  { rewrite d_of_0, Z.mul_0_r, d_of_Z_canon by lia. done. }
  rewrite !d_of_Z_canon by lia. unfold dmul, canon at 1 2. cbn [SFmul xorb].
  pose proof (log2_whole a ltac:(lia)). pose proof (log2_whole b ltac:(lia)).
  pose proof (sig_pos a ltac:(lia)). pose proof (sig_pos b ltac:(lia)).
  pose proof (Z.log2_mul_below a b ltac:(lia) ltac:(lia)).
  apply round_aux_canon; [lia|lia|].
  rewrite Pos2Z.inj_mul, !Z2Pos.id by done. unfold sig.
  transitivity (a * b * (2 ^ (52 - Z.log2 a) * 2 ^ (52 - Z.log2 b))); [ring|].
  rewrite <- Z.pow_add_r by lia. do 2 f_equal. ring.
Qed.

Lemma dlt_irrefl x : (x <? x)%double = false.
Proof.
  unfold dlt, SFltb. destruct x as [s|s| |s m e]; try destruct s; try done; simpl;
    rewrite Z.compare_refl; change (Pos.compare_cont Eq m m) with (Pos.compare m m);
    by rewrite Pos.compare_refl.
Qed.
