(* ===== verification/Histogram.v ===== *)
(** * Histograms (bench/util/histogram.h, bench/util/histogram.cc)

    All members are doubles.  For samples that are whole numbers of
    microseconds and within the range where doubles are exact, the members are
    what they mean to be: counts, sums and extrema of the samples; merging
    histograms is then joining the samples. *)

From Stdlib Require Import SpecFloat.
From S2P Require Import Prelude Double.

Local Open Scope Z_scope.

Module Histogram.

Definition kNumBuckets : nat := 154.

Definition limits : list Z := [
  1; 2; 3; 4; 5; 6; 7; 8; 9; 10; 12; 14; 16; 18; 20; 25; 30; 35; 40; 45;
  50; 60; 70; 80; 90; 100; 120; 140; 160; 180; 200; 250; 300; 350; 400; 450;
  500; 600; 700; 800; 900; 1000; 1200; 1400; 1600; 1800; 2000; 2500; 3000;
  3500; 4000; 4500; 5000; 6000; 7000; 8000; 9000; 10000; 12000; 14000;
  16000; 18000; 20000; 25000; 30000; 35000; 40000; 45000; 50000; 60000;
  70000; 80000; 90000; 100000; 120000; 140000; 160000; 180000; 200000;
  250000; 300000; 350000; 400000; 450000; 500000; 600000; 700000; 800000;
  900000; 1000000; 1200000; 1400000; 1600000; 1800000; 2000000; 2500000;
  3000000; 3500000; 4000000; 4500000; 5000000; 6000000; 7000000; 8000000;
  9000000; 10000000; 12000000; 14000000; 16000000; 18000000; 20000000;
  25000000; 30000000; 35000000; 40000000; 45000000; 50000000; 60000000;
  70000000; 80000000; 90000000; 100000000; 120000000; 140000000; 160000000;
  180000000; 200000000; 250000000; 300000000; 350000000; 400000000;
  450000000; 500000000; 600000000; 700000000; 800000000; 900000000;
  1000000000; 1200000000; 1400000000; 1600000000; 1800000000; 2000000000;
  2500000000; 3000000000; 3500000000; 4000000000; 4500000000;
  5000000000; 6000000000; 7000000000; 8000000000; 9000000000;
  10 ^ 200 ].

(** [kBucketLimit[b]] *)
Definition kBucketLimit (b : nat) : double := d_of_Z (nth b limits 0).

Record Histogram := mkHistogram {
  min_ : double; max_ : double; num_ : double; sum_ : double; sum_squares_ : double;
  buckets_ : list double
}.

Definition Clear (h : Histogram) : Histogram :=
  mkHistogram (kBucketLimit (kNumBuckets - 1)) (d_of_Z 0) (d_of_Z 0) (d_of_Z 0) (d_of_Z 0)
    (replicate kNumBuckets (d_of_Z 0)).

(** [while (b < kNumBuckets - 1 && kBucketLimit[b] <= value) b++], with
    [n] buckets left below the last one. *)
Fixpoint find_bucket (n b : nat) (value : double) : nat :=
  match n with
  | O => b
  | S n' => if dle (kBucketLimit b) value then find_bucket n' (S b) value else b
  end.

Definition Add (h : Histogram) (value : double) : Histogram :=
  let b := find_bucket (kNumBuckets - 1) 0 value in
  mkHistogram
    (if dlt value (min_ h) then value else min_ h)
    (if dlt (max_ h) value then value else max_ h)
    (dadd (num_ h) (d_of_Z 1))
    (dadd (sum_ h) value)
    (dadd (sum_squares_ h) (dmul value value))
    (alter (fun x => dadd x (d_of_Z 1)) b (buckets_ h)).

Definition Merge (h other : Histogram) : Histogram :=
  mkHistogram
    (if dlt (min_ other) (min_ h) then min_ other else min_ h)
    (if dlt (max_ h) (max_ other) then max_ other else max_ h)
    (dadd (num_ h) (num_ other))
    (dadd (sum_ h) (sum_ other))
    (dadd (sum_squares_ h) (sum_squares_ other))
    (zip_with dadd (buckets_ h) (buckets_ other)).

(** The loop of [Percentile] over the buckets from [b] on, with the [sum] of
    those before. *)
Fixpoint percentile_loop (h : Histogram) (threshold : double) (bs : list double) (b : nat)
    (sum : double) : double :=
  match bs with
  | [] => max_ h
  | x :: bs' =>
      let sum' := dadd sum x in
      if dle threshold sum' then
        let left_point := if (b =? 0)%nat then d_of_Z 0 else kBucketLimit (b - 1) in
        let right_point := kBucketLimit b in
        let left_sum := dsub sum' x in
        let right_sum := sum' in
        let pos := ddiv (dsub threshold left_sum) (dsub right_sum left_sum) in
        let r := dadd left_point (dmul (dsub right_point left_point) pos) in
        let r := if dlt r (min_ h) then min_ h else r in
        if dlt (max_ h) r then max_ h else r
      else percentile_loop h threshold bs' (S b) sum'
  end.

Definition Percentile (h : Histogram) (p : double) : double :=
  percentile_loop h (dmul (num_ h) (ddiv p (d_of_Z 100))) (buckets_ h) 0 (d_of_Z 0).

Definition Median (h : Histogram) : double := Percentile h (d_of_Z 50).

Definition Average (h : Histogram) : double :=
  if deq (num_ h) (d_of_Z 0) then d_of_Z 0 else ddiv (sum_ h) (num_ h).

Definition StandardDeviation (h : Histogram) : double :=
  if deq (num_ h) (d_of_Z 0) then d_of_Z 0
  else
    let variance := ddiv (dsub (dmul (sum_squares_ h) (num_ h)) (dmul (sum_ h) (sum_ h)))
                         (dmul (num_ h) (num_ h)) in
    dsqrt variance.

(** ** Specification: the histogram of a list of samples *)
Definition zsum (l : list Z) : Z := fold_right Z.add 0 l.

Definition squares (l : list Z) : list Z := map (fun x => x * x) l.

(** The bucket of a sample: the first whose limit is above it. *)
Fixpoint bucket_from (n b : nat) (v : Z) : nat :=
  match n with
  | O => b
  | S n' => if nth b limits 0 <=? v then bucket_from n' (S b) v else b
  end.

Definition bucket_of (v : Z) : nat := bucket_from (kNumBuckets - 1) 0 v.

Definition count (b : nat) (l : list Z) : Z :=
  zlen (filter (fun v => bucket_of v = b) l).

Fixpoint zmin (l : list Z) : option Z :=
  match l with
  | [] => None
  | x :: l' => Some (match zmin l' with None => x | Some y => Z.min x y end)
  end.

Definition lmin (l : list Z) : double :=
  match zmin l with
  | None => kBucketLimit (kNumBuckets - 1)
  | Some x => d_of_Z x
  end.

Definition lmax (l : list Z) : Z := fold_right Z.max 0 l.

Definition hist_of (l : list Z) : Histogram :=
  mkHistogram (lmin l) (d_of_Z (lmax l)) (d_of_Z (zlen l)) (d_of_Z (zsum l))
    (d_of_Z (zsum (squares l))) (map (fun b => d_of_Z (count b l)) (seq 0 kNumBuckets)).

(** Samples within the range where doubles are exact. *)
Record exact_range (l : list Z) : Prop := {
  range_nonneg : Forall (fun x => 0 <= x) l;
  range_length : zlen l < 2 ^ 53;
  range_squares : zsum (squares l) < 2 ^ 53
}.

(** ** Lemmas *)
Lemma limits_length : length limits = kNumBuckets.
Proof. reflexivity. Qed.

(** All limits but the last are whole numbers a double represents. *)
Lemma limits_whole b : (b < kNumBuckets - 1)%nat -> whole (nth b limits 0).
Proof.
  assert (H : Forall whole (take (kNumBuckets - 1) limits))
    by (repeat constructor; discriminate || reflexivity).
  intros Hb. rewrite <- (firstn_skipn (kNumBuckets - 1) limits).
  rewrite app_nth1 by (rewrite length_firstn, limits_length; lia).
  rewrite Forall_forall in H. apply H, list_elem_of_In, nth_In.
  rewrite length_firstn, limits_length. lia.
Qed.

Lemma last_limit : exists m e, kBucketLimit (kNumBuckets - 1) = S754_finite false m e /\ 0 < e.
Proof. do 2 eexists. split; [vm_compute; reflexivity|reflexivity]. Qed.

Lemma zsum_app l k : zsum (l ++ k) = zsum l + zsum k.
Proof. induction l as [|x l IH]; simpl; [done|]. rewrite IH. lia. Qed.

Lemma squares_app l k : squares (l ++ k) = squares l ++ squares k.
Proof. apply map_app. Qed.

Lemma count_app b l k : count b (l ++ k) = count b l + count b k.
Proof. unfold count. by rewrite filter_app, zlen_app. Qed.

Lemma lmax_app l k : lmax (l ++ k) = Z.max (lmax l) (lmax k).
Proof.
  assert (H : forall k, 0 <= lmax k) by (intros m; induction m; simpl; lia).
  induction l as [|x l IH]; simpl; [specialize (H k); lia|].
  change (fold_right Z.max 0 (l ++ k)) with (lmax (l ++ k)). rewrite IH.
  change (fold_right Z.max 0 l) with (lmax l). lia.
Qed.

Lemma zmin_app l k :
  zmin (l ++ k) = match zmin l, zmin k with
                  | None, m | m, None => m
                  | Some x, Some y => Some (Z.min x y)
                  end.
Proof.
  induction l as [|x l IH]; simpl; [by destruct (zmin k)|]. rewrite IH.
  destruct (zmin l), (zmin k); f_equal; lia.
Qed.

Section range.
Context (l : list Z) (Hl : exact_range l).

Lemma squares_nonneg : 0 <= zsum (squares l) /\ zsum l <= zsum (squares l) /\ 0 <= zsum l.
Proof.
  destruct Hl as [H _ _]. clear Hl. induction H as [|x l' Hx _ IH]; simpl; [lia|]. nia.
Qed.

Lemma lmax_range : 0 <= lmax l <= zsum (squares l).
Proof.
  destruct Hl as [H _ _]. clear Hl. induction H as [|x l' Hx _ IH]; simpl; [lia|].
  unfold lmax, squares, zsum in *. simpl. nia.
Qed.

Lemma zmin_range x : zmin l = Some x -> 0 <= x <= zsum (squares l).
Proof.
  destruct Hl as [H _ _]. clear Hl. revert x.
  induction H as [|y l' Hy _ IH]; simpl; [done|].
  intros x [= <-]. destruct (zmin l') as [z|].
  - specialize (IH z eq_refl). nia.
  - assert (0 <= zsum (squares l')); [|nia].
    clear IH. induction l' as [|a l' IHl]; simpl; [lia|]. nia.
Qed.

Lemma count_range b : 0 <= count b l <= zlen l.
Proof.
  unfold count. split; [apply zlen_nonneg|]. unfold zlen.
  pose proof (length_filter (fun v => bucket_of v = b) l). lia.
Qed.

Lemma range_whole :
  whole (zlen l) /\ whole (zsum l) /\ whole (zsum (squares l)) /\ whole (lmax l) /\
  (forall b, whole (count b l)) /\ (forall x, zmin l = Some x -> whole x).
Proof.
  pose proof squares_nonneg. pose proof lmax_range. destruct Hl as [_ H1 H2].
  pose proof (zlen_nonneg l). unfold whole. split_and!; try lia.
  - intros b. pose proof (count_range b). lia.
  - intros x Hx. pose proof (zmin_range x Hx). lia.
Qed.

End range.

Lemma exact_range_app l k :
  exact_range (l ++ k) -> exact_range l /\ exact_range k.
Proof.
  intros [[Hl Hk]%Forall_app H1 H2]. rewrite zlen_app in H1.
  rewrite squares_app, zsum_app in H2.
  assert (Hnn : forall m, 0 <= zsum (squares m)).
  { intros m. induction m as [|x m IH]; simpl; [lia|]. nia. }
  pose proof (Hnn l). pose proof (Hnn k). pose proof (zlen_nonneg l). pose proof (zlen_nonneg k).
  split; constructor; try done; lia.
Qed.

Lemma lmin_combine l k :
  exact_range l -> exact_range k ->
  (if dlt (lmin k) (lmin l) then lmin k else lmin l) = lmin (l ++ k).
Proof.
  intros Hl Hk. unfold lmin. rewrite zmin_app.
  destruct last_limit as (m & e & -> & He).
  destruct (range_whole l Hl) as (_ & _ & _ & _ & _ & Wl).
  destruct (range_whole k Hk) as (_ & _ & _ & _ & _ & Wk).
  destruct (zmin l) as [x|], (zmin k) as [y|]; simpl.
  - rewrite dlt_exact by auto. destruct (Z.ltb_spec y x); f_equal; lia.
  - destruct (dlt (S754_finite false m e) (d_of_Z x)) eqn:E; [|done].
    exfalso. pose proof (dlt_large x m e (Wl x eq_refl) He) as Hlt. revert E Hlt.
    unfold dlt, SFltb.
    destruct (Z.eq_dec x 0) as [->|]; [simpl; discriminate|].
    specialize (Wl x eq_refl). unfold whole in Wl.
    rewrite d_of_Z_canon by lia. unfold canon. cbn [SFcompare].
    rewrite (Z.compare_antisym (Z.log2 x - 52) e).
    pose proof (log2_whole x ltac:(lia)).
    rewrite (proj2 (Z.compare_lt_iff (Z.log2 x - 52) e)) by lia. discriminate.
  - by rewrite dlt_large by auto.
  - by rewrite dlt_irrefl.
Qed.

Lemma lmax_combine l k :
  exact_range l -> exact_range k ->
  (if dlt (d_of_Z (lmax l)) (d_of_Z (lmax k)) then d_of_Z (lmax k) else d_of_Z (lmax l))
  = d_of_Z (lmax (l ++ k)).
Proof.
  intros Hl Hk. rewrite lmax_app. rewrite dlt_exact by (apply range_whole; done).
  destruct (Z.ltb_spec (lmax l) (lmax k)); f_equal; lia.
Qed.

Lemma Merge_hist l k :
  exact_range (l ++ k) -> Merge (hist_of l) (hist_of k) = hist_of (l ++ k).
Proof.
  intros H. destruct (exact_range_app l k H) as [Hl Hk].
  destruct (range_whole l Hl) as (L1 & L2 & L3 & L4 & L5 & _).
  destruct (range_whole k Hk) as (K1 & K2 & K3 & K4 & K5 & _).
  destruct (range_whole (l ++ k) H) as (A1 & A2 & A3 & A4 & A5 & _).
  unfold Merge, hist_of. cbn [min_ max_ num_ sum_ sum_squares_ buckets_].
  rewrite lmin_combine, lmax_combine by done.
  rewrite zlen_app, zsum_app, squares_app, zsum_app in *.
  rewrite !dadd_exact by done. f_equal.
  apply list_eq. intros i. rewrite lookup_zip_with, !list_lookup_fmap.
  destruct (seq 0 kNumBuckets !! i) as [b|]; simpl; [|done]. f_equal.
  specialize (A5 b). rewrite count_app in *. by apply dadd_exact.
Qed.

Lemma find_bucket_exact v : whole v -> forall n b,
  (b + n <= kNumBuckets - 1)%nat -> find_bucket n b (d_of_Z v) = bucket_from n b v.
Proof.
  intros Hv. induction n as [|n IH]; intros b Hb; cbn [find_bucket bucket_from]; [done|].
  unfold kBucketLimit. rewrite dle_exact by (try done; apply limits_whole; lia).
  case_match; [|done]. apply IH. lia.
Qed.

Lemma bucket_from_spec n : forall b v,
  (b <= bucket_from n b v <= b + n)%nat /\
  (forall i, (b <= i < bucket_from n b v)%nat -> nth i limits 0 <= v) /\
  ((bucket_from n b v < b + n)%nat -> v < nth (bucket_from n b v) limits 0).
Proof.
  induction n as [|n IH]; intros b v; cbn [bucket_from]; [split_and!; lia|].
  destruct (Z.leb_spec (nth b limits 0) v) as [H|H]; [|split_and!; lia].
  destruct (IH (S b) v) as (H1 & H2 & H3). split_and!; [lia..| |].
  - intros i Hi. destruct (decide (i = b)) as [->|]; [done|]. apply H2. lia.
  - intros Hlt. apply H3. lia.
Qed.

Lemma Add_hist l v :
  exact_range (l ++ [v]) -> Add (hist_of l) (d_of_Z v) = hist_of (l ++ [v]).
Proof.
  intros H. destruct (exact_range_app l [v] H) as [Hl Hv].
  destruct (range_whole l Hl) as (_ & _ & _ & _ & L5 & _).
  destruct (range_whole [v] Hv) as (_ & V2 & V3 & _).
  unfold squares, zsum in V2, V3. simpl in V2, V3. rewrite Z.add_0_r in V2, V3.
  destruct Hv as [Hv0 _ _]. inversion Hv0; subst.
  rewrite <- Merge_hist by done. unfold Add, Merge, hist_of.
  cbn [min_ max_ num_ sum_ sum_squares_ buckets_].
  replace (lmax [v]) with v by (unfold lmax; simpl; lia).
  replace (zsum [v]) with v by (unfold zsum; simpl; lia).
  replace (zsum (squares [v])) with (v * v) by (unfold zsum; simpl; lia).
  rewrite dmul_exact by done. f_equal.
  apply list_eq. intros i. rewrite lookup_zip_with, list_lookup_alter.
  rewrite find_bucket_exact by (done || lia). fold (bucket_of v).
  assert (Hc : count i [v] = if decide (bucket_of v = i) then 1 else 0).
  { unfold count. case_decide; [by rewrite filter_cons_True|by rewrite filter_cons_False]. }
  destruct (decide (bucket_of v = i)) as [->|Hne]; rewrite !list_lookup_fmap;
    destruct (seq 0 kNumBuckets !! i) as [b|] eqn:Eb; simpl; try done;
    apply lookup_seq in Eb as [-> Hi]; simpl; rewrite Hc; [done|].
  rewrite (dadd_exact _ 0); [by rewrite Z.add_0_r|done|done|]. rewrite Z.add_0_r. apply L5.
Qed.

Lemma Clear_hist h : Clear h = hist_of [].
Proof. reflexivity. Qed.

Lemma record_hist l k :
  exact_range (k ++ l) -> fold_left Add (map d_of_Z l) (hist_of k) = hist_of (k ++ l).
Proof.
  revert k. induction l as [|v l IH]; intros k H; simpl; [by rewrite app_nil_r|].
  replace (k ++ v :: l) with ((k ++ [v]) ++ l) in * by by rewrite <- app_assoc.
  rewrite Add_hist by (by apply (exact_range_app _ l)). by apply IH.
Qed.

Lemma bucket_of_lt v : (bucket_of v < kNumBuckets)%nat.
Proof.
  unfold bucket_of. pose proof (proj1 (bucket_from_spec (kNumBuckets - 1) 0 v)).
  unfold kNumBuckets in *. lia.
Qed.

Lemma zsum_indicator b n : (b < n)%nat ->
  forall j, zsum (map (fun i => if decide (j + b = i)%nat then 1 else 0) (seq j n)) = 1.
Proof.
  revert b; induction n as [|n IH]; intros b Hb j; [lia|]. cbn [seq map zsum fold_right].
  case_decide.
  - assert (b = 0)%nat by lia. subst. rewrite Nat.add_0_r.
    assert (Hz : forall n j', (j < j')%nat ->
      zsum (map (fun i => if decide (j = i)%nat then 1 else 0) (seq j' n)) = 0).
    { clear. induction n as [|n IH]; intros j' Hj; [done|]. cbn [seq map zsum fold_right].
      rewrite decide_False by lia. apply (IH (S j')). lia. }
    pose proof (Hz n (S j) ltac:(lia)). unfold zsum in *. lia.
  - replace (j + b)%nat with (S j + (b - 1))%nat by lia. apply (IH (b - 1)%nat). lia.
Qed.

Lemma counts_total l :
  zsum (map (fun b => count b l) (seq 0 kNumBuckets)) = zlen l.
Proof.
  induction l as [|v l IH]; [reflexivity|].
  assert (Hc : forall b, count b (v :: l) = (if decide (0 + bucket_of v = b)%nat then 1 else 0) + count b l).
  { intros b. unfold count. rewrite Nat.add_0_l. case_decide.
    - rewrite filter_cons_True by done. apply zlen_cons.
    - by rewrite filter_cons_False by done. }
  rewrite zlen_cons, <- IH, <- (zsum_indicator (bucket_of v) kNumBuckets (bucket_of_lt v) 0).
  generalize (seq 0 kNumBuckets). induction l0 as [|b l0 IHl]; [done|].
  cbn [map zsum fold_right] in *. rewrite Hc. unfold zsum in *. lia.
Qed.

Lemma percentile_loop_clamped h t bs : forall b sum,
  dlt (max_ h) (percentile_loop h t bs b sum) = false /\
  (dlt (max_ h) (min_ h) = false -> dlt (percentile_loop h t bs b sum) (min_ h) = false).
Proof.
  induction bs as [|x bs IH]; intros b sum; cbn [percentile_loop].
  - split; [apply dlt_irrefl|done].
  - cbv zeta. destruct (dle t _); [|apply IH].
    match goal with |- context [dlt ?r0 (min_ h)] => generalize r0 end. intros r.
    destruct (dlt r (min_ h)) eqn:E1.
    + destruct (dlt (max_ h) (min_ h)) eqn:E2; split; intros; try done; apply dlt_irrefl.
    + destruct (dlt (max_ h) r) eqn:E2; split; intros; try done. apply dlt_irrefl.
Qed.

(** ** Properties *)

(** After [Clear] and a run of [Add]s of whole samples, within the range
    where doubles are exact, the members are the number, the sum, the sum of
    squares, the minimum and the maximum of the samples; every bucket holds the
    number of samples between its limits, and the buckets account for every
    sample. *)
Theorem samples_recorded h l (Hr : exact_range l) :
  fold_left Add (map d_of_Z l) (Clear h) = hist_of l /\
  zsum (map (fun b => count b l) (seq 0 kNumBuckets)) = zlen l /\
  (forall v, (forall i, (i < bucket_of v)%nat -> nth i limits 0 <= v) /\
             ((bucket_of v < kNumBuckets - 1)%nat -> v < nth (bucket_of v) limits 0)).
Proof.
  split_and!.
  - rewrite Clear_hist. by apply (record_hist l []).
  - apply counts_total.
  - intros v. destruct (bucket_from_spec (kNumBuckets - 1) 0 v) as (_ & H2 & H3).
    unfold bucket_of. split; [intros i Hi; apply H2; lia|exact H3].
Qed.

Lemma samples_recorded_witness :
  num_ (fold_left Add (map d_of_Z [3; 11; 11]) (Clear (hist_of []))) = d_of_Z 3 /\
  buckets_ (fold_left Add (map d_of_Z [3; 11; 11]) (Clear (hist_of []))) !! 10%nat
    = Some (d_of_Z 2).
Proof.
  destruct (samples_recorded (hist_of []) [3; 11; 11]) as [H _].
  - constructor; [repeat constructor; lia|reflexivity|reflexivity].
  - rewrite H. split; vm_compute; reflexivity.
Defined.

(** C25: merging the histograms of two runs gives the histogram of all their
    samples, in either order. *)
Theorem merge_joins_samples h l k (Hr : exact_range (l ++ k)) :
  Merge (fold_left Add (map d_of_Z l) (Clear h)) (fold_left Add (map d_of_Z k) (Clear h)) =
    fold_left Add (map d_of_Z (l ++ k)) (Clear h) /\
  Merge (hist_of l) (hist_of k) = hist_of (l ++ k).
Proof.
  destruct (exact_range_app l k Hr) as [Hl Hk]. rewrite !Clear_hist.
  rewrite (record_hist l []), (record_hist k []), (record_hist (l ++ k) []) by done.
  split; exact (Merge_hist l k Hr).
Qed.

Lemma merge_joins_samples_witness :
  Merge (hist_of [5; 7]) (hist_of [2]) = hist_of [5; 7; 2].
Proof.
  apply (merge_joins_samples (hist_of []) [5; 7] [2]).
  constructor; [repeat constructor; lia|reflexivity|reflexivity].
Defined.

(** Whatever the members hold, a percentile is never above [max_], and
    not below [min_] when that does not exceed [max_]; but the median of a
    histogram without samples is not a number, whereas the average and the
    standard deviation are zero. *)
Theorem Percentile_clamped h p :
  dlt (max_ h) (Percentile h p) = false /\
  (dlt (max_ h) (min_ h) = false -> dlt (Percentile h p) (min_ h) = false) /\
  Median (Clear h) = S754_nan /\
  Average (Clear h) = d_of_Z 0 /\ StandardDeviation (Clear h) = d_of_Z 0.
Proof.
  unfold Percentile at 1 2.
  destruct (percentile_loop_clamped h (dmul (num_ h) (ddiv p (d_of_Z 100))) (buckets_ h) 0 (d_of_Z 0)).
  split_and!; [done|done|vm_compute; reflexivity..].
Qed.

End Histogram.
