(* ===== verification/DoubleBound.v ===== *)
(** * Bounds on the results of double arithmetic

    [below k x]: [x] is a non-negative finite number less than [2 ^ k].  The
    operations keep numbers below bounds that grow by at most what rounding can
    add; a quotient of counts, scaled by a constant, therefore converts to an
    [int]. *)

From Stdlib Require Import SpecFloat.
From S2P Require Import Prelude Double.

Local Open Scope Z_scope.

Definition below (k : Z) (x : double) : Prop :=
  match x with
  | S754_zero s => s = false
  | S754_finite s m e => s = false /\ e <= k /\ Zpos m < 2 ^ (k - e)
  | _ => False
  end.

Lemma below_mono k k' x : k <= k' -> below k x -> below k' x.
Proof.
  intros Hk. destruct x as [s| | |s m e]; cbn; try done. intros (-> & He & Hm). split_and!; [done|lia|].
  eapply Z.lt_le_trans; [done|]. apply Z.pow_le_mono_r; lia.
Qed.

(** ** Shifting right *)
Lemma shr_1_div r : 0 <= shr_m r -> shr_m (shr_1 r) = shr_m r / 2.
Proof.
  destruct r as [[|[p|p|]|p] r s]; cbn [shr_m shr_1]; intros H; [done| | |done|lia].
  - change (Zpos p~1) with (2 * Zpos p + 1). apply (Z.div_unique_pos _ 2 _ 1); lia.
  - change (Zpos p~0) with (2 * Zpos p). by rewrite Z.mul_comm, Z.div_mul by lia.
Qed.

Lemma iter_shr_div d : forall r, 0 <= shr_m r -> shr_m (SpecFloat.iter_pos shr_1 d r) = shr_m r / 2 ^ Zpos d.
Proof.
  intros r. rewrite iter_pos_iter. revert r. induction d as [|d IH] using Pos.peano_ind; intros r Hr.
  - by apply shr_1_div.
  - rewrite Pos.iter_succ, shr_1_div.
    + rewrite IH by done. rewrite Z.div_div by lia. f_equal. rewrite Pos2Z.inj_succ, Z.pow_succ_r by lia. lia.
    + rewrite IH by done. apply Z.div_pos; lia.
Qed.

Lemma Zdigits2_log2 m : 0 < m -> Zdigits2 m = Z.log2 m + 1.
Proof. destruct m as [|p|p]; [lia| |lia]. intros _. apply digits2_log2. Qed.

Lemma shr_fexp_below k m e l :
  -1000 <= k -> e <= k -> 0 <= m < 2 ^ (k - e) ->
  let '(r, e') := shr_fexp 53 1024 m e l in e' <= k /\ 0 <= shr_m r < 2 ^ (k - e').
Proof.
  intros Hk He Hm. unfold shr_fexp.
  assert (Hr : shr_m (shr_record_of_loc m l) = m) by (by destruct l as [|[]]).
  assert (Hf : fexp 53 1024 (Zdigits2 m + e) <= k).
  { unfold fexp, emin. destruct (Z.eq_dec m 0) as [->|Hne]; [cbn; lia|].
    rewrite Zdigits2_log2 by lia. pose proof (Z.log2_lt_pow2 m (k - e)). lia. }
  unfold shr. destruct (fexp 53 1024 (Zdigits2 m + e) - e) as [|d|d] eqn:Ed; rewrite ?Hr; try done.
  split; [lia|]. rewrite iter_shr_div by (rewrite Hr; lia). rewrite Hr. split; [apply Z.div_pos; lia|].
  apply Z.div_lt_upper_bound; [lia|]. rewrite <- Z.pow_add_r by lia.
  replace (Zpos d + (k - (e + Zpos d))) with (k - e) by lia. lia.
Qed.

(** Rounding at most doubles the bound. *)
Lemma round_aux_below k m e l :
  -1000 <= k <= 900 -> e <= k -> 0 <= m < 2 ^ (k - e) ->
  below (k + 1) (binary_round_aux 53 1024 false m e l).
Proof.
  intros Hk He Hm. unfold binary_round_aux.
  pose proof (shr_fexp_below k m e l ltac:(lia) He Hm) as H1.
  destruct (shr_fexp 53 1024 m e l) as [r e1]. destruct H1 as [He1 Hr].
  set (m2 := round_nearest_even (shr_m r) (loc_of_shr_record r)).
  assert (Hm2 : 0 <= m2 < 2 ^ (k + 1 - e1)).
  { replace (k + 1 - e1) with (Z.succ (k - e1)) by lia. rewrite Z.pow_succ_r by lia.
    unfold m2, round_nearest_even. destruct (loc_of_shr_record r) as [|[]]; try lia.
    destruct (Z.even (shr_m r)); lia. }
  pose proof (shr_fexp_below (k + 1) m2 e1 loc_Exact ltac:(lia) ltac:(lia) Hm2) as H2.
  destruct (shr_fexp 53 1024 m2 e1 loc_Exact) as [r2 e2]. destruct H2 as [He2 Hr2].
  destruct (shr_m r2) as [|p|p]; [done| |lia]. rewrite (proj2 (Z.leb_le e2 _)) by lia. cbn. lia.
Qed.

(** ** Operations *)
Lemma dmul_below a b x y :
  below a x -> below b y -> -1000 <= a + b <= 900 -> below (a + b + 1) (dmul x y).
Proof.
  unfold dmul. destruct x as [s| | |s m e], y as [s'| | |s' m' e']; cbn -[binary_round_aux]; try done.
  - by intros -> ->.
  - by intros -> (-> & _).
  - by intros (-> & _) ->.
  - intros (-> & He & Hm) (-> & He' & Hm') Hab. cbn [xorb]. apply round_aux_below; [lia|lia|].
    rewrite Pos2Z.inj_mul. replace (a + b - (e + e')) with ((a - e) + (b - e')) by lia.
    rewrite Z.pow_add_r by lia. split; [lia|]. apply Z.mul_lt_mono_nonneg; lia.
Qed.

Lemma binary_round_below k p e :
  -1000 <= k <= 900 -> e <= k -> Zpos p < 2 ^ (k - e) -> below (k + 1) (binary_round 53 1024 false p e).
Proof.
  intros Hk He Hp. unfold binary_round, shl_align.
  destruct (fexp 53 1024 (Zpos (digits2_pos p) + e) - e) as [|d|d] eqn:Ed; [apply round_aux_below; lia..|].
  apply round_aux_below; [lia|lia|]. rewrite iter_xO.
  replace (k - fexp 53 1024 (Zpos (digits2_pos p) + e)) with ((k - e) + Zpos d) by lia.
  rewrite Z.pow_add_r by lia. split; [lia|]. apply Z.mul_lt_mono_pos_r; lia.
Qed.

Lemma shl_align_value m e ez : ez <= e -> Zpos (fst (shl_align m e ez)) = Zpos m * 2 ^ (e - ez).
Proof.
  intros He. unfold shl_align. destruct (ez - e) as [|d|d] eqn:Ed; cbn [fst]; [|lia|].
  - replace (e - ez) with 0 by lia. lia.
  - rewrite iter_xO. do 2 f_equal. lia.
Qed.

Lemma dadd_below k x y :
  below k x -> below k y -> -1000 <= k <= 800 -> below (k + 2) (dadd x y).
Proof.
  intros Hx Hy Hk. unfold dadd. destruct x as [s| | |s m e], y as [s'| | |s' m' e']; try done; cbn in Hx, Hy.
  - by subst.
  - by apply (below_mono k); [lia|].
  - by apply (below_mono k); [lia|].
  - destruct Hx as (-> & He & Hm), Hy as (-> & He' & Hm'). cbn [SFadd cond_Zopp].
    set (ez := Z.min e e').
    rewrite !shl_align_value by (unfold ez; lia).
    assert (Hpow : forall p f, ez <= f <= k -> 0 < p < 2 ^ (k - f) -> 0 < p * 2 ^ (f - ez) < 2 ^ (k - ez)).
    { intros p f Hf Hp. pose proof (Z.pow_pos_nonneg 2 (f - ez) ltac:(lia) ltac:(lia)).
      replace (k - ez) with ((k - f) + (f - ez)) by lia. rewrite Z.pow_add_r by lia. nia. }
    pose proof (Hpow (Zpos m) e ltac:(unfold ez; lia) ltac:(lia)).
    pose proof (Hpow (Zpos m') e' ltac:(unfold ez; lia) ltac:(lia)).
    destruct (Zpos m * 2 ^ (e - ez) + Zpos m' * 2 ^ (e' - ez)) as [|p|p] eqn:E; [lia| |lia].
    cbn [binary_normalize]. replace (k + 2) with (k + 1 + 1) by lia. apply binary_round_below; [lia|lia|].
    replace (k + 1 - ez) with (Z.succ (k - ez)) by lia. rewrite Z.pow_succ_r by lia. lia.
Qed.

Lemma d_of_Z_below z k : 0 <= z < 2 ^ 53 -> z < 2 ^ k -> 0 <= k -> below k (d_of_Z z).
Proof.
  intros Hz Hk Hk0. destruct (Z.eq_dec z 0) as [->|Hne]; [done|].
  rewrite d_of_Z_canon by lia. pose proof (log2_whole z ltac:(lia)). pose proof (sig_range z ltac:(lia)).
  assert (Z.log2 z < k) by (apply Z.log2_lt_pow2; lia).
  cbn. split_and!; [done|lia|]. rewrite Z2Pos.id by lia.
  eapply Z.lt_le_trans; [apply H0|]. apply Z.pow_le_mono_r; lia.
Qed.

(** A part of a whole number of things. *)
Lemma ddiv_below c n : 0 < c <= n -> n < 2 ^ 53 -> below 2 (ddiv (d_of_Z c) (d_of_Z n)).
Proof.
  intros Hc Hn. rewrite !d_of_Z_canon by lia. unfold ddiv, canon. cbn [SFdiv xorb].
  pose proof (log2_whole c ltac:(lia)). pose proof (log2_whole n ltac:(lia)).
  pose proof (sig_range c ltac:(lia)) as Hsc. pose proof (sig_range n ltac:(lia)) as Hsn.
  pose proof (Z.log2_le_mono c n ltac:(lia)). rewrite !Z2Pos.id by lia. unfold SFdiv_core_binary.
  assert (Hd : forall z, 2 ^ 52 <= z < 2 ^ 53 -> Zdigits2 z = 53).
  { intros z Hz. rewrite Zdigits2_log2 by lia. rewrite (Z.log2_unique z 52); lia. }
  rewrite !Hd by done. set (e1 := Z.log2 c - 52). set (e2 := Z.log2 n - 52).
  assert (Hf : Z.min (fexp 53 1024 (53 + e1 - (53 + e2))) (e1 - e2) = e1 - e2 - 53).
  { unfold fexp, emin, e1, e2. lia. }
  rewrite Hf. replace (e1 - e2 - (e1 - e2 - 53)) with 53 by lia.
  destruct (Z.div_eucl (Z.shiftl (sig c) 53) (sig n)) as [q r] eqn:Eq.
  assert (Hq : q = Z.shiftl (sig c) 53 / sig n) by (unfold Z.div; by rewrite Eq).
  apply (round_aux_below 1); [lia|unfold e1, e2; lia|]. rewrite Hq, Z.shiftl_mul_pow2 by lia.
  split; [apply Z.div_pos; lia|]. apply (Z.lt_le_trans _ (2 ^ 54)).
  - apply Z.div_lt_upper_bound; [lia|]. lia.
  - apply Z.pow_le_mono_r; [lia|]. unfold e1, e2. lia.
Qed.

(** The conversion to [int] of a small number. *)
Lemma d_to_int_below k x : 0 <= k <= 30 -> below k x -> exists z, d_to_int x = Some z /\ 0 <= z < 2 ^ k.
Proof.
  intros Hk. destruct x as [s| | |s m e]; cbn [below]; try done.
  - intros _. exists 0. split; [done|lia].
  - intros (-> & He & Hm). unfold d_to_int.
    assert (Ha : 0 <= (if 0 <=? e then Zpos m * 2 ^ e else Zpos m / 2 ^ (- e)) < 2 ^ k).
    { destruct (Z.leb_spec 0 e).
      - pose proof (Z.pow_pos_nonneg 2 e ltac:(lia) ltac:(lia)).
        replace k with ((k - e) + e) by lia. rewrite Z.pow_add_r by lia. nia.
      - pose proof (Z.pow_pos_nonneg 2 (- e) ltac:(lia) ltac:(lia)). split; [apply Z.div_pos; lia|].
        apply Z.div_lt_upper_bound; [lia|]. rewrite <- Z.pow_add_r by lia.
        replace (- e + k) with (k - e) by lia. lia. }
    eexists. split; [|exact Ha]. pose proof (Z.pow_le_mono_r 2 k 30).
    rewrite (proj2 (Z.leb_le _ _)), (proj2 (Z.ltb_lt _ _)); [done|lia..].
Qed.
