(* ===== verification/Format.v ===== *)
(** * printf of doubles

    The conversion [%w.pf]: the exact binary value, rounded to [p] decimals to
    nearest, ties to even, as the C library of the build does.  How a NaN is
    shown, with or without a sign, is a parameter. *)

From Stdlib Require Import SpecFloat.
From S2P Require Import Prelude CLib Double.

Local Open Scope Z_scope.

(** The integer nearest to [n / d], ties to even. *)
Definition round_half_even (n d : Z) : Z :=
  let q := n / d in
  let r := n mod d in
  if 2 * r <? d then q else if d <? 2 * r then q + 1 else if Z.even q then q else q + 1.

(** [m * 2 ^ e * 10 ^ p], rounded. *)
Definition scaled (p : nat) (m e : Z) : Z :=
  if 0 <=? e then m * 2 ^ e * 10 ^ Z.of_nat p else round_half_even (m * 10 ^ Z.of_nat p) (2 ^ (- e)).

(** All decimal digits of a non-negative number. *)
Definition digits (n : Z) : bytes := dec_digits (S (Z.to_nat (Z.log2 n))) n [].

(** [n] on exactly [p] digits. *)
Fixpoint fraction (p : nat) (n : Z) : bytes :=
  match p with
  | O => []
  | S p' => fraction p' (n / 10) ++ [48 + n mod 10]
  end.

Definition fixed (p : nat) (n : Z) : bytes :=
  match p with
  | O => digits n
  | _ => digits (n / 10 ^ Z.of_nat p) ++ [46] ++ fraction p (n mod 10 ^ Z.of_nat p)
  end.

Section format.
Variable nan_text : bytes.

Definition sign (s : bool) : bytes := if s then [45] else [].

(** [%.pf] *)
Definition format_f (p : nat) (x : double) : bytes :=
  match x with
  | S754_zero s => sign s ++ fixed p 0
  | S754_infinity s => sign s ++ b!"inf"
  | S754_nan => nan_text
  | S754_finite s m e => sign s ++ fixed p (scaled p (Zpos m) e)
  end.

End format.

(** A field of width [w], adjusted to the right, and to the left. *)
Definition pad_left (w : nat) (s : bytes) : bytes := replicate (w - length s) 32 ++ s.

Definition pad_right (w : nat) (s : bytes) : bytes := s ++ replicate (w - length s) 32.

(** ** Lemmas *)
Lemma pow2_le_pow10 k : 0 <= k -> 2 ^ k <= 10 ^ k.
Proof. intros. apply Z.pow_le_mono_l. lia. Qed.

Lemma digits_fuel n : 0 <= n -> n < 10 ^ Z.of_nat (S (Z.to_nat (Z.log2 n))).
Proof.
  intros Hn. rewrite Nat2Z.inj_succ. pose proof (Z.log2_nonneg n). rewrite Z2Nat.id by done.
  destruct (Z.eq_dec n 0) as [->|Hne]; [done|].
  pose proof (Z.log2_spec n). pose proof (pow2_le_pow10 (Z.succ (Z.log2 n))). lia.
Qed.

Lemma digits_value n : 0 <= n -> dec_value (digits n) = n.
Proof.
  intros Hn. unfold digits. rewrite dec_digits_value; [done|split; [done|by apply digits_fuel]|lia].
Qed.

(** More fuel than there are digits changes nothing. *)
Lemma dec_digits_fuel f g n acc :
  0 <= n < 10 ^ Z.of_nat f -> (0 < f <= g)%nat -> dec_digits g n acc = dec_digits f n acc.
Proof.
  revert g n acc; induction f as [|f IH]; intros [|g] n acc Hn Hf; try lia. cbn [dec_digits].
  destruct (Z.eqb_spec (n / 10) 0) as [|Hne]; [done|].
  rewrite Nat2Z.inj_succ, Z.pow_succ_r in Hn by lia.
  assert (0 <= n / 10 < 10 ^ Z.of_nat f).
  { split; [apply Z.div_pos; lia|]. apply Z.div_lt_upper_bound; lia. }
  destruct f as [|f]; [cbn in *; lia|]. apply IH; lia.
Qed.

Lemma digits_format_llu n : 0 <= n < 2 ^ 64 -> digits n = format_llu n.
Proof.
  intros Hn. unfold digits, format_llu. pose proof (digits_fuel n ltac:(lia)).
  destruct (Nat.le_ge_cases (S (Z.to_nat (Z.log2 n))) 20).
  - symmetry. apply dec_digits_fuel; [split; lia|lia].
  - apply dec_digits_fuel; [|lia]. split; [lia|]. eapply Z.lt_trans; [apply Hn|reflexivity].
Qed.

Lemma length_fraction p n : length (fraction p n) = p.
Proof. revert n; induction p as [|p IH]; intros n; cbn; [done|]. rewrite length_app, IH. cbn. lia. Qed.

Lemma fraction_value p : forall v n,
  0 <= n < 10 ^ Z.of_nat p -> dec_value_from v (fraction p n) = v * 10 ^ Z.of_nat p + n.
Proof.
  induction p as [|p IH]; intros v n Hn; cbn [fraction].
  { cbn in *. lia. }
  rewrite Nat2Z.inj_succ, Z.pow_succ_r in * by lia.
  rewrite dec_value_from_app, IH.
  - unfold dec_value_from. cbn [fold_left]. pose proof (Z.div_mod n 10). lia.
  - split; [apply Z.div_pos; lia|]. apply Z.div_lt_upper_bound; lia.
Qed.

(** The printed digits, read as one number. *)
Lemma fixed_value p n :
  0 <= n -> exists a b, fixed p n = a ++ (if (p =? 0)%nat then [] else [46]) ++ b /\ length b = p /\ dec_value (a ++ b) = n.
Proof.
  intros Hn. destruct p as [|p].
  { exists (digits n), []. cbn. rewrite !app_nil_r. split_and!; [done|done|by apply digits_value]. }
  set (P := 10 ^ Z.of_nat (S p)). assert (0 < P) by (apply Z.pow_pos_nonneg; lia).
  exists (digits (n / P)), (fraction (S p) (n mod P)). split; [done|]. split; [apply length_fraction|].
  unfold dec_value. rewrite dec_value_from_app. fold (dec_value (digits (n / P))).
  rewrite digits_value by (apply Z.div_pos; lia).
  rewrite fraction_value by (apply Z.mod_pos_bound; done). fold P. pose proof (Z.div_mod n P). lia.
Qed.

Lemma round_half_even_nearest n d :
  0 < d -> 2 * Z.abs (n - round_half_even n d * d) <= d.
Proof.
  intros Hd. unfold round_half_even. pose proof (Z.div_mod n d). pose proof (Z.mod_pos_bound n d Hd).
  destruct (Z.ltb_spec (2 * (n mod d)) d); [lia|]. destruct (Z.ltb_spec d (2 * (n mod d))); [lia|].
  destruct (Z.even (n / d)); lia.
Qed.

Lemma round_half_even_exact q d : 0 < d -> round_half_even (q * d) d = q.
Proof.
  intros Hd. unfold round_half_even. rewrite Z.div_mul, Z.mod_mul by lia.
  by rewrite (proj2 (Z.ltb_lt _ _)) by lia.
Qed.

(** Whole numbers are printed exactly. *)
Lemma format_f_whole nt z : whole z -> format_f nt 0 (d_of_Z z) = format_llu z.
Proof.
  intros Hz. destruct (Z.eq_dec z 0) as [->|Hne]; [reflexivity|].
  assert (Hz' : 0 < z < 2 ^ 53) by (unfold whole in Hz; lia).
  rewrite d_of_Z_canon by done. unfold canon. cbn [format_f sign app fixed].
  pose proof (sig_pos z Hz'). rewrite Z2Pos.id by done. pose proof (log2_whole z Hz').
  rewrite <- digits_format_llu by lia. f_equal. unfold scaled, sig. rewrite Z.mul_1_r.
  destruct (Z.leb_spec 0 (Z.log2 z - 52)).
  - replace (Z.log2 z - 52) with 0 by lia. replace (52 - Z.log2 z) with 0 by lia. lia.
  - replace (- (Z.log2 z - 52)) with (52 - Z.log2 z) by lia. rewrite Z.mul_1_r.
    apply round_half_even_exact. apply Z.pow_pos_nonneg; lia.
Qed.
