(* ===== verification/Stats.v ===== *)
(** * Per-thread statistics of the benchmark (bench/bench.cc, class Stats)

    Times are doubles, read from [g_env->NowMicros()]; a reading is an argument
    of the operations that take one.  The counters are [int] and [int64_t], whose
    overflow is undefined.  What [Report] prints is kept as the values it
    formats. *)

From Stdlib Require Import SpecFloat.
From S2P Require Import Prelude CLib Double Histogram.

Local Open Scope Z_scope.

Module Stats.

(** [AppendWithSpace(std::string *str, Slice msg)] *)
Definition AppendWithSpace (s msg : bytes) : bytes :=
  match msg with
  | [] => s
  | _ => (match s with [] => s | _ => s ++ [32] end) ++ msg
  end.

Record Stats := mkStats {
  start_ : double; finish_ : double; seconds_ : double;
  done_ : Z; next_report_ : Z; bytes_ : Z;
  last_op_finish_ : double; hist_ : Histogram.Histogram;
  message_ : bytes; exclude_from_merge_ : bool
}.

(** The constants 1e-6, 1e6 and 1048576.0 *)
Definition d_1em6 : double := ddiv (d_of_Z 1) (d_of_Z 1000000).
Definition d_1e6 : double := d_of_Z 1000000.
Definition d_1048576 : double := d_of_Z 1048576.

(** [Start()], statement by statement: [last_op_finish_] takes the value
    [start_] had before. *)
Definition Start (now : Z) (s : Stats) : Stats :=
  let start := d_of_Z now in
  mkStats start start (d_of_Z 0) 0 100 0 (start_ s) (Histogram.Clear (hist_ s)) [] false.

(** [Stats()] on memory holding [junk].  [Start] reads [start_] before anything has
    been stored in it, which C++ leaves undefined; the model takes it to read the
    value [junk] has there, whatever it is, since otherwise no run of the program
    would have a meaning. *)
Definition new (now : Z) (junk : Stats) : Stats := Start now junk.

Definition Merge (s other : Stats) : outcome Stats :=
  if exclude_from_merge_ other then Normal s
  else
    done ← int_result (done_ s + done_ other);
    bytes ← int64_result (bytes_ s + bytes_ other);
    Normal (mkStats
      (if dlt (start_ other) (start_ s) then start_ other else start_ s)
      (if dlt (finish_ s) (finish_ other) then finish_ other else finish_ s)
      (dadd (seconds_ s) (seconds_ other))
      done (next_report_ s) bytes
      (last_op_finish_ s) (Histogram.Merge (hist_ s) (hist_ other))
      (match message_ s with [] => message_ other | m => m end)
      (exclude_from_merge_ s)).

Definition Stop (now : Z) (s : Stats) : Stats :=
  let finish := d_of_Z now in
  mkStats (start_ s) finish (dmul (dsub finish (start_ s)) d_1em6) (done_ s) (next_report_ s)
    (bytes_ s) (last_op_finish_ s) (hist_ s) (message_ s) (exclude_from_merge_ s).

Definition AddMessage (msg : bytes) (s : Stats) : Stats :=
  mkStats (start_ s) (finish_ s) (seconds_ s) (done_ s) (next_report_ s) (bytes_ s)
    (last_op_finish_ s) (hist_ s) (AppendWithSpace (message_ s) msg) (exclude_from_merge_ s).

Definition SetExcludeFromMerge (s : Stats) : Stats :=
  mkStats (start_ s) (finish_ s) (seconds_ s) (done_ s) (next_report_ s) (bytes_ s)
    (last_op_finish_ s) (hist_ s) (message_ s) true.

(** The step of the progress report. *)
Definition report_step (n : Z) : Z :=
  if n <? 1000 then n + 100
  else if n <? 5000 then n + 500
  else if n <? 10000 then n + 1000
  else if n <? 50000 then n + 5000
  else if n <? 100000 then n + 10000
  else if n <? 500000 then n + 50000
  else n + 100000.

(** [FinishedSingleOp()]; [now] is the clock reading it takes when
    [FLAGS_histogram] is set. *)
Definition FinishedSingleOp (histogram : bool) (now : Z) (s : Stats) : outcome Stats :=
  let '(last, hist) :=
    if histogram then
      let now := d_of_Z now in
      let micros := dsub now (last_op_finish_ s) in
      (now, Histogram.Add (hist_ s) micros)
    else (last_op_finish_ s, hist_ s) in
  done ← int_result (done_ s + 1);
  next ← (if next_report_ s <=? done then int_result (report_step (next_report_ s)) else Normal (next_report_ s));
  Normal (mkStats (start_ s) (finish_ s) (seconds_ s) done next (bytes_ s) last hist (message_ s)
    (exclude_from_merge_ s)).

Definition AddBytes (n : Z) (s : Stats) : outcome Stats :=
  bytes ← int64_result (bytes_ s + n);
  Normal (mkStats (start_ s) (finish_ s) (seconds_ s) (done_ s) (next_report_ s) bytes
    (last_op_finish_ s) (hist_ s) (message_ s) (exclude_from_merge_ s)).

(** What [Report] formats: the rate in MB/s when bytes were counted, the
    message, microseconds per operation, operations per second. *)
Record Line := mkLine {
  line_name : bytes; line_rate : option double; line_message : bytes;
  line_micros : double; line_ops : double; line_hist : option Histogram.Histogram
}.

Definition Report (histogram : bool) (name : bytes) (s : Stats) : Line * Stats :=
  let s := if done_ s <? 1
           then mkStats (start_ s) (finish_ s) (seconds_ s) 1 (next_report_ s) (bytes_ s)
                  (last_op_finish_ s) (hist_ s) (message_ s) (exclude_from_merge_ s)
           else s in
  let rate :=
    if 0 <? bytes_ s then
      let elapsed := dmul (dsub (finish_ s) (start_ s)) d_1em6 in
      Some (ddiv (ddiv (d_of_Z (bytes_ s)) d_1048576) elapsed)
    else None in
  (mkLine name rate (message_ s)
     (ddiv (dmul (seconds_ s) d_1e6) (d_of_Z (done_ s)))
     (ddiv (d_of_Z (done_ s)) (seconds_ s))
     (if histogram then Some (hist_ s) else None), s).

(** ** Lemmas *)

(** [n] finished operations, the [i]th of them at the clock reading [now i]. *)
Fixpoint finish_ops (histogram : bool) (now : nat -> Z) (n : nat) (s : Stats) : outcome Stats :=
  match n with
  | O => Normal s
  | S n' => s ← finish_ops histogram now n' s; FinishedSingleOp histogram (now n') s
  end.

(** What an operation leaves when no counter overflows. *)
Definition finished_op (histogram : bool) (now : Z) (s : Stats) : Stats :=
  let done := done_ s + 1 in
  mkStats (start_ s) (finish_ s) (seconds_ s) done
    (if next_report_ s <=? done then report_step (next_report_ s) else next_report_ s) (bytes_ s)
    (if histogram then d_of_Z now else last_op_finish_ s)
    (if histogram then Histogram.Add (hist_ s) (dsub (d_of_Z now) (last_op_finish_ s)) else hist_ s)
    (message_ s) (exclude_from_merge_ s).

Fixpoint finished_ops (histogram : bool) (now : nat -> Z) (n : nat) (s : Stats) : Stats :=
  match n with O => s | S n' => finished_op histogram (now n') (finished_ops histogram now n' s) end.

Definition with_bytes (n : Z) (s : Stats) : Stats :=
  mkStats (start_ s) (finish_ s) (seconds_ s) (done_ s) (next_report_ s) (bytes_ s + n)
    (last_op_finish_ s) (hist_ s) (message_ s) (exclude_from_merge_ s).

Lemma AddBytes_ok n s : - 2 ^ 63 <= bytes_ s + n < 2 ^ 63 -> AddBytes n s = Normal (with_bytes n s).
Proof. intros H. unfold AddBytes. by rewrite int64_result_ok. Qed.

Lemma report_step_bounds n : 100 <= n -> n + 100 <= report_step n <= n + 100000.
Proof. intros H. unfold report_step. zcases; lia. Qed.

(** The progress counter is always ahead of the operations done. *)
Definition ahead (s : Stats) : Prop :=
  0 <= done_ s < next_report_ s /\ 100 <= next_report_ s <= done_ s + 100000.

(** ... and no counter overflows in the next operation. *)
Definition counting (s : Stats) : Prop := ahead s /\ done_ s < 2 ^ 31 - 200000.

Lemma finished_op_ahead histogram now s :
  ahead s -> ahead (finished_op histogram now s) /\ done_ (finished_op histogram now s) = done_ s + 1.
Proof.
  intros [H1 H2]. unfold ahead, finished_op. cbn [done_ next_report_].
  pose proof (report_step_bounds (next_report_ s) ltac:(lia)).
  destruct (Z.leb_spec (next_report_ s) (done_ s + 1)); split_and!; lia.
Qed.

Lemma FinishedSingleOp_ok histogram now s :
  counting s -> FinishedSingleOp histogram now s = Normal (finished_op histogram now s).
Proof.
  intros [[H1 H2] Hb]. pose proof (report_step_bounds (next_report_ s) ltac:(lia)).
  unfold FinishedSingleOp, finished_op. rewrite (int_result_ok (done_ s + 1)) by lia.
  destruct histogram; cbn [mbind outcome_bind]; (destruct (Z.leb_spec (next_report_ s) (done_ s + 1));
    [rewrite int_result_ok by lia|]; done).
Qed.

Lemma finished_ops_ahead histogram now n s :
  ahead s -> ahead (finished_ops histogram now n s) /\ done_ (finished_ops histogram now n s) = done_ s + Z.of_nat n.
Proof.
  intros Hs. induction n as [|n [Ha Hd]]; cbn [finished_ops]; [split; [done|lia]|].
  destruct (finished_op_ahead histogram (now n) _ Ha). split; [done|lia].
Qed.

Lemma finish_ops_ok histogram now n s :
  ahead s -> done_ s + Z.of_nat n <= 2 ^ 31 - 200000 ->
  finish_ops histogram now n s = Normal (finished_ops histogram now n s).
Proof.
  intros Hs. induction n as [|n IH]; intros Hb; cbn [finish_ops]; [done|].
  rewrite IH by lia. cbn [mbind outcome_bind]. destruct (finished_ops_ahead histogram now n s Hs) as [Ha Hd].
  apply FinishedSingleOp_ok. split; [done|lia].
Qed.

Lemma Start_ahead now s : ahead (Start now s).
Proof. unfold ahead. simpl. lia. Qed.

(** The latencies a run of operations adds to the histogram. *)
Fixpoint latencies (now : nat -> Z) (last : double) (n : nat) : list double :=
  match n with
  | O => []
  | S n' => latencies now last n' ++
            [dsub (d_of_Z (now n')) (match n' with O => last | S m => d_of_Z (now m) end)]
  end.

Lemma finished_ops_hist now n s :
  hist_ (finished_ops true now n s) =
    fold_left Histogram.Add (latencies now (last_op_finish_ s) n) (hist_ s) /\
  last_op_finish_ (finished_ops true now n s) =
    match n with O => last_op_finish_ s | S m => d_of_Z (now m) end.
Proof.
  induction n as [|n [IH1 IH2]]; cbn [finished_ops latencies]; [done|].
  rewrite fold_left_app. unfold finished_op. cbn [hist_ last_op_finish_].
  rewrite IH1, IH2. split; [|done]. by destruct n.
Qed.

(** ** Properties *)

(** After [Start] and [n] finished operations the counter of operations
    is [n] and the next progress report lies ahead of it by at most 100000, and
    no counter overflows, if [n] is not among the last 200000 values of an [int]. *)
Theorem operations_counted histogram start now n s
  (Hn : Z.of_nat n <= 2 ^ 31 - 200000) :
  exists s', finish_ops histogram now n (Start start s) = Normal s' /\
    done_ s' = Z.of_nat n /\ Z.of_nat n < next_report_ s' <= Z.of_nat n + 100000.
Proof.
  eexists. split; [apply finish_ops_ok; [apply Start_ahead|cbn; lia]|].
  destruct (finished_ops_ahead histogram now n (Start start s) (Start_ahead start s)) as [Ha Hd].
  unfold ahead in Ha. simpl in Hd. rewrite Hd in *. split; [done|lia].
Qed.

Lemma operations_counted_witness :
  exists s, finish_ops false (fun _ => 0) 150 (Start 7 (mkStats S754_nan S754_nan S754_nan 0 0 0
    S754_nan (Histogram.hist_of []) [] false)) = Normal s /\ done_ s = 150.
Proof.
  destruct (operations_counted false 7 (fun _ => 0) 150 (mkStats S754_nan S754_nan S754_nan 0 0 0
    S754_nan (Histogram.hist_of []) [] false)) as (s & H1 & H2 & _); [vm_compute; discriminate|].
  exists s. exact (conj H1 H2).
Defined.

(** Close to the end of an [int] the counter of the next report overflows: the
    operation that reaches the last report is undefined. *)
Lemma last_report_overflows histogram now s :
  done_ s + 1 = next_report_ s -> 2 ^ 31 - 100000 <= next_report_ s < 2 ^ 31 ->
  FinishedSingleOp histogram now s = Undefined.
Proof.
  intros Hd Hn. unfold FinishedSingleOp. rewrite Hd, (int_result_ok (next_report_ s)) by lia.
  assert (Er : report_step (next_report_ s) = next_report_ s + 100000) by (unfold report_step; zcases; lia).
  assert (E : int_result (report_step (next_report_ s)) = Undefined) by (rewrite Er; unfold int_result; zcases; done || lia).
  destruct histogram; cbn [mbind outcome_bind]; by rewrite Z.leb_refl, E.
Qed.

(** With histograms on, the first latency a thread records after
    [Start()] runs from the value [start_] held before that call, the time of
    construction, and not from the time of [Start()]; every later one runs from
    the end of the operation before it. *)
Theorem first_latency_from_construction built started now n junk
  (Hw : whole built /\ whole (now 0%nat) /\ built <= now 0%nat) (Hn : Z.of_nat (S n) <= 2 ^ 31 - 200000) :
  let s := Start started (new built junk) in
  (exists s', finish_ops true now (S n) s = Normal s' /\ hist_ s' =
    fold_left Histogram.Add (latencies now (last_op_finish_ s) (S n)) (Histogram.Clear (hist_ junk))) /\
  latencies now (last_op_finish_ s) 1 = [d_of_Z (now 0%nat - built)] /\
  (forall i, latencies now (last_op_finish_ s) (S (S i)) =
     latencies now (last_op_finish_ s) (S i) ++ [dsub (d_of_Z (now (S i))) (d_of_Z (now i))]).
Proof.
  destruct Hw as (H1 & H2 & H3). cbv zeta. split_and!.
  - eexists. split; [apply finish_ops_ok; [apply Start_ahead|cbn [Start done_]; lia]|].
    by rewrite (proj1 (finished_ops_hist now (S n) _)).
  - cbn [latencies]. simpl app. f_equal. by apply dsub_exact.
  - done.
Qed.

Lemma first_latency_from_construction_witness :
  latencies (fun _ => 1500) (last_op_finish_ (Start 1400 (new 1000
    (mkStats S754_nan S754_nan S754_nan 0 0 0 S754_nan (Histogram.hist_of []) [] false)))) 1
  = [d_of_Z 500].
Proof.
  apply (first_latency_from_construction 1000 1400 (fun _ => 1500) 0
    (mkStats S754_nan S754_nan S754_nan 0 0 0 S754_nan (Histogram.hist_of []) [] false)).
  - unfold whole. lia.
  - vm_compute. discriminate.
Defined.

End Stats.
