(* ===== verification/Report.v ===== *)
(** * What is printed of a histogram and of the statistics
    (Histogram::ToString, Stats::Report)

    The lines are written into a buffer of 200 bytes each; numbers are doubles,
    shown by [format_f].  The argument [nan_text] is how the C library shows a
    NaN. *)

From Stdlib Require Import SpecFloat.
From S2P Require Import Prelude CLib Double DoubleBound Format Histogram Stats.

Local Open Scope Z_scope.
Import Histogram.

Section report.
Variable nan_text : bytes.

Abbreviation f p x := (format_f nan_text p x).

Definition d_half : double := ddiv (d_of_Z 1) (d_of_Z 2).

(** The percentages [99.9] and [99.99]. *)
Definition d_99_9 : double := ddiv (d_of_Z 999) (d_of_Z 10).
Definition d_99_99 : double := ddiv (d_of_Z 9999) (d_of_Z 100).

(** ** Histogram::ToString *)
Definition count_line (h : Histogram) : bytes :=
  snprintf 200 (b!"Count: " ++ f 0 (num_ h) ++ b!"  Average: " ++ f 4 (Average h) ++
                b!"  StdDev: " ++ f 2 (StandardDeviation h) ++ [10]).

Definition min_line (h : Histogram) : bytes :=
  snprintf 200 (b!"Min: " ++ f 4 (if deq (num_ h) (d_of_Z 0) then d_of_Z 0 else min_ h) ++
                b!"  Median: " ++ f 4 (Median h) ++ b!"  Max: " ++ f 4 (max_ h) ++ [10]).

Definition percentile_line (h : Histogram) : bytes :=
  snprintf 200 (b!"Percentiles: P50: " ++ f 2 (Percentile h (d_of_Z 50)) ++
                b!" P75: " ++ f 2 (Percentile h (d_of_Z 75)) ++
                b!" P99: " ++ f 2 (Percentile h (d_of_Z 99)) ++
                b!" P99.9: " ++ f 2 (Percentile h d_99_9) ++
                b!" P99.99: " ++ f 2 (Percentile h d_99_99) ++ [10]).

(** the bucket [b], which holds [x], and the sum up to it *)
Definition bucket_text (h : Histogram) (b : nat) (x sum : double) : bytes :=
  let mult := ddiv (d_of_Z 100) (num_ h) in
  snprintf 200 (b!"[ " ++ pad_left 7 (f 0 (if (b =? 0)%nat then d_of_Z 0 else kBucketLimit (b - 1))) ++
                b!", " ++ pad_left 7 (f 0 (kBucketLimit b)) ++
                b!" ) " ++ pad_left 7 (f 0 x) ++
                b!" " ++ pad_left 7 (f 3 (dmul mult x)) ++
                b!"% " ++ pad_left 7 (f 3 (dmul mult sum)) ++ b!"% ").

(** The hash marks of a bucket; [append] of a negative number throws. *)
Definition hash_marks (h : Histogram) (x : double) : outcome bytes :=
  marks ← defined (d_to_int (dadd (dmul (d_of_Z 20) (ddiv x (num_ h))) d_half));
  if marks <? 0 then Thrown b!"basic_string::_M_replace_aux" else Normal (replicate (Z.to_nat marks) 35).

(** The loop over the buckets from [b] on, with the [sum] of those before. *)
Fixpoint bucket_rows (h : Histogram) (bs : list double) (b : nat) (sum : double) : outcome bytes :=
  match bs with
  | [] => Normal []
  | x :: bs' =>
      if dle x (d_of_Z 0) then bucket_rows h bs' (S b) sum
      else
        let sum := dadd sum x in
        let line := bucket_text h b x sum in
        hashes ← hash_marks h x;
        rest ← bucket_rows h bs' (S b) sum;
        Normal (line ++ hashes ++ [10] ++ rest)
  end.

Definition ToString (h : Histogram) : outcome bytes :=
  rows ← bucket_rows h (buckets_ h) 0 (d_of_Z 0);
  Normal (count_line h ++ min_line h ++ percentile_line h ++
          b!"------------------------------------------------------" ++ [10] ++ rows).

(** ** Stats::Report *)
Definition report_text (l : Stats.Line) : outcome bytes :=
  let extra := match Stats.line_rate l with
               | None => []
               | Some r => snprintf 100 (pad_left 6 (f 1 r) ++ b!" MB/s")
               end in
  let extra := Stats.AppendWithSpace extra (Stats.line_message l) in
  hist ← match Stats.line_hist l with
         | None => Normal []
         | Some h => text ← ToString h; Normal (b!"Microseconds per op:" ++ [10] ++ c_str text ++ [10])
         end;
  Normal (pad_right 12 (c_str (Stats.line_name l)) ++ b!" : " ++ pad_left 11 (f 3 (Stats.line_micros l)) ++
          b!" micros/op " ++ f 0 (Stats.line_ops l) ++ b!" ops/sec;" ++
          match extra with [] => [] | _ => b!" " end ++ c_str extra ++ [10] ++ hist).

(** ** Lemmas *)

(** What a row shows of the samples [l]: the limits and the number of samples. *)
Definition row_start (l : list Z) (b : nat) : bytes :=
  b!"[ " ++ pad_left 7 (if (b =? 0)%nat then b!"0" else format_llu (nth (b - 1) limits 0)) ++
  b!", " ++ pad_left 7 (f 0 (kBucketLimit b)) ++ b!" ) " ++ pad_left 7 (format_llu (count b l)).

(** A row: its start, what follows it in the buffer, and the marks. *)
Definition row_of (l : list Z) (b : nat) (row : bytes) : Prop :=
  (b < kNumBuckets)%nat /\ exists rest marks, (marks < 1024)%nat /\
    row = snprintf 200 (row_start l b ++ rest) ++ replicate marks 35 ++ [10].

Lemma hash_marks_defined l b :
  exact_range l -> 0 < count b l ->
  exists k, (k < 1024)%nat /\ hash_marks (hist_of l) (d_of_Z (count b l)) = Normal (replicate k 35).
Proof.
  intros Hr Hc. unfold hash_marks. cbn [num_ hist_of].
  pose proof (count_range l b). pose proof (range_length l Hr).
  assert (Hq : below 2 (ddiv (d_of_Z (count b l)) (d_of_Z (zlen l)))) by (apply ddiv_below; lia).
  assert (H20 : below 5 (d_of_Z 20)) by (apply d_of_Z_below; lia).
  assert (Hm : below 8 (dmul (d_of_Z 20) (ddiv (d_of_Z (count b l)) (d_of_Z (zlen l)))))
    by (apply (dmul_below 5 2); [done|done|lia]).
  assert (Hh : below 8 d_half) by (vm_compute; split_and!; [done|done|done]).
  destruct (d_to_int_below 10 _ ltac:(lia) (dadd_below 8 _ _ Hm Hh ltac:(lia))) as (z & -> & Hz).
  cbn [defined mbind outcome_bind]. rewrite (proj2 (Z.ltb_ge z 0)) by lia.
  exists (Z.to_nat z). split; [lia|done].
Qed.

Lemma bucket_text_start l b sum :
  exact_range l -> (b < kNumBuckets)%nat ->
  exists rest, bucket_text (hist_of l) b (d_of_Z (count b l)) sum = snprintf 200 (row_start l b ++ rest).
Proof.
  intros Hr Hb. unfold bucket_text, row_start. pose proof (count_range l b). pose proof (range_length l Hr).
  assert (Hleft : f 0 (if (b =? 0)%nat then d_of_Z 0 else kBucketLimit (b - 1)) =
                  if (b =? 0)%nat then b!"0" else format_llu (nth (b - 1) limits 0)).
  { destruct (Nat.eqb_spec b 0); [reflexivity|]. apply format_f_whole, limits_whole. lia. }
  rewrite Hleft, (format_f_whole nan_text (count b l)) by (unfold whole; lia).
  eexists. rewrite <- !app_assoc. reflexivity.
Qed.

(** The buckets with samples, in order. *)
Definition nonempty (l : list Z) (bs : list nat) : list nat := filter (fun b => 0 < count b l) bs.

Lemma bucket_rows_ok l : exact_range l -> forall n b sum,
  (b + n = kNumBuckets)%nat ->
  exists rows, bucket_rows (hist_of l) (map (fun b => d_of_Z (count b l)) (seq b n)) b sum = Normal (concat rows) /\
    Forall2 (row_of l) (nonempty l (seq b n)) rows.
Proof.
  intros Hr. induction n as [|n IH]; intros b sum Hb; cbn [seq map bucket_rows].
  { exists []. split; [done|constructor]. }
  pose proof (count_range l b) as Hc. pose proof (range_length l Hr) as Hl.
  rewrite dle_exact by (unfold whole; lia). unfold nonempty. rewrite filter_cons.
  destruct (Z.leb_spec (count b l) 0) as [Hz|Hz].
  - rewrite decide_False by lia. apply IH. lia.
  - rewrite decide_True by lia.
    destruct (hash_marks_defined l b Hr Hz) as (k & Hk & ->). cbn [mbind outcome_bind].
    destruct (IH (S b) (dadd sum (d_of_Z (count b l))) ltac:(lia)) as (rows & -> & Hrows).
    cbn [mbind outcome_bind].
    destruct (bucket_text_start l b (dadd sum (d_of_Z (count b l))) Hr ltac:(lia)) as (rest & Et).
    exists ((snprintf 200 (row_start l b ++ rest) ++ replicate k 35 ++ [10]) :: rows). split.
    + cbn [concat]. rewrite Et, <- !app_assoc. done.
    + constructor; [|exact Hrows]. split; [lia|]. by exists rest, k.
Qed.

(** The start of every row but the last fits the buffer. *)
Lemma length_pad_left w s : (length (pad_left w s) <= w + length s)%nat.
Proof. unfold pad_left. rewrite length_app, length_replicate. lia. Qed.

Lemma row_start_fits l b : (b < kNumBuckets - 1)%nat -> zlen (row_start l b) < 199.
Proof.
  intros Hb. unfold row_start, zlen. rewrite !length_app.
  change (length b!"[ ") with 2%nat. change (length b!", ") with 2%nat. change (length b!" ) ") with 3%nat.
  unfold kBucketLimit. rewrite format_f_whole by by apply limits_whole.
  set (left := if (b =? 0)%nat then b!"0" else format_llu (nth (b - 1) limits 0)).
  assert (Hleft : (length left <= 20)%nat).
  { unfold left. destruct (b =? 0)%nat; [change (length b!"0") with 1%nat; lia|apply format_llu_length]. }
  pose proof (length_pad_left 7 left). pose proof (length_pad_left 7 (format_llu (nth b limits 0))).
  pose proof (length_pad_left 7 (format_llu (count b l))). pose proof (format_llu_length (nth b limits 0)).
  pose proof (format_llu_length (count b l)). lia.
Qed.

Lemma snprintf_keeps n (a b : bytes) : zlen a < n -> exists c, snprintf n (a ++ b) = a ++ c.
Proof.
  intros Ha. unfold snprintf. rewrite take_app_ge by (unfold zlen in Ha; lia). by eexists.
Qed.

(** The last row is cut off before its count: its upper limit has 201 digits. *)
Lemma last_row_cut l k rest rest' :
  snprintf 200 (row_start l (kNumBuckets - 1) ++ rest) = snprintf 200 (row_start k (kNumBuckets - 1) ++ rest').
Proof.
  set (a := b!"[ " ++ pad_left 7 (if (kNumBuckets - 1 =? 0)%nat then b!"0"
              else format_llu (nth (kNumBuckets - 1 - 1) limits 0)) ++ b!", "
              ++ pad_left 7 (f 0 (kBucketLimit (kNumBuckets - 1)))).
  assert (Ha : (199 <= length a)%nat) by (unfold a; vm_compute; lia).
  assert (Hrow : forall m r, row_start m (kNumBuckets - 1) ++ r =
            a ++ (b!" ) " ++ pad_left 7 (format_llu (count (kNumBuckets - 1) m))) ++ r)
    by (intros; unfold row_start, a; rewrite <- !app_assoc; reflexivity).
  unfold snprintf. rewrite !Hrow. clear Hrow. clearbody a. rewrite !take_app_le by (cbn; lia). done.
Qed.

(** ** Properties *)

(** C38: [ToString] shows the samples.  For samples in the range where doubles
    are exact, it returns: the first line starts with the exact number of
    samples, and there is one row for every bucket that has samples, in order,
    and no other.  A row starts with the limits of its bucket and the exact
    number of samples in it, and ends with its marks and a newline; only the
    row of the last bucket is cut off before the count. *)
Theorem histogram_shows_samples l :
  exact_range l ->
  exists head rows,
    ToString (hist_of l) = Normal (b!"Count: " ++ format_llu (zlen l) ++ head ++ concat rows) /\
    Forall2 (fun b row => exists rest marks,
      (if (b =? kNumBuckets - 1)%nat
       then row = snprintf 200 (row_start [] b) ++ replicate marks 35 ++ [10]
       else row = row_start l b ++ rest ++ replicate marks 35 ++ [10]))
      (nonempty l (seq 0 kNumBuckets)) rows.
Proof.
  intros Hr. unfold ToString.
  destruct (bucket_rows_ok l Hr kNumBuckets 0 (d_of_Z 0) eq_refl) as (rows & Erows & Hrows).
  cbn [buckets_ hist_of]. rewrite Erows. cbn [mbind outcome_bind].
  assert (Hcount : exists c, count_line (hist_of l) = b!"Count: " ++ format_llu (zlen l) ++ c).
  { unfold count_line. cbn [num_ hist_of]. rewrite format_f_whole by (split; [apply zlen_nonneg|apply Hr]).
    rewrite app_assoc. destruct (snprintf_keeps 200 (b!"Count: " ++ format_llu (zlen l))
      (b!"  Average: " ++ f 4 (Average (hist_of l)) ++ b!"  StdDev: " ++ f 2 (StandardDeviation (hist_of l)) ++ [10]))
      as [c ->]; [|exists c; by rewrite <- app_assoc].
    rewrite zlen_app. change (zlen b!"Count: ") with 7. pose proof (format_llu_length (zlen l)).
    unfold zlen at 1. lia. }
  destruct Hcount as [c ->]. exists (c ++ min_line (hist_of l) ++ percentile_line (hist_of l) ++
    b!"------------------------------------------------------" ++ [10]), rows.
  split; [f_equal; rewrite <- !app_assoc; reflexivity|].
  apply (Forall2_impl _ _ _ _ Hrows). intros b row (Hb & rest & marks & _ & ->).
  destruct (Nat.eqb_spec b (kNumBuckets - 1)) as [->|Hne].
  - exists [], marks. rewrite (last_row_cut l [] rest []). by rewrite app_nil_r.
  - destruct (snprintf_keeps 200 (row_start l b) rest) as [tl ->].
    + pose proof (row_start_fits l b). lia.
    + exists tl, marks. by rewrite <- app_assoc.
Qed.

End report.

(** Two samples in the first bucket, and one in another. *)
Lemma histogram_shows_samples_witness :
  exact_range [0; 0; 20] /\
  exists head rows, ToString b!"-nan" (hist_of [0; 0; 20]) = Normal (b!"Count: 3" ++ head ++ concat rows) /\
    length rows = 2%nat.
Proof.
  assert (Hr : exact_range [0; 0; 20]) by (split; [by repeat constructor|vm_compute; reflexivity..]).
  split; [done|]. destruct (histogram_shows_samples b!"-nan" [0; 0; 20] Hr) as (head & rows & E & Hf).
  exists head, rows. split; [exact E|]. apply Forall2_length in Hf. rewrite <- Hf. vm_compute. reflexivity.
Defined.
