(* ===== verification/Progress.v ===== *)
(** * What a thread says while it works (bench/bench.cc, Stats::FinishedSingleOp)

    The text [FinishedSingleOp] writes to stderr: the operation that took long,
    when histograms are on, and the number of operations done, which it shows
    less and less often. *)

From Stdlib Require Import SpecFloat.
From S2P Require Import Prelude CLib Double Format Histogram Stats.

Local Open Scope Z_scope.

(** ** The text *)

(** ["%30s\r"] of the empty string *)
Definition blanks : bytes := pad_left 30 [] ++ [13].

(** ["... finished %d ops%30s\r"] *)
Definition progress_line (done : Z) : bytes := b!"... finished " ++ format_d done ++ b!" ops" ++ blanks.

(** ["long op: %.1f micros%30s\r"] *)
Definition long_op_line (nan_text : bytes) (micros : double) : bytes :=
  b!"long op: " ++ format_f nan_text 1 micros ++ b!" micros" ++ blanks.

(** What [FinishedSingleOp()] writes; [now] is the clock reading it takes. *)
Definition op_stderr (nan_text : bytes) (histogram : bool) (now : Z) (s : Stats.Stats) : bytes :=
  (if histogram then
     let micros := dsub (d_of_Z now) (Stats.last_op_finish_ s) in
     if dlt (d_of_Z 20000) micros then long_op_line nan_text micros else []
   else []) ++
  (let done := Stats.done_ s + 1 in
   if Stats.next_report_ s <=? done then progress_line done else []).

(** What [n] operations write, the [i]th of them at the clock reading [now i]. *)
Fixpoint ops_stderr (nan_text : bytes) (histogram : bool) (now : nat -> Z) (n : nat) (s : Stats.Stats)
  : outcome bytes :=
  match n with
  | O => Normal []
  | S n' =>
      out ← ops_stderr nan_text histogram now n' s;
      s ← Stats.finish_ops histogram now n' s;
      _ ← Stats.FinishedSingleOp histogram (now n') s;
      Normal (out ++ op_stderr nan_text histogram (now n') s)
  end.

(** ** When the count is shown *)

(** The distance of two reports at [k] operations. *)
Definition report_distance (k : Z) : Z :=
  if k <=? 1000 then 100
  else if k <=? 5000 then 500
  else if k <=? 10000 then 1000
  else if k <=? 50000 then 5000
  else if k <=? 100000 then 10000
  else if k <=? 500000 then 50000
  else 100000.

Definition milestone (k : Z) : bool := k mod report_distance k =? 0.

(** [next] is the first milestone after [done]. *)
Definition next_milestone (done next : Z) : Prop :=
  done < next /\ milestone next = true /\ forall k, done < k < next -> milestone k = false.

Lemma milestone_step next :
  0 < next -> milestone next = true -> next_milestone next (Stats.report_step next).
Proof.
  unfold next_milestone, milestone, report_distance, Stats.report_step. rewrite !Z.eqb_eq. intros Hp Hm.
  split; [|split].
  - zcases; lia.
  - revert Hm. zcases; Z.to_euclidean_division_equations; lia.
  - intros k. rewrite Z.eqb_neq. revert Hm. zcases; Z.to_euclidean_division_equations; lia.
Qed.

(** The counter of the next report is the next milestone. *)
Lemma next_report_milestone histogram start now n s :
  next_milestone (Z.of_nat n) (Stats.next_report_ (Stats.finished_ops histogram now n (Stats.Start start s))).
Proof.
  induction n as [|n IH].
  - cbn [Stats.finished_ops Stats.Start Stats.next_report_]. split; [lia|]. split; [reflexivity|].
    intros k Hk. unfold milestone, report_distance. rewrite (proj2 (Z.leb_le k 1000)) by lia.
    apply Z.eqb_neq. rewrite Z.mod_small; lia.
  - destruct (Stats.finished_ops_ahead histogram now n (Stats.Start start s)
      (Stats.Start_ahead start s)) as [[_ Ha] Hd]. cbn [Stats.finished_ops].
    set (s1 := Stats.finished_ops _ _ _ _) in *. clearbody s1.
    assert (Hd1 : Stats.done_ s1 = Z.of_nat n) by (cbn in Hd; lia). clear Hd.
    cbn [Stats.finished_op Stats.next_report_]. rewrite Hd1. destruct IH as (H1 & H2 & H3).
    destruct (Z.leb_spec (Stats.next_report_ s1) (Z.of_nat n + 1)).
    + replace (Z.of_nat (S n)) with (Stats.next_report_ s1) by lia. apply milestone_step; [lia|done].
    + split; [lia|]. split; [done|]. intros k Hk. apply H3. lia.
Qed.

(** ** Properties *)

(** Without histograms, a thread that has finished [n] operations has shown
    exactly the milestones up to [n], in their order: every hundred operations
    up to a thousand, then every 500, 1000, 5000, 10000 and 50000, and from half
    a million on every 100000. *)
Theorem progress_shown nan_text start now n s (Hn : Z.of_nat n <= 2 ^ 31 - 200000) :
  ops_stderr nan_text false now n (Stats.Start start s) =
    Normal (concat (map progress_line (filter (fun k => milestone k = true) (map (fun i => Z.of_nat (S i)) (seq 0 n))))).
Proof.
  induction n as [|n IH]; [done|]. cbn [ops_stderr]. rewrite IH by lia. clear IH.
  pose proof (next_report_milestone false start now n s) as (H1 & H2 & H3).
  destruct (Stats.finished_ops_ahead false now n (Stats.Start start s) (Stats.Start_ahead start s)) as [Ha Hd].
  rewrite Stats.finish_ops_ok by (apply Stats.Start_ahead || (cbn; lia)). cbn [mbind outcome_bind].
  set (s1 := Stats.finished_ops _ _ _ _) in *. clearbody s1.
  assert (Hd1 : Stats.done_ s1 = Z.of_nat n) by (cbn in Hd; lia).
  rewrite Stats.FinishedSingleOp_ok by (split; [done|lia]). cbn [mbind outcome_bind]. f_equal.
  rewrite seq_S, map_app, filter_app, map_app, concat_app. f_equal. cbn [map plus].
  unfold op_stderr. cbn [app]. rewrite Hd1.
  replace (Z.of_nat n + 1) with (Z.of_nat (S n)) by lia. cbv zeta.
  destruct (Z.leb_spec (Stats.next_report_ s1) (Z.of_nat (S n))).
  - replace (Stats.next_report_ s1) with (Z.of_nat (S n)) in H2 by lia.
    rewrite filter_cons_True by done. cbn [filter list_filter map concat]. by rewrite app_nil_r.
  - rewrite filter_cons_False; [done|]. rewrite H3 by lia. done.
Qed.

(** The first reports of a run. *)
Lemma progress_shown_witness :
  ops_stderr b!"-nan" false (fun _ => 0) 1700 (Stats.Start 0 (Stats.mkStats S754_nan S754_nan S754_nan 0 0 0
    S754_nan (Histogram.hist_of []) [] false)) =
  Normal (concat (map progress_line [100; 200; 300; 400; 500; 600; 700; 800; 900; 1000; 1500])).
Proof. rewrite progress_shown by (vm_compute; discriminate). vm_compute. reflexivity. Defined.
