(* ===== verification/TestUtil.v ===== *)
(** * Random test data (bench/util/testutil.cc, class RandomGenerator of bench/bench.cc)

    Strings of random characters, strings that repeat a random piece, and the
    generator of values the benchmark writes.  A conversion of a negative
    length to [size_t] makes the string functions throw [std::length_error]. *)

From Stdlib Require Import SpecFloat.
From S2P Require Import Prelude CLib Slice Random Double.

Local Open Scope Z_scope.

(** [std::length_error], as thrown by [resize] and [append] *)
Definition length_error {A} : outcome A := Thrown b!"length_error".

(** The largest size of a [std::string] of libstdc++. *)
Definition max_size : Z := 2 ^ 63 - 1.

(** [s.resize(n)] for a [size_t] n *)
Definition resize (s : bytes) (n : Z) : bytes :=
  take (Z.to_nat n) s ++ replicate (Z.to_nat n - length s) 0.

Module TestUtil.

(** The loop of [RandomString]: the characters of indices [len - n, len). *)
Fixpoint random_chars (n : nat) (rnd : Random.Random) : outcome (Random.Random * bytes) :=
  match n with
  | O => Normal (rnd, [])
  | S n' =>
      '(rnd, u) ← defined (Random.Uniform rnd 95);
      '(rnd, l) ← random_chars n' rnd;
      Normal (rnd, (32 + u) mod 256 :: l)
  end.

(** [RandomString(rnd, len, dst)]: the generator after it and [*dst]. *)
Definition RandomString (rnd : Random.Random) (len : Z) : outcome (Random.Random * bytes) :=
  if max_size <? u64 len then length_error
  else random_chars (Z.to_nat len) rnd.

Definition kTestChars : bytes := [0; 1; 97; 98; 99; 100; 101; 253; 254; 255].

Fixpoint random_key_loop (n : nat) (rnd : Random.Random) (result : bytes)
  : outcome (Random.Random * bytes) :=
  match n with
  | O => Normal (rnd, result)
  | S n' =>
      '(rnd, u) ← defined (Random.Uniform rnd 10);
      c ← defined (kTestChars !! Z.to_nat u);
      random_key_loop n' rnd (result ++ [c])
  end.

Definition RandomKey (rnd : Random.Random) (len : Z) : outcome (Random.Random * bytes) :=
  random_key_loop (Z.to_nat len) rnd [].

(** [while (dst->size() < len) dst->append(raw_data)]; [raw_data] is not empty,
    so [len] rounds are enough. *)
Fixpoint append_until (fuel : nat) (len : Z) (raw_data dst : bytes) : bytes :=
  match fuel with
  | O => dst
  | S fuel' => if zlen dst <? len then append_until fuel' len raw_data (dst ++ raw_data) else dst
  end.

Definition CompressibleString (rnd : Random.Random) (compressed_fraction : double) (len : Z)
  : outcome (Random.Random * bytes) :=
  raw ← defined (d_to_int (dmul (d_of_Z len) compressed_fraction));
  let raw := if raw <? 1 then 1 else raw in
  '(rnd, raw_data) ← RandomString rnd raw;
  let dst := append_until (Z.to_nat len) len raw_data [] in
  Normal (rnd, resize dst len).

End TestUtil.

Module RandomGenerator.

Record RandomGenerator := mkGen { data_ : bytes; pos_ : Z }.

Definition FLAGS_compression_ratio : double := d_of_Z 1.

(** The loop of the constructor; each round appends 100 bytes. *)
Fixpoint fill (fuel : nat) (bound : Z) (rnd : Random.Random) (data : bytes) : outcome bytes :=
  match fuel with
  | O => Normal data
  | S fuel' =>
      if zlen data <? bound then
        '(rnd, piece) ← TestUtil.CompressibleString rnd FLAGS_compression_ratio 100;
        fill fuel' bound rnd (data ++ piece)
      else Normal data
  end.

(** [RandomGenerator()] *)
Definition new (FLAGS_value_size : Z) : outcome RandomGenerator :=
  let bound := u32 (Z.max 1048576 FLAGS_value_size) in
  data ← fill (Z.to_nat (bound / 100 + 1)) bound (Random.new 301) [];
  Normal (mkGen data 0).

(** [Generate(unsigned int len)].  The build defines NDEBUG, so the assertion
    is not there; a slice outside [data_] is undefined. *)
Definition Generate (g : RandomGenerator) (len : Z) : outcome (RandomGenerator * Slice.Slice) :=
  let pos := if zlen (data_ g) <? u32 (pos_ g + len) then 0 else pos_ g in
  let pos := u32 (pos + len) in
  if (pos <=? zlen (data_ g)) && (0 <=? pos - len)
  then Normal (mkGen (data_ g) pos,
         Slice.Slice_of_ptr (drop (Z.to_nat (pos - len)) (data_ g ++ [0])) len)
  else Undefined.

(** [GenerateWithTTL] has the body of [Generate]. *)
Definition GenerateWithTTL (g : RandomGenerator) (len : Z) : outcome (RandomGenerator * Slice.Slice) :=
  let pos := if zlen (data_ g) <? u32 (pos_ g + len) then 0 else pos_ g in
  let pos := u32 (pos + len) in
  if (pos <=? zlen (data_ g)) && (0 <=? pos - len)
  then Normal (mkGen (data_ g) pos,
         Slice.Slice_of_ptr (drop (Z.to_nat (pos - len)) (data_ g ++ [0])) len)
  else Undefined.

End RandomGenerator.

(** ** Lemmas *)
Definition printable (c : Z) : Prop := 32 <= c <= 126.

(** [dst] repeats [raw]. *)
Definition periodic (raw dst : bytes) : Prop :=
  forall i, (i < length dst)%nat -> dst !! i = raw !! (i mod length raw)%nat.

Section strings.
Import TestUtil.

Lemma random_chars_ok n : forall rnd, Random.seed_ok rnd ->
  exists rnd' l, random_chars n rnd = Normal (rnd', l) /\ Random.seed_ok rnd' /\
    length l = n /\ Forall printable l.
Proof.
  induction n as [|n IH]; intros rnd Hr; cbn [random_chars]; [by eauto 6|].
  rewrite Random.Uniform_spec by (done || lia). cbn [defined mbind outcome_bind].
  destruct (IH (Random.mkRandom (Random.lehmer (Random.seed_ rnd)))) as (r' & l & -> & H1 & H2 & H3).
  { by apply Random.lehmer_range. }
  cbn [mbind outcome_bind]. do 2 eexists. split_and!; [done|done|simpl; lia|].
  constructor; [|done]. unfold printable.
  pose proof (Z.mod_pos_bound (Random.lehmer (Random.seed_ rnd)) 95 ltac:(lia)).
  rewrite (Z.mod_small (32 + _)) by lia. lia.
Qed.

Lemma periodic_app raw dst :
  raw <> [] -> periodic raw dst -> (length dst mod length raw = 0)%nat ->
  periodic raw (dst ++ raw) /\ (length (dst ++ raw) mod length raw = 0)%nat.
Proof.
  intros Hraw Hp Hm. assert (length raw <> 0%nat) by (by destruct raw).
  apply Nat.Div0.mod_divides in Hm as [q Hq]. rewrite length_app. split.
  - intros i Hi. rewrite length_app in Hi. destruct (decide (i < length dst)%nat).
    + rewrite lookup_app_l by done. by apply Hp.
    + rewrite lookup_app_r by lia. f_equal.
      replace i with (i - length dst + q * length raw)%nat at 2 by lia.
      rewrite Nat.Div0.mod_add, Nat.mod_small by lia. done.
  - rewrite Hq. replace (length raw * q + length raw)%nat with ((q + 1) * length raw)%nat by lia.
    apply Nat.Div0.mod_mul.
Qed.

Lemma append_until_ok len raw : raw <> [] -> forall fuel dst,
  len <= zlen dst + Z.of_nat fuel -> periodic raw dst -> (length dst mod length raw = 0)%nat ->
  len <= zlen (append_until fuel len raw dst) /\ periodic raw (append_until fuel len raw dst).
Proof.
  intros Hraw fuel. induction fuel as [|fuel IH]; intros dst Hl Hp Hm; cbn [append_until].
  { split; [lia|done]. }
  destruct (Z.ltb_spec (zlen dst) len); [|done].
  destruct (periodic_app raw dst) as [H1 H2]; [done..|]. apply IH; [|done..].
  rewrite zlen_app. destruct raw; [done|]. rewrite (zlen_cons z raw).
  pose proof (zlen_nonneg raw). lia.
Qed.

Lemma resize_shorter s n : 0 <= n <= zlen s -> resize s n = take (Z.to_nat n) s.
Proof.
  intros H. unfold resize. replace (Z.to_nat n - length s)%nat with 0%nat by (unfold zlen in H; lia).
  apply app_nil_r.
Qed.

Lemma periodic_take raw dst n : periodic raw dst -> periodic raw (take n dst).
Proof. intros H i Hi. rewrite length_take in Hi. rewrite lookup_take_lt by lia. apply H. lia. Qed.

Lemma periodic_Forall raw dst (P : Z -> Prop) :
  periodic raw dst -> Forall P raw -> Forall P dst.
Proof.
  intros Hp Hf. apply Forall_lookup. intros i x Hi.
  rewrite (Hp i) in Hi by (by eapply lookup_lt_Some). rewrite Forall_lookup in Hf. eauto.
Qed.

Lemma CompressibleString_ok rnd fraction len raw :
  Random.seed_ok rnd -> 0 <= len < 2 ^ 63 ->
  d_to_int (dmul (d_of_Z len) fraction) = Some raw ->
  exists rnd' raw_data dst, CompressibleString rnd fraction len = Normal (rnd', dst) /\
    Random.seed_ok rnd' /\ zlen raw_data = Z.max 1 raw /\ Forall printable raw_data /\
    zlen dst = len /\ periodic raw_data dst.
Proof.
  intros Hr Hl Hd. unfold CompressibleString. rewrite Hd. cbn [defined mbind outcome_bind].
  assert (Hraw : raw < 2 ^ 31).
  { revert Hd. unfold d_to_int. destruct (dmul _ _) as [s|s| |s m e]; try (by intros [= <-] || done).
    destruct (_ && _) eqn:E; [intros [= <-]|done]. apply andb_prop in E as [_ E%Z.ltb_lt]. done. }
  replace (if raw <? 1 then 1 else raw) with (Z.max 1 raw) by (zcases; lia).
  unfold RandomString. unfold max_size. rewrite u64_id by lia. destruct (Z.ltb_spec (2 ^ 63 - 1) (Z.max 1 raw)); [lia|].
  destruct (random_chars_ok (Z.to_nat (Z.max 1 raw)) rnd Hr) as (r' & rd & -> & H1 & H2 & H3).
  cbn [mbind outcome_bind].
  destruct (append_until_ok len rd ltac:(by destruct rd; simpl in *; [lia|]) (Z.to_nat len) []) as [H4 H5].
  - change (zlen (@nil Z)) with 0. lia.
  - intros i Hi. simpl in Hi. lia.
  - by apply Nat.Div0.mod_0_l.
  - do 3 eexists. split_and!; [done|done| |exact H3| |]; rewrite ?resize_shorter by lia.
    + unfold zlen. lia.
    + unfold zlen in *. rewrite length_take. lia.
    + by apply periodic_take.
Qed.

End strings.

Section generator.
Import RandomGenerator.

Lemma fill_ok bound : forall fuel rnd data,
  Random.seed_ok rnd -> bound <= zlen data + 100 * Z.of_nat fuel ->
  zlen data < bound + 100 -> Forall printable data ->
  exists d, fill fuel bound rnd data = Normal d /\ bound <= zlen d < bound + 100 /\
    Forall printable d.
Proof.
  intros fuel. induction fuel as [|fuel IH]; intros rnd data Hr Hf Hb Hp; cbn [fill].
  { exists data. split_and!; [done|lia..|done]. }
  destruct (Z.ltb_spec (zlen data) bound); [|exists data; split_and!; [done|lia..|done]].
  destruct (CompressibleString_ok rnd FLAGS_compression_ratio 100 100)
    as (r' & rd & dst & -> & H1 & H2 & H3 & H4 & H5); [done|lia|reflexivity|].
  cbn [mbind outcome_bind]. apply IH; [done|rewrite zlen_app; lia..|].
  apply Forall_app; split; [done|by eapply periodic_Forall].
Qed.

(** [pos_] stays within [data_]. *)
Definition gen_ok (g : RandomGenerator) : Prop :=
  0 <= pos_ g <= zlen (data_ g) /\ zlen (data_ g) < 2 ^ 31.

Lemma Generate_ok g len :
  gen_ok g -> 0 <= len <= zlen (data_ g) ->
  exists off s,
    Generate g len = Normal (mkGen (data_ g) (off + len), s) /\
    off = (if pos_ g + len <=? zlen (data_ g) then pos_ g else 0) /\
    off + len <= zlen (data_ g) /\ Slice.slice_ok s /\
    Slice.ToString s = Some (take (Z.to_nat len) (drop (Z.to_nat off) (data_ g))).
Proof.
  intros [Hp Hd] Hl. unfold Generate. rewrite (u32_id (pos_ g + len)) by lia.
  set (pos := if zlen (data_ g) <? pos_ g + len then 0 else pos_ g).
  assert (Hpos : pos = (if pos_ g + len <=? zlen (data_ g) then pos_ g else 0)).
  { unfold pos. zcases; lia. }
  assert (0 <= pos /\ pos + len <= zlen (data_ g)) by (rewrite Hpos; zcases; lia).
  rewrite (u32_id (pos + len)) by lia.
  rewrite (proj2 (Z.leb_le (pos + len) _)), (proj2 (Z.leb_le 0 (pos + len - len))) by lia.
  cbn [andb]. replace (pos + len - len) with pos by lia.
  assert (Hs : Slice.slice_ok (Slice.Slice_of_ptr (drop (Z.to_nat pos) (data_ g ++ [0])) len)).
  { split; simpl; [|lia]. revert H; zlia. }
  do 2 eexists. split_and!; [done|exact Hpos|lia|done|].
  rewrite Slice.ToString_view by done. unfold Slice.view. simpl. f_equal.
  revert H. unfold zlen. intros. rewrite drop_app_le by lia.
  rewrite take_app_le by (rewrite length_drop; lia). done.
Qed.

Lemma generator_new_ok FLAGS_value_size :
  0 <= FLAGS_value_size < 2 ^ 31 - 100 ->
  exists g, new FLAGS_value_size = Normal g /\ gen_ok g /\
    Z.max 1048576 FLAGS_value_size <= zlen (data_ g) /\ Forall printable (data_ g).
Proof.
  intros Hv. unfold new. rewrite u32_id by lia.
  set (bound := Z.max 1048576 FLAGS_value_size) in *.
  destruct (fill_ok bound (Z.to_nat (bound / 100 + 1)) (Random.new 301) []) as (d & -> & H1 & H2).
  - apply Random.new_ok.
  - change (zlen (@nil Z)) with 0. pose proof (Z.div_mod bound 100). pose proof (Z.mod_pos_bound bound 100).
    pose proof (Z.div_pos bound 100). lia.
  - change (zlen (@nil Z)) with 0. lia.
  - constructor.
  - exists (mkGen d 0). split; [reflexivity|]. unfold gen_ok. cbn [pos_ data_]. split_and!; try lia. exact H2.
Qed.

(** The strings a sequence of [Generate] calls yields. *)
Fixpoint generate_all (g : RandomGenerator) (lens : list Z) : outcome (RandomGenerator * list bytes) :=
  match lens with
  | [] => Normal (g, [])
  | len :: lens' =>
      '(g, s) ← Generate g len;
      v ← defined (Slice.ToString s);
      '(g, l) ← generate_all g lens';
      Normal (g, v :: l)
  end.

Lemma generate_all_ok lens : forall g,
  gen_ok g -> Forall printable (data_ g) ->
  Forall (fun len => 0 <= len <= zlen (data_ g)) lens ->
  exists g' l, generate_all g lens = Normal (g', l) /\ gen_ok g' /\ data_ g' = data_ g /\
    map zlen l = lens /\ Forall (Forall printable) l.
Proof.
  induction lens as [|len lens IH]; intros g Hg Hp Hl; cbn [generate_all].
  { exists g, []. done. }
  inversion Hl as [|? ? H1 H2]; subst.
  destruct (Generate_ok g len Hg H1) as (off & s & -> & Ho & Hb & _ & Hs).
  cbn [mbind outcome_bind]. rewrite Hs. cbn [defined mbind outcome_bind].
  destruct Hg as [Hg1 Hg2].
  assert (0 <= off) by (rewrite Ho; zcases; lia).
  destruct (IH (mkGen (data_ g) (off + len))) as (g' & l & -> & H3 & H4 & H5 & H6);
    [split; simpl; lia|done..|].
  cbn [mbind outcome_bind]. do 2 eexists. split_and!; [done..| |].
  - simpl. f_equal; [|done]. unfold zlen. rewrite length_take, length_drop. unfold zlen in *. lia.
  - constructor; [|done]. by apply Forall_take, Forall_drop.
Qed.

End generator.

(** ** Properties *)

(** [CompressibleString] returns a string of exactly [len] printable
    characters that repeats a random piece of [len * compressed_fraction]
    characters (at least one), and leaves the generator usable. *)
Theorem CompressibleString_repeats rnd fraction len raw
  (Hr : Random.seed_ok rnd) (Hl : 0 <= len < 2 ^ 63)
  (Hraw : d_to_int (dmul (d_of_Z len) fraction) = Some raw) :
  exists rnd' raw_data dst,
    TestUtil.CompressibleString rnd fraction len = Normal (rnd', dst) /\
    Random.seed_ok rnd' /\ zlen raw_data = Z.max 1 raw /\ zlen dst = len /\
    Forall printable dst /\
    (forall i, (i < length dst)%nat -> dst !! i = raw_data !! (i mod length raw_data)%nat).
Proof.
  destruct (CompressibleString_ok rnd fraction len raw)
    as (r' & rd & dst & H1 & H2 & H3 & H4 & H5 & H6); [done..|].
  exists r', rd, dst. split_and!; try done. by eapply periodic_Forall.
Qed.

Lemma CompressibleString_repeats_witness :
  exists rnd' dst, TestUtil.CompressibleString (Random.new 301) (d_of_Z 1) 20 = Normal (rnd', dst) /\
    zlen dst = 20.
Proof.
  destruct (CompressibleString_repeats (Random.new 301) (d_of_Z 1) 20 20)
    as (r' & rd & dst & H1 & _ & _ & H2 & _).
  - vm_compute. split; discriminate.
  - lia.
  - vm_compute. reflexivity.
  - exists r', dst. exact (conj H1 H2).
Defined.

(** The constructor of [RandomGenerator] terminates with enough data for
    the configured value size, and from there every sequence of [Generate]
    calls with lengths within that size reads inside the data: each returns
    exactly the length asked for, of printable characters. *)
Theorem RandomGenerator_serves FLAGS_value_size lens
  (Hv : 0 <= FLAGS_value_size < 2 ^ 31 - 100)
  (Hl : Forall (fun len => 0 <= len <= Z.max 1048576 FLAGS_value_size) lens) :
  exists g g' l, RandomGenerator.new FLAGS_value_size = Normal g /\
    generate_all g lens = Normal (g', l) /\
    map zlen l = lens /\ Forall (Forall printable) l.
Proof.
  destruct (generator_new_ok FLAGS_value_size Hv) as (g & H1 & H2 & H3 & H4).
  destruct (generate_all_ok lens g) as (g' & l & H5 & _ & _ & H6 & H7); [done|done| |].
  - eapply Forall_impl; [exact Hl|]. simpl. lia.
  - exists g, g', l. exact (conj H1 (conj H5 (conj H6 H7))).
Qed.

Lemma RandomGenerator_serves_witness :
  exists g g' l, RandomGenerator.new 100 = Normal g /\
    generate_all g [100; 1048576; 100] = Normal (g', l) /\ map zlen l = [100; 1048576; 100].
Proof.
  destruct (RandomGenerator_serves 100 [100; 1048576; 100]) as (g & g' & l & H1 & H2 & H3 & _).
  - lia.
  - repeat constructor; vm_compute; discriminate.
  - exists g, g', l. exact (conj H1 (conj H2 H3)).
Defined.
