(* ===== verification/Workload.v ===== *)
(** * The benchmark's workloads (bench/bench.cc, classes Duration, PMKVWrapper, Benchmark)

    The store is any implementation of the header pmkv.h, the class [PmkvOps].
    A workload is a program over a state that holds the world of the store, the
    clock, the thread's random generator and statistics and its key buffer; it
    may throw, exit, or have no defined behaviour.  The clock is a function
    from the number of the reading to microseconds. *)

From Stdlib Require Import SpecFloat.
From S2P Require Import Prelude CLib Random Pmkv Double Histogram Stats TestUtil.

Local Open Scope Z_scope.

(** ** Flags *)
Record Flags := mkFlags {
  FLAGS_benchmarks : bytes; FLAGS_engine : bytes; FLAGS_num : Z; FLAGS_reads : Z;
  FLAGS_threads : Z; FLAGS_key_size : Z; FLAGS_value_size : Z; FLAGS_histogram : bool;
  FLAGS_db : bytes; FLAGS_db_size_in_gb : Z; FLAGS_readwritepercent : Z
}.

Definition default_flags : Flags := mkFlags
  b!"fillseq,fillrandom,overwrite,readseq,readrandom,readmissing,deleteseq,deleterandom,readwhilewriting,readrandomwriterandom"
  b!"pmkv" 1000000 (-1) 1 16 100 false b!"/mnt/ramdisk/bench" 1 90.

Definition FLAGS_ops_between_duration_checks : Z := 1000.

Definition FLAGS_duration : Z := 0.

(** ** Duration

    Time points are nanoseconds. *)
Module Duration.

Record Duration := mkDuration {
  max_seconds_ : Z; max_ops_ : Z; ops_per_stage_ : Z; ops_ : Z; start_at_ : Z
}.

Definition new (max_seconds max_ops ops_per_stage now : Z) : Duration :=
  mkDuration max_seconds max_ops (if 0 <? ops_per_stage then ops_per_stage else max_ops) 0 now.

(** [None]: division by zero *)
Definition GetStage (d : Duration) : option Z :=
  if ops_per_stage_ d =? 0 then None
  else Some (Z.quot (Z.min (ops_ d) (max_ops_ d - 1)) (ops_per_stage_ d)).

(** [now] is the time read when a check is due; [ops_] is an [int64_t]. *)
Definition Done (increment now : Z) (d : Duration) : outcome (bool * Duration) :=
  let increment := if increment <=? 0 then 1 else increment in
  ops ← int64_result (ops_ d + increment);
  let d' := mkDuration (max_seconds_ d) (max_ops_ d) (ops_per_stage_ d) ops (start_at_ d) in
  Normal (if negb (max_seconds_ d =? 0) then
     let granularity := FLAGS_ops_between_duration_checks in
     if negb (Z.quot ops granularity =? Z.quot (ops - increment) granularity)
     then max_seconds_ d <=? u64 (Z.quot (now - start_at_ d) 1000000)
     else false
   else max_ops_ d <? ops, d').

End Duration.

(** ** PMKVWrapper *)

(** the values of [pmem::kv::status] the wrapper returns *)
Inductive kv_status := OK | NOT_FOUND.

#[export] Instance kv_status_eq_dec : EqDecision kv_status.
Proof. solve_decision. Defined.

Module PMKVWrapper.
Section wrapper.
Context {W kv : Type} `{PmkvOps W kv}.

Definition open_failed : bytes := b!"Failed to open kv file".
Definition put_failed : bytes := b!"Failed to put with an undefined error".
Definition count_failed : bytes := b!"Failed to count all with an undefined error".

(** the constructor *)
Definition new (path : bytes) (size : Z) (create : bool) (w : W) : outcome (kv * W) :=
  '(h, w) ← pmkv_open path size (if create then 1 else 0) w;
  match h with
  | None => Thrown open_failed
  | Some h => Normal (h, w)
  end.

Definition destroy (h : kv) (w : W) : W := pmkv_close (Some h) w.

(** [value] is the string passed in, assigned on success. *)
Definition get (h : kv) (key : bytes) (value : bytes) (w : W) : kv_status * bytes :=
  let '(s, val) := pmkv_get h key w in
  if negb (s =? 0) then (NOT_FOUND, value) else (OK, val).

Definition put (h : kv) (key value : bytes) (w : W) : outcome (kv_status * W) :=
  let '(s, w) := pmkv_put h key value w in
  if negb (s =? 0) then Thrown put_failed else Normal (OK, w).

Definition remove (h : kv) (key : bytes) (w : W) : kv_status * W :=
  let '(s, w) := pmkv_delete h key w in
  (if negb (s =? 0) then NOT_FOUND else OK, w).

Definition count_all (h : kv) (w : W) : outcome (kv_status * Z) :=
  let '(s, cnt) := pmkv_count_all h w in
  if negb (s =? 0) then Thrown count_failed else Normal (OK, cnt).

Definition exists_ (h : kv) (key : bytes) (w : W) : kv_status :=
  if pmkv_exists h key w =? 0 then NOT_FOUND else OK.

End wrapper.
End PMKVWrapper.

(** ** Programs: state and outcome *)
Definition Prog (S A : Type) : Type := S -> outcome (A * S).

#[export] Instance prog_ret {S} : MRet (Prog S) := fun A a s => Normal (a, s).

#[export] Instance prog_bind {S} : MBind (Prog S) := fun A B k m s =>
  match m s with
  | Normal (a, s') => k a s'
  | Undefined => Undefined
  | Aborted => Aborted
  | Thrown what => Thrown what
  | Exited code => Exited code
  end.

Definition lift {S A} (o : outcome A) : Prog S A := fun s => a ← o; Normal (a, s).

Definition gets {S A} (f : S -> A) : Prog S A := fun s => Normal (f s, s).

Definition modify {S} (f : S -> S) : Prog S unit := fun s => Normal (tt, f s).

(** [for (int i = i0; i < i0 + n; i++) acc = body(i, acc)] *)
Fixpoint for_loop {S A} (n : nat) (i : Z) (body : Z -> A -> Prog S A) (a : A) : Prog S A :=
  match n with
  | O => mret a
  | S n' => a' ← body i a; for_loop n' (i + 1) body a'
  end.

(** ** Benchmark *)
Module Benchmark.

Record Benchmark (kv : Type) := mkBenchmark {
  kv_ : kv; num_ : Z; value_size_ : Z; key_size_ : Z; reads_ : Z; readwrites_ : Z
}.
Arguments mkBenchmark {kv}.
Arguments kv_ {kv}.
Arguments num_ {kv}.
Arguments value_size_ {kv}.
Arguments key_size_ {kv}.
Arguments reads_ {kv}.
Arguments readwrites_ {kv}.

(** the constructor, with the store [Run] opens before the first workload *)
Definition new {kv} (f : Flags) (h : kv) : Benchmark kv :=
  mkBenchmark h (FLAGS_num f) (FLAGS_value_size f) (FLAGS_key_size f)
    (if FLAGS_reads f <? 0 then FLAGS_num f else FLAGS_reads f)
    (if FLAGS_reads f <? 0 then FLAGS_num f else FLAGS_reads f).

(** What a workload of one thread works on: the world, the number of clock
    readings so far, [thread->rand], [thread->stats] and the key buffer. *)
Record pstate (W : Type) := mkState {
  world : W; ticks : nat; rand : Random.Random; stats : Stats.Stats; key : bytes
}.
Arguments mkState {W}.
Arguments world {W}.
Arguments ticks {W}.
Arguments rand {W}.
Arguments stats {W}.
Arguments key {W}.

(** [memcpy] of the first bytes of the object representation of [v], then
    [memset] of the rest with '0'. *)
Definition GenerateKeyFromInt (key_size v num_keys : Z) (key : bytes) : outcome bytes :=
  let bytes_to_fill := Z.min (key_size - 0) 8 in
  src ← defined (mem_read (le_bytes 8 v) 0 bytes_to_fill);
  key ← defined (mem_write key 0 src);
  let pos := bytes_to_fill in
  if pos <? key_size
  then defined (mem_write key pos (replicate (Z.to_nat (key_size - pos)) 48))
  else Normal key.

Section workloads.
Context {W kv : Type} `{PmkvOps W kv}.
Variables (f : Flags) (clock : nat -> Z) (junk : nat -> Z).

Abbreviation prog := (Prog (pstate W)).

Definition set_world (w : W) (s : pstate W) : pstate W :=
  mkState w (ticks s) (rand s) (stats s) (key s).

Definition set_rand (r : Random.Random) (s : pstate W) : pstate W :=
  mkState (world s) (ticks s) r (stats s) (key s).

Definition set_key (k : bytes) (s : pstate W) : pstate W :=
  mkState (world s) (ticks s) (rand s) (stats s) k.

Definition set_stats (g : Stats.Stats -> Stats.Stats) (s : pstate W) : pstate W :=
  mkState (world s) (ticks s) (rand s) (g (stats s)) (key s).

(** an operation on [thread->stats] that may overflow a counter *)
Definition on_stats (g : Stats.Stats -> outcome Stats.Stats) : prog unit := fun s =>
  st ← g (stats s); Normal (tt, set_stats (fun _ => st) s).

(** [g_env->NowMicros()] *)
Definition NowMicros : prog Z := fun s =>
  Normal (clock (ticks s), mkState (world s) (S (ticks s)) (rand s) (stats s) (key s)).

Definition rand_Next : prog Z := fun s =>
  let '(r, x) := Random.Next (rand s) in Normal (x, set_rand r s).

(** [thread->stats.FinishedSingleOp()], which reads the clock only for a
    histogram *)
Definition FinishedSingleOp : prog unit :=
  if FLAGS_histogram f
  then now ← NowMicros; on_stats (Stats.FinishedSingleOp true now)
  else on_stats (Stats.FinishedSingleOp false 0).

(** [new char[key_size_]] *)
Definition AllocateKey (bm : Benchmark kv) : prog unit :=
  if key_size_ bm <? 0 then lift (Thrown b!"bad_array_new_length")
  else modify (set_key (new_block junk (key_size_ bm))).

(** [GenerateKeyFromInt(k, FLAGS_num, &key)] for an [int] or [uint32_t] k *)
Definition make_key (bm : Benchmark kv) (k : Z) : prog unit :=
  buf ← gets key;
  buf ← lift (GenerateKeyFromInt (key_size_ bm) (u64 k) (FLAGS_num f) buf);
  modify (set_key buf).

(** [thread->rand.Next() % FLAGS_num] *)
Definition random_number : prog Z :=
  x ← rand_Next;
  if u32 (FLAGS_num f) =? 0 then lift Undefined else mret (x mod u32 (FLAGS_num f)).

(** [seq ? (i + thread->tid * num_) : (thread->rand.Next() % FLAGS_num)] *)
Definition key_number (bm : Benchmark kv) (tid : Z) (seq : bool) (i : Z) : prog Z :=
  if seq then
    p ← lift (int_result (tid * num_ bm));
    lift (int_result (i + p))
  else x ← random_number; mret (i32 x).

Definition kv_get (bm : Benchmark kv) (value : bytes) : prog (kv_status * bytes) := fun s =>
  Normal (PMKVWrapper.get (kv_ bm) (key s) value (world s), s).

Definition kv_put (bm : Benchmark kv) (value : bytes) : prog kv_status := fun s =>
  '(r, w) ← PMKVWrapper.put (kv_ bm) (key s) value (world s);
  Normal (r, set_world w s).

Definition kv_remove (bm : Benchmark kv) : prog kv_status := fun s =>
  let '(r, w) := PMKVWrapper.remove (kv_ bm) (key s) (world s) in
  Normal (r, set_world w s).

(** [value.append(value_size_, 'X')] *)
Definition append_x (n : Z) : outcome bytes :=
  if max_size <? u64 n then length_error else Normal (replicate (Z.to_nat (u64 n)) 88).

(** *** DoWrite *)
Definition write_body (bm : Benchmark kv) (tid : Z) (seq : bool) (i bytes : Z) : prog Z :=
  k ← key_number bm tid seq i;
  _ ← make_key bm k;
  value ← lift (append_x (value_size_ bm));
  s ← kv_put bm value;
  key_size ← gets (fun s => zlen (key s));
  let bytes := i64 (bytes + u64 (u64 (value_size_ bm) + key_size)) in
  _ ← FinishedSingleOp;
  if negb (bool_decide (s = OK)) then lift (Exited 1) else mret bytes.

Definition DoWrite (bm : Benchmark kv) (tid : Z) (seq : bool) : prog unit :=
  _ ← (if negb (num_ bm =? FLAGS_num f)
       then modify (set_stats (Stats.AddMessage
              (snprintf 100 (b!"(" ++ format_d (num_ bm) ++ b!" ops)"))))
       else mret tt);
  _ ← AllocateKey bm;
  bytes ← for_loop (Z.to_nat (num_ bm)) 0 (write_body bm tid seq) 0;
  on_stats (Stats.AddBytes bytes).

Definition WriteSeq bm tid : prog unit := DoWrite bm tid true.

Definition WriteRandom bm tid : prog unit := DoWrite bm tid false.

(** *** DoRead *)
Definition read_body (bm : Benchmark kv) (tid : Z) (seq : bool) (i : Z) (acc : Z * Z) : prog (Z * Z) :=
  let '(bytes, found) := acc in
  k ← key_number bm tid seq i;
  _ ← make_key bm k;
  '(s, value) ← kv_get bm [];
  let found := if bool_decide (s = OK) then found + 1 else found in
  _ ← FinishedSingleOp;
  key_size ← gets (fun s => zlen (key s));
  mret (i64 (bytes + u64 (zlen value + key_size)), found).

(** The argument [missing] is not used by the body. *)
Definition DoRead (bm : Benchmark kv) (tid : Z) (seq missing : bool) : prog unit :=
  _ ← AllocateKey bm;
  '(bytes, found) ← for_loop (Z.to_nat (reads_ bm)) 0 (read_body bm tid seq) (0, 0);
  _ ← on_stats (Stats.AddBytes bytes);
  modify (set_stats (Stats.AddMessage (snprintf 100
    (b!"(" ++ format_d found ++ b!" of " ++ format_d (reads_ bm) ++ b!" found)")))).

Definition ReadSeq bm tid : prog unit := DoRead bm tid true false.

Definition ReadRandom bm tid : prog unit := DoRead bm tid false false.

Definition ReadMissing bm tid : prog unit := DoRead bm tid false true.

(** *** DoDelete *)
Definition delete_body (bm : Benchmark kv) (tid : Z) (seq : bool) (i : Z) (_ : unit) : prog unit :=
  k ← key_number bm tid seq i;
  _ ← make_key bm k;
  _ ← kv_remove bm;
  FinishedSingleOp.

Definition DoDelete (bm : Benchmark kv) (tid : Z) (seq : bool) : prog unit :=
  _ ← AllocateKey bm;
  for_loop (Z.to_nat (num_ bm)) 0 (delete_body bm tid seq) tt.

Definition DeleteSeq bm tid : prog unit := DoDelete bm tid true.

Definition DeleteRandom bm tid : prog unit := DoDelete bm tid false.

(** *** ReadRandomWriteRandom *)
Record rwstate := mkRw {
  gen : RandomGenerator.RandomGenerator; value : bytes; found : Z; get_weight : Z;
  put_weight : Z; reads_done : Z; writes_done : Z; rw_bytes : Z
}.

Definition rw_body (bm : Benchmark kv) (a : rwstate) : prog rwstate :=
  k ← random_number;
  _ ← make_key bm k;
  '(gw, pw) ← (if (get_weight a =? 0) && (put_weight a =? 0)
               then p ← lift (int_result (100 - FLAGS_readwritepercent f));
                    mret (FLAGS_readwritepercent f, p)
               else mret (get_weight a, put_weight a));
  if 0 <? gw then
    '(s, v) ← kv_get bm [];
    found' ← lift (if bool_decide (s = OK) then int64_result (found a + 1) else Normal (found a));
    key_size ← gets (fun s => zlen (key s));
    reads ← lift (int64_result (reads_done a + 1));
    _ ← FinishedSingleOp;
    mret (mkRw (gen a) v found' (gw - 1) pw reads (writes_done a)
            (i64 (rw_bytes a + u64 (zlen v + key_size))))
  else if 0 <? pw then
    '(g, sl) ← lift (RandomGenerator.Generate (gen a) (u32 (value_size_ bm)));
    v ← lift (defined (Slice.Slice.ToString sl));
    s ← kv_put bm v;
    if negb (bool_decide (s = OK)) then lift (Exited 1) else
    key_size ← gets (fun s => zlen (key s));
    writes ← lift (int64_result (writes_done a + 1));
    _ ← FinishedSingleOp;
    mret (mkRw g (value a) (found a) gw (pw - 1) (reads_done a) writes
            (i64 (rw_bytes a + u64 (key_size + u64 (value_size_ bm)))))
  else mret (mkRw (gen a) (value a) (found a) gw pw (reads_done a) (writes_done a) (rw_bytes a)).

(** [while (!duration.Done(1))].  [FLAGS_duration] is the constant 0, so no
    time is read and [max_ops_ + 1] rounds are enough; to run out of fuel
    counts as undefined. *)
Fixpoint rw_loop (fuel : nat) (bm : Benchmark kv) (d : Duration.Duration) (a : rwstate) : prog rwstate :=
  match fuel with
  | O => lift Undefined
  | S fuel' =>
      '(stop, d) ← lift (Duration.Done 1 0 d);
      if (stop : bool) then mret a
      else a ← rw_body bm a; rw_loop fuel' bm d a
  end.

Definition rw_message (bm : Benchmark kv) (a : rwstate) : bytes :=
  snprintf 100 (b!"( reads:" ++ format_llu (u64 (reads_done a)) ++ b!" writes:"
    ++ format_llu (u64 (writes_done a)) ++ b!" total:" ++ format_llu (u64 (readwrites_ bm))
    ++ b!" found:" ++ format_llu (u64 (found a)) ++ b!")").

Definition ReadRandomWriteRandom (bm : Benchmark kv) : prog unit :=
  g ← lift (RandomGenerator.new (FLAGS_value_size f));
  let duration := Duration.new FLAGS_duration (readwrites_ bm) 0 0 in
  _ ← AllocateKey bm;
  a ← rw_loop (S (Z.to_nat (readwrites_ bm))) bm duration (mkRw g [] 0 0 0 0 0 0);
  _ ← on_stats (Stats.AddBytes (rw_bytes a));
  modify (set_stats (Stats.AddMessage (rw_message bm a))).

End workloads.
End Benchmark.
