(* ===== verification/WorkloadLogic.v ===== *)
(** * Reasoning about the workloads

    Weakest preconditions for the programs of [Workload], the keys
    [GenerateKeyFromInt] makes, one round of each loop against the contract of
    pmkv.h, and the specifications of the whole loops. *)

From Stdlib Require Import SpecFloat.
From S2P Require Import Prelude CLib Random Pmkv Double Histogram Stats TestUtil Workload.

Local Open Scope Z_scope.
Import Benchmark.

(** ** Weakest preconditions

    [wp E m Q s]: from [s] the program [m] ends normally with [Q], or throws
    an exception whose message is in [E]; it does nothing undefined and does
    not exit. *)
Definition wp {S A} (E : bytes -> Prop) (m : Prog S A) (Q : A -> S -> Prop) (s : S) : Prop :=
  match m s with
  | Normal (a, s') => Q a s'
  | Thrown what => E what
  | _ => False
  end.

Section wp_rules.
Context {S : Type} (E : bytes -> Prop).

Lemma wp_ret {A} (a : A) (Q : A -> S -> Prop) s : Q a s -> wp E (mret a) Q s.
Proof. done. Qed.

Lemma wp_bind {A B} (m : Prog S A) (k : A -> Prog S B) Q s :
  wp E m (fun a s' => wp E (k a) Q s') s -> wp E (a ← m; k a) Q s.
Proof. unfold wp, mbind, prog_bind. destruct (m s) as [[a s']| | | |]; done. Qed.

Lemma wp_mono {A} (m : Prog S A) (Q Q' : A -> S -> Prop) s :
  wp E m Q s -> (forall a s', Q a s' -> Q' a s') -> wp E m Q' s.
Proof. unfold wp. destruct (m s) as [[a s']| | | |]; auto. Qed.

Lemma wp_lift {A} (o : outcome A) a (Q : A -> S -> Prop) s :
  o = Normal a -> Q a s -> wp E (lift o) Q s.
Proof. by intros ->. Qed.

Lemma wp_gets {A} (g : S -> A) (Q : A -> S -> Prop) s : Q (g s) s -> wp E (gets g) Q s.
Proof. done. Qed.

Lemma wp_modify g (Q : unit -> S -> Prop) s : Q tt (g s) -> wp E (modify g) Q s.
Proof. done. Qed.

(** The loop rule: [I i a] holds before the round of index [i]. *)
Lemma wp_for_loop {A} (I : Z -> A -> S -> Prop) body : forall n i (a : A) s,
  I i a s ->
  (forall j a s, i <= j < i + Z.of_nat n -> I j a s -> wp E (body j a) (I (j + 1)) s) ->
  wp E (for_loop n i body a) (I (i + Z.of_nat n)) s.
Proof.
  induction n as [|n IH]; intros i a s H Hb; cbn [for_loop].
  { apply wp_ret. by rewrite Z.add_0_r. }
  apply wp_bind. eapply wp_mono; [apply Hb; [lia|done]|]. intros a' s' H'.
  replace (i + Z.of_nat (Datatypes.S n)) with ((i + 1) + Z.of_nat n) by lia.
  apply IH; [done|]. intros j a'' s'' Hj. apply Hb. lia.
Qed.

End wp_rules.

#[export] Hint Resolve wp_ret wp_gets wp_modify wp_lift : pmkv.

(** ** Keys *)
Definition key_width (ks : Z) : nat := Z.to_nat (Z.min ks 8).

(** The key of number [v]. *)
Definition key_of (ks v : Z) : bytes :=
  le_bytes (key_width ks) v ++ replicate (Z.to_nat (ks - 8)) 48.

Lemma take_le_bytes n m v : (n <= m)%nat -> take n (le_bytes m v) = le_bytes n v.
Proof.
  revert m v; induction n as [|n IH]; intros [|m] v Hm; cbn [le_bytes take]; try done; [lia|].
  rewrite IH by lia. done.
Qed.

Lemma zlen_key_of ks v : 0 <= ks -> zlen (key_of ks v) = ks.
Proof.
  intros. unfold key_of, key_width, zlen. rewrite length_app, length_le_bytes, length_replicate. lia.
Qed.

Lemma GenerateKeyFromInt_ok ks v n key :
  0 <= ks -> zlen key = ks -> Benchmark.GenerateKeyFromInt ks v n key = Normal (key_of ks v).
Proof.
  intros Hks Hk. unfold Benchmark.GenerateKeyFromInt. rewrite Z.sub_0_r.
  unfold mem_read. rewrite zlen_le_bytes.
  rewrite (proj2 (Z.leb_le 0 (Z.min ks 8))), (proj2 (Z.leb_le (0 + Z.min ks 8) _)) by lia.
  change (0 <=? 0) with true. cbn [andb defined mbind outcome_bind]. rewrite drop_0.
  rewrite take_le_bytes by lia. fold (key_width ks).
  assert (Hw : Z.of_nat (key_width ks) = Z.min ks 8) by (unfold key_width; lia).
  rewrite <- (take_drop (key_width ks) key).
  assert (length (take (key_width ks) key) = key_width ks).
  { rewrite length_take. unfold zlen in Hk. lia. }
  rewrite (mem_write_middle [] (take (key_width ks) key) (drop (key_width ks) key))
    by (rewrite length_le_bytes; done).
  cbn [defined mbind outcome_bind app]. destruct (Z.ltb_spec (Z.min ks 8) ks).
  - rewrite <- Hw at 1. rewrite <- (zlen_le_bytes (key_width ks) v).
    rewrite <- (app_nil_r (drop (key_width ks) key)).
    rewrite mem_write_middle by (rewrite length_replicate, length_drop; unfold zlen in Hk; lia).
    cbn [defined]. rewrite app_nil_r. unfold key_of. do 3 f_equal. lia.
  - unfold key_of. do 2 f_equal. replace (Z.to_nat (ks - 8)) with 0%nat by lia.
    apply length_zero_iff_nil. rewrite length_drop. unfold zlen in Hk. lia.
Qed.

Lemma key_of_inj ks x y :
  0 <= x < 256 ^ Z.min ks 8 -> 0 <= y < 256 ^ Z.min ks 8 -> 0 <= ks ->
  key_of ks x = key_of ks y -> x = y.
Proof.
  intros Hx Hy Hks H. apply app_inj_1 in H as [H _]; [|by rewrite !length_le_bytes].
  apply le_bytes_eq_iff in H. unfold key_width in H. rewrite Z2Nat.id in H by lia.
  by rewrite !Z.mod_small in H.
Qed.

(** ** One round of a workload *)
(** The sizes for which no arithmetic of a workload overflows, and for which a
    stored value fits the buffer of a read. *)
Record config_ok {kv} (f : Flags) (bm : Benchmark kv) (tid : Z) : Prop := {
  ok_flags : FLAGS_num f = num_ bm;
  ok_num : 0 < num_ bm < 2 ^ 31 - 200000;
  ok_reads : 0 <= reads_ bm < 2 ^ 31 - 200000;
  ok_value : 0 <= value_size_ bm <= MAX_VAL_LEN;
  ok_key : 0 <= key_size_ bm < 2 ^ 31;
  ok_tid : 0 <= tid;
  ok_last : tid * num_ bm + Z.max (num_ bm) (reads_ bm) <= 2 ^ 31
}.

(** The number of the key of round [i], and the generator after drawing it. *)
Definition next_key {kv} (bm : Benchmark kv) (tid : Z) (seq : bool) (i : Z) (r : Random.Random)
  : Z * Random.Random :=
  if seq then (i + tid * num_ bm, r)
  else (Random.lehmer (Random.seed_ r) mod num_ bm, Random.mkRandom (Random.lehmer (Random.seed_ r))).

Section rounds.
Context {W kv : Type} `{PmkvOps W kv} {contents : W -> kv -> option (gmap bytes bytes)}
  `{!PmkvContract W kv contents}.
Context (f : Flags) (clock : nat -> Z) (junk : nat -> Z) (bm : Benchmark kv) (tid : Z).
Hypothesis Hcfg : config_ok f bm tid.
Implicit Types s : pstate W.

(** A [put] on the handle may report failure. *)
Definition put_can_fail : Prop :=
  exists w m k v, contents w (kv_ bm) = Some m /\ fst (pmkv_put (kv_ bm) k v w) <> 0.

(** The only exception of a workload. *)
Definition put_error (what : bytes) : Prop := what = PMKVWrapper.put_failed /\ put_can_fail.

(** The value the fill workloads write. *)
Definition xs : bytes := replicate (Z.to_nat (value_size_ bm)) 88.

Record thread_ok (s : pstate W) : Prop := {
  ok_buffer : zlen (key s) = key_size_ bm;
  ok_seed : Random.seed_ok (rand s)
}.

(** The state after a round with key [k]: the generator, the key buffer and
    one operation more in the statistics. *)
Record after_op (s s' : pstate W) (k : Z) (r : Random.Random) : Prop := {
  after_rand : rand s' = r;
  after_key : key s' = key_of (key_size_ bm) k;
  after_stats : exists now, stats s' = Stats.finished_op (FLAGS_histogram f) now (stats s)
}.

Lemma FinishedSingleOp_eq s : Stats.counting (stats s) -> exists t now,
  FinishedSingleOp f clock s =
    Normal (tt, mkState (world s) t (rand s)
      (Stats.finished_op (FLAGS_histogram f) now (stats s)) (key s)).
Proof.
  intros Hs. unfold FinishedSingleOp. destruct (FLAGS_histogram f).
  - exists (S (ticks s)), (clock (ticks s)). unfold mbind, prog_bind, NowMicros, on_stats. cbn [stats].
    by rewrite Stats.FinishedSingleOp_ok.
  - exists (ticks s), 0. unfold on_stats. by rewrite Stats.FinishedSingleOp_ok.
Qed.

Lemma key_number_eq seq i s :
  thread_ok s -> 0 <= i < Z.max (num_ bm) (reads_ bm) ->
  key_number f bm tid seq i s =
    Normal (fst (next_key bm tid seq i (rand s)), set_rand (snd (next_key bm tid seq i (rand s))) s).
Proof using Hcfg.
  intros Hs Hi. destruct Hcfg. destruct Hs as [Hb Hr]. unfold key_number, next_key.
  assert (0 <= tid * num_ bm) by (apply Z.mul_nonneg_nonneg; lia).
  destruct seq.
  - unfold lift, mbind, prog_bind. rewrite int_result_ok by lia. cbn [outcome_bind mbind].
    rewrite int_result_ok by lia.
    by destruct s.
  - unfold random_number, rand_Next, mbind, prog_bind.
    rewrite Random.Next_lehmer by done. rewrite (ok_flags _ _ _ Hcfg), (u32_id (num_ bm)) by lia.
    rewrite (proj2 (Z.eqb_neq (num_ bm) 0)) by lia. cbn [mret prog_ret].
    rewrite i32_id; [done|].
    pose proof (Z.mod_pos_bound (Random.lehmer (Random.seed_ (rand s))) (num_ bm)). lia.
Qed.

Lemma next_key_range seq i r :
  Random.seed_ok r -> 0 <= i < Z.max (num_ bm) (reads_ bm) ->
  0 <= fst (next_key bm tid seq i r) < 2 ^ 31 /\ Random.seed_ok (snd (next_key bm tid seq i r)).
Proof using Hcfg.
  intros Hr Hi. destruct Hcfg. unfold next_key.
  assert (0 <= tid * num_ bm) by (apply Z.mul_nonneg_nonneg; lia).
  destruct seq; cbn [fst snd]; [split; [lia|done]|].
  pose proof (Z.mod_pos_bound (Random.lehmer (Random.seed_ r)) (num_ bm)).
  split; [lia|]. by apply Random.lehmer_range.
Qed.

Lemma make_key_eq k s :
  0 <= k < 2 ^ 63 -> zlen (key s) = key_size_ bm ->
  make_key f bm k s = Normal (tt, set_key (key_of (key_size_ bm) k) s).
Proof using Hcfg.
  intros Hk Hs. destruct Hcfg. unfold make_key, mbind, prog_bind, gets, lift, mbind, outcome_bind.
  rewrite u64_id by lia. rewrite GenerateKeyFromInt_ok by (done || lia). done.
Qed.

Lemma AllocateKey_eq s :
  AllocateKey junk bm s = Normal (tt, set_key (new_block junk (key_size_ bm)) s).
Proof using Hcfg.
  destruct Hcfg. unfold AllocateKey. destruct (Z.ltb_spec (key_size_ bm) 0); [lia|]. done.
Qed.

(** The prefix every round shares: draw the number, format the key. *)
Lemma wp_key {A} E seq i (k : unit -> Prog (pstate W) A) Q s :
  thread_ok s -> 0 <= i < Z.max (num_ bm) (reads_ bm) ->
  let z := fst (next_key bm tid seq i (rand s)) in
  let r := snd (next_key bm tid seq i (rand s)) in
  wp E (k tt) Q (set_key (key_of (key_size_ bm) z) (set_rand r s)) ->
  wp E (z ← key_number f bm tid seq i; u ← make_key f bm z; k u) Q s.
Proof using Hcfg.
  intros Hs Hi z r H0. unfold wp, mbind, prog_bind. rewrite key_number_eq by done.
  destruct Hs as [Hb Hr]. destruct (next_key_range seq i (rand s) Hr Hi).
  rewrite make_key_eq; [exact H0|lia|]. done.
Qed.

Lemma wp_finish {A} E (k : unit -> Prog (pstate W) A) Q s :
  Stats.counting (stats s) ->
  (forall t now, wp E (k tt) Q (mkState (world s) t (rand s)
      (Stats.finished_op (FLAGS_histogram f) now (stats s)) (key s))) ->
  wp E (u ← FinishedSingleOp f clock; k u) Q s.
Proof.
  intros Hs H0. destruct (FinishedSingleOp_eq s Hs) as (t & now & E1).
  unfold wp, mbind, prog_bind. rewrite E1. apply H0.
Qed.

(** A round of a write. *)
Lemma wp_write_body seq i bytes m (Q : Z -> pstate W -> Prop) s :
  let z := fst (next_key bm tid seq i (rand s)) in
  thread_ok s -> Stats.counting (stats s) -> 0 <= i < num_ bm -> contents (world s) (kv_ bm) = Some m ->
  (forall s', after_op s s' z (snd (next_key bm tid seq i (rand s))) ->
     contents (world s') (kv_ bm) = Some (<[key_of (key_size_ bm) z := xs]> m) ->
     Q (i64 (bytes + (value_size_ bm + key_size_ bm))) s') ->
  wp put_error (write_body f clock bm tid seq i bytes) Q s.
Proof using Hcfg PmkvContract0.
  intros z Hs Hcnt Hi Hm HQ. unfold write_body. apply wp_key; [done|lia|]. fold z.
  destruct Hcfg. apply wp_bind. apply (wp_lift _ _ xs).
  { unfold append_x, MAX_VAL_LEN, max_size in *. rewrite u64_id by lia. zcases; [lia|]. done. }
  apply wp_bind. unfold kv_put, wp, PMKVWrapper.put. cbn [set_key set_rand world key ticks rand stats].
  pose proof (put_stores (world s) (kv_ bm) m (key_of (key_size_ bm) z) xs Hm) as Hp.
  destruct (pmkv_put _ _ _ _) as [st w'] eqn:Ep. cbn [fst snd] in Hp.
  destruct (Z.eqb_spec st 0) as [->|Hst]; cbn [negb mbind outcome_bind].
  - destruct Hp as [[_ Hp]|[]]; [|done].
    apply wp_bind, wp_gets. apply wp_finish; [done|]. intros t now. apply wp_ret.
    cbn [set_world key set_key set_rand]. rewrite zlen_key_of by lia.
    unfold MAX_VAL_LEN in *. rewrite (u64_id (value_size_ bm)), u64_id by lia.
    apply HQ; [|done]. split; [done..|]. by exists now.
  - split; [done|]. exists (world s), m, (key_of (key_size_ bm) z), xs. rewrite Ep. done.
Qed.

(** A round of a read. *)
Lemma wp_read_body seq i bytes found m (Q : Z * Z -> pstate W -> Prop) s :
  let z := fst (next_key bm tid seq i (rand s)) in
  thread_ok s -> Stats.counting (stats s) -> 0 <= i < reads_ bm -> contents (world s) (kv_ bm) = Some m -> values_fit m ->
  (forall s', after_op s s' z (snd (next_key bm tid seq i (rand s))) -> world s' = world s ->
     Q (match m !! key_of (key_size_ bm) z with
        | Some v => (i64 (bytes + (zlen v + key_size_ bm)), found + 1)
        | None => (i64 (bytes + key_size_ bm), found)
        end) s') ->
  wp put_error (read_body f clock bm tid seq i (bytes, found)) Q s.
Proof using Hcfg PmkvContract0.
  intros z Hs Hcnt Hi Hm Hfit HQ. unfold read_body. apply wp_key; [done|lia|]. fold z. destruct Hcfg.
  apply wp_bind. unfold kv_get, wp, PMKVWrapper.get.
  cbn [set_key set_rand world key ticks rand stats].
  assert (Hafter : forall t now, after_op s
    (mkState (world s) t (snd (next_key bm tid seq i (rand s)))
      (Stats.finished_op (FLAGS_histogram f) now (stats s)) (key_of (key_size_ bm) z)) z
    (snd (next_key bm tid seq i (rand s)))).
  { intros t now. split; [done..|]. by exists now. }
  destruct (m !! key_of (key_size_ bm) z) as [v|] eqn:E.
  - pose proof (Hfit _ _ E) as Hv. rewrite (get_found (world s) (kv_ bm) m _ v) by done.
    cbn [negb Z.eqb]. rewrite bool_decide_true by done.
    apply wp_finish; [done|]. intros t now. apply wp_bind, wp_gets, wp_ret.
    cbn [set_world key set_key set_rand]. rewrite zlen_key_of by lia.
    pose proof (zlen_nonneg v). unfold MAX_VAL_LEN in *. rewrite u64_id by lia. by apply HQ.
  - pose proof (get_missing (world s) (kv_ bm) m _ Hm E) as Hn.
    destruct (pmkv_get _ _ _) as [st v]. cbn [fst] in Hn.
    rewrite (proj2 (Z.eqb_neq st 0) Hn). cbn [negb]. rewrite bool_decide_false by done.
    apply wp_finish; [done|]. intros t now. apply wp_bind, wp_gets, wp_ret.
    cbn [set_world key set_key set_rand]. rewrite zlen_key_of by lia.
    change (zlen (@nil Z)) with 0. rewrite u64_id by lia. by apply HQ.
Qed.

(** A round of a delete. *)
Lemma wp_delete_body seq i m (Q : unit -> pstate W -> Prop) s :
  let z := fst (next_key bm tid seq i (rand s)) in
  thread_ok s -> Stats.counting (stats s) -> 0 <= i < num_ bm -> contents (world s) (kv_ bm) = Some m ->
  (forall s', after_op s s' z (snd (next_key bm tid seq i (rand s))) ->
     contents (world s') (kv_ bm) = Some (delete (key_of (key_size_ bm) z) m) -> Q tt s') ->
  wp put_error (delete_body f clock bm tid seq i tt) Q s.
Proof using Hcfg PmkvContract0.
  intros z Hs Hcnt Hi Hm HQ. unfold delete_body. apply wp_key; [done|lia|]. fold z.
  apply wp_bind. unfold kv_remove, wp, PMKVWrapper.remove.
  cbn [set_key set_rand world key ticks rand stats].
  assert (Hd : contents (snd (pmkv_delete (kv_ bm) (key_of (key_size_ bm) z) (world s))) (kv_ bm) =
               Some (delete (key_of (key_size_ bm) z) m)).
  { destruct (m !! key_of (key_size_ bm) z) eqn:E.
    - eapply delete_found; eauto.
    - rewrite delete_id by done. by eapply delete_missing. }
  destruct (pmkv_delete _ _ _) as [st w']. cbn [snd] in Hd.
  destruct (FinishedSingleOp_eq
    (set_world w' (set_key (key_of (key_size_ bm) z)
       (set_rand (snd (next_key bm tid seq i (rand s))) s))) Hcnt) as (t & now & E1).
  fold (set_world w' (set_key (key_of (key_size_ bm) z)
       (set_rand (snd (next_key bm tid seq i (rand s))) s))).
  unfold wp. rewrite E1. apply HQ; [|done]. split; [done..|]. by exists now.
Qed.

End rounds.

(** ** Whole workloads *)

(** [n] operations more than in [st], the rest as it was. *)
Record finished (n : Z) (st st' : Stats.Stats) : Prop := {
  fin_ahead : Stats.ahead st';
  fin_done : Stats.done_ st' = Stats.done_ st + n;
  fin_bytes : Stats.bytes_ st' = Stats.bytes_ st;
  fin_message : Stats.message_ st' = Stats.message_ st
}.

Lemma finished_step n st st' h now :
  finished n st st' -> finished (n + 1) st (Stats.finished_op h now st').
Proof.
  intros [H1 H2 H3 H4]. destruct (Stats.finished_op_ahead h now st' H1) as [H5 H6]. split; [done|lia|done|done].
Qed.

Lemma finished_counting n st st' :
  finished n st st' -> Stats.done_ st = 0 -> n < 2 ^ 31 - 200000 -> Stats.counting st'.
Proof. intros [H1 H2 _ _] Hd Hn. split; [done|lia]. Qed.

Lemma finished_0 now st : finished 0 (Stats.Start now st) (Stats.Start now st).
Proof. split; [apply Stats.Start_ahead|done..]. Qed.

(** The numbers of the first [n] keys, and the generator after them. *)
Fixpoint drawn {kv} (bm : Benchmark kv) (tid : Z) (seq : bool) (n : nat) (r : Random.Random)
  : list Z * Random.Random :=
  match n with
  | O => ([], r)
  | S n' =>
      let '(l, r1) := drawn bm tid seq n' r in
      let '(z, r2) := next_key bm tid seq (Z.of_nat n') r1 in
      (l ++ [z], r2)
  end.

(** The maps the fill and the delete workloads leave. *)
Definition write_all (ks : Z) (v : bytes) (l : list Z) (m : gmap bytes bytes) : gmap bytes bytes :=
  fold_left (fun m z => <[key_of ks z := v]> m) l m.

Definition delete_all (ks : Z) (l : list Z) (m : gmap bytes bytes) : gmap bytes bytes :=
  fold_left (fun m z => delete (key_of ks z) m) l m.

(** Number and total size of the values a sequence of reads finds. *)
Definition found_in (ks : Z) (m : gmap bytes bytes) (l : list Z) : Z * Z :=
  fold_left (fun '(b, n) z =>
    match m !! key_of ks z with
    | Some v => (b + (zlen v + ks), n + 1)
    | None => (b + ks, n)
    end) l (0, 0).

Lemma drawn_S {kv} (bm : Benchmark kv) tid seq n r :
  drawn bm tid seq (S n) r =
    (fst (drawn bm tid seq n r) ++ [fst (next_key bm tid seq (Z.of_nat n) (snd (drawn bm tid seq n r)))],
     snd (next_key bm tid seq (Z.of_nat n) (snd (drawn bm tid seq n r)))).
Proof. cbn [drawn]. destruct (drawn bm tid seq n r) as [l r1]. cbn [fst snd]. by destruct (next_key _ _ _ _ r1). Qed.

Section workload_specs.
Context {W kv : Type} `{PmkvOps W kv} {contents : W -> kv -> option (gmap bytes bytes)}
  `{!PmkvContract W kv contents}.
Context (f : Flags) (clock : nat -> Z) (junk : nat -> Z) (bm : Benchmark kv) (tid : Z).
Hypothesis Hcfg : config_ok f bm tid.
Implicit Types s : pstate W.

(** A thread that has run [stats.Start()] and nothing else. *)
Definition started s : Prop :=
  (exists now st, stats s = Stats.Start now st) /\ Random.seed_ok (rand s).

(** The part of every loop's invariant that does not speak of the store. *)
Record progress (s0 : pstate W) (seq : bool) (i : Z) (s : pstate W) : Prop := {
  prog_thread : thread_ok bm s;
  prog_rand : rand s = snd (drawn bm tid seq (Z.to_nat i) (rand s0));
  prog_stats : finished i (stats s0) (stats s)
}.

Lemma progress_step s0 seq i s s' :
  0 <= i < Z.max (num_ bm) (reads_ bm) ->
  Stats.done_ (stats s0) = 0 -> progress s0 seq i s ->
  after_op f bm s s' (fst (next_key bm tid seq i (rand s))) (snd (next_key bm tid seq i (rand s))) ->
  progress s0 seq (i + 1) s'.
Proof using Hcfg.
  intros Hi Hd [[Ht1 Ht2] Hr Hf] [Ha1 Ha2 [now Ha3]].
  destruct (next_key_range f bm tid Hcfg seq i (rand s)) as [_ Hs]; [done..|]. destruct Hcfg.
  replace (Z.to_nat (i + 1)) with (S (Z.to_nat i)) by lia. split.
  - split; [rewrite Ha2; apply zlen_key_of; lia|by rewrite Ha1].
  - replace (Z.to_nat (i + 1)) with (S (Z.to_nat i)) by lia.
    rewrite drawn_S, Z2Nat.id by lia. cbn [snd]. by rewrite Ha1, Hr.
  - rewrite Ha3. by apply finished_step.
Qed.

Lemma progress_counting s0 seq i s :
  progress s0 seq i s -> Stats.done_ (stats s0) = 0 -> i < Z.max (num_ bm) (reads_ bm) ->
  Stats.counting (stats s).
Proof using Hcfg. intros [_ _ Hf] Hd Hi. destruct Hcfg. eapply finished_counting; [exact Hf|done|lia]. Qed.

Lemma wp_AddBytes E n (Q : unit -> pstate W -> Prop) s :
  - 2 ^ 63 <= Stats.bytes_ (stats s) + n < 2 ^ 63 ->
  Q tt (set_stats (Stats.with_bytes n) s) -> wp E (on_stats (Stats.AddBytes n)) Q s.
Proof. intros Hn HQ. unfold wp, on_stats. rewrite Stats.AddBytes_ok by done. exact HQ. Qed.

Lemma progress_start s0 seq now st :
  stats s0 = Stats.Start now st -> Random.seed_ok (rand s0) ->
  progress s0 seq 0 (set_key (new_block junk (key_size_ bm)) s0).
Proof using Hcfg.
  intros Hst Hr. destruct Hcfg. split; [split; [|done]|done|].
  - cbn [key set_key]. unfold zlen. rewrite length_new_block. lia.
  - cbn [stats set_key]. rewrite Hst. apply finished_0.
Qed.

Lemma drawn_next s0 seq i s :
  0 <= i -> progress s0 seq i s ->
  fst (drawn bm tid seq (Z.to_nat (i + 1)) (rand s0)) =
    fst (drawn bm tid seq (Z.to_nat i) (rand s0)) ++ [fst (next_key bm tid seq i (rand s))].
Proof.
  intros Hi [_ Hr _]. replace (Z.to_nat (i + 1)) with (S (Z.to_nat i)) by lia.
  rewrite drawn_S, Z2Nat.id, Hr by lia. done.
Qed.

Lemma DoWrite_wp seq m s :
  started s -> contents (world s) (kv_ bm) = Some m ->
  wp (put_error bm (contents := contents)) (DoWrite f clock junk bm tid seq)
    (fun _ s' =>
       contents (world s') (kv_ bm) =
         Some (write_all (key_size_ bm) (xs bm) (fst (drawn bm tid seq (Z.to_nat (num_ bm)) (rand s))) m) /\
       Random.seed_ok (rand s') /\ Stats.done_ (stats s') = num_ bm /\
       Stats.bytes_ (stats s') = num_ bm * (value_size_ bm + key_size_ bm)) s.
Proof using Hcfg PmkvContract0.
  intros [(now & st & Hst) Hr] Hm. pose proof Hcfg as Hc. destruct Hc.
  unfold DoWrite. rewrite (ok_flags _ _ _ Hcfg), Z.eqb_refl. cbn [negb]. apply wp_bind, wp_ret.
  apply wp_bind. unfold wp at 1. rewrite (AllocateKey_eq f junk bm tid Hcfg). apply wp_bind.
  set (s1 := set_key _ s).
  eapply wp_mono.
  - apply (wp_for_loop _ (fun i bytes s' => progress s seq i s' /\
      bytes = i * (value_size_ bm + key_size_ bm) /\
      contents (world s') (kv_ bm) =
         Some (write_all (key_size_ bm) (xs bm) (fst (drawn bm tid seq (Z.to_nat i) (rand s))) m))).
    { split; [|done]. by eapply progress_start. }
    intros i bytes s' Hi (Hp & -> & Hm').
    eapply wp_write_body; [exact Hcfg|apply Hp|eapply progress_counting; [exact Hp|by rewrite Hst|lia]|lia|done|].
    intros s'' Ha Hm''. split_and!.
    + eapply progress_step; [lia| |done|done]. by rewrite Hst.
    + unfold MAX_VAL_LEN in *. rewrite i64_id; nia.
    + rewrite Hm''. rewrite (drawn_next s seq i s') by (done || lia).
      unfold write_all. by rewrite fold_left_app.
  - intros bytes s' (Hp & -> & Hm'). rewrite Z.add_0_l, Z2Nat.id in * by lia.
    destruct Hp as [[_ Hr'] _ Hp]. pose proof (fin_bytes _ _ _ Hp) as Hby. rewrite Hst in Hby. cbn [Stats.Start Stats.bytes_] in Hby.
    apply wp_AddBytes; [rewrite Hby; unfold MAX_VAL_LEN in *; nia|]. cbn [set_stats world stats]. split_and!; [done|done|..].
    + cbn [Stats.with_bytes Stats.done_]. rewrite (fin_done _ _ _ Hp), Hst. done.
    + cbn [Stats.with_bytes Stats.bytes_]. rewrite Hby. done.
Qed.

Lemma found_in_bounds ks m l :
  0 <= ks -> values_fit m ->
  0 <= fst (found_in ks m l) <= zlen l * (MAX_VAL_LEN + ks) /\ 0 <= snd (found_in ks m l) <= zlen l.
Proof.
  intros Hks Hm. induction l as [|z l IH] using rev_ind.
  { unfold found_in. simpl. change (zlen (@nil Z)) with 0. lia. }
  unfold found_in in *. rewrite fold_left_app, zlen_app. destruct (fold_left _ l (0, 0)) as [b n].
  change (zlen [z]) with 1. cbn [fold_left fst snd] in *.
  destruct (m !! key_of ks z) as [v|] eqn:Ev; cbn [fst snd]; [|unfold MAX_VAL_LEN in *; lia].
  pose proof (Hm _ _ Ev) as Hv. cbv beta in Hv. pose proof (zlen_nonneg v). lia.
Qed.

Lemma length_drawn seq n r : zlen (fst (drawn bm tid seq n r)) = Z.of_nat n.
Proof.
  induction n as [|n IH]; [done|]. rewrite drawn_S. cbn [fst]. rewrite zlen_app, IH.
  change (zlen [_]) with 1. lia.
Qed.

Lemma DoRead_wp seq missing m s :
  started s -> contents (world s) (kv_ bm) = Some m -> values_fit m ->
  wp (put_error bm (contents := contents)) (DoRead f clock junk bm tid seq missing)
    (fun _ s' =>
       let fb := found_in (key_size_ bm) m (fst (drawn bm tid seq (Z.to_nat (reads_ bm)) (rand s))) in
       world s' = world s /\ Random.seed_ok (rand s') /\ Stats.done_ (stats s') = reads_ bm /\
       Stats.bytes_ (stats s') = fst fb /\
       Stats.message_ (stats s') = snprintf 100
         (b!"(" ++ format_d (snd fb) ++ b!" of " ++ format_d (reads_ bm) ++ b!" found)")) s.
Proof using Hcfg PmkvContract0.
  intros [(now & st & Hst) Hr] Hm Hfit. pose proof Hcfg as Hc. destruct Hc.
  unfold DoRead. apply wp_bind. unfold wp at 1. rewrite (AllocateKey_eq f junk bm tid Hcfg). apply wp_bind.
  set (s1 := set_key _ s). set (keys i := fst (drawn bm tid seq (Z.to_nat i) (rand s))).
  assert (Hb : forall i, 0 <= i <= reads_ bm -> 0 <= fst (found_in (key_size_ bm) m (keys i)) < 2 ^ 63).
  { intros i Hi. destruct (found_in_bounds (key_size_ bm) m (keys i)) as [H1 _]; [lia|done|].
    unfold keys in *. rewrite length_drawn in H1. unfold MAX_VAL_LEN in *. nia. }
  eapply wp_mono.
  - apply (wp_for_loop _ (fun i a s' => progress s seq i s' /\
      a = found_in (key_size_ bm) m (keys i) /\ world s' = world s)).
    { split; [|done]. by eapply progress_start. }
    intros i a s' Hi (Hp & Ha & Hw). destruct a as [b n].
    eapply wp_read_body; [exact Hcfg|apply Hp|eapply progress_counting; [exact Hp|by rewrite Hst|lia]|lia|by rewrite Hw|done|].
    intros s'' Ha' Hw'. specialize (Hb (i + 1) ltac:(lia)).
    assert (Hk : keys (i + 1) = keys i ++ [fst (next_key bm tid seq i (rand s'))]).
    { apply drawn_next; [lia|done]. }
    split_and!.
    + eapply progress_step; [lia| |done|done]. by rewrite Hst.
    + revert Hb. rewrite Hk. unfold found_in in *. rewrite fold_left_app, <- Ha. cbn [fold_left].
      destruct (m !! _); cbn [fst]; intros; rewrite i64_id by lia; done.
    + congruence.
  - intros [b n] s' (Hp & Ha & Hm'). rewrite Z.add_0_l, Z2Nat.id in * by lia.
    destruct Hp as [[_ Hr'] _ Hp]. specialize (Hb (reads_ bm) ltac:(lia)).
    fold (keys (reads_ bm)). rewrite <- Ha in *. cbn [fst snd] in *.
    pose proof (fin_bytes _ _ _ Hp) as Hby. rewrite Hst in Hby. cbn [Stats.Start Stats.bytes_] in Hby.
    apply wp_bind, wp_AddBytes; [rewrite Hby; lia|]. apply wp_modify. cbn [set_stats world stats]. split_and!; [done|done|..].
    + cbn [Stats.AddMessage Stats.with_bytes Stats.done_]. rewrite (fin_done _ _ _ Hp), Hst. done.
    + cbn [Stats.AddMessage Stats.with_bytes Stats.bytes_]. rewrite Hby. done.
    + cbn [Stats.AddMessage Stats.with_bytes Stats.message_]. rewrite (fin_message _ _ _ Hp), Hst.
      cbn [Stats.Start Stats.message_]. unfold Stats.AppendWithSpace. cbn [app]. by destruct (snprintf _ _).
Qed.

Lemma DoDelete_wp seq m s :
  started s -> contents (world s) (kv_ bm) = Some m ->
  wp (put_error bm (contents := contents)) (DoDelete f clock junk bm tid seq)
    (fun _ s' =>
       contents (world s') (kv_ bm) =
         Some (delete_all (key_size_ bm) (fst (drawn bm tid seq (Z.to_nat (num_ bm)) (rand s))) m) /\
       Random.seed_ok (rand s') /\ Stats.done_ (stats s') = num_ bm /\ Stats.bytes_ (stats s') = 0) s.
Proof using Hcfg PmkvContract0.
  intros [(now & st & Hst) Hr] Hm. pose proof Hcfg as Hc. destruct Hc.
  unfold DoDelete. apply wp_bind. unfold wp at 1. rewrite (AllocateKey_eq f junk bm tid Hcfg).
  eapply wp_mono.
  - apply (wp_for_loop _ (fun i _ s' => progress s seq i s' /\
      contents (world s') (kv_ bm) =
         Some (delete_all (key_size_ bm) (fst (drawn bm tid seq (Z.to_nat i) (rand s))) m))).
    { split; [|done]. by eapply progress_start. }
    intros i [] s' Hi (Hp & Hm').
    eapply wp_delete_body; [exact Hcfg|apply Hp|eapply progress_counting; [exact Hp|by rewrite Hst|lia]|lia|done|].
    intros s'' Ha Hm''. split.
    + eapply progress_step; [lia| |done|done]. by rewrite Hst.
    + rewrite Hm''. rewrite (drawn_next s seq i s') by (done || lia).
      unfold delete_all. by rewrite fold_left_app.
  - intros [] s' (Hp & Hm'). rewrite Z.add_0_l, Z2Nat.id in * by lia.
    destruct Hp as [[_ Hr'] _ Hp]. split_and!; [done|done|..].
    + rewrite (fin_done _ _ _ Hp), Hst. done.
    + rewrite (fin_bytes _ _ _ Hp), Hst. done.
Qed.

End workload_specs.
