(* ===== verification/Fill.v ===== *)
(** * The fill, read and delete workloads

    What the workloads leave in the store and report, on any implementation of
    pmkv.h that keeps its contract. *)

From Stdlib Require Import SpecFloat.
From S2P Require Import Prelude CLib Random Pmkv Double Histogram Stats TestUtil Workload WorkloadLogic.

Local Open Scope Z_scope.
Import Benchmark.

(** ** The maps the workloads leave *)
Lemma drawn_seq {kv} (bm : Benchmark kv) tid n r :
  drawn bm tid true n r = (map (fun i => Z.of_nat i + tid * num_ bm) (seq 0 n), r).
Proof.
  induction n as [|n IH]; [done|]. rewrite drawn_S, IH. cbn [fst snd next_key].
  rewrite seq_S, map_app. done.
Qed.

Lemma elem_of_drawn_seq {kv} (bm : Benchmark kv) tid n r z :
  z ∈ fst (drawn bm tid true n r) <-> tid * num_ bm <= z < tid * num_ bm + Z.of_nat n.
Proof.
  rewrite drawn_seq. cbn [fst]. rewrite list_elem_of_fmap. split.
  - intros (i & -> & Hi). apply elem_of_seq in Hi. lia.
  - intros Hz. exists (Z.to_nat (z - tid * num_ bm)). rewrite elem_of_seq. lia.
Qed.

Lemma drawn_random_range {kv} (bm : Benchmark kv) tid n r z :
  0 < num_ bm -> z ∈ fst (drawn bm tid false n r) -> 0 <= z < num_ bm.
Proof.
  intros Hn. induction n as [|n IH]; [cbn [drawn fst]; set_solver|].
  rewrite drawn_S. cbn [fst]. rewrite elem_of_app, list_elem_of_singleton. intros [Hz| ->]; [auto|].
  cbn [next_key fst]. apply Z.mod_pos_bound. done.
Qed.

Section maps.
Context (ks : Z) (v : bytes).
Implicit Types m : gmap bytes bytes.

Lemma write_all_in l m z : z ∈ l -> write_all ks v l m !! key_of ks z = Some v.
Proof.
  induction l as [|y l IH] using rev_ind; [set_solver|]. unfold write_all in *.
  rewrite fold_left_app. cbn [fold_left]. rewrite elem_of_app, list_elem_of_singleton. intros Hz.
  destruct (decide (key_of ks y = key_of ks z)) as [->|Hk]; [by simplify_map_eq|].
  rewrite lookup_insert_ne by done. apply IH. destruct Hz as [Hz| ->]; done.
Qed.

Lemma write_all_notin l m k :
  (forall z, z ∈ l -> key_of ks z <> k) -> write_all ks v l m !! k = m !! k.
Proof.
  induction l as [|y l IH] using rev_ind; [done|]. unfold write_all in *.
  rewrite fold_left_app. cbn [fold_left]. intros Hz.
  rewrite lookup_insert_ne by (apply Hz; set_solver). apply IH. set_solver.
Qed.

Lemma delete_all_in l m z : z ∈ l -> delete_all ks l m !! key_of ks z = None.
Proof.
  induction l as [|y l IH] using rev_ind; [set_solver|]. unfold delete_all in *.
  rewrite fold_left_app. cbn [fold_left]. rewrite elem_of_app, list_elem_of_singleton. intros Hz.
  destruct (decide (key_of ks y = key_of ks z)) as [->|Hk]; [by simplify_map_eq|].
  rewrite lookup_delete_ne by done. apply IH. destruct Hz as [Hz| ->]; done.
Qed.

Lemma delete_all_notin l m k :
  (forall z, z ∈ l -> key_of ks z <> k) -> delete_all ks l m !! k = m !! k.
Proof.
  induction l as [|y l IH] using rev_ind; [done|]. unfold delete_all in *.
  rewrite fold_left_app. cbn [fold_left]. intros Hz.
  rewrite lookup_delete_ne by (apply Hz; set_solver). apply IH. set_solver.
Qed.

Lemma write_all_fit l m :
  zlen v <= MAX_VAL_LEN -> values_fit m -> values_fit (write_all ks v l m).
Proof.
  intros Hv Hm. induction l as [|y l IH] using rev_ind; [done|]. unfold write_all in *.
  rewrite fold_left_app. cbn [fold_left]. by apply map_Forall_insert_2.
Qed.

(** Deleting the keys that were written undoes the writing. *)
Lemma delete_write_all l m :
  (forall z, z ∈ l -> m !! key_of ks z = None) -> delete_all ks l (write_all ks v l m) = m.
Proof.
  intros Hm. apply map_eq. intros k.
  destruct (decide (Exists (fun z => key_of ks z = k) l)) as [(z & Hz & <-)%Exists_exists|Hn].
  - by rewrite delete_all_in, Hm.
  - assert (forall z, z ∈ l -> key_of ks z <> k).
    { intros z Hz Hk. apply Hn, Exists_exists. eauto. }
    by rewrite delete_all_notin, write_all_notin.
Qed.

(** The keys written are distinct and new, so each is counted. *)
Lemma size_write_all l m :
  NoDup l -> (forall z, z ∈ l -> 0 <= z < 256 ^ Z.min ks 8) -> 0 <= ks ->
  (forall z, z ∈ l -> m !! key_of ks z = None) ->
  size (write_all ks v l m) = (length l + size m)%nat.
Proof.
  intros Hd Hsmall Hks Hnew. induction l as [|y l IH] using rev_ind; [done|].
  apply NoDup_app in Hd as (Hd & Hy & _).
  assert (Hl : forall z, z ∈ l -> z ∈ l ++ [y]) by (intros; apply elem_of_app; auto).
  assert (Hy' : y ∈ l ++ [y]) by (apply elem_of_app; right; by apply list_elem_of_singleton).
  unfold write_all in *. rewrite fold_left_app, length_app. cbn [fold_left].
  rewrite map_size_insert_None.
  - rewrite IH by auto. simpl. lia.
  - fold (write_all ks v l m). rewrite write_all_notin; [by apply Hnew|]. intros z Hz Hk.
    apply key_of_inj in Hk; [|by auto..]. subst. apply (Hy y Hz). by apply list_elem_of_singleton.
Qed.

Lemma found_in_count m l :
  (forall z, z ∈ l -> is_Some (m !! key_of ks z)) -> snd (found_in ks m l) = zlen l.
Proof.
  induction l as [|y l IH] using rev_ind; [done|]. intros Hm. unfold found_in in *.
  rewrite fold_left_app, zlen_app, <- IH by set_solver. cbn [fold_left].
  destruct (fold_left _ l (0, 0)) as [b n]. destruct (Hm y ltac:(set_solver)) as [x ->].
  change (zlen [y]) with 1. done.
Qed.

Lemma found_in_all m l :
  (forall z, z ∈ l -> m !! key_of ks z = Some v) ->
  found_in ks m l = (zlen l * (zlen v + ks), zlen l).
Proof.
  induction l as [|y l IH] using rev_ind; [done|]. intros Hm. unfold found_in in *.
  rewrite fold_left_app, IH by set_solver. cbn [fold_left]. rewrite Hm by set_solver.
  rewrite zlen_app. change (zlen [y]) with 1. f_equal; lia.
Qed.

End maps.

(** ** Properties *)

(** The number of distinct keys of a size. *)
Definition key_modulus (ks : Z) : Z := 256 ^ Z.min ks 8.

(** What [DoRead] reports. *)
Definition found_message (found reads : Z) : bytes :=
  snprintf 100 (b!"(" ++ format_d found ++ b!" of " ++ format_d reads ++ b!" found)").

(** [GenerateKeyFromInt] fills a buffer of [key_size_] bytes completely
    and writes nowhere else; two numbers share a key exactly when they agree
    modulo [256 ^ min(key_size_, 8)], whatever the buffers held. *)
Theorem generated_keys ks n v1 v2 buf1 buf2
  (Hks : 0 <= ks) (H1 : zlen buf1 = ks) (H2 : zlen buf2 = ks) :
  exists k1 k2,
    GenerateKeyFromInt ks v1 n buf1 = Normal k1 /\ GenerateKeyFromInt ks v2 n buf2 = Normal k2 /\
    zlen k1 = ks /\
    (k1 = k2 <-> v1 mod key_modulus ks = v2 mod key_modulus ks).
Proof.
  exists (key_of ks v1), (key_of ks v2). rewrite !GenerateKeyFromInt_ok by done.
  split_and!; [done..|by apply zlen_key_of|]. unfold key_modulus.
  replace (Z.min ks 8) with (Z.of_nat (key_width ks)) by (unfold key_width; lia).
  rewrite <- le_bytes_eq_iff. unfold key_of. split; [|by intros ->].
  intros H. apply app_inj_1 in H as [H _]; [done|]. by rewrite !length_le_bytes.
Qed.

Lemma generated_keys_witness :
  exists k1 k2, GenerateKeyFromInt 1 7 1000 [0] = Normal k1 /\
    GenerateKeyFromInt 1 263 1000 [9] = Normal k2 /\ k1 = k2.
Proof.
  destruct (generated_keys 1 1000 7 263 [0] [9]) as (k1 & k2 & H1 & H2 & _ & H3).
  - lia.
  - reflexivity.
  - reflexivity.
  - exists k1, k2. split; [exact H1|]. split; [exact H2|]. apply H3. reflexivity.
Defined.

(** What the witnesses below run on: the reference implementation over the
    small library of [Pmkv.MemLib], and a thread that has just started. *)
Definition demo_path : bytes := b!"/mnt/ramdisk/bench".

Definition demo_flags : Flags := mkFlags b!"fillseq" b!"pmkv" 5 (-1) 1 16 3 false demo_path 1 90.

Definition demo_bm : Benchmark bytes := Benchmark.new demo_flags demo_path.

Definition demo_stats : Stats.Stats := Stats.Start 0 (Stats.mkStats S754_nan S754_nan S754_nan 0 0 0
  S754_nan (Histogram.Histogram.hist_of []) [] false).

Definition demo_state : pstate MemLib.world :=
  mkState {[ demo_path := ∅ ]} 0 (Random.new 1000) demo_stats [].

Lemma demo_config : config_ok demo_flags demo_bm 0.
Proof. split; vm_compute; repeat split; congruence. Qed.

Lemma demo_started : started demo_state.
Proof. split; [by do 2 eexists|]. vm_compute. split; discriminate. Qed.

(** [stats.Start()] for the next workload of a thread. *)
Definition restart {W} (now : Z) : Prog (pstate W) unit := modify (set_stats (Stats.Start now)).

Lemma restarted {W} now (s : pstate W) :
  Random.seed_ok (rand s) -> started (set_stats (Stats.Start now) s).
Proof. intros Hs. split; [by do 2 eexists|done]. Qed.

Lemma zlen_xs {kv} (bm : Benchmark kv) : 0 <= value_size_ bm -> zlen (xs bm) = value_size_ bm.
Proof. intros. unfold xs, zlen. rewrite length_replicate. lia. Qed.

Section fill.
Context {W kv : Type} {Ops : PmkvOps W kv} (contents : W -> kv -> option (gmap bytes bytes))
  (Contract : PmkvContract W kv contents).

(** On any store that keeps the contract of pmkv.h, [fillseq] followed by
    [readseq] of no more keys than were written reports every read as found and
    counts exactly the bytes of the keys and values; the only other ending is
    the exception of a [put] that the store refused. *)
Theorem fillseq_then_readseq f clock junk bm tid now m (s : pstate W)
  (Hcfg : config_ok f bm tid) (Hreads : reads_ bm <= num_ bm) (Hs : started s)
  (Hm : contents (world s) (kv_ bm) = Some m) (Hfit : values_fit m) :
  wp (put_error bm (contents := contents))
    (_ ← WriteSeq f clock junk bm tid; _ ← restart now; ReadSeq f clock junk bm tid)
    (fun _ s' =>
       Stats.message_ (stats s') = found_message (reads_ bm) (reads_ bm) /\
       Stats.bytes_ (stats s') = reads_ bm * (value_size_ bm + key_size_ bm) /\
       Stats.done_ (stats s') = reads_ bm) s.
Proof.
  apply wp_bind. eapply wp_mono; [by eapply DoWrite_wp|]. intros [] s1 (Hm1 & Hr1 & _ & _).
  apply wp_bind, wp_modify. pose proof Hcfg as Hc. destruct Hc.
  eapply wp_mono.
  - eapply (DoRead_wp f clock junk bm tid Hcfg true false); [by apply restarted|exact Hm1|].
    apply write_all_fit; [|done]. rewrite zlen_xs; lia.
  - cbv zeta. intros [] s2 (_ & _ & Hd & Hb & Hmsg). rewrite Hb, Hmsg, Hd.
    rewrite (found_in_all _ (xs bm)).
    + rewrite length_drawn, zlen_xs, Z2Nat.id by lia. done.
    + intros z. rewrite elem_of_drawn_seq. intros Hz. apply write_all_in.
      rewrite elem_of_drawn_seq. lia.
Qed.

(** [fillseq] on a store that holds none of its keys adds exactly
    [num_] entries, as [count_all] reports, when the key size can tell the
    numbers apart; [deleteseq] then restores the map the store had before. *)
Theorem fillseq_then_deleteseq f clock junk bm tid now m (s : pstate W)
  (Hcfg : config_ok f bm tid) (Hs : started s)
  (Hm : contents (world s) (kv_ bm) = Some m)
  (Hks : tid * num_ bm + num_ bm <= key_modulus (key_size_ bm))
  (Hnew : forall z, m !! key_of (key_size_ bm) z = None) :
  wp (put_error bm (contents := contents))
    (_ ← WriteSeq f clock junk bm tid;
     r ← (fun s => Normal (PMKVWrapper.count_all (kv_ bm) (world s), s));
     _ ← restart now; _ ← DeleteSeq f clock junk bm tid;
     mret r)
    (fun r s' =>
       r = Normal (OK, Z.of_nat (size m) + num_ bm) /\
       contents (world s') (kv_ bm) = Some m /\
       Stats.done_ (stats s') = num_ bm) s.
Proof.
  apply wp_bind. eapply wp_mono; [by eapply DoWrite_wp|]. intros [] s1 (Hm1 & Hr1 & _ & _).
  pose proof Hcfg as Hc. destruct Hc. apply wp_bind. unfold wp at 1.
  unfold PMKVWrapper.count_all. rewrite (count_all_size _ _ _ Hm1). cbn [negb Z.eqb].
  apply wp_bind, wp_modify, wp_bind. eapply wp_mono.
  - eapply (DoDelete_wp f clock junk bm tid Hcfg true); [by apply restarted|exact Hm1].
  - intros [] s2 (Hm2 & _ & Hd & _). apply wp_ret. split_and!; [|rewrite Hm2|done].
    + assert (0 <= tid * num_ bm) by (apply Z.mul_nonneg_nonneg; lia).
      unfold key_modulus in Hks. rewrite size_write_all; [| |intros z; rewrite elem_of_drawn_seq; lia|lia|done].
      * pose proof (length_drawn bm tid true (Z.to_nat (num_ bm)) (rand s)) as Hl.
        unfold zlen in Hl. do 3 f_equal. lia.
      * rewrite drawn_seq. cbn [fst]. apply NoDup_fmap_2; [intros x y Hxy; lia|]. apply NoDup_seq.
    + cbn [set_stats rand]. rewrite !drawn_seq. cbn [fst].
      rewrite delete_write_all by (intros; apply Hnew). done.
Qed.

(** After a complete load, [readmissing] finds every key it asks for:
    it reads the same numbers as [readrandom], all of them below [FLAGS_num]. *)
Theorem readmissing_finds_all f clock junk bm tid m (s : pstate W)
  (Hcfg : config_ok f bm tid) (Hs : started s)
  (Hm : contents (world s) (kv_ bm) = Some m) (Hfit : values_fit m)
  (Hall : forall z, 0 <= z < num_ bm -> is_Some (m !! key_of (key_size_ bm) z)) :
  wp (put_error bm (contents := contents)) (ReadMissing f clock junk bm tid)
    (fun _ s' =>
       world s' = world s /\
       Stats.message_ (stats s') = found_message (reads_ bm) (reads_ bm)) s.
Proof.
  pose proof Hcfg as Hc. destruct Hc. eapply wp_mono; [by eapply DoRead_wp|].
  cbv zeta. intros [] s' (Hw & _ & _ & _ & ->). split; [done|].
  rewrite found_in_count.
  - rewrite length_drawn, Z2Nat.id by lia. done.
  - intros z Hz. apply Hall. eapply drawn_random_range; [lia|exact Hz].
Qed.

End fill.

(** A state whose store holds the keys 0 to 4. *)
Definition demo_filled : pstate MemLib.world :=
  mkState {[ demo_path := write_all 16 b!"XXX" [0; 1; 2; 3; 4] ∅ ]} 0 (Random.new 1000) demo_stats [].

Lemma demo_filled_started : started demo_filled.
Proof. split; [by do 2 eexists|]. vm_compute. split; discriminate. Qed.

Lemma demo_keys_present z :
  0 <= z < num_ demo_bm ->
  is_Some (write_all 16 b!"XXX" [0; 1; 2; 3; 4] ∅ !! key_of (key_size_ demo_bm) z).
Proof.
  cbn [demo_bm Benchmark.new num_ key_size_ demo_flags FLAGS_num FLAGS_key_size]. intros Hz.
  exists b!"XXX". apply write_all_in.
  rewrite !list_elem_of_In. simpl. lia.
Qed.

Lemma fillseq_then_readseq_witness :
  wp (put_error demo_bm (contents := MemLib.mem_store) (H := mem_ops))
    (_ ← WriteSeq demo_flags (fun _ => 0) (fun _ => 0) demo_bm 0 (H := mem_ops);
     _ ← restart 0; ReadSeq demo_flags (fun _ => 0) (fun _ => 0) demo_bm 0 (H := mem_ops))
    (fun _ s' => Stats.bytes_ (stats s') = 5 * 19) demo_state.
Proof.
  apply (wp_mono _ _ _ _ _ (fillseq_then_readseq MemLib.mem_store mem_contract demo_flags
    (fun _ => 0) (fun _ => 0) demo_bm 0 0 ∅ demo_state demo_config
    ltac:(vm_compute; discriminate) demo_started eq_refl (map_Forall_empty _))).
  intros a s' (_ & H & _). exact H.
Defined.

Lemma fillseq_then_deleteseq_witness :
  wp (put_error demo_bm (contents := MemLib.mem_store) (H := mem_ops))
    (_ ← WriteSeq demo_flags (fun _ => 0) (fun _ => 0) demo_bm 0 (H := mem_ops);
     r ← (fun s => Normal (PMKVWrapper.count_all (kv_ demo_bm) (world s) (H := mem_ops), s));
     _ ← restart 0; _ ← DeleteSeq demo_flags (fun _ => 0) (fun _ => 0) demo_bm 0 (H := mem_ops);
     mret r)
    (fun r s' => r = Normal (OK, 5) /\ MemLib.mem_store (world s') demo_path = Some ∅) demo_state.
Proof.
  apply (wp_mono _ _ _ _ _ (fillseq_then_deleteseq MemLib.mem_store mem_contract demo_flags
    (fun _ => 0) (fun _ => 0) demo_bm 0 0 ∅ demo_state demo_config demo_started eq_refl
    ltac:(vm_compute; discriminate) (fun _ => eq_refl))).
  intros a s' (H1 & H2 & _). exact (conj H1 H2).
Defined.

Lemma readmissing_finds_all_witness :
  wp (put_error demo_bm (contents := MemLib.mem_store) (H := mem_ops))
    (ReadMissing demo_flags (fun _ => 0) (fun _ => 0) demo_bm 0 (H := mem_ops))
    (fun _ s' => Stats.message_ (stats s') = b!"(5 of 5 found)") demo_filled.
Proof.
  apply (wp_mono _ _ _ _ _ (readmissing_finds_all MemLib.mem_store mem_contract demo_flags
    (fun _ => 0) (fun _ => 0) demo_bm 0 (write_all 16 b!"XXX" [0; 1; 2; 3; 4] ∅) demo_filled
    demo_config demo_filled_started eq_refl
    ltac:(apply write_all_fit; [vm_compute; discriminate|apply map_Forall_empty])
    demo_keys_present)).
  intros a s' (_ & H). rewrite H. vm_compute. reflexivity.
Defined.
