(* ===== verification/Mixed.v ===== *)
(** * The mixed workload and its loop bound

    [readrandomwriterandom] interleaves reads and writes in batches of 100
    operations, and [Duration] decides when it stops. *)

From Stdlib Require Import SpecFloat.
From S2P Require Import Prelude CLib Random Pmkv Double Histogram Stats TestUtil Workload WorkloadLogic Fill.

Local Open Scope Z_scope.
Import Benchmark.

(** ** The mixed workload *)

(** Reads among the first [i] operations: batches of 100, reads first. *)
Definition reads_in (pct i : Z) : Z := pct * (i / 100) + Z.min (i mod 100) pct.

(** The weights after [i] operations. *)
Definition weights (pct i : Z) : Z * Z :=
  let r := i mod 100 in
  if r =? 0 then (0, 0) else (Z.max 0 (pct - r), Z.min (100 - pct) (100 - r)).

Lemma mod_div_next i :
  0 <= i -> (i mod 100 < 99 /\ (i + 1) mod 100 = i mod 100 + 1 /\ (i + 1) / 100 = i / 100) \/
            (i mod 100 = 99 /\ (i + 1) mod 100 = 0 /\ (i + 1) / 100 = i / 100 + 1).
Proof.
  intros Hi. pose proof (Z.div_mod i 100). pose proof (Z.mod_pos_bound i 100).
  pose proof (Z.div_mod (i + 1) 100). pose proof (Z.mod_pos_bound (i + 1) 100). lia.
Qed.

Lemma reads_in_0 pct : 0 <= pct -> reads_in pct 0 = 0.
Proof. intros. unfold reads_in. change (0 mod 100) with 0. change (0 / 100) with 0. lia. Qed.

Lemma reads_in_next pct i :
  0 <= pct <= 100 -> 0 <= i ->
  reads_in pct (i + 1) = reads_in pct i + (if i mod 100 <? pct then 1 else 0).
Proof.
  intros Hp Hi. unfold reads_in. pose proof (Z.mod_pos_bound i 100).
  destruct (mod_div_next i Hi) as [(H1 & -> & ->)|(H1 & -> & ->)]; zcases; lia.
Qed.

(** The weights a round starts with, after the reset of a completed batch. *)
Lemma weights_start pct i :
  0 <= pct <= 100 -> 0 <= i ->
  (if (fst (weights pct i) =? 0) && (snd (weights pct i) =? 0) then (pct, 100 - pct)
   else weights pct i) = (Z.max 0 (pct - i mod 100), Z.min (100 - pct) (100 - i mod 100)).
Proof.
  intros Hp Hi. unfold weights. pose proof (Z.mod_pos_bound i 100).
  destruct (Z.eqb_spec (i mod 100) 0) as [->|]; cbn [fst snd].
  - rewrite !Z.eqb_refl. cbn [andb]. f_equal; lia.
  - zcases; try done; f_equal; lia.
Qed.

Lemma weights_next pct i :
  0 <= pct <= 100 -> 0 <= i ->
  weights pct (i + 1) =
    if i mod 100 <? pct then (Z.max 0 (pct - i mod 100) - 1, Z.min (100 - pct) (100 - i mod 100))
    else (Z.max 0 (pct - i mod 100), Z.min (100 - pct) (100 - i mod 100) - 1).
Proof.
  intros Hp Hi. unfold weights. pose proof (Z.mod_pos_bound i 100).
  destruct (mod_div_next i Hi) as [(H1 & -> & _)|(H1 & -> & _)]; zcases; try lia; f_equal; lia.
Qed.

(** The keys of the numbers in [keep] are in the store. *)
Definition keeps (keep : Z -> Prop) (ks : Z) (m : gmap bytes bytes) : Prop :=
  forall z, keep z -> is_Some (m !! key_of ks z).

Lemma keeps_insert keep ks m k v : keeps keep ks m -> keeps keep ks (<[k := v]> m).
Proof. intros Hm z Hz. apply lookup_insert_is_Some'. right. by apply Hm. Qed.

Section mixed.
Context {W kv : Type} {Ops : PmkvOps W kv} {contents : W -> kv -> option (gmap bytes bytes)}
  {Contract : PmkvContract W kv contents}.
Context (f : Flags) (clock : nat -> Z) (bm : Benchmark kv).
Hypothesis Hcfg : config_ok f bm 0.
Hypothesis Hpct : 0 <= FLAGS_readwritepercent f <= 100.
Hypothesis Hrw : 0 <= readwrites_ bm < 2 ^ 31 - 200000.
Context (keep : Z -> Prop).
Implicit Types s : pstate W.

(** Every key the workload may draw is in the store. *)
Definition all_kept : Prop := forall z, 0 <= z < num_ bm -> keep z.

(** Before the round of index [i]. *)
Record rw_inv (s0 : pstate W) (i : Z) (a : rwstate) (s : pstate W) : Prop := {
  rw_thread : thread_ok bm s;
  rw_stats : finished i (stats s0) (stats s);
  rw_weights : (get_weight a, put_weight a) = weights (FLAGS_readwritepercent f) i;
  rw_reads : reads_done a = reads_in (FLAGS_readwritepercent f) i;
  rw_writes : writes_done a = i - reads_in (FLAGS_readwritepercent f) i;
  rw_width : - 2 ^ 63 <= rw_bytes a < 2 ^ 63;
  rw_found : 0 <= found a <= reads_done a /\ (all_kept -> found a = reads_done a);
  rw_gen : gen_ok (gen a) /\ MAX_VAL_LEN <= zlen (RandomGenerator.data_ (gen a));
  rw_store : exists m, contents (world s) (kv_ bm) = Some m /\ values_fit m /\ keeps keep (key_size_ bm) m
}.

Lemma random_number_eq s :
  thread_ok bm s ->
  random_number f s = Normal (Random.lehmer (Random.seed_ (rand s)) mod num_ bm,
    set_rand (Random.mkRandom (Random.lehmer (Random.seed_ (rand s)))) s).
Proof using Hcfg.
  intros [_ Hr]. destruct Hcfg. unfold random_number, rand_Next, mbind, prog_bind.
  rewrite Random.Next_lehmer by done. rewrite (WorkloadLogic.ok_flags _ _ _ Hcfg), (u32_id (num_ bm)) by lia.
  rewrite (proj2 (Z.eqb_neq (num_ bm) 0)) by lia. done.
Qed.

Lemma reads_in_bounds i : 0 <= i -> 0 <= reads_in (FLAGS_readwritepercent f) i <= i.
Proof using Hpct.
  intros Hi. unfold reads_in. pose proof (Z.div_mod i 100). pose proof (Z.mod_pos_bound i 100).
  pose proof (Z.div_pos i 100). nia.
Qed.

(** The weights a round of index [i] works with. *)
Definition gets_left (i : Z) : Z := Z.max 0 (FLAGS_readwritepercent f - i mod 100).

Definition puts_left (i : Z) : Z :=
  Z.min (100 - FLAGS_readwritepercent f) (100 - i mod 100).

(** The invariant after a round that reads. *)
Lemma rw_inv_get s0 i a s z r t now v (ok : bool) b :
  0 <= i < readwrites_ bm -> Stats.done_ (stats s0) = 0 -> rw_inv s0 i a s ->
  Random.seed_ok r -> i mod 100 < FLAGS_readwritepercent f -> (all_kept -> ok = true) -> - 2 ^ 63 <= b < 2 ^ 63 ->
  rw_inv s0 (i + 1)
    (mkRw (gen a) v (if ok then found a + 1 else found a) (gets_left i - 1) (puts_left i)
       (reads_done a + 1) (writes_done a) b)
    (mkState (world s) t r (Stats.finished_op (FLAGS_histogram f) now (stats s))
       (key_of (key_size_ bm) z)).
Proof using All.
  intros Hi Hd [Ht Hf Hw Hrd Hwr _ [Hfd Hfa] Hg Hm] Hr Hlt Hok Hb.
  pose proof (reads_in_bounds i ltac:(lia)). destruct Hcfg.
  pose proof (weights_next _ i Hpct ltac:(lia)) as Hwn.
  pose proof (reads_in_next _ i Hpct ltac:(lia)) as Hrn.
  rewrite (proj2 (Z.ltb_lt _ _) Hlt) in Hwn, Hrn.
  split; cbn [get_weight put_weight reads_done writes_done found gen rw_bytes world stats].
  - split; [apply zlen_key_of; lia|done].
  - by apply finished_step.
  - by rewrite Hwn.
  - lia.
  - lia.
  - done.
  - split; [destruct ok; lia|]. intros Ha. rewrite (Hok Ha), (Hfa Ha). lia.
  - done.
  - done.
Qed.

(** The invariant after a round that writes. *)
Lemma rw_inv_put s0 i a s z r t now w m v off b :
  0 <= i < readwrites_ bm -> Stats.done_ (stats s0) = 0 -> rw_inv s0 i a s ->
  Random.seed_ok r -> FLAGS_readwritepercent f <= i mod 100 ->
  contents w (kv_ bm) = Some m -> values_fit m -> keeps keep (key_size_ bm) m ->
  0 <= off <= zlen (RandomGenerator.data_ (gen a)) -> - 2 ^ 63 <= b < 2 ^ 63 ->
  rw_inv s0 (i + 1)
    (mkRw (RandomGenerator.mkGen (RandomGenerator.data_ (gen a)) off) v (found a) (gets_left i)
       (puts_left i - 1) (reads_done a) (writes_done a + 1) b)
    (mkState w t r (Stats.finished_op (FLAGS_histogram f) now (stats s))
       (key_of (key_size_ bm) z)).
Proof using All.
  intros Hi Hd [Ht Hf Hw Hrd Hwr _ Hfd [[Hg1 Hg2] Hg3] _] Hr Hge Hm Hfit Hkeep Hoff Hb.
  pose proof (reads_in_bounds i ltac:(lia)). destruct Hcfg.
  pose proof (weights_next _ i Hpct ltac:(lia)) as Hwn.
  pose proof (reads_in_next _ i Hpct ltac:(lia)) as Hrn.
  rewrite (proj2 (Z.ltb_ge _ _) Hge) in Hwn, Hrn.
  split; cbn [get_weight put_weight reads_done writes_done found gen rw_bytes world stats].
  - split; [apply zlen_key_of; lia|done].
  - by apply finished_step.
  - by rewrite Hwn.
  - lia.
  - lia.
  - done.
  - done.
  - by split_and!.
  - eauto.
Qed.

(** The part of a round before the operation: the key and the weights. *)
Lemma wp_rw_start {A} s0 i a s (k : Z * Z -> Prog (pstate W) A) E Q :
  0 <= i < readwrites_ bm -> rw_inv s0 i a s ->
  (forall z r, 0 <= z < num_ bm -> Random.seed_ok r ->
     wp E (k (gets_left i, puts_left i)) Q (set_key (key_of (key_size_ bm) z) (set_rand r s))) ->
  wp E
    (z ← random_number f; _ ← make_key f bm z;
     p ← (if (get_weight a =? 0) && (put_weight a =? 0)
          then p ← lift (int_result (100 - FLAGS_readwritepercent f)); mret (FLAGS_readwritepercent f, p)
          else mret (get_weight a, put_weight a)); k p) Q s.
Proof using All.
  intros Hi [[Hb Hr] _ Hw _ _ _ _ _ _] Hk. pose proof Hcfg as Hc. destruct Hc.
  apply wp_bind. unfold wp at 1. rewrite random_number_eq by done.
  apply wp_bind. unfold wp at 1. rewrite (make_key_eq f bm 0 Hcfg); [| |done].
  - pose proof (weights_start _ i Hpct ltac:(lia)) as Hws. rewrite <- Hw in Hws. cbn [fst snd] in Hws.
    fold (gets_left i) (puts_left i) in Hws.
    apply wp_bind. revert Hws. destruct (_ && _); intros Hws.
    + apply wp_bind. eapply wp_lift; [apply int_result_ok; lia|]. apply wp_ret. rewrite Hws.
      apply Hk; [apply Z.mod_pos_bound; lia|by apply Random.lehmer_range].
    + apply wp_ret. rewrite Hws. apply Hk; [apply Z.mod_pos_bound; lia|by apply Random.lehmer_range].
  - pose proof (Z.mod_pos_bound (Random.lehmer (Random.seed_ (rand s))) (num_ bm)). lia.
Qed.

Lemma wp_rw_body s0 i a s :
  0 <= i < readwrites_ bm -> Stats.done_ (stats s0) = 0 -> rw_inv s0 i a s ->
  wp (put_error bm (contents := contents)) (rw_body f clock bm a) (rw_inv s0 (i + 1)) s.
Proof using All.
  intros Hi Hd Hinv. unfold rw_body. eapply wp_rw_start; [done|done|]. intros z r Hz Hr.
  destruct (rw_store _ _ _ _ Hinv) as (m & Hm & Hfit & Hkeep).
  pose proof (Z.mod_pos_bound i 100 ltac:(lia)). pose proof Hcfg as Hc. destruct Hc.
  pose proof (finished_counting _ _ _ (rw_stats _ _ _ _ Hinv) Hd ltac:(lia)) as Hcnt.
  pose proof (reads_in_bounds i ltac:(lia)) as Hri. pose proof (rw_reads _ _ _ _ Hinv) as Hrd.
  pose proof (rw_writes _ _ _ _ Hinv) as Hwr. pose proof (proj1 (rw_found _ _ _ _ Hinv)) as Hfd.
  destruct (Z.ltb_spec (i mod 100) (FLAGS_readwritepercent f)) as [Hlt|Hge].
  - rewrite (proj2 (Z.ltb_lt 0 _)) by (unfold gets_left; lia). apply wp_bind. unfold wp at 1, kv_get.
    cbn [set_key set_rand world key].
    destruct (PMKVWrapper.get _ _ _ _) as [st v] eqn:Eget.
    apply wp_bind. apply (wp_lift _ _ (if bool_decide (st = OK) then found a + 1 else found a)).
    { destruct (bool_decide (st = OK)); [apply int64_result_ok; lia|done]. }
    apply wp_bind, wp_gets, wp_bind. eapply wp_lift; [apply int64_result_ok; lia|].
    apply wp_finish; [done|]. intros t now. apply wp_ret.
    apply (rw_inv_get s0 i a s z r); try assumption; [|apply i64_range]. intros Ha. apply bool_decide_eq_true.
    destruct (Hkeep z (Ha z Hz)) as [v' Hv]. unfold PMKVWrapper.get in Eget.
    rewrite (get_found _ _ m _ v' Hm Hv (Hfit _ _ Hv)) in Eget. cbn in Eget. by simplify_eq.
  - rewrite (proj2 (Z.ltb_ge 0 _)), (proj2 (Z.ltb_lt 0 _)) by (unfold gets_left, puts_left; lia).
    destruct (rw_gen _ _ _ _ Hinv) as [Hg Hdata].
    unfold MAX_VAL_LEN in *. rewrite (u32_id (value_size_ bm)) by lia.
    destruct (Generate_ok (gen a) (value_size_ bm) Hg ltac:(lia)) as (off & sl & HG & Hoff & Hend & _ & HS).
    assert (0 <= off) by (destruct Hg; rewrite Hoff; zcases; lia).
    apply wp_bind. eapply wp_lift; [exact HG|]. cbv beta iota.
    apply wp_bind. eapply wp_lift; [rewrite HS; reflexivity|]. set (v := take _ _).
    assert (Hv : zlen v <= 1048576) by (unfold v, zlen; rewrite length_take; lia).
    apply wp_bind. unfold kv_put, wp at 1, PMKVWrapper.put.
    pose proof (put_stores (world s) (kv_ bm) m (key_of (key_size_ bm) z) v Hm) as Hp.
    cbn [set_key set_rand world key ticks rand stats].
    destruct (pmkv_put _ _ _ _) as [st w'] eqn:Ep. cbn [fst snd] in Hp.
    destruct (Z.eqb_spec st 0) as [->|Hst]; cbn [negb mbind outcome_bind].
    + destruct Hp as [[_ Hp]|[]]; [|done]. rewrite bool_decide_true by done. cbn [negb].
      apply wp_bind, wp_gets, wp_bind. eapply wp_lift; [apply int64_result_ok; lia|].
      apply wp_finish; [done|]. intros t now. apply wp_ret.
      apply (rw_inv_put s0 i a s z r t now w' (<[key_of (key_size_ bm) z := v]> m));
        try assumption; [by apply map_Forall_insert_2|by apply keeps_insert|lia|apply i64_range].
    + split; [done|]. exists (world s), m, (key_of (key_size_ bm) z), v. rewrite Ep. done.
Qed.

(** The state of [duration] after [i] rounds. *)
Definition duration_at (i : Z) : Duration.Duration :=
  Duration.mkDuration 0 (readwrites_ bm) (readwrites_ bm) i 0.

Lemma rw_loop_S fuel i a s :
  0 <= i < 2 ^ 31 ->
  rw_loop f clock (S fuel) bm (duration_at i) a s =
    (if readwrites_ bm <? i + 1 then mret a
     else a' ← rw_body f clock bm a; rw_loop f clock fuel bm (duration_at (i + 1)) a') s.
Proof.
  intros Hi. cbn [rw_loop]. unfold mbind, prog_bind at 1, lift, Duration.Done.
  cbn [duration_at Duration.ops_ Duration.max_seconds_ Duration.max_ops_ Duration.ops_per_stage_ Duration.start_at_ Z.leb Z.compare].
  rewrite int64_result_ok by lia. cbn [mbind outcome_bind Z.eqb negb]. fold (duration_at (i + 1)).
  by destruct (readwrites_ bm <? i + 1).
Qed.

Lemma rw_loop_wp s0 : Stats.done_ (stats s0) = 0 -> forall k i a s,
  0 <= i -> readwrites_ bm = i + Z.of_nat k -> rw_inv s0 i a s ->
  wp (put_error bm (contents := contents)) (rw_loop f clock (S k) bm (duration_at i) a)
    (rw_inv s0 (readwrites_ bm)) s.
Proof using All.
  intros Hd k. induction k as [|k IH]; intros i a s Hi Hn Hinv; unfold wp; rewrite rw_loop_S by lia;
    match goal with |- match ?p s with _ => _ end =>
      change (wp (put_error bm (contents := contents)) p (rw_inv s0 (readwrites_ bm)) s) end.
  - rewrite (proj2 (Z.ltb_lt (readwrites_ bm) (i + 1))) by lia. apply wp_ret.
    by replace (readwrites_ bm) with i by lia.
  - rewrite (proj2 (Z.ltb_ge (readwrites_ bm) (i + 1))) by lia. apply wp_bind.
    eapply wp_mono; [apply (wp_rw_body s0 i); [lia|done|exact Hinv]|]. intros a' s' Hinv'.
    apply IH; [lia|lia|done].
Qed.

End mixed.

(** ** Properties *)

(** C29: with a percentage between 0 and 100, [readrandomwriterandom] ends
    after exactly [readwrites_] operations, of which the given percentage of
    every complete batch of 100 are reads and the rest writes, and its message
    reports these numbers; if every key below [num] is in the store, every read
    finds its key.  The only other ending is the exception of a [put] the store
    refused. *)
Theorem readrandomwriterandom_mix {W kv : Type} {Ops : PmkvOps W kv}
  (contents : W -> kv -> option (gmap bytes bytes)) (Contract : PmkvContract W kv contents)
  f clock junk bm m (s : pstate W)
  (Hcfg : config_ok f bm 0) (Hpct : 0 <= FLAGS_readwritepercent f <= 100)
  (Hrw : 0 <= readwrites_ bm < 2 ^ 31 - 200000) (Hvs : FLAGS_value_size f = value_size_ bm)
  (Hs : started s) (Hm : contents (world s) (kv_ bm) = Some m) (Hfit : values_fit m) :
  let pct := FLAGS_readwritepercent f in
  let reads := reads_in pct (readwrites_ bm) in
  (forall batches, 0 <= batches -> reads_in pct (100 * batches) = pct * batches) /\
  wp (put_error bm (contents := contents)) (ReadRandomWriteRandom f clock junk bm)
    (fun _ s' => exists found, 0 <= found <= reads /\
       ((forall z, 0 <= z < num_ bm -> is_Some (m !! key_of (key_size_ bm) z)) -> found = reads) /\
       Stats.done_ (stats s') = readwrites_ bm /\
       Stats.message_ (stats s') = snprintf 100
         (b!"( reads:" ++ format_llu reads ++ b!" writes:" ++ format_llu (readwrites_ bm - reads)
          ++ b!" total:" ++ format_llu (readwrites_ bm) ++ b!" found:" ++ format_llu found ++ b!")")) s.
Proof.
  cbv zeta. split.
  { intros b Hb. unfold reads_in. rewrite (Z.mul_comm 100 b), Z.mod_mul, Z.div_mul by lia. lia. }
  destruct Hs as [(now & st & Hst) Hr]. pose proof Hcfg as Hc. destruct Hc. unfold ReadRandomWriteRandom.
  unfold MAX_VAL_LEN in *.
  destruct (generator_new_ok (FLAGS_value_size f)) as (g & Hg & Hgok & Hdata & _); [lia|].
  apply wp_bind. eapply wp_lift; [exact Hg|]. apply wp_bind. unfold wp at 1.
  rewrite (AllocateKey_eq f junk bm 0 Hcfg). apply wp_bind. eapply wp_mono.
  - apply (rw_loop_wp f clock bm Hcfg Hpct Hrw (fun z => is_Some (m !! key_of (key_size_ bm) z)) s (Contract := Contract)) with (i := 0);
      [by rewrite Hst|lia|rewrite Z2Nat.id; lia|].
    split; cbn [get_weight put_weight reads_done writes_done found gen world set_key stats]; try done.
    + split; [|done]. cbn [key set_key]. unfold zlen. rewrite length_new_block. lia.
    + rewrite Hst. apply finished_0.
    + by rewrite reads_in_0 by lia.
    + by rewrite reads_in_0 by lia.
    + unfold MAX_VAL_LEN. split; [done|lia].
    + exists m. split_and!; [done..|]. by intros z Hz.
  - intros a s' [_ Hf _ Hrd Hwr Hb [Hfd Hfa] _ _]. pose proof (fin_bytes _ _ _ Hf) as Hby.
    rewrite Hst in Hby. cbn [Stats.Start Stats.bytes_] in Hby.
    apply wp_bind, wp_AddBytes; [rewrite Hby; lia|]. apply wp_modify.
    pose proof (reads_in_bounds f Hpct (readwrites_ bm) ltac:(lia)).
    exists (found a). cbn [set_stats stats Stats.AddMessage Stats.with_bytes Stats.done_ Stats.message_].
    split_and!; [lia..|by intros Ha; rewrite (Hfa Ha)|rewrite (fin_done _ _ _ Hf), Hst; done|].
    rewrite (fin_message _ _ _ Hf), Hst. unfold rw_message. rewrite !u64_id by lia.
    rewrite Hrd, Hwr. unfold Stats.AppendWithSpace. cbn [Stats.Start Stats.message_ app].
    by destruct (snprintf _ _).
Qed.

Lemma readrandomwriterandom_mix_witness :
  wp (put_error demo_bm (contents := MemLib.mem_store) (H := mem_ops))
    (ReadRandomWriteRandom demo_flags (fun _ => 0) (fun _ => 0) demo_bm (H := mem_ops))
    (fun _ s' => Stats.done_ (stats s') = 5) demo_state.
Proof.
  destruct (readrandomwriterandom_mix MemLib.mem_store mem_contract demo_flags
    (fun _ => 0) (fun _ => 0) demo_bm ∅ demo_state demo_config
    ltac:(vm_compute; split; discriminate) ltac:(vm_compute; split; [discriminate|reflexivity])
    eq_refl demo_started eq_refl (map_Forall_empty _)) as [_ H].
  apply (wp_mono _ _ _ _ _ H). intros a s' (n & _ & _ & Hd & _). exact Hd.
Defined.

(** The number of rounds of [while (!duration.Done(increment))], the [i]th call
    reading the time [now i]. *)
Fixpoint rounds (fuel : nat) (increment : Z) (now : nat -> Z) (i : nat) (d : Duration.Duration)
  : outcome nat :=
  match fuel with
  | O => Undefined
  | S fuel' =>
      '(stop, d) ← Duration.Done increment (now i) d;
      if (stop : bool) then Normal i else rounds fuel' increment now (S i) d
  end.

Lemma rounds_ops inc now max_ops stage start : 0 < inc -> 0 <= max_ops -> max_ops + inc < 2 ^ 63 ->
  forall fuel i, Z.of_nat i * inc <= max_ops -> max_ops < Z.of_nat (i + fuel) * inc ->
  rounds fuel inc now i (Duration.mkDuration 0 max_ops stage (Z.of_nat i * inc) start) =
    Normal (Z.to_nat (max_ops / inc)).
Proof.
  intros Hinc Hmax Hw fuel. induction fuel as [|fuel IH]; intros i Hi Hf.
  { rewrite Nat.add_0_r in Hf. lia. }
  cbn [rounds]. unfold Duration.Done.
  cbn [Duration.max_seconds_ Duration.max_ops_ Duration.ops_per_stage_ Duration.ops_ Duration.start_at_].
  rewrite (proj2 (Z.leb_gt inc 0)) by lia. rewrite (int64_result_ok (Z.of_nat i * inc + inc)) by lia.
  cbn [mbind outcome_bind Z.eqb negb]. replace (Z.of_nat i * inc + inc) with (Z.of_nat (S i) * inc) by lia.
  destruct (Z.ltb_spec max_ops (Z.of_nat (S i) * inc)).
  - f_equal. apply Nat2Z.inj. rewrite Z2Nat.id by (apply Z.div_pos; lia).
    apply (Z.div_unique max_ops inc (Z.of_nat i) (max_ops - Z.of_nat i * inc)); lia.
  - apply IH; [lia|]. by replace (S i + fuel)%nat with (i + S fuel)%nat by lia.
Qed.

Lemma rounds_time now max_seconds max_ops stage start :
  0 < max_seconds -> (forall i, 0 <= now i - start < 2 ^ 63) ->
  (forall i, max_seconds <= (now i - start) / 1000000) ->
  forall fuel i, (i < 1000)%nat -> (1000 <= i + fuel)%nat ->
  rounds fuel 1 now i (Duration.mkDuration max_seconds max_ops stage (Z.of_nat i) start) = Normal 999%nat.
Proof.
  intros Hs Hn Ht fuel. induction fuel as [|fuel IH]; intros i Hi Hf; [lia|].
  cbn [rounds]. unfold Duration.Done, FLAGS_ops_between_duration_checks.
  cbn [Duration.max_seconds_ Duration.max_ops_ Duration.ops_per_stage_ Duration.ops_ Duration.start_at_
       Z.leb Z.compare]. rewrite (int64_result_ok (Z.of_nat i + 1)) by lia. cbn [mbind outcome_bind].
  rewrite (proj2 (Z.eqb_neq max_seconds 0)) by lia. cbn [negb].
  rewrite !Z.quot_div_nonneg by (lia || apply Hn).
  replace (Z.of_nat i + 1 - 1) with (Z.of_nat i) by lia. rewrite (Z.div_small (Z.of_nat i)) by lia.
  destruct (decide (i = 999%nat)) as [->|Hne].
  - change ((Z.of_nat 999 + 1) / 1000 =? 0) with false. cbn [negb]. rewrite u64_id.
    + rewrite (proj2 (Z.leb_le _ _) (Ht 999%nat)). done.
    + pose proof (Hn 999%nat). split; [apply Z.div_pos; lia|]. apply Z.div_lt_upper_bound; lia.
  - rewrite Z.div_small by lia. cbn [Z.eqb negb].
    replace (Z.of_nat i + 1) with (Z.of_nat (S i)) by lia. apply IH; lia.
Qed.

(** Without a time limit the loop [while (!duration.Done(increment))]
    runs [max_ops / increment] times.  With a limit of [s] seconds and
    increment 1 it stops after 999 rounds as soon as [s] milliseconds have
    passed: the limit is compared with milliseconds. *)
Theorem duration_rounds max_ops inc max_seconds (now : nat -> Z) start
  (Hops : 0 <= max_ops < 2 ^ 62) (Hinc : 0 < inc < 2 ^ 62) (Hsec : 0 < max_seconds)
  (Hnow : forall i, max_seconds * 1000000 <= now i - start < 2 ^ 63) :
  (exists fuel, rounds fuel inc now 0 (Duration.new 0 max_ops 0 start) = Normal (Z.to_nat (max_ops / inc))) /\
  (exists fuel, rounds fuel 1 now 0 (Duration.new max_seconds max_ops 0 start) = Normal 999%nat).
Proof.
  unfold Duration.new. cbn [Z.ltb Z.compare]. split.
  - exists (Z.to_nat (max_ops + 1)). change 0 with (Z.of_nat 0 * inc) at 2.
    apply rounds_ops; [lia..| |]; nia.
  - exists 1000%nat. apply (rounds_time now max_seconds max_ops max_ops start) with (i := 0%nat).
    + done.
    + intros i. specialize (Hnow i). lia.
    + intros i. apply Z.div_le_lower_bound; [lia|]. specialize (Hnow i). lia.
    + lia.
    + lia.
Qed.

Lemma duration_rounds_witness :
  exists fuel, rounds fuel 1 (fun _ => 2000000) 0 (Duration.new 2 1000000 0 0) = Normal 999%nat.
Proof.
  destruct (duration_rounds 1000000 1 2 (fun _ => 2000000) 0) as [_ H].
  - lia.
  - lia.
  - lia.
  - intros i. lia.
  - exact H.
Defined.
