(* ===== verification/WhileWriting.v ===== *)
(** * The writer of readwhilewriting (bench/bench.cc, BGWriter, ReadWhileWriting)

    The writer puts random keys until a look at the counters, taken with the
    mutex held before every put, finds the other threads done; when that is so
    is the matter of [Barrier], and here the number of puts is an argument. *)

From Stdlib Require Import SpecFloat.
From S2P Require Import Prelude CLib Slice Random Pmkv Double Histogram Stats TestUtil Workload.
From S2P Require Import WorkloadLogic Fill Mixed.

Local Open Scope Z_scope.
Import Benchmark.

Inductive OperationType := kRead | kWrite | kDelete | kSeek | kMerge | kUpdate.

Section writer.
Context {W kv : Type} `{PmkvOps W kv}.
Variables (f : Flags) (clock : nat -> Z) (junk : nat -> Z).

(** A round of the loop after the look at the counters; only [kWrite] is
    supported. *)
Definition bg_body (bm : Benchmark kv) (write_merge : OperationType) (_ : Z) (a : RandomGenerator.RandomGenerator * Z)
  : Prog (pstate W) (RandomGenerator.RandomGenerator * Z) :=
  let '(gen, bytes) := a in
  k ← random_number f;
  _ ← make_key f bm k;
  match write_merge with
  | kWrite =>
      '(gen, sl) ← lift (RandomGenerator.Generate gen (u32 (value_size_ bm)));
      v ← lift (defined (Slice.ToString sl));
      s ← kv_put bm v;
      if negb (bool_decide (s = OK)) then lift (Exited 1) else
      key_size ← gets (fun s => zlen (key s));
      mret (gen, i64 (bytes + u64 (key_size + u64 (value_size_ bm))))
  | _ => lift (Exited 1)
  end.

Definition BGWriter (bm : Benchmark kv) (write_merge : OperationType) (rounds : nat) : Prog (pstate W) unit :=
  gen ← lift (RandomGenerator.new (FLAGS_value_size f));
  _ ← modify (set_stats Stats.SetExcludeFromMerge);
  _ ← AllocateKey junk bm;
  '(_, bytes) ← for_loop rounds 0 (bg_body bm write_merge) (gen, 0);
  on_stats (Stats.AddBytes bytes).

Definition ReadWhileWriting (bm : Benchmark kv) (tid : Z) (rounds : nat) : Prog (pstate W) unit :=
  if 0 <? tid then ReadRandom f clock junk bm tid else BGWriter bm kWrite rounds.

End writer.

(** ** Lemmas *)
Section lemmas.
Context {W kv : Type} {Ops : PmkvOps W kv} {contents : W -> kv -> option (gmap bytes bytes)}
  {Contract : PmkvContract W kv contents}.
Context (f : Flags) (bm : Benchmark kv).
Hypothesis Hcfg : config_ok f bm 0.
Implicit Types s : pstate W.

(** A [put] through the wrapper: it stores, or throws. *)
Lemma wp_kv_put {A} m v (k : kv_status -> Prog (pstate W) A) Q s :
  contents (world s) (kv_ bm) = Some m ->
  (forall w', contents w' (kv_ bm) = Some (<[key s := v]> m) ->
     wp (put_error bm (contents := contents)) (k OK) Q (set_world w' s)) ->
  wp (put_error bm (contents := contents)) (x ← kv_put bm v; k x) Q s.
Proof using Contract.
  intros Hm Hk. apply wp_bind. unfold kv_put, wp at 1, PMKVWrapper.put.
  pose proof (put_stores (world s) (kv_ bm) m (key s) v Hm) as Hp.
  destruct (pmkv_put _ _ _ _) as [st w'] eqn:Ep. cbn [fst snd] in Hp.
  destruct (Z.eqb_spec st 0) as [->|Hst]; cbn [negb mbind outcome_bind].
  - destruct Hp as [[_ Hp]|[]]; [|done]. by apply Hk.
  - split; [done|]. exists (world s), m, (key s), v. by rewrite Ep.
Qed.

(** What the writer may have done to the store. *)
Definition random_puts (m m' : gmap bytes bytes) : Prop :=
  forall k, m' !! k = m !! k \/
    exists z v, 0 <= z < num_ bm /\ k = key_of (key_size_ bm) z /\
      m' !! k = Some v /\ zlen v = value_size_ bm.

Lemma random_puts_step m m' z v :
  random_puts m m' -> 0 <= z < num_ bm -> zlen v = value_size_ bm ->
  random_puts m (<[key_of (key_size_ bm) z := v]> m').
Proof.
  intros Hm Hz Hv k. destruct (decide (key_of (key_size_ bm) z = k)) as [<-|Hk].
  - right. exists z, v. by rewrite lookup_insert_eq.
  - by rewrite lookup_insert_ne.
Qed.

(** Before the round of index [i]. *)
Record bg_inv (m : gmap bytes bytes) (st : Stats.Stats) (i : Z)
    (a : RandomGenerator.RandomGenerator * Z) (s : pstate W) : Prop := {
  bg_thread : thread_ok bm s;
  bg_stats : stats s = st;
  bg_bytes : snd a = i * (key_size_ bm + value_size_ bm);
  bg_gen : gen_ok (fst a) /\ MAX_VAL_LEN <= zlen (RandomGenerator.data_ (fst a));
  bg_store : exists m', contents (world s) (kv_ bm) = Some m' /\ random_puts m m'
}.

(** A round: a put of some key below [num_], and a generator that is still
    good. *)
Lemma wp_bg_round m' j a s (Q : RandomGenerator.RandomGenerator * Z -> pstate W -> Prop) :
  thread_ok bm s -> gen_ok (fst a) -> MAX_VAL_LEN <= zlen (RandomGenerator.data_ (fst a)) ->
  contents (world s) (kv_ bm) = Some m' ->
  (forall z v off r w', 0 <= z < num_ bm -> zlen v = value_size_ bm -> Random.seed_ok r ->
     0 <= off <= zlen (RandomGenerator.data_ (fst a)) ->
     contents w' (kv_ bm) = Some (<[key_of (key_size_ bm) z := v]> m') ->
     Q (RandomGenerator.mkGen (RandomGenerator.data_ (fst a)) off, i64 (snd a + (key_size_ bm + value_size_ bm)))
       (mkState w' (ticks s) r (stats s) (key_of (key_size_ bm) z))) ->
  wp (put_error bm (contents := contents)) (bg_body f bm kWrite j a) Q s.
Proof using Hcfg Contract.
  intros Ht Hg Hdata Hm HQ. destruct a as [g b]. cbn [fst snd] in *.
  pose proof Hcfg as Hc. destruct Hc. pose proof Ht as [Hkey Hr]. unfold bg_body, MAX_VAL_LEN in *.
  apply wp_bind. unfold wp at 1. rewrite (random_number_eq f bm Hcfg s Ht).
  pose proof (Random.lehmer_range (Random.seed_ (rand s)) Hr) as Hr'.
  pose proof (Z.mod_pos_bound (Random.lehmer (Random.seed_ (rand s))) (num_ bm) ltac:(lia)) as Hz.
  set (z := Random.lehmer (Random.seed_ (rand s)) mod num_ bm) in *.
  apply wp_bind. unfold wp at 1. rewrite (make_key_eq f bm 0 Hcfg); [|lia|done].
  rewrite (u32_id (value_size_ bm)) by lia.
  destruct (Generate_ok g (value_size_ bm) Hg ltac:(lia)) as (off & sl & HG & Hoff & Hend & _ & HS).
  assert (0 <= off) by (destruct Hg; rewrite Hoff; zcases; lia).
  apply wp_bind. eapply wp_lift; [exact HG|]. cbv beta iota.
  apply wp_bind. eapply wp_lift; [rewrite HS; reflexivity|].
  eapply wp_kv_put; [exact Hm|]. cbn [set_key set_rand key]. intros w' Hm'.
  rewrite bool_decide_true by done. cbn [negb]. apply wp_bind, wp_gets, wp_ret. cbn [set_world set_key set_rand key].
  assert (Hkl : zlen (key_of (key_size_ bm) z) = key_size_ bm) by (apply zlen_key_of; lia).
  rewrite Hkl, (u64_id (value_size_ bm)), (u64_id (key_size_ bm + value_size_ bm)) by lia.
  eapply (HQ z _ _ (Random.mkRandom (Random.lehmer (Random.seed_ (rand s))))); [done| |done| |exact Hm'].
  - unfold zlen in *. rewrite length_take, length_drop. lia.
  - destruct Hg. lia.
Qed.

Lemma wp_bg_body m st i j a s :
  0 <= i < 2 ^ 31 -> bg_inv m st i a s ->
  wp (put_error bm (contents := contents)) (bg_body f bm kWrite j a) (bg_inv m st (i + 1)) s.
Proof using Hcfg Contract.
  intros Hi [Ht Hst Hb [Hg Hdata] (m' & Hm & Hp)]. pose proof Hcfg as Hc. destruct Hc. unfold MAX_VAL_LEN in *.
  eapply wp_bg_round; [done..|]. intros z v off r w' Hz Hv Hr Hoff Hm'.
  split; cbn [world stats fst snd].
  - split; [by apply zlen_key_of; lia|done].
  - exact Hst.
  - rewrite Hb, i64_id; nia.
  - destruct Hg as [Hg1 Hg2]. split; [split; cbn [RandomGenerator.data_ RandomGenerator.pos_]; lia|exact Hdata].
  - eexists. split; [exact Hm'|]. by apply random_puts_step.
Qed.

End lemmas.

(** ** Properties *)

(** The writer of [readwhilewriting].  However many puts it makes before
    the other threads are done, it ends, or throws when a put is refused; every
    entry of the store is then as before, or is one of the keys below
    [FLAGS_num] with a value of [value_size_] bytes; its own statistics count
    the bytes and no operation, and merging them into those of a reader changes
    nothing.  The other threads of the workload are those of [readrandom]. *)
Theorem writer_while_reading {W kv : Type} {Ops : PmkvOps W kv}
  (contents : W -> kv -> option (gmap bytes bytes)) (Contract : PmkvContract W kv contents)
  f clock junk bm rounds m (s : pstate W)
  (Hcfg : config_ok f bm 0) (Hvs : FLAGS_value_size f = value_size_ bm)
  (Hrounds : Z.of_nat rounds < 2 ^ 31) (Hs : started s)
  (Hm : contents (world s) (kv_ bm) = Some m) :
  wp (put_error bm (contents := contents)) (ReadWhileWriting f clock junk bm 0 rounds)
    (fun _ s' => (exists m', contents (world s') (kv_ bm) = Some m' /\ random_puts bm m m') /\
       Stats.bytes_ (stats s') = Z.of_nat rounds * (key_size_ bm + value_size_ bm) /\
       Stats.done_ (stats s') = 0 /\ forall other, Stats.Merge other (stats s') = Normal other) s /\
  forall tid, 0 < tid -> ReadWhileWriting f clock junk bm tid rounds = ReadRandom f clock junk bm tid.
Proof.
  split; [|intros tid Ht; unfold ReadWhileWriting; by rewrite (proj2 (Z.ltb_lt 0 tid))].
  destruct Hs as [(now & st & Hst) Hr]. pose proof Hcfg as Hc. destruct Hc.
  change (ReadWhileWriting f clock junk bm 0 rounds) with (BGWriter f junk bm kWrite rounds).
  unfold BGWriter, MAX_VAL_LEN in *.
  destruct (generator_new_ok (FLAGS_value_size f)) as (g & Hg & Hgok & Hdata & _); [lia|].
  apply wp_bind. eapply wp_lift; [exact Hg|]. apply wp_bind, wp_modify, wp_bind. unfold wp at 1.
  rewrite (AllocateKey_eq f junk bm 0 Hcfg). apply wp_bind. eapply wp_mono.
  - apply (wp_for_loop _ (bg_inv (contents := contents) bm m (Stats.SetExcludeFromMerge (stats s)))).
    + split; cbn [fst snd stats set_key set_stats world]; [|done|done| |].
      * split; [|done]. cbn [key set_key]. unfold zlen. rewrite length_new_block. lia.
      * unfold MAX_VAL_LEN. split; [done|lia].
      * exists m. split; [done|]. intros k. by left.
    + intros j a s' Hj Hinv. apply (wp_bg_body f bm Hcfg); [lia|done].
  - intros [g' b] s' [_ Hst' Hb _ Hm']. rewrite Z.add_0_l in Hb. cbn [snd] in Hb.
    apply wp_AddBytes; [rewrite Hst', Hst; cbn [Stats.SetExcludeFromMerge Stats.Start Stats.bytes_]; rewrite Hb; nia|].
    cbn [set_stats world stats]. rewrite Hst', Hst.
    split_and!; [done| |done|done]. cbn [Stats.with_bytes Stats.SetExcludeFromMerge Stats.Start Stats.bytes_].
    rewrite Hb. lia.
Qed.

Lemma writer_while_reading_witness :
  wp (put_error demo_bm (contents := MemLib.mem_store) (H := mem_ops))
    (ReadWhileWriting demo_flags (fun _ => 0) (fun _ => 0) demo_bm 0 3 (H := mem_ops))
    (fun _ s' => Stats.bytes_ (stats s') = 3 * 19) demo_state.
Proof.
  destruct (writer_while_reading MemLib.mem_store mem_contract demo_flags (fun _ => 0) (fun _ => 0)
    demo_bm 3 ∅ demo_state demo_config eq_refl eq_refl demo_started eq_refl) as [H _].
  apply (wp_mono _ _ _ _ _ H). intros a s' (_ & Hb & _). exact Hb.
Defined.
