(* ===== verification/FillThreads.v ===== *)
(** * fillseq by several threads (bench/bench.cc, DoWrite under RunBenchmark)

    The rounds of the threads interleave in any order.  A round makes one call
    of the store and otherwise touches only what its thread owns, so a schedule
    of whole rounds covers every behaviour of a store whose calls are atomic. *)

From Stdlib Require Import SpecFloat.
From S2P Require Import Prelude CLib Random Pmkv Double Histogram Stats TestUtil Workload WorkloadLogic Fill.

Local Open Scope Z_scope.
Import Benchmark.

(** What a thread owns inside the loop of [DoWrite]: the index, the byte
    count, [rand], [stats] and the key buffer. *)
Record tlocal := mkLocal {
  t_i : Z; t_bytes : Z; t_rand : Random.Random; t_stats : Stats.Stats; t_key : bytes
}.

Record machine (W : Type) := mkMachine {
  g_world : W; g_ticks : nat; g_threads : list tlocal
}.
Arguments mkMachine {W}.
Arguments g_world {W}.
Arguments g_ticks {W}.
Arguments g_threads {W}.

Section schedule.
Context {W kv : Type} `{PmkvOps W kv}.
Context (f : Flags) (clock : nat -> Z) (bm : Benchmark kv).

Definition thread_state (g : machine W) (l : tlocal) : pstate W :=
  mkState (g_world g) (g_ticks g) (t_rand l) (t_stats l) (t_key l).

(** Thread [t] runs the next round of its loop, if it has one left. *)
Definition fill_step (t : nat) (g : machine W) : outcome (machine W) :=
  match g_threads g !! t with
  | None => Normal g
  | Some l =>
      if t_i l <? num_ bm then
        '(b, s) ← write_body f clock bm (Z.of_nat t) true (t_i l) (t_bytes l) (thread_state g l);
        Normal (mkMachine (world s) (ticks s)
          (<[t := mkLocal (t_i l + 1) b (rand s) (stats s) (key s)]> (g_threads g)))
      else Normal g
  end.

Fixpoint fill_run (sched : list nat) (g : machine W) : outcome (machine W) :=
  match sched with
  | [] => Normal g
  | t :: sched' => g' ← fill_step t g; fill_run sched' g'
  end.

End schedule.

(** The threads as [RunBenchmark] makes them: [ThreadState(i)] seeds the
    generator with [1000 + i]; each has called [stats.Start()] and allocated its key. *)
Definition fill_threads {kv} (bm : Benchmark kv) (now : nat -> Z) (st : nat -> Stats.Stats) (junk : nat -> Z)
  (n : nat) : list tlocal :=
  map (fun t => mkLocal 0 0 (Random.new (1000 + Z.of_nat t)) (Stats.Start (now t) (st t))
         (new_block junk (key_size_ bm)))
    (seq 0 n).

(** ** Lemmas *)

(** [m] is [m0] with the value [v] under the keys of the numbers in [P]. *)
Record holds (ks : Z) (v : bytes) (P : Z -> Prop) (m0 m : gmap bytes bytes) : Prop := {
  holds_in z : P z -> m !! key_of ks z = Some v;
  holds_out k : (forall z, P z -> key_of ks z <> k) -> m !! k = m0 !! k
}.

Lemma holds_insert ks v (P P' : Z -> Prop) m0 m z :
  holds ks v P m0 m -> (forall y, P' y <-> P y \/ y = z) ->
  holds ks v P' m0 (<[key_of ks z := v]> m).
Proof.
  intros [H1 H2] HP. split.
  - intros y Hy. destruct (decide (key_of ks z = key_of ks y)) as [->|Hne]; [by simplify_map_eq|].
    rewrite lookup_insert_ne by done. apply H1. apply HP in Hy as [Hy| ->]; done.
  - intros k Hk. rewrite lookup_insert_ne by (apply Hk, HP; auto). apply H2.
    intros y Hy. apply Hk, HP. auto.
Qed.

Lemma holds_write_all ks v (P : Z -> Prop) m0 m l :
  holds ks v P m0 m -> (forall z, P z <-> z ∈ l) -> m = write_all ks v l m0.
Proof.
  intros [H1 H2] HP. apply map_eq. intros k.
  destruct (decide (Exists (fun z => key_of ks z = k) l)) as [(z & Hz & <-)%Exists_exists|Hn].
  - rewrite H1 by (by apply HP). by rewrite write_all_in.
  - assert (forall z, z ∈ l -> key_of ks z <> k).
    { intros z Hz Hk. apply Hn, Exists_exists. eauto. }
    rewrite write_all_notin by done. apply H2. intros z Hz. apply HP in Hz. auto.
Qed.

(** The rounds thread [t] has done when the schedule named it [c] times. *)
Definition rounds_done (num : Z) (c : nat) : Z := Z.min num (Z.of_nat c).

Definition occurrences (t : nat) (sched : list nat) : nat := count_occ Nat.eq_dec sched t.

Section invariant.
Context {W kv : Type} {Ops : PmkvOps W kv} {contents : W -> kv -> option (gmap bytes bytes)}
  {Contract : PmkvContract W kv contents}.
Context (f : Flags) (clock : nat -> Z) (bm : Benchmark kv) (n : nat) (m0 : gmap bytes bytes).
Hypothesis Hcfg : forall t, (t < n)%nat -> config_ok f bm (Z.of_nat t).

(** The numbers written when thread [t] was scheduled [c t] times. *)
Definition written (c : nat -> nat) (z : Z) : Prop :=
  exists t, (t < n)%nat /\
    Z.of_nat t * num_ bm <= z < Z.of_nat t * num_ bm + rounds_done (num_ bm) (c t).

Record fill_inv (c : nat -> nat) (g : machine W) : Prop := {
  inv_threads : length (g_threads g) = n;
  inv_local t l : g_threads g !! t = Some l ->
    t_i l = rounds_done (num_ bm) (c t) /\ thread_ok bm (thread_state g l) /\
    finished (t_i l) (Stats.Start 0 (t_stats l)) (t_stats l);
  inv_store : exists m, contents (g_world g) (kv_ bm) = Some m /\
    holds (key_size_ bm) (xs bm) (written c) m0 m
}.

Definition bump (c : nat -> nat) (t : nat) : nat -> nat :=
  fun t' => if decide (t' = t) then S (c t') else c t'.

Lemma written_idle c t :
  (n <= t)%nat \/ num_ bm <= Z.of_nat (c t) -> forall z, written (bump c t) z <-> written c z.
Proof.
  intros Hc z. unfold written, bump, rounds_done.
  split; intros (t' & Ht & Hz); exists t'; (split; [done|]); destruct (decide (t' = t)); subst; lia.
Qed.

Lemma written_step c t :
  (t < n)%nat -> Z.of_nat (c t) < num_ bm -> forall z,
  written (bump c t) z <-> written c z \/ z = rounds_done (num_ bm) (c t) + Z.of_nat t * num_ bm.
Proof.
  intros Ht Hc z. unfold written, bump, rounds_done. split.
  - intros (t' & Ht' & Hz). destruct (decide (t' = t)) as [->|].
    + destruct (decide (z = Z.of_nat (c t) + Z.of_nat t * num_ bm)); [right; lia|].
      left. exists t. lia.
    + left. exists t'. lia.
  - intros [(t' & Ht' & Hz)| ->].
    + exists t'. split; [done|]. destruct (decide (t' = t)); lia.
    + exists t. split; [done|]. rewrite decide_True by done. lia.
Qed.

Lemma fill_inv_idle c g t :
  (n <= t)%nat \/ num_ bm <= Z.of_nat (c t) -> fill_inv c g -> fill_inv (bump c t) g.
Proof.
  intros Hc [Hn Hl (m & Hm & [Hh1 Hh2])]. split; [done| |].
  - intros t' l Hl'. destruct (Hl t' l Hl') as (Hi & Hok & Hf). split_and!; [|done..]. rewrite Hi.
    pose proof (lookup_lt_Some _ _ _ Hl') as Ht'. rewrite Hn in Ht'.
    unfold bump, rounds_done. destruct (decide (t' = t)); subst; lia.
  - exists m. split; [done|]. split.
    + intros z Hz. apply Hh1. by apply (written_idle c t Hc).
    + intros k Hk. apply Hh2. intros z Hz. apply Hk. by apply (written_idle c t Hc).
Qed.

Lemma fill_inv_round c g t l b s :
  (t < n)%nat -> Z.of_nat (c t) < num_ bm -> fill_inv c g -> g_threads g !! t = Some l ->
  thread_ok bm s -> finished (t_i l + 1) (Stats.Start 0 (stats s)) (stats s) ->
  (exists m, contents (world s) (kv_ bm) = Some m /\
     holds (key_size_ bm) (xs bm) (written (bump c t)) m0 m) ->
  fill_inv (bump c t) (mkMachine (world s) (ticks s)
    (<[t := mkLocal (t_i l + 1) b (rand s) (stats s) (key s)]> (g_threads g))).
Proof.
  intros Ht Hc [Hn Hl _] Et Hok Hf Hm. split; [cbn [g_threads]; by rewrite length_insert| |done].
  cbn [g_threads]. intros t' l' Hl'. destruct (decide (t' = t)) as [->|Hne].
  - rewrite list_lookup_insert_eq in Hl' by lia. injection Hl' as <-. cbn [t_i].
    destruct (Hl t l Et) as [Hi _]. split_and!; [|by destruct Hok|exact Hf].
    rewrite Hi. unfold bump, rounds_done. rewrite decide_True by done. lia.
  - rewrite list_lookup_insert_ne in Hl' by done. destruct (Hl t' l' Hl') as (-> & Hok' & Hf').
    split_and!; [|by destruct Hok'|exact Hf']. unfold bump. by rewrite decide_False by done.
Qed.

(** A step of the schedule keeps the invariant or throws. *)
Lemma fill_step_inv c g t :
  fill_inv c g ->
  match fill_step f clock bm t g with
  | Normal g' => fill_inv (bump c t) g'
  | Thrown what => put_error bm (contents := contents) what
  | _ => False
  end.
Proof using All.
  intros Hinv. pose proof Hinv as [Hn Hl (m & Hm & Hh)]. unfold fill_step.
  destruct (g_threads g !! t) as [l|] eqn:Et.
  2:{ apply lookup_ge_None in Et. apply fill_inv_idle; [lia|done]. }
  pose proof (lookup_lt_Some _ _ _ Et) as Ht. rewrite Hn in Ht.
  destruct (Hl t l Et) as (Hi & [Hb Hr] & Hf). pose proof (Hcfg t Ht) as Hct.
  unfold rounds_done in Hi.
  destruct (Z.ltb_spec (t_i l) (num_ bm)) as [Hlt|Hge].
  - set (Q := fun (b : Z) (s : pstate W) => thread_ok bm s /\
         finished (t_i l + 1) (Stats.Start 0 (stats s)) (stats s) /\
         contents (world s) (kv_ bm) =
           Some (<[key_of (key_size_ bm) (t_i l + Z.of_nat t * num_ bm) := xs bm]> m)).
    assert (Hwp : wp (put_error bm (contents := contents))
      (write_body f clock bm (Z.of_nat t) true (t_i l) (t_bytes l)) Q (thread_state g l)).
    { apply (wp_write_body f clock bm (Z.of_nat t) Hct true (t_i l) (t_bytes l) m);
        [by split|eapply finished_counting; [exact Hf|done|destruct Hct; lia]|destruct Hct; lia|done|].
      cbn [next_key fst snd]. intros s [Ha1 Ha2 [now Ha3]] Hs. split_and!; [|rewrite Ha3; by destruct (finished_step _ _ _ (FLAGS_histogram f) now Hf)|done].
      split; [rewrite Ha2; apply zlen_key_of; destruct Hct; lia|by rewrite Ha1]. }
    unfold wp in Hwp.
    destruct (write_body _ _ _ _ _ _ _ _) as [[b s]| | | |]; cbn [mbind outcome_bind]; try done.
    destruct Hwp as (Hok & Hfin & Hs). apply (fill_inv_round c g t l b s); [done|lia|done|done|done|done|].
    eexists. split; [exact Hs|]. apply (holds_insert _ _ (written c)); [done|].
    intros y. rewrite written_step by (done || lia). unfold rounds_done. by rewrite Hi.
  - apply fill_inv_idle; [lia|done].
Qed.

Lemma fill_run_inv sched : forall c g,
  fill_inv c g ->
  match fill_run f clock bm sched g with
  | Normal g' => fill_inv (fold_left bump sched c) g'
  | Thrown what => put_error bm (contents := contents) what
  | _ => False
  end.
Proof using All.
  induction sched as [|t sched IH]; intros c g Hinv; cbn [fill_run fold_left]; [done|].
  pose proof (fill_step_inv c g t Hinv) as Hstep.
  destruct (fill_step f clock bm t g); cbn [mbind outcome_bind]; try done. by apply IH.
Qed.

End invariant.

Lemma bump_all sched : forall c t, fold_left bump sched c t = (c t + occurrences t sched)%nat.
Proof.
  induction sched as [|t' sched IH]; intros c t; cbn [fold_left]; [unfold occurrences; simpl; lia|].
  rewrite IH. unfold bump, occurrences. cbn [count_occ].
  destruct (decide (t = t')), (Nat.eq_dec t' t); subst; lia || done.
Qed.

(** Every thread done: the numbers written are those below [n * num_]. *)
Lemma written_complete {kv} (bm : Benchmark kv) n c z :
  0 < num_ bm -> (forall t, (t < n)%nat -> num_ bm <= Z.of_nat (c t)) ->
  written bm n c z <-> z ∈ map Z.of_nat (seq 0 (n * Z.to_nat (num_ bm))).
Proof.
  intros Hnum Hc. rewrite list_elem_of_fmap. unfold written, rounds_done. split.
  - intros (t & Ht & Hz). specialize (Hc t Ht). exists (Z.to_nat z). rewrite elem_of_seq. nia.
  - intros (i & -> & Hi%elem_of_seq). exists (Z.to_nat (Z.of_nat i / num_ bm)).
    pose proof (Z.div_mod (Z.of_nat i) (num_ bm)). pose proof (Z.mod_pos_bound (Z.of_nat i) (num_ bm)).
    pose proof (Z.div_pos (Z.of_nat i) (num_ bm)).
    assert (Z.of_nat i / num_ bm < Z.of_nat n) by (apply Z.div_lt_upper_bound; nia).
    assert (Ht : (Z.to_nat (Z.of_nat i / num_ bm) < n)%nat) by lia. specialize (Hc _ Ht).
    rewrite Z2Nat.id in * by lia. lia.
Qed.

(** ** Properties *)

(** [fillseq] by [n] threads.  Under every schedule in which each thread
    gets its [num_] rounds, and in whatever order the rounds interleave, the
    store ends with exactly the keys 0 to [n * num_ - 1] added to what it held,
    unless a [put] was refused: the ranges of the threads neither overlap nor
    leave gaps. *)
Theorem concurrent_fillseq {W kv : Type} {Ops : PmkvOps W kv}
  (contents : W -> kv -> option (gmap bytes bytes)) (Contract : PmkvContract W kv contents)
  f clock junk bm n now st (w : W) m sched
  (Hn : (0 < n)%nat) (Hcfg : forall t, (t < n)%nat -> config_ok f bm (Z.of_nat t))
  (Hm : contents w (kv_ bm) = Some m)
  (Hfair : forall t, (t < n)%nat -> num_ bm <= Z.of_nat (occurrences t sched)) :
  match fill_run f clock bm sched (mkMachine w 0 (fill_threads bm now st junk n)) with
  | Normal g =>
      contents (g_world g) (kv_ bm) =
        Some (write_all (key_size_ bm) (xs bm) (map Z.of_nat (seq 0 (n * Z.to_nat (num_ bm)))) m)
  | Thrown what => put_error bm (contents := contents) what
  | _ => False
  end.
Proof.
  pose proof (Hcfg 0%nat Hn) as [_ Hnum _ _ Hkey _ _].
  assert (Hinit : fill_inv (contents := contents) bm n m (fun _ => O)
    (mkMachine w 0 (fill_threads bm now st junk n))).
  { split; [cbn [g_threads]; unfold fill_threads; by rewrite length_map, length_seq| |].
    - cbn [g_threads]. intros t l Hl. apply list_lookup_fmap_Some in Hl as (t' & -> & Ht').
      split_and!; [unfold rounds_done; simpl; lia| |by destruct (finished_0 (now t') (st t'))]. split; [|apply Random.new_ok].
      cbn [thread_state key t_key]. unfold zlen. rewrite length_new_block. lia.
    - exists m. split; [done|]. split; [|done].
      intros z (t & _ & Hz). unfold rounds_done in Hz. lia. }
  pose proof (fill_run_inv f clock bm n m Hcfg sched _ _ Hinit) as Hrun.
  destruct (fill_run _ _ _ _ _) as [g| | | |]; try done.
  destruct Hrun as [_ _ (m' & Hm' & Hh)]. rewrite Hm'. f_equal.
  eapply holds_write_all; [exact Hh|]. intros z. apply written_complete; [lia|].
  intros t Ht. rewrite bump_all. specialize (Hfair t Ht). lia.
Qed.

Lemma concurrent_fillseq_witness :
  match fill_run demo_flags (fun _ => 0) demo_bm [0; 1; 1; 0; 0; 1; 0; 1; 1; 0]%nat
    (mkMachine {[ demo_path := ∅ ]} 0 (fill_threads demo_bm (fun _ => 0) (fun _ => demo_stats) (fun _ => 7) 2))
    (H := mem_ops) with
  | Normal g => MemLib.mem_store (g_world g) demo_path =
      Some (write_all 16 b!"XXX" (map Z.of_nat (seq 0 10)) ∅)
  | Thrown what => put_error demo_bm (contents := MemLib.mem_store) (H := mem_ops) what
  | _ => False
  end.
Proof.
  apply (concurrent_fillseq MemLib.mem_store mem_contract demo_flags (fun _ => 0) (fun _ => 7)
    demo_bm 2 (fun _ => 0) (fun _ => demo_stats) {[ demo_path := ∅ ]} ∅ [0; 1; 1; 0; 0; 1; 0; 1; 1; 0]%nat).
  - lia.
  - intros [|[|t]] Ht; [..|lia]; split; vm_compute; repeat split; congruence.
  - reflexivity.
  - intros [|[|t]] Ht; [..|lia]; vm_compute; congruence.
Defined.
