(* ===== verification/ReadWriteThreads.v ===== *)
(** * readwhilewriting by several threads (bench/bench.cc, ThreadBody, DoRead, BGWriter)

    Thread 0 writes, the others read, from the start of the workload until each
    has left it and counted itself in [num_done].  A turn of a reader is one
    round of its loop or its way out; a turn of the writer is a look at the
    counters or the put after it.  A turn makes at most one access to the store
    or the counters, so schedules of turns cover every behaviour of a store whose
    calls are atomic. *)

From Stdlib Require Import SpecFloat.
From S2P Require Import Prelude CLib Slice Random Pmkv Double Histogram Stats TestUtil Workload.
From S2P Require Import WorkloadLogic Fill FillThreads WhileWriting.

Local Open Scope Z_scope.
Import Benchmark.

(** What a thread owns: [rand], [stats] and the key buffer. *)
Record own := mkOwn { o_rand : Random.Random; o_stats : Stats.Stats; o_key : bytes }.

(** In the loop of [DoRead], with the index, the bytes and the number found; or
    past the end of [ThreadBody]. *)
Inductive reader := Reading (i : Z) (acc : Z * Z) (o : own) | Left_ (o : own).

(** In the loop of [BGWriter], in front of the look at the counters or past it
    ([looked]), with the generator and the bytes. *)
Inductive writer :=
  | Writing (looked : bool) (a : RandomGenerator.RandomGenerator * Z) (o : own)
  | Gone (o : own).

Record rwmachine (W : Type) := mkRwm {
  m_world : W; m_ticks : nat; num_done : Z; m_writer : writer; m_readers : list reader
}.
Arguments mkRwm {W}.
Arguments m_world {W}.
Arguments m_ticks {W}.
Arguments num_done {W}.
Arguments m_writer {W}.
Arguments m_readers {W}.

Section threads.
Context {W kv : Type} `{PmkvOps W kv}.
Context (f : Flags) (clock : nat -> Z) (bm : Benchmark kv).

Definition with_own (g : rwmachine W) (o : own) : pstate W :=
  mkState (m_world g) (m_ticks g) (o_rand o) (o_stats o) (o_key o).

Definition own_of (s : pstate W) : own := mkOwn (rand s) (stats s) (key s).

(** [num_initialized]: every thread, since none passes the barrier before *)
Definition num_initialized (g : rwmachine W) : Z := zlen (m_readers g) + 1.

(** [thread->stats.Stop()] *)
Definition stats_Stop : Prog (pstate W) unit :=
  now ← NowMicros clock; modify (set_stats (Stats.Stop now)).

(** the rest of [DoRead] after its loop, and of [ThreadBody] *)
Definition read_end (acc : Z * Z) : Prog (pstate W) unit :=
  let '(bytes, found) := acc in
  _ ← on_stats (Stats.AddBytes bytes);
  _ ← modify (set_stats (Stats.AddMessage (snprintf 100
        (b!"(" ++ format_d found ++ b!" of " ++ format_d (reads_ bm) ++ b!" found)"))));
  stats_Stop.

Definition reader_turn (t : nat) (g : rwmachine W) : outcome (rwmachine W) :=
  match m_readers g !! t with
  | Some (Reading i acc o) =>
      if i <? reads_ bm then
        '(acc, s) ← read_body f clock bm (Z.of_nat (S t)) false i acc (with_own g o);
        Normal (mkRwm (world s) (ticks s) (num_done g) (m_writer g)
                  (<[t := Reading (i + 1) acc (own_of s)]> (m_readers g)))
      else
        '(_, s) ← read_end acc (with_own g o);
        Normal (mkRwm (world s) (ticks s) (num_done g + 1) (m_writer g)
                  (<[t := Left_ (own_of s)]> (m_readers g)))
  | _ => Normal g
  end.

Definition writer_turn (g : rwmachine W) : outcome (rwmachine W) :=
  match m_writer g with
  | Writing false a o =>
      if num_initialized g <=? num_done g + 1 then
        '(_, s) ← (_ ← on_stats (Stats.AddBytes (snd a)); stats_Stop) (with_own g o);
        Normal (mkRwm (world s) (ticks s) (num_done g + 1) (Gone (own_of s)) (m_readers g))
      else Normal (mkRwm (m_world g) (m_ticks g) (num_done g) (Writing true a o) (m_readers g))
  | Writing true a o =>
      '(a, s) ← bg_body f bm kWrite 0 a (with_own g o);
      Normal (mkRwm (world s) (ticks s) (num_done g) (Writing false a (own_of s)) (m_readers g))
  | _ => Normal g
  end.

Definition turn (t : nat) (g : rwmachine W) : outcome (rwmachine W) :=
  match t with O => writer_turn g | S t => reader_turn t g end.

Fixpoint turns (sched : list nat) (g : rwmachine W) : outcome (rwmachine W) :=
  match sched with
  | [] => Normal g
  | t :: sched' => g ← turn t g; turns sched' g
  end.

(** In front of the loops, with [stats.Start()] at [now t] of each thread. *)
Definition rw_start (junk : nat -> Z) (st : nat -> Stats.Stats) (now : nat -> Z) (n : nat) (w : W)
  : outcome (rwmachine W) :=
  gen ← RandomGenerator.new (FLAGS_value_size f);
  let at_start t := Stats.Start (now t) (st t) in
  let buffer := new_block junk (key_size_ bm) in
  Normal (mkRwm w 0 0
    (Writing false (gen, 0) (mkOwn (Random.new 1000) (Stats.SetExcludeFromMerge (at_start 0%nat)) buffer))
    (map (fun t => Reading 0 (0, 0) (mkOwn (Random.new (1000 + Z.of_nat t)) (at_start t) buffer)) (seq 1 n))).

End threads.

(** ** The invariant *)
Section invariant.
Context {W kv : Type} {Ops : PmkvOps W kv} {contents : W -> kv -> option (gmap bytes bytes)}
  {Contract : PmkvContract W kv contents}.
Context (f : Flags) (clock : nat -> Z) (bm : Benchmark kv) (n : nat) (m0 : gmap bytes bytes).
Hypothesis Hcfg : forall t, (t <= n)%nat -> config_ok f bm (Z.of_nat t).

(** Every key a reader may ask for is there, with a value of [value_size_] bytes. *)
Definition loaded (m : gmap bytes bytes) : Prop :=
  forall z, 0 <= z < num_ bm -> exists v, m !! key_of (key_size_ bm) z = Some v /\ zlen v = value_size_ bm.

Lemma random_puts_loaded m : random_puts bm m0 m -> loaded m0 -> loaded m.
Proof.
  intros Hp Hl z Hz. destruct (Hp (key_of (key_size_ bm) z)) as [->|(z' & v & _ & _ & Hv & Hlen)]; eauto.
Qed.

Lemma random_puts_fit m : value_size_ bm <= MAX_VAL_LEN -> random_puts bm m0 m -> values_fit m0 -> values_fit m.
Proof.
  intros Hvs Hp Hf k v Hk. destruct (Hp k) as [E|(z' & v' & _ & _ & Hv & Hlen)].
  - apply (Hf k). congruence.
  - rewrite Hk in Hv. injection Hv as ->. lia.
Qed.

Definition entry_size : Z := value_size_ bm + key_size_ bm.

(** What the report of a reader says. *)
Definition found_all (st : Stats.Stats) : Prop :=
  Stats.done_ st = reads_ bm /\ Stats.bytes_ st = reads_ bm * entry_size /\
  Stats.message_ st = snprintf 100
    (b!"(" ++ format_d (reads_ bm) ++ b!" of " ++ format_d (reads_ bm) ++ b!" found)").

(** A reader that has had [c] turns. *)
Definition reader_ok (c : nat) (r : reader) : Prop :=
  match r with
  | Reading i acc o =>
      i = Z.of_nat c /\ i <= reads_ bm /\ zlen (o_key o) = key_size_ bm /\ Random.seed_ok (o_rand o) /\
      (exists now st, finished i (Stats.Start now st) (o_stats o)) /\ acc = (i * entry_size, i)
  | Left_ o => reads_ bm < Z.of_nat c /\ found_all (o_stats o)
  end.

Definition has_left (r : reader) : bool := match r with Left_ _ => true | _ => false end.

Definition left_count (l : list reader) : Z := zlen (filter has_left l).

(** What the report of the writer says: no operation, and the bytes of its puts. *)
Definition counted_puts (i : Z) (st : Stats.Stats) : Prop :=
  Stats.done_ st = 0 /\ Stats.bytes_ st = i * (key_size_ bm + value_size_ bm).

(** A writer that has had at most [k] turns. *)
Definition writer_ok (k : nat) (g : rwmachine W) : Prop :=
  match m_writer g with
  | Writing _ a o => exists i st, 0 <= i <= Z.of_nat k /\ counted_puts 0 st /\
      bg_inv (contents := contents) bm m0 st i a (with_own g o) /\ num_done g = left_count (m_readers g)
  | Gone o => Forall (fun r => has_left r) (m_readers g) /\ num_done g = left_count (m_readers g) + 1 /\
      exists i, 0 <= i <= Z.of_nat k /\ counted_puts i (o_stats o)
  end.

Record rw_inv (k : nat) (c : nat -> nat) (g : rwmachine W) : Prop := {
  inv_readers : length (m_readers g) = n;
  inv_reader t r : m_readers g !! t = Some r -> reader_ok (c (S t)) r;
  inv_writer : writer_ok k g;
  inv_contents : exists m, contents (m_world g) (kv_ bm) = Some m /\ random_puts bm m0 m
}.

Lemma left_count_insert l t r r' :
  l !! t = Some r -> left_count (<[t := r']> l) =
    left_count l - (if has_left r then 1 else 0) + (if has_left r' then 1 else 0).
Proof.
  unfold left_count. intros Hl. rewrite (insert_take_drop l t r') by (by eapply lookup_lt_Some).
  pose proof (take_drop_middle l t r Hl) as E. set (a := take t l) in *. set (b := drop (S t) l) in *.
  rewrite <- E. clear. rewrite !filter_app, !filter_cons, !zlen_app.
  destruct (has_left r), (has_left r'); repeat case_decide; cbn in *; rewrite ?zlen_cons; lia || done.
Qed.

Lemma all_left l : zlen l <= left_count l -> Forall (fun r => has_left r) l.
Proof.
  unfold left_count. induction l as [|r l IH]; intros Hl; [done|].
  rewrite filter_cons, zlen_cons in Hl. pose proof (length_filter (fun r => has_left r) l) as Hf.
  case_decide as Hd; [rewrite zlen_cons in Hl; constructor; [done|apply IH; lia]|unfold zlen in Hl; lia].
Qed.

Lemma left_all l : Forall (fun r => has_left r) l -> left_count l = zlen l.
Proof.
  unfold left_count. induction 1 as [|r l Hr _ IH]; [done|].
  rewrite filter_cons_True by done. rewrite !zlen_cons. lia.
Qed.

(** One more turn for a reader changes what is known of no other. *)
Lemma bump_readers k c g t :
  rw_inv k c g -> (forall r, m_readers g !! t = Some r -> reader_ok (S (c (S t))) r) ->
  rw_inv (S k) (bump c (S t)) g.
Proof.
  intros [H1 H2 H3 H4] Ht. split; [done| | |done].
  - intros t' r Hr. unfold bump. destruct (decide (S t' = S t)) as [[= ->]|]; [by apply Ht|by apply H2].
  - unfold writer_ok in *. destruct (m_writer g).
    + destruct H3 as (i & st & Hi & Hb). exists i, st. split; [lia|done].
    + destruct H3 as (H5 & H6 & i & Hi & Hb). split_and!; [done..|]. exists i. split; [lia|done].
Qed.

Lemma bg_inv_world st i a (s s' : pstate W) :
  world s' = world s -> own_of s' = own_of s ->
  bg_inv (contents := contents) bm m0 st i a s -> bg_inv (contents := contents) bm m0 st i a s'.
Proof.
  intros Hw Ho [[Hk Hr] Hst Hb Hg Hm]. injection Ho as E1 E2 E3.
  split; [split; congruence|congruence|done|done|by rewrite Hw].
Qed.

(** A reader moves on, and the store stays as it is. *)
Lemma reader_moves k c g t r r' ticks' :
  rw_inv k c g -> m_readers g !! t = Some r -> has_left r = false -> reader_ok (S (c (S t))) r' ->
  rw_inv (S k) (bump c (S t))
    (mkRwm (m_world g) ticks' (num_done g + (if has_left r' then 1 else 0)) (m_writer g) (<[t := r']> (m_readers g))).
Proof.
  intros [H1 H2 H3 H4] Hr Hl Hr'. pose proof (lookup_lt_Some _ _ _ Hr) as Hlt.
  split; cbn [m_readers m_world]; [by rewrite length_insert| | |done].
  - intros t' x Hx. unfold bump. destruct (decide (S t' = S t)) as [[= ->]|Hne].
    + rewrite list_lookup_insert_eq in Hx by done. by injection Hx as <-.
    + rewrite list_lookup_insert_ne in Hx by congruence. by apply H2.
  - unfold writer_ok in *. cbn [m_writer m_readers num_done].
    rewrite (left_count_insert _ _ _ _ Hr), Hl. destruct (m_writer g) as [b a o|o].
    + destruct H3 as (i & st & Hi & Hst & Hb & Hd). exists i, st.
      split; [lia|]. split; [done|]. split; [|lia]. by apply (bg_inv_world st i a (with_own g o)).
    + destruct H3 as [Hall _]. rewrite Forall_lookup in Hall. specialize (Hall _ _ Hr). by rewrite Hl in Hall.
Qed.

Lemma read_end_ok i o (g : rwmachine W) :
  i = reads_ bm -> 0 <= i < 2 ^ 31 -> 0 <= entry_size < 2 ^ 32 ->
  (exists now st, finished i (Stats.Start now st) (o_stats o)) ->
  exists s, read_end clock bm (i * entry_size, i) (with_own g o) = Normal (tt, s) /\
    world s = m_world g /\ found_all (stats s).
Proof.
  intros Hi Hb He (now & st & [_ Hd Hby Hmsg]). cbn [Stats.Start Stats.done_ Stats.bytes_ Stats.message_] in *.
  unfold read_end, mbind, prog_bind, on_stats. cbn [stats with_own]. rewrite Stats.AddBytes_ok by (rewrite Hby; nia).
  eexists. split; [reflexivity|]. split; [done|].
  unfold found_all, set_stats, Stats.Stop, Stats.AddMessage, Stats.with_bytes.
  cbn [stats with_own Stats.done_ Stats.bytes_ Stats.message_]. rewrite Hd, Hby, Hmsg.
  rewrite Hi in *. split_and!; [lia|lia|]. unfold Stats.AppendWithSpace. cbn [app]. by destruct (snprintf _ _).
Qed.

Hypothesis Hload : loaded m0.
Hypothesis Hfit : values_fit m0.

Lemma entry_size_bounds : 0 <= entry_size < 2 ^ 32.
Proof using Hcfg. destruct (Hcfg 0%nat ltac:(lia)). unfold entry_size, MAX_VAL_LEN in *. lia. Qed.

(** A round of a reader. *)
Lemma read_round t c i acc o g m :
  (t < n)%nat -> reader_ok c (Reading i acc o) -> i < reads_ bm ->
  contents (m_world g) (kv_ bm) = Some m -> random_puts bm m0 m ->
  wp (put_error bm (contents := contents)) (read_body f clock bm (Z.of_nat (S t)) false i acc)
    (fun acc' s => world s = m_world g /\ reader_ok (S c) (Reading (i + 1) acc' (own_of s))) (with_own g o).
Proof using All.
  intros Ht (Hi & Hle & Hk & Hs & (now & st & Hf) & ->) Hlt Hm Hp.
  pose proof (Hcfg (S t) ltac:(lia)) as Hc. pose proof Hc as []. pose proof entry_size_bounds as He.
  apply (wp_read_body f clock bm (Z.of_nat (S t)) Hc false i _ _ m); [by split|eapply finished_counting; [exact Hf|done|lia]|lia|done|apply random_puts_fit; [lia|done|done]|].
  intros s' [Ha1 Ha2 [now' Ha3]] Hw.
  destruct (next_key_range f bm (Z.of_nat (S t)) Hc false i (o_rand o) Hs) as [_ Hs']; [lia|].
  destruct (random_puts_loaded m Hp Hload (fst (next_key bm (Z.of_nat (S t)) false i (rand (with_own g o))))) as (v & -> & Hv).
  { cbn [next_key fst]. apply Z.mod_pos_bound. lia. }
  split; [done|]. cbn [reader_ok own_of o_key o_rand o_stats]. rewrite Hv. fold entry_size. split_and!.
  - lia.
  - lia.
  - rewrite Ha2. apply zlen_key_of. lia.
  - by rewrite Ha1.
  - exists now, st. rewrite Ha3. by apply finished_step.
  - rewrite i64_id; [f_equal; lia|nia].
Qed.

Lemma reader_turn_inv k c g t :
  rw_inv k c g ->
  match reader_turn f clock bm t g with
  | Normal g' => rw_inv (S k) (bump c (S t)) g'
  | Thrown what => put_error bm (contents := contents) what
  | _ => False
  end.
Proof using All.
  intros Hinv. pose proof Hinv as [H1 H2 H3 (m & Hm & Hp)]. unfold reader_turn.
  destruct (m_readers g !! t) as [[i acc o|o]|] eqn:Er.
  - pose proof (H2 _ _ Er) as Hr. pose proof (lookup_lt_Some _ _ _ Er) as Ht. rewrite H1 in Ht.
    destruct (Z.ltb_spec i (reads_ bm)) as [Hlt|Hge].
    + pose proof (read_round t _ i acc o g m Ht Hr Hlt Hm Hp) as Hwp. unfold wp in Hwp.
      destruct (read_body _ _ _ _ _ _ _ _) as [[acc' s]| | | |]; cbn [mbind outcome_bind]; try done.
      destruct Hwp as [Hw Hr']. rewrite Hw.
      pose proof (reader_moves k c g t _ _ (ticks s) Hinv Er eq_refl Hr') as Hg. cbn [has_left] in Hg.
      by rewrite Z.add_0_r in Hg.
    + destruct Hr as (Hi & Hle & Hk & Hs & Hf & ->). destruct (Hcfg 0%nat ltac:(lia)).
      destruct (read_end_ok i o g ltac:(lia) ltac:(lia) entry_size_bounds Hf) as (s & -> & Hw & Hall).
      cbn [mbind outcome_bind]. rewrite Hw.
      apply (reader_moves k c g t _ (Left_ (own_of s)) (ticks s) Hinv Er eq_refl). split; [lia|done].
  - apply bump_readers; [done|]. rewrite Er. intros r [= <-]. destruct (H2 _ _ Er) as [Hlt ?]. split; [lia|done].
  - apply bump_readers; [done|]. by rewrite Er.
Qed.

(** What the writer has counted when it leaves. *)
Lemma writer_counts st i b o now :
  counted_puts 0 st -> 0 <= i < 2 ^ 31 -> o_stats o = st -> b = i * (key_size_ bm + value_size_ bm) ->
  Stats.AddBytes b (o_stats o) = Normal (Stats.with_bytes b (o_stats o)) /\
  counted_puts i (Stats.Stop now (Stats.with_bytes b (o_stats o))).
Proof using Hcfg.
  intros [H1 H2] Hi -> ->. destruct (Hcfg 0%nat ltac:(lia)). unfold counted_puts, Stats.Stop, Stats.with_bytes.
  unfold MAX_VAL_LEN in *. split; [apply Stats.AddBytes_ok; rewrite H2; nia|].
  cbn [Stats.done_ Stats.bytes_]. rewrite H1, H2. split; lia.
Qed.

Lemma writer_turn_inv k c g :
  Z.of_nat k < 2 ^ 31 -> rw_inv k c g ->
  match writer_turn f clock bm g with
  | Normal g' => rw_inv (S k) (bump c 0) g'
  | Thrown what => put_error bm (contents := contents) what
  | _ => False
  end.
Proof using All.
  intros Hk [H1 H2 H3 H4]. unfold writer_turn, writer_ok in *. destruct (m_writer g) as [[] a o|o] eqn:Ew.
  - destruct H3 as (i & st & Hi & Hst & Hb & Hd).
    pose proof (wp_bg_body f bm (Hcfg 0%nat ltac:(lia)) m0 st i 0 a (with_own g o) ltac:(lia) Hb) as Hwp.
    unfold wp in Hwp. destruct (bg_body _ _ _ _ _ _) as [[a' s]| | | |]; cbn [mbind outcome_bind]; try done.
    split; cbn [m_readers m_world]; [done|done| |by destruct Hwp].
    unfold writer_ok. cbn [m_writer m_readers num_done]. exists (i + 1), st. split; [lia|].
    split; [done|]. split; [|done]. by eapply (bg_inv_world st (i + 1) a' s).
  - destruct H3 as (i & st & Hi & Hst & Hb & Hd). destruct (Z.leb_spec (num_initialized g) (num_done g + 1)) as [Hle|Hgt].
    + destruct (writer_counts st i (snd a) o (clock (m_ticks g))) as [E Hc]; [exact Hst|lia|apply Hb|apply Hb|].
      unfold mbind, prog_bind, on_stats. cbn [with_own stats]. rewrite E.
      cbn [outcome_bind modify stats_Stop mbind prog_bind NowMicros]. split; cbn [m_readers m_world]; try done.
      unfold writer_ok. cbn [m_writer m_readers num_done]. split_and!; [|lia|exists i; split; [lia|]].
      * apply all_left. unfold num_initialized in Hle. lia.
      * exact Hc.
    + split; [done|done| |done]. unfold writer_ok. cbn [m_writer m_readers num_done]. exists i, st.
      split; [lia|]. split; [done|]. split; [|done]. by apply (bg_inv_world st i a (with_own g o)).
  - split; [done|done| |done]. unfold writer_ok. rewrite Ew. destruct H3 as (H5 & H6 & i & Hi & Hb).
    split_and!; [done..|]. exists i. split; [lia|done].
Qed.

Lemma turns_inv sched : forall k c g,
  Z.of_nat k + zlen sched < 2 ^ 31 -> rw_inv k c g ->
  match turns f clock bm sched g with
  | Normal g' => rw_inv (k + length sched) (fold_left bump sched c) g'
  | Thrown what => put_error bm (contents := contents) what
  | _ => False
  end.
Proof using All.
  induction sched as [|t sched IH]; intros k c g Hk Hinv; cbn [turns fold_left length].
  { by rewrite Nat.add_0_r. }
  rewrite zlen_cons in Hk. pose proof (zlen_nonneg sched).
  assert (Hstep : match turn f clock bm t g with
    | Normal g' => rw_inv (S k) (bump c t) g'
    | Thrown what => put_error bm (contents := contents) what | _ => False end).
  { destruct t; [apply writer_turn_inv; [lia|done]|by apply reader_turn_inv]. }
  destruct (turn f clock bm t g) as [g'| | | |]; cbn [mbind outcome_bind]; try done.
  rewrite Nat.add_succ_r, <- Nat.add_succ_l. apply IH; [lia|done].
Qed.

(** The invariant holds at the start. *)
Lemma rw_start_inv junk st now w :
  FLAGS_value_size f = value_size_ bm -> contents w (kv_ bm) = Some m0 ->
  exists g, rw_start f bm junk st now n w = Normal g /\ rw_inv 0 (fun _ => O) g.
Proof using Hcfg.
  intros Hvs Hm. destruct (Hcfg 0%nat ltac:(lia)). unfold rw_start, MAX_VAL_LEN in *.
  destruct (generator_new_ok (FLAGS_value_size f)) as (gen & -> & Hgok & Hdata & _); [lia|].
  assert (Hkey : zlen (new_block junk (key_size_ bm)) = key_size_ bm).
  { unfold zlen. rewrite length_new_block. lia. }
  assert (Hputs : random_puts bm m0 m0) by (intros k; by left).
  eexists. split; [reflexivity|]. split; cbn [m_readers m_world].
  - by rewrite length_map, length_seq.
  - intros t r Hr. apply list_lookup_fmap_Some in Hr as (t' & -> & _). cbn [reader_ok o_key o_rand o_stats].
    split_and!; [done|lia|done|apply Random.new_ok| |done]. do 2 eexists. apply finished_0.
  - unfold writer_ok. cbn [m_writer m_readers num_done]. eexists 0, _. split; [lia|].
    split; [|split; [split; cbn [fst snd with_own stats world o_stats]|]].
    2: split; [done|apply Random.new_ok].
    2: reflexivity.
    + done.
    + lia.
    + unfold MAX_VAL_LEN. split; [done|lia].
    + by exists m0.
    + unfold left_count. clear. generalize 1%nat. induction n as [|k IH]; intros b; [done|].
      cbn [seq map]. rewrite filter_cons_False by (by intros []). apply IH.
  - by exists m0.
Qed.

(** With every reader past its last turn, all have left. *)
Lemma readers_leave k c g :
  rw_inv k c g -> (forall t, (1 <= t <= n)%nat -> reads_ bm < Z.of_nat (c t)) ->
  Forall (fun r => has_left r) (m_readers g) /\ num_initialized g <= left_count (m_readers g) + 1.
Proof.
  intros [H1 H2 H3 _] Hc.
  assert (Hall : Forall (fun r => has_left r) (m_readers g)).
  { apply Forall_lookup. intros t r Hr. pose proof (lookup_lt_Some _ _ _ Hr) as Ht.
    specialize (H2 _ _ Hr). specialize (Hc (S t) ltac:(lia)). destruct r; [|done]. cbn in H2. lia. }
  split; [done|]. rewrite (left_all _ Hall). unfold num_initialized. lia.
Qed.

(** The turns the writer still needs then. *)
Definition turns_left (x : writer) : nat :=
  match x with Writing true _ _ => 2 | Writing false _ _ => 1 | Gone _ => 0 end.

Lemma writer_leaves sched : forall (g g' : rwmachine W),
  Forall (fun r => has_left r) (m_readers g) -> num_initialized g <= num_done g + 1 ->
  turns f clock bm sched g = Normal g' -> (turns_left (m_writer g) <= occurrences 0 sched)%nat ->
  turns_left (m_writer g') = 0%nat.
Proof.
  unfold occurrences. induction sched as [|t sched IH]; intros g g' Hall Hn E Hocc; cbn [turns count_occ] in *.
  { injection E as <-. lia. }
  assert (exists g1, turn f clock bm t g = Normal g1 /\ turns f clock bm sched g1 = Normal g') as (g1 & E1 & E').
  { destruct (turn f clock bm t g); try done. eauto. }
  destruct t as [|t]; cbn [turn] in *.
  - destruct (Nat.eq_dec 0%nat 0%nat) as [_|]; [|done]. unfold writer_turn in E1. destruct (m_writer g) as [[] a o|o] eqn:Ew; cbn [turns_left] in Hocc.
    + destruct (bg_body _ _ _ _ _ _) as [[a' s]| | | |]; try done. injection E1 as <-.
      eapply IH; [| |exact E'|cbn [m_writer turns_left]; lia]; done.
    + rewrite (proj2 (Z.leb_le _ _) Hn) in E1. unfold mbind, prog_bind, on_stats in E1.
      destruct (Stats.AddBytes _ _); cbn [mbind prog_bind outcome_bind modify stats_Stop NowMicros] in E1; try done.
      injection E1 as <-. eapply IH; [| |exact E'|cbn [m_writer turns_left]; lia]; [done|].
      unfold num_initialized in *. cbn [m_readers num_done]. lia.
    + injection E1 as <-. apply (IH _ _ Hall Hn E'). rewrite Ew. cbn. lia.
  - unfold reader_turn in E1. destruct (m_readers g !! t) as [[]|] eqn:Er.
    + rewrite Forall_lookup in Hall. by specialize (Hall _ _ Er).
    + injection E1 as <-. by apply (IH _ _ Hall Hn E').
    + injection E1 as <-. by apply (IH _ _ Hall Hn E').
Qed.

End invariant.

(** ** Properties *)

Lemma turns_app {W kv : Type} {Ops : PmkvOps W kv} f clock (bm : Benchmark kv) s1 s2 (g : rwmachine W) :
  turns f clock bm (s1 ++ s2) g = (g ← turns f clock bm s1 g; turns f clock bm s2 g).
Proof.
  revert g. induction s1 as [|t s1 IH]; intros g; cbn [app turns]; [done|].
  destruct (turn f clock bm t g); cbn [mbind outcome_bind]; [apply IH|done..].
Qed.

(** C8: [readwhilewriting] with [n] readers on a loaded store.  Under every
    schedule the writer goes on until all readers have left, and when it is gone
    they have; every reader that has left has found all the keys it asked for, and
    says so, with the bytes of as many entries; the store differs from the loaded
    one only in values of keys below [FLAGS_num]; or a put was refused.  A
    schedule that gives every reader one turn more than it has reads, and then
    the writer two, ends the workload: all threads are counted in [num_done]. *)
Theorem readwhilewriting_finds_all {W kv : Type} {Ops : PmkvOps W kv}
  (contents : W -> kv -> option (gmap bytes bytes)) (Contract : PmkvContract W kv contents)
  f clock junk bm n st now (w : W) m sched
  (Hcfg : forall t, (t <= n)%nat -> config_ok f bm (Z.of_nat t)) (Hvs : FLAGS_value_size f = value_size_ bm)
  (Hm : contents w (kv_ bm) = Some m) (Hload : loaded bm m) (Hfit : values_fit m) (Hlen : zlen sched < 2 ^ 31) :
  match (g ← rw_start f bm junk st now n w; turns f clock bm sched g) with
  | Normal g =>
      (forall o, m_writer g = Gone o ->
         Forall (fun r => has_left r) (m_readers g) /\ exists i, 0 <= i <= zlen sched /\ counted_puts bm i (o_stats o)) /\
      (forall t o, m_readers g !! t = Some (Left_ o) -> found_all bm (o_stats o)) /\
      (exists m', contents (m_world g) (kv_ bm) = Some m' /\ random_puts bm m m') /\
      (forall s1 s2, sched = s1 ++ s2 ->
         (forall t, (1 <= t <= n)%nat -> reads_ bm < Z.of_nat (occurrences t s1)) ->
         (2 <= occurrences 0 s2)%nat ->
         (exists o, m_writer g = Gone o) /\ num_done g = Z.of_nat n + 1)
  | Thrown what => put_error bm (contents := contents) what
  | _ => False
  end.
Proof.
  destruct (rw_start_inv (contents := contents) f bm n m Hcfg junk st now w Hvs Hm) as (g0 & -> & Hinit).
  cbn [mbind outcome_bind].
  pose proof (fun s => turns_inv f clock bm n m Hcfg Hload Hfit s 0%nat (fun _ => O) g0) as Hrun.
  pose proof (Hrun sched ltac:(lia) Hinit) as Hend.
  destruct (turns f clock bm sched g0) as [g| | | |] eqn:Eg; try done.
  destruct Hend as [H1 H2 H3 H4]. split_and!; [| |done|].
  - intros o Ho. unfold writer_ok in H3. rewrite Ho in H3. destruct H3 as (Ha & _ & i & Hi & Hp).
    split; [done|]. exists i. split; [unfold zlen; lia|done].
  - intros t o Hr. by destruct (H2 _ _ Hr).
  - intros s1 s2 -> Hfair Hocc. clear H2 H4. rewrite turns_app in Eg. rewrite zlen_app in Hlen.
    pose proof (zlen_nonneg s2). specialize (Hrun s1 ltac:(lia) Hinit).
    destruct (turns f clock bm s1 g0) as [g1| | | |]; try done. cbn [mbind outcome_bind] in Eg.
    destruct (readers_leave bm n m _ _ _ Hrun) as [Hall Hn].
    { intros t Ht. rewrite bump_all. cbn [Nat.add]. by apply Hfair. }
    destruct Hrun as [_ _ Hw _]. unfold writer_ok in *.
    assert (Hg : turns_left (m_writer g) = 0%nat).
    { apply (writer_leaves f clock bm s2 g1 g Hall); [|done|destruct (m_writer g1) as [[]|]; cbn; lia].
      destruct (m_writer g1); [destruct Hw as (? & ? & ? & ? & ? & ->)|destruct Hw as (_ & -> & _)]; lia. }
    destruct (m_writer g) as [[]|o]; try done. destruct H3 as (Hl & -> & _).
    rewrite (left_all _ Hl). unfold zlen. rewrite H1. eauto.
Qed.

Lemma demo_configs t : (t <= 2)%nat -> config_ok demo_flags demo_bm (Z.of_nat t).
Proof. intros Ht. destruct t as [|[|[|t]]]; [..|lia]; split; vm_compute; repeat split; congruence. Qed.

Lemma demo_loaded : loaded demo_bm (write_all 16 b!"XXX" [0; 1; 2; 3; 4] ∅).
Proof.
  intros z Hz. exists b!"XXX". split; [|reflexivity]. apply write_all_in.
  change (num_ demo_bm) with 5 in Hz. rewrite !list_elem_of_In. simpl. lia.
Qed.

Lemma demo_fit : values_fit (write_all 16 b!"XXX" [0; 1; 2; 3; 4] ∅).
Proof. apply write_all_fit; [vm_compute; congruence|apply map_Forall_empty]. Qed.

(** Two readers on five entries of three bytes; the writer puts in between. *)
Lemma readwhilewriting_finds_all_witness :
  let sched := [0; 0; 1; 2; 1; 0; 2; 2; 1; 1; 1; 2; 2; 0; 2; 1; 0; 0]%nat in
  match (g ← rw_start demo_flags demo_bm (fun _ => 0) (fun _ => demo_stats) (fun _ => 0) 2 (world demo_filled);
         turns demo_flags (fun _ => 0) demo_bm sched g (H := mem_ops)) with
  | Normal g => num_done g = 3
  | Thrown what => put_error demo_bm (contents := MemLib.mem_store) (H := mem_ops) what
  | _ => False
  end.
Proof.
  intros sched.
  pose proof (readwhilewriting_finds_all MemLib.mem_store mem_contract demo_flags (fun _ => 0) (fun _ => 0)
    demo_bm 2 (fun _ => demo_stats) (fun _ => 0) (world demo_filled)
    (write_all 16 b!"XXX" [0; 1; 2; 3; 4] ∅) sched demo_configs eq_refl eq_refl demo_loaded demo_fit eq_refl) as T.
  destruct (g ← rw_start _ _ _ _ _ _ _; turns _ _ _ _ g) as [g| | | |]; try exact T.
  destruct T as (_ & _ & _ & T).
  apply (T [0; 0; 1; 2; 1; 0; 2; 2; 1; 1; 1; 2; 2; 0; 2; 1]%nat [0; 0]%nat); [reflexivity| |vm_compute; lia].
  intros [|[|[|t]]] Ht; [lia|vm_compute; reflexivity|vm_compute; reflexivity|lia].
Defined.
