(* ===== verification/Barrier.v ===== *)
(** * The start and finish barrier (bench/bench.cc, RunBenchmark, ThreadBody, BGWriter)

    The main thread and [n] workers share a mutex, a condition variable and
    three counters.  Each thread's next action is a function of the state,
    [None] when it is blocked; a schedule interleaves the actions in any order,
    and a wait may also end without a signal, as [pthread_cond_wait] allows.
    The workload is one action ([WRun]), except that of the background writer
    of [readwhilewriting], which takes the mutex before every write to look at
    the counters ([WPoll]). *)

From S2P Require Import Prelude.

Module Barrier.

(** Where a worker is in [ThreadBody]. *)
Inductive wpc :=
  | WNew      (* not created yet *)
  | WLock1    (* MutexLock l(&shared->mu) *)
  | WInit     (* shared->num_initialized++, SignalAll by the last one *)
  | WTest     (* while (!shared->start) *)
  | WWait     (* asleep in cv.Wait() *)
  | WRelock   (* woken in cv.Wait(), acquiring the mutex *)
  | WRun      (* (arg->bm->*(arg->method))(thread) *)
  | WPoll     (* BGWriter, holding the mutex *)
  | WLock2    (* MutexLock l(&shared->mu) *)
  | WFin      (* shared->num_done++, SignalAll by the last one *)
  | WUnlock   (* the end of the scope of the lock *)
  | WExit.

(** Where the main thread is in [RunBenchmark]. *)
Inductive mpc :=
  | MSpawn (k : nat)  (* the loop with g_env->StartThread *)
  | MLock             (* shared.mu.Lock() *)
  | MTest1            (* while (shared.num_initialized < n) *)
  | MWait1
  | MRelock1
  | MTest2            (* while (shared.num_done < n) *)
  | MWait2
  | MRelock2
  | MReport.          (* after shared.mu.Unlock() *)

#[export] Instance wpc_eq_dec : EqDecision wpc.
Proof. solve_decision. Defined.

#[export] Instance mpc_eq_dec : EqDecision mpc.
Proof. solve_decision. Defined.

Inductive who := Main | Worker (i : nat).

#[export] Instance who_eq_dec : EqDecision who.
Proof. solve_decision. Defined.

(** [SharedState] and the threads. *)
Record state := mkState {
  mu : option who; num_initialized : nat; num_done : nat; start : bool;
  main : mpc; workers : list wpc
}.

Section protocol.
(** [n] is [shared.total]; [bg i]: worker [i] runs [BGWriter]. *)
Variables (n : nat) (bg : nat -> bool).

Definition init : state := mkState None 0 0 false (MSpawn 0) (replicate n WNew).

(** [cv.SignalAll()] *)
Definition wake (p : wpc) : wpc := match p with WWait => WRelock | _ => p end.

Definition wake_main (p : mpc) : mpc :=
  match p with MWait1 => MRelock1 | MWait2 => MRelock2 | _ => p end.

Definition SignalAll (s : state) : state :=
  mkState (mu s) (num_initialized s) (num_done s) (start s) (wake_main (main s)) (map wake (workers s)).

Definition set_worker (i : nat) (p : wpc) (s : state) : state :=
  mkState (mu s) (num_initialized s) (num_done s) (start s) (main s) (<[i := p]> (workers s)).

Definition set_main (p : mpc) (s : state) : state :=
  mkState (mu s) (num_initialized s) (num_done s) (start s) p (workers s).

Definition set_mu (m : option who) (s : state) : state :=
  mkState m (num_initialized s) (num_done s) (start s) (main s) (workers s).

Definition lock (t : who) (s : state) : option state :=
  match mu s with None => Some (set_mu (Some t) s) | Some _ => None end.

(** [ThreadBody] *)
Definition step_worker (i : nat) (s : state) : option state :=
  match workers s !! i with
  | Some WLock1 => set_worker i WInit <$> lock (Worker i) s
  | Some WInit =>
      let k := S (num_initialized s) in
      let s := mkState (mu s) k (num_done s) (start s) (main s) (workers s) in
      let s := if (n <=? k)%nat then SignalAll s else s in
      Some (set_worker i WTest s)
  | Some WTest =>
      if negb (start s) then Some (set_worker i WWait (set_mu None s))
      else Some (set_worker i WRun (set_mu None s))
  | Some WRelock => set_worker i WTest <$> lock (Worker i) s
  | Some WRun =>
      if bg i then set_worker i WPoll <$> lock (Worker i) s
      else Some (set_worker i WLock2 s)
  | Some WPoll =>
      if (num_initialized s <=? num_done s + 1)%nat
      then Some (set_worker i WLock2 (set_mu None s))
      else Some (set_worker i WRun (set_mu None s))
  | Some WLock2 => set_worker i WFin <$> lock (Worker i) s
  | Some WFin =>
      let k := S (num_done s) in
      let s := mkState (mu s) (num_initialized s) k (start s) (main s) (workers s) in
      let s := if (n <=? k)%nat then SignalAll s else s in
      Some (set_worker i WUnlock s)
  | Some WUnlock => Some (set_worker i WExit (set_mu None s))
  | _ => None
  end.

(** [RunBenchmark] *)
Definition step_main (s : state) : option state :=
  match main s with
  | MSpawn k =>
      if (k <? n)%nat then Some (set_main (MSpawn (S k)) (set_worker k WLock1 s))
      else Some (set_main MLock s)
  | MLock => set_main MTest1 <$> lock Main s
  | MTest1 =>
      if (num_initialized s <? n)%nat then Some (set_main MWait1 (set_mu None s))
      else
        let s := mkState (mu s) (num_initialized s) (num_done s) true (main s) (workers s) in
        Some (set_main MTest2 (SignalAll s))
  | MRelock1 => set_main MTest1 <$> lock Main s
  | MTest2 =>
      if (num_done s <? n)%nat then Some (set_main MWait2 (set_mu None s))
      else Some (set_main MReport (set_mu None s))
  | MRelock2 => set_main MTest2 <$> lock Main s
  | _ => None
  end.

(** An action of the program. *)
Inductive act : state -> state -> Prop :=
  | act_main s s' : step_main s = Some s' -> act s s'
  | act_worker i s s' : step_worker i s = Some s' -> act s s'.

(** An action, or a wait that ends without a signal. *)
Inductive step : state -> state -> Prop :=
  | step_act s s' : act s s' -> step s s'
  | step_spurious_main s : step s (set_main (wake_main (main s)) s)
  | step_spurious_worker i p s :
      workers s !! i = Some p -> step s (set_worker i (wake p) s).

Inductive reachable : state -> Prop :=
  | reach_init : reachable init
  | reach_step s s' : reachable s -> step s s' -> reachable s'.

(** Worker [i] is a background writer about to look at the counters. *)
Definition looks (i : nat) (s : state) : nat :=
  Nat.b2n (bg i && bool_decide (workers s !! i = Some WRun)).

(** A run of [k] actions, [l] of them looks of a background writer, with [w] waits
    that ended without a signal in between. *)
Inductive run : nat -> nat -> nat -> state -> state -> Prop :=
  | run_nil s : run 0 0 0 s s
  | run_main k w l s s1 s2 : run k w l s s1 -> step_main s1 = Some s2 -> run (S k) w l s s2
  | run_worker k w l i s s1 s2 :
      run k w l s s1 -> step_worker i s1 = Some s2 -> run (S k) w (looks i s1 + l) s s2
  | run_spurious_main k w l s s1 :
      run k w l s s1 -> run k (S w) l s (set_main (wake_main (main s1)) s1)
  | run_spurious_worker k w l i p s s1 :
      run k w l s s1 -> workers s1 !! i = Some p -> run k (S w) l s (set_worker i (wake p) s1).

End protocol.

(** ** Classes of program points *)
Definition holding (p : wpc) : bool :=
  match p with WInit | WTest | WPoll | WFin | WUnlock => true | _ => false end.

Definition mholding (p : mpc) : bool :=
  match p with MTest1 | MTest2 => true | _ => false end.

(** past [num_initialized++] *)
Definition initialized (p : wpc) : bool :=
  match p with WNew | WLock1 | WInit => false | _ => true end.

(** past the wait for [start] *)
Definition passed (p : wpc) : bool :=
  match p with WRun | WPoll | WLock2 | WFin | WUnlock | WExit => true | _ => false end.

(** past the workload *)
Definition ran (p : wpc) : bool :=
  match p with WLock2 | WFin | WUnlock | WExit => true | _ => false end.

(** past [num_done++] *)
Definition finished (p : wpc) : bool :=
  match p with WUnlock | WExit => true | _ => false end.

(** past [shared.start = true] *)
Definition after_start (p : mpc) : bool :=
  match p with MTest2 | MWait2 | MRelock2 | MReport => true | _ => false end.

(** ** Counting *)
Fixpoint cnt (P : wpc -> bool) (l : list wpc) : nat :=
  match l with [] => 0 | p :: l' => Nat.b2n (P p) + cnt P l' end.

Lemma cnt_insert P l i p p' :
  l !! i = Some p -> (cnt P (<[i := p']> l) + Nat.b2n (P p) = cnt P l + Nat.b2n (P p'))%nat.
Proof.
  revert i; induction l as [|q l IH]; intros [|i] Hi; simplify_eq/=; [lia|].
  specialize (IH i Hi). lia.
Qed.

Lemma cnt_le P l : (cnt P l <= length l)%nat.
Proof. induction l as [|p l IH]; simpl; [lia|]. destruct (P p); simpl; lia. Qed.

Lemma cnt_full P l : cnt P l = length l <-> Forall (fun p => P p = true) l.
Proof.
  induction l as [|p l IH]; simpl; [done|]. pose proof (cnt_le P l). rewrite Forall_cons, <- IH.
  destruct (P p); simpl; split; intuition (lia || congruence).
Qed.

Lemma cnt_map P g l : (forall p, P (g p) = P p) -> cnt P (map g l) = cnt P l.
Proof. intros Hg. induction l as [|p l IH]; simpl; [done|]. by rewrite Hg, IH. Qed.

(** All but one: the others are all counted. *)
Lemma cnt_others P l i p :
  l !! i = Some p -> P p = false -> (length l <= cnt P l + 1)%nat ->
  forall j q, j <> i -> l !! j = Some q -> P q = true.
Proof.
  revert i; induction l as [|x l IH]; intros [|i] Hi Hp Hl [|j] q Hj Hq; simplify_eq/=.
  - rewrite Hp in Hl. simpl in Hl. pose proof (cnt_le P l).
    assert (Hf : cnt P l = length l) by lia. apply cnt_full in Hf.
    rewrite Forall_lookup in Hf. eauto.
  - destruct (P q) eqn:E; [done|]. simpl in Hl. pose proof (cnt_le P l).
    assert (Hf : cnt P l = length l) by lia. apply cnt_full in Hf.
    rewrite Forall_lookup in Hf. rewrite (Hf i p) in Hp by done. done.
  - apply (IH i Hi Hp) with (j := j); [|lia|done]. destruct (P x); simpl in Hl; lia.
Qed.

(** ** The invariant *)
Section invariant.
Context (n : nat) (bg : nat -> bool).

Record inv (s : state) : Prop := {
  inv_len : length (workers s) = n;
  inv_init : num_initialized s = cnt initialized (workers s);
  inv_done : num_done s = cnt finished (workers s);
  inv_holder i p : workers s !! i = Some p -> holding p = true <-> mu s = Some (Worker i);
  inv_holder_lt i : mu s = Some (Worker i) -> (i < n)%nat;
  inv_mholder : mholding (main s) = true <-> mu s = Some Main;
  inv_start : start s = after_start (main s);
  inv_all : start s = true -> num_initialized s = n;
  inv_passed i p : workers s !! i = Some p -> passed p = true -> start s = true;
  inv_spawn i p : workers s !! i = Some p ->
    p = WNew <-> match main s with MSpawn k => (k <= i)%nat | _ => False end;
  inv_spawn_le k : main s = MSpawn k -> (k <= n)%nat;
  inv_sleep i : workers s !! i = Some WWait -> start s = false;
  inv_sleep1 : main s = MWait1 -> (num_initialized s < n)%nat;
  inv_sleep2 : main s = MWait2 -> (num_done s < n)%nat;
  inv_report i p : main s = MReport -> workers s !! i = Some p -> p = WExit;
  inv_writer i p j q : bg i = true -> workers s !! i = Some p -> ran p = true ->
    j <> i -> workers s !! j = Some q -> finished q = true
}.

Lemma holding_wake p : holding (wake p) = holding p.
Proof. by destruct p. Qed.
Lemma initialized_wake p : initialized (wake p) = initialized p.
Proof. by destruct p. Qed.
Lemma finished_wake p : finished (wake p) = finished p.
Proof. by destruct p. Qed.
Lemma passed_wake p : passed (wake p) = passed p.
Proof. by destruct p. Qed.
Lemma ran_wake p : ran (wake p) = ran p.
Proof. by destruct p. Qed.
Lemma new_wake p : wake p = WNew <-> p = WNew.
Proof. by destruct p. Qed.

Lemma inv_SignalAll s : inv s -> inv (SignalAll s).
Proof.
  intros []. unfold SignalAll.
  split; cbn [mu num_initialized num_done start main workers]; try done.
  - by rewrite length_map.
  - rewrite cnt_map; [done|]. apply initialized_wake.
  - rewrite cnt_map; [done|]. apply finished_wake.
  - intros i p (q & -> & Hq)%list_lookup_fmap_Some. rewrite holding_wake. eauto.
  - by destruct (main s).
  - by destruct (main s).
  - intros i p (q & -> & Hq)%list_lookup_fmap_Some. rewrite passed_wake. eauto.
  - intros i p (q & -> & Hq)%list_lookup_fmap_Some. rewrite new_wake, (inv_spawn0 i q Hq).
    by destruct (main s).
  - by destruct (main s).
  - intros i (q & Hw & Hq)%list_lookup_fmap_Some. by destruct q.
  - by destruct (main s).
  - by destruct (main s).
  - intros i p Hm (q & -> & Hq)%list_lookup_fmap_Some.
    rewrite (inv_report0 i q); [done| |done]. by destruct (main s).
  - intros i p j q Hb (p' & -> & Hp)%list_lookup_fmap_Some Hr Hj (q' & -> & Hq)%list_lookup_fmap_Some.
    rewrite ran_wake in Hr. rewrite finished_wake. eauto.
Qed.

(** How worker [i] may change the mutex when it moves from [p] to [p']. *)
Definition mutex_move (t : who) (h h' : bool) (m m' : option who) : Prop :=
  (m' = m /\ h' = h) \/
  (m = None /\ m' = Some t /\ h' = true) \/
  (m = Some t /\ m' = None /\ h' = false).

(** A worker moves and nobody is woken. *)
Lemma inv_move s i p p' m' k d :
  inv s -> workers s !! i = Some p ->
  mutex_move (Worker i) (holding p) (holding p') (mu s) m' ->
  (k + Nat.b2n (initialized p) = num_initialized s + Nat.b2n (initialized p'))%nat ->
  (d + Nat.b2n (finished p) = num_done s + Nat.b2n (finished p'))%nat ->
  (initialized p = true -> initialized p' = true) -> (finished p = true -> finished p' = true) ->
  (passed p' = true -> start s = true) -> p <> WNew -> p' <> WNew ->
  (p' = WWait -> start s = false) ->
  (main s = MWait1 -> (k < n)%nat) -> (main s = MWait2 -> (d < n)%nat) -> main s <> MReport ->
  (bg i = true -> ran p' = true -> ran p = true \/
     (forall j q, j <> i -> workers s !! j = Some q -> finished q = true)) ->
  inv (mkState m' k d (start s) (main s) (<[i := p']> (workers s))).
Proof.
  intros [] Hi Hmu Hk Hd Hini Hfin Hpass Hnew Hnew' Hsl H1 H2 Hrep Hbg.
  pose proof (lookup_lt_Some _ _ _ Hi) as Hlt.
  pose proof (cnt_insert initialized _ _ _ p' Hi). pose proof (cnt_insert finished _ _ _ p' Hi).
  assert (Hcase : forall j q, <[i := p']> (workers s) !! j = Some q ->
            (j = i /\ q = p') \/ (j <> i /\ workers s !! j = Some q)).
  { intros j q Hj. apply list_lookup_insert_Some in Hj as [(-> & -> & _)|[? ?]]; auto. }
  split; cbn [mu num_initialized num_done start main workers]; try done; try lia.
  - by rewrite length_insert.
  - intros j q [[-> ->]|[Hj Hq]]%Hcase.
    + specialize (inv_holder0 i p Hi).
      destruct Hmu as [[-> ->]|[(Hm & -> & ->)|(Hm & -> & ->)]]; [done|done|]. split; congruence.
    + rewrite (inv_holder0 j q Hq).
      destruct Hmu as [[-> _]|[(Hm & -> & _)|(Hm & -> & _)]]; [done|..]; rewrite ?Hm; split; congruence.
  - intros j Hj. destruct Hmu as [[-> _]|[(Hm & -> & _)|(_ & -> & _)]]; [by auto| |done].
    injection Hj as <-. lia.
  - rewrite inv_mholder0.
    destruct Hmu as [[-> _]|[(Hm & -> & _)|(Hm & -> & _)]]; [done|..]; rewrite ?Hm; split; congruence.
  - intros Hs. specialize (inv_all0 Hs).
    pose proof (cnt_le initialized (<[i := p']> (workers s))) as Hle. rewrite length_insert in Hle.
    destruct (initialized p), (initialized p'); simpl in *; try (discriminate (Hini eq_refl)); lia.
  - intros j q [[-> ->]|[Hj Hq]]%Hcase; [done|]. by apply inv_passed0 with j.
  - intros j q [[-> ->]|[Hj Hq]]%Hcase; [|by apply inv_spawn0].
    split; [done|]. intros Hx. destruct Hnew. by apply (inv_spawn0 i).
  - intros j [[-> <-]|[Hj Hq]]%Hcase; [auto|]. by apply inv_sleep0 with j.
  - intros j q j' q' Hbj Hq Hr Hne Hq'. apply Hcase in Hq as [[-> ->]|[Hj Hq]].
    + apply Hcase in Hq' as [[-> ->]|[_ Hq']]; [done|].
      destruct (Hbg Hbj Hr) as [Hr'|Ho]; [by eapply (inv_writer0 i p)|eauto].
    + apply Hcase in Hq' as [[-> ->]|[_ Hq']]; [|by eapply (inv_writer0 j q)].
      apply Hfin. by eapply (inv_writer0 j q).
Qed.

Definition spawning (q : mpc) (i : nat) : Prop :=
  match q with MSpawn k => (k <= i)%nat | _ => False end.

(** The main thread moves and nobody is woken. *)
Lemma inv_main s q' m' b' :
  inv s -> mutex_move Main (mholding (main s)) (mholding q') (mu s) m' ->
  b' = after_start q' -> (start s = true -> b' = true) -> (b' = true -> num_initialized s = n) ->
  (forall i, (i < n)%nat -> spawning (main s) i <-> spawning q' i) ->
  (forall k, q' <> MSpawn k) ->
  (b' = true -> forall i, workers s !! i <> Some WWait) ->
  (q' = MWait1 -> (num_initialized s < n)%nat) -> (q' = MWait2 -> (num_done s < n)%nat) ->
  (q' = MReport -> forall i p, workers s !! i = Some p -> p = WExit) ->
  inv (mkState m' (num_initialized s) (num_done s) b' q' (workers s)).
Proof.
  intros [] Hmu Hb Hmono Hall Hsp Hnsp Hsl H1 H2 Hrep.
  split; cbn [mu num_initialized num_done start main workers]; try done.
  - intros i p Hp. rewrite (inv_holder0 i p Hp).
    destruct Hmu as [[-> _]|[(Hm & -> & _)|(Hm & -> & _)]]; [done|..]; rewrite ?Hm; split; congruence.
  - intros i Hm'. destruct Hmu as [[-> _]|[(Hm & -> & _)|(_ & -> & _)]]; [by auto|done|done].
  - destruct Hmu as [[-> ->]|[(Hm & -> & ->)|(Hm & -> & ->)]]; [done|done|]. split; congruence.
  - intros i p Hp Hpass. apply Hmono. by apply inv_passed0 with i p.
  - intros i p Hp. rewrite (inv_spawn0 i p Hp). apply Hsp. rewrite <- inv_len0.
    by eapply lookup_lt_Some.
  - intros k Hk. by destruct (Hnsp k).
  - intros i Hi. destruct b'; [|done]. by destruct (Hsl eq_refl i).
  - by eauto.
Qed.

(** The main thread creates worker [k]. *)
Lemma inv_create s k :
  inv s -> main s = MSpawn k -> (k < n)%nat ->
  inv (set_main (MSpawn (S k)) (set_worker k WLock1 s)).
Proof.
  intros [] Hm Hk. unfold set_main, set_worker.
  destruct (lookup_lt_is_Some_2 (workers s) k ltac:(lia)) as [p Hp].
  assert (p = WNew) as ->. { apply (inv_spawn0 k p Hp). by rewrite Hm. }
  assert (Hcase : forall j q, <[k := WLock1]> (workers s) !! j = Some q ->
            (j = k /\ q = WLock1) \/ (j <> k /\ workers s !! j = Some q)).
  { intros j q Hj. apply list_lookup_insert_Some in Hj as [(-> & -> & _)|[? ?]]; auto. }
  pose proof (cnt_insert initialized _ _ _ WLock1 Hp). pose proof (cnt_insert finished _ _ _ WLock1 Hp).
  rewrite Hm in *. cbn [Nat.b2n initialized finished] in *.
  split; cbn [mu num_initialized num_done start main workers]; try done; try lia.
  - by rewrite length_insert.
  - intros j q [[-> ->]|[Hj Hq]]%Hcase; [|by apply inv_holder0]. by rewrite <- (inv_holder0 k WNew Hp).
  - intros j q [[-> ->]|[Hj Hq]]%Hcase; [done|]. by apply inv_passed0 with j.
  - intros j q [[-> ->]|[Hj Hq]]%Hcase; [split; [done|lia]|]. rewrite (inv_spawn0 j q Hq). lia.
  - intros k' [= <-]. lia.
  - intros i p j q Hb Hp' Hr Hne Hq. apply Hcase in Hp' as [[-> ->]|[Hi Hp']]; [done|].
    apply Hcase in Hq as [[-> ->]|[_ Hq]]; [|by eapply (inv_writer0 i p)].
    by rewrite <- (inv_writer0 i p k WNew).
Qed.

(** ** Every step keeps the invariant *)
Lemma lock_inv t s s' : lock t s = Some s' -> mu s = None /\ s' = set_mu (Some t) s.
Proof. unfold lock. destruct (mu s); [done|]. by intros [= <-]. Qed.

Ltac mutex_case :=
  unfold mutex_move; cbn [holding mholding]; first
    [ left; split; done
    | right; left; split_and!; done
    | right; right; split_and!; done ].

Ltac if_case := match goal with |- context [if ?b then _ else _] => destruct b end.

Lemma main_at_report s i p : inv s -> workers s !! i = Some p -> p <> WExit -> main s <> MReport.
Proof. intros [] Hp Hne Hm. eauto. Qed.

(** The mutex of a worker inside a critical section. *)
Lemma holder_mu s i p : inv s -> workers s !! i = Some p -> holding p = true -> mu s = Some (Worker i).
Proof. intros [] Hp. by rewrite (inv_holder0 i p Hp). Qed.

Lemma inv_lock s i p p' s1 :
  inv s -> workers s !! i = Some p -> lock (Worker i) s = Some s1 ->
  holding p = false -> holding p' = true -> initialized p' = initialized p -> finished p' = finished p ->
  (passed p' = passed p) -> ran p' = ran p -> p <> WNew -> p' <> WNew -> p <> WExit -> p' <> WWait ->
  inv (set_worker i p' s1).
Proof.
  intros Hinv Hp [Hmu ->]%lock_inv Hh Hh' Hini Hfin Hpass Hran Hn Hn' Hx Hw.
  pose proof (main_at_report s i p Hinv Hp Hx). pose proof Hinv as [].
  eapply (inv_move s i p p' (Some (Worker i)) (num_initialized s) (num_done s)); try done;
    rewrite ?Hini, ?Hfin, ?Hpass, ?Hran, ?Hh, ?Hh', ?Hmu; auto.
  - right; left. auto.
  - by apply inv_passed0 with i.
Qed.

Lemma inv_unlock s i p p' :
  inv s -> workers s !! i = Some p -> holding p = true -> holding p' = false ->
  initialized p' = initialized p -> finished p' = finished p ->
  (passed p' = true -> start s = true) -> p <> WNew -> p' <> WNew -> p <> WExit ->
  (p' = WWait -> start s = false) ->
  (bg i = true -> ran p' = true -> ran p = true \/
     (forall j q, j <> i -> workers s !! j = Some q -> finished q = true)) ->
  inv (set_worker i p' (set_mu None s)).
Proof.
  intros Hinv Hp Hh Hh' Hini Hfin Hpass Hn Hn' Hx Hw Hbg.
  pose proof (main_at_report s i p Hinv Hp Hx). pose proof (holder_mu s i p Hinv Hp Hh) as Hmu.
  pose proof Hinv as [].
  eapply (inv_move s i p p' None (num_initialized s) (num_done s)); try done;
    rewrite ?Hini, ?Hfin, ?Hh, ?Hh', ?Hmu; auto.
  right; right. auto.
Qed.

(** The move that increments a counter and wakes everybody when it is full. *)
Lemma inv_count s i p p' k d full :
  inv s -> workers s !! i = Some p -> holding p = true -> holding p' = true ->
  (k + Nat.b2n (initialized p) = num_initialized s + Nat.b2n (initialized p'))%nat ->
  (d + Nat.b2n (finished p) = num_done s + Nat.b2n (finished p'))%nat ->
  (initialized p = true -> initialized p' = true) -> (finished p = true -> finished p' = true) ->
  passed p' = passed p -> ran p' = ran p -> p' <> WNew -> p' <> WWait ->
  (full = false -> (main s = MWait1 -> (k < n)%nat) /\ (main s = MWait2 -> (d < n)%nat)) ->
  inv (set_worker i p'
    (if (full : bool) then SignalAll (mkState (mu s) k d (start s) (main s) (workers s))
     else mkState (mu s) k d (start s) (main s) (workers s))).
Proof.
  intros Hinv Hp Hh Hh' Hk Hd Hini Hfin Hpass Hran Hn' Hw Hfull.
  assert (Hx : p <> WExit /\ p <> WNew /\ wake p = p) by (by destruct p).
  destruct Hx as (Hx & Hn & Hwk). pose proof (main_at_report s i p Hinv Hp Hx) as Hrep.
  assert (Hpass' : passed p' = true -> start s = true).
  { rewrite Hpass. by apply (inv_passed s Hinv i). }
  destruct full.
  - assert (Hp1 : workers (SignalAll s) !! i = Some p).
    { cbn [SignalAll workers]. rewrite list_lookup_fmap, Hp. simpl. by rewrite Hwk. }
    apply (inv_move (SignalAll s) i p p' (mu s) k d); try done.
    + by apply inv_SignalAll.
    + left. by rewrite Hh, Hh'.
    + cbn [SignalAll main]. by destruct (main s).
    + cbn [SignalAll main]. by destruct (main s).
    + cbn [SignalAll main]. by destruct (main s).
    + rewrite Hran. auto.
  - destruct (Hfull eq_refl). apply (inv_move s i p p' (mu s) k d); try done.
    + left. by rewrite Hh, Hh'.
    + rewrite Hran. auto.
Qed.

Lemma inv_step_worker i s s' : inv s -> step_worker n bg i s = Some s' -> inv s'.
Proof.
  intros Hinv. unfold step_worker. destruct (workers s !! i) as [p|] eqn:Hp; [|done].
  destruct p; try done.
  - intros (s1 & Hl & ->)%fmap_Some. by eapply (inv_lock s i WLock1 WInit).
  - intros [= <-]. apply (inv_count s i WInit WTest); try done; try (simpl; lia).
    intros Hf%Nat.leb_gt. split; [done|by apply (inv_sleep2 s)].
  - destruct (start s) eqn:Hst; intros [= <-]; by apply (inv_unlock s i WTest).
  - intros (s1 & Hl & ->)%fmap_Some. by eapply (inv_lock s i WRelock WTest).
  - destruct (bg i) eqn:Hb.
    + intros (s1 & Hl & ->)%fmap_Some. by eapply (inv_lock s i WRun WPoll).
    + intros [= <-]. pose proof (main_at_report s i WRun Hinv Hp ltac:(done)).
      pose proof Hinv as []. apply (inv_move s i WRun WLock2 (mu s)); try done; [mutex_case|..].
      * intros _. by apply inv_passed0 with i WRun.
      * by rewrite Hb.
  - assert (Hst : start s = true) by (by apply (inv_passed s Hinv i WPoll)).
    destruct (Nat.leb_spec (num_initialized s) (num_done s + 1)); intros [= <-];
      apply (inv_unlock s i WPoll); try done.
    intros _ _. right. pose proof Hinv as [].
    apply (cnt_others finished (workers s) i WPoll); [done|done|]. specialize (inv_all0 Hst). lia.
  - intros (s1 & Hl & ->)%fmap_Some. by eapply (inv_lock s i WLock2 WFin).
  - intros [= <-]. apply (inv_count s i WFin WUnlock); try done; try (simpl; lia).
    intros Hf%Nat.leb_gt. split; [by apply (inv_sleep1 s)|done].
  - intros [= <-]. apply (inv_unlock s i WUnlock); try done; [|auto].
    intros _. by apply (inv_passed s Hinv i WUnlock).
Qed.

Lemma inv_step_main s s' : inv s -> step_main n s = Some s' -> inv s'.
Proof.
  intros Hinv. unfold step_main. pose proof Hinv as []. destruct (main s) eqn:Hm; try done.
  - destruct (Nat.ltb_spec k n); intros [= <-]; [by apply inv_create|].
    apply (inv_main s MLock (mu s) (start s)); rewrite ?Hm; try done;
      try (intros Hst; rewrite inv_start0, ?Hm in Hst; done); [mutex_case|].
    intros i Hi. simpl. lia.
  - intros (s1 & [Hmu ->]%lock_inv & ->)%fmap_Some.
    apply (inv_main s MTest1 (Some Main) (start s)); rewrite ?Hm; try done;
      try (intros Hst; rewrite inv_start0, ?Hm in Hst; done); mutex_case.
  - assert (Hmu : mu s = Some Main) by (by apply inv_mholder0).
    destruct (Nat.ltb_spec (num_initialized s) n); intros [= <-].
    + apply (inv_main s MWait1 None (start s)); rewrite ?Hm; try done;
      try (intros Hst; rewrite inv_start0, ?Hm in Hst; done); mutex_case.
    + pose proof (inv_SignalAll s Hinv) as Hs1.
      apply (inv_main (SignalAll s) MTest2 (mu s) true Hs1); cbn [SignalAll main]; rewrite ?Hm; try done;
      try (intros Hst; rewrite inv_start0, ?Hm in Hst; done).
      * mutex_case.
      * intros _. cbn [SignalAll num_initialized]. pose proof (cnt_le initialized (workers s)). lia.
      * intros _ i Hi. cbn [SignalAll workers] in Hi.
        apply list_lookup_fmap_Some in Hi as (q & Hq & _). by destruct q.
  - intros (s1 & [Hmu ->]%lock_inv & ->)%fmap_Some.
    apply (inv_main s MTest1 (Some Main) (start s)); rewrite ?Hm; try done;
      try (intros Hst; rewrite inv_start0, ?Hm in Hst; done); mutex_case.
  - assert (Hmu : mu s = Some Main) by (by apply inv_mholder0).
    assert (Hsleep : forall i, workers s !! i <> Some WWait).
    { intros i Hi. apply inv_sleep0 in Hi. rewrite inv_start0, ?Hm in Hi. done. }
    destruct (Nat.ltb_spec (num_done s) n); intros [= <-].
    + apply (inv_main s MWait2 None (start s)); rewrite ?Hm; try done;
      try (intros Hst; rewrite inv_start0, ?Hm in Hst; done); mutex_case.
    + apply (inv_main s MReport None (start s)); rewrite ?Hm; try done;
      try (intros Hst; rewrite inv_start0, ?Hm in Hst; done); [mutex_case|].
      intros _ i p Hp. pose proof (cnt_le finished (workers s)).
      assert (Hf : cnt finished (workers s) = length (workers s)) by lia. apply cnt_full in Hf.
      rewrite Forall_lookup in Hf. specialize (Hf i p Hp). destruct p; try done.
      apply (inv_holder0 i WUnlock) in Hp. assert (mu s = Some (Worker i)) by (by apply Hp). congruence.
  - intros (s1 & [Hmu ->]%lock_inv & ->)%fmap_Some.
    assert (Hsleep : forall i, workers s !! i <> Some WWait).
    { intros i Hi. apply inv_sleep0 in Hi. rewrite inv_start0, ?Hm in Hi. done. }
    apply (inv_main s MTest2 (Some Main) (start s)); rewrite ?Hm; try done;
      try (intros Hst; rewrite inv_start0, ?Hm in Hst; done); mutex_case.
Qed.

Lemma inv_spurious_main s : inv s -> inv (set_main (wake_main (main s)) s).
Proof.
  intros Hinv. pose proof Hinv as [].
  assert (Hcase : wake_main (main s) = main s \/ main s = MWait1 \/ main s = MWait2)
    by (destruct (main s); auto).
  destruct Hcase as [->|[Hm|Hm]]; [by destruct s| |]; rewrite Hm; cbn [wake_main].
  - apply (inv_main s MRelock1 (mu s) (start s)); rewrite ?Hm; try done;
      try (intros Hst; rewrite inv_start0, ?Hm in Hst; done); [mutex_case|]. by rewrite inv_start0, Hm.
  - apply (inv_main s MRelock2 (mu s) (start s)); rewrite ?Hm; try done; [mutex_case|..].
    + by rewrite inv_start0, Hm.
    + intros Hst i Hi. apply inv_sleep0 in Hi. congruence.
Qed.

Lemma inv_spurious_worker s i p :
  inv s -> workers s !! i = Some p -> inv (set_worker i (wake p) s).
Proof.
  intros Hinv Hp. pose proof Hinv as []. destruct (decide (p = WWait)) as [->|Hne].
  - apply (inv_move s i WWait WRelock (mu s)); try done; [mutex_case|].
    by eapply main_at_report.
  - replace (wake p) with p by (by destruct p). unfold set_worker.
    rewrite list_insert_id by done. by destruct s.
Qed.

Lemma inv_initial : inv (init n).
Proof.
  split; cbn [init mu num_initialized num_done start main workers]; try done;
    try (intros i p [-> _]%lookup_replicate; done).
  - apply length_replicate.
  - induction n; simpl; auto.
  - induction n; simpl; auto.
  - intros i p [-> Hi]%lookup_replicate. split; [lia|done].
  - intros k [= <-]. lia.
  - by intros i p j q _ [-> _]%lookup_replicate.
Qed.

Lemma reachable_inv s : reachable n bg s -> inv s.
Proof.
  induction 1 as [|s s' _ IH Hstep]; [apply inv_initial|].
  destruct Hstep as [s s' []| |].
  - by eapply inv_step_main.
  - by eapply inv_step_worker.
  - by apply inv_spurious_main.
  - by eapply inv_spurious_worker.
Qed.

(** ** Somebody can move *)
Definition final (s : state) : Prop := main s = MReport /\ Forall (fun p => p = WExit) (workers s).

Lemma main_act s : is_Some (step_main n s) -> exists s', act n bg s s'.
Proof. intros [s' Hs]. exists s'. by apply act_main. Qed.

Lemma worker_act s i : is_Some (step_worker n bg i s) -> exists s', act n bg s s'.
Proof. intros [s' Hs]. exists s'. by apply (act_worker n bg i). Qed.

Lemma holder_moves s : inv s -> mu s <> None -> exists s', act n bg s s'.
Proof.
  intros [] Hmu. destruct (mu s) as [[|i]|] eqn:E; [..|done].
  - assert (Hm : mholding (main s) = true) by (by apply inv_mholder0).
    apply main_act. unfold step_main. destruct (main s); try done; try if_case; by eexists.
  - destruct (lookup_lt_is_Some_2 (workers s) i) as [p Hp]; [rewrite inv_len0; auto|].
    assert (Hh : holding p = true) by (by apply (inv_holder0 i)).
    apply (worker_act s i). unfold step_worker. rewrite Hp.
    destruct p; try done; try if_case; by eexists.
Qed.

(** With the mutex free, only sleepers and threads that are done cannot move. *)
Lemma worker_moves s i p :
  mu s = None -> workers s !! i = Some p -> p <> WNew -> p <> WWait -> p <> WExit ->
  holding p = false -> exists s', act n bg s s'.
Proof.
  intros Hmu Hp Hn Hw Hx Hh. assert (Hl : forall t, lock t s = Some (set_mu (Some t) s)).
  { intros t. unfold lock. by rewrite Hmu. }
  apply (worker_act s i). unfold step_worker. rewrite Hp, !Hl.
  destruct p; try done; try if_case; by eexists.
Qed.

Lemma main_moves s :
  mu s = None -> main s <> MWait1 -> main s <> MWait2 -> main s <> MReport ->
  mholding (main s) = false -> exists s', act n bg s s'.
Proof.
  intros Hmu H1 H2 H3 Hh. assert (Hl : forall t, lock t s = Some (set_mu (Some t) s)).
  { intros t. unfold lock. by rewrite Hmu. }
  apply main_act. unfold step_main. rewrite !Hl.
  destruct (main s); try done; try if_case; by eexists.
Qed.

Lemma progress s : inv s -> final s \/ exists s', act n bg s s'.
Proof.
  intros Hinv. destruct (decide (mu s = None)) as [Hmu|Hmu]; [|right; by apply holder_moves].
  pose proof Hinv as [].
  assert (Hmh : mholding (main s) = false).
  { destruct (mholding (main s)) eqn:E; [|done]. apply (inv_mholder s Hinv) in E. congruence. }
  assert (Hwh : forall i p, workers s !! i = Some p -> holding p = false).
  { intros i p Hp. destruct (holding p) eqn:E; [|done]. apply (inv_holder s Hinv i p Hp) in E. congruence. }
  destruct (decide (Exists (fun p => p <> WNew /\ p <> WWait /\ p <> WExit) (workers s)))
    as [(p & [i Hi]%list_elem_of_lookup & Hp1 & Hp2 & Hp3)%Exists_exists|Hno].
  { right. eapply worker_moves; eauto. }
  assert (Hres : forall i p, workers s !! i = Some p -> p = WNew \/ p = WWait \/ p = WExit).
  { intros i p Hp. destruct (decide (p = WNew)), (decide (p = WWait)), (decide (p = WExit)); auto.
    destruct Hno. apply Exists_exists. exists p. split; [by eapply list_elem_of_lookup_2|auto]. }
  destruct (decide (main s = MWait1 \/ main s = MWait2 \/ main s = MReport)) as [Hm|Hm];
    [|right; apply main_moves; auto].
  assert (Hnew : forall i, workers s !! i <> Some WNew).
  { intros i Hi. apply (inv_spawn0 i) in Hi as [Hi _]. specialize (Hi eq_refl).
    destruct Hm as [E|[E|E]]; rewrite E in Hi; done. }
  destruct Hm as [Hm|[Hm|Hm]].
  - exfalso. pose proof (inv_sleep1 s Hinv Hm) as Hlt. rewrite inv_init0 in Hlt.
    rewrite (proj2 (cnt_full initialized (workers s))) in Hlt; [lia|].
    apply Forall_lookup. intros i p Hp. destruct (Hres i p Hp) as [->|[->| ->]]; try done.
    by destruct (Hnew i).
  - exfalso. pose proof (inv_sleep2 s Hinv Hm) as Hlt. rewrite inv_done0 in Hlt.
    rewrite (proj2 (cnt_full finished (workers s))) in Hlt; [lia|].
    apply Forall_lookup. intros i p Hp. destruct (Hres i p Hp) as [->|[->| ->]]; try done.
    + by destruct (Hnew i).
    + apply inv_sleep0 in Hp. rewrite inv_start0, Hm in Hp. done.
  - left. split; [done|]. apply Forall_lookup. intros i p Hp. eauto.
Qed.

(** ** A potential that every action lowers *)
Definition wrank (p : wpc) : nat :=
  match p with
  | WExit => 0 | WUnlock => 1 | WFin => 2 | WLock2 => 3 | WPoll => 5 | WRun => 4 | WWait => 5
  | WTest => 6 | WRelock => 7 | WInit => 8 | WLock1 => 9 | WNew => 10
  end.

Definition mrank (q : mpc) : nat :=
  match q with
  | MReport => 0 | MWait2 => 1 | MTest2 => 2 | MRelock2 => 3 | MWait1 => 4 | MTest1 => 5
  | MRelock1 => 6 | MLock => 7 | MSpawn k => 8 + (n - k)
  end.

Fixpoint total (l : list wpc) : nat :=
  match l with [] => 0 | p :: l' => wrank p + total l' end.

(** The signals still to come, each of which wakes at most everybody. *)
Definition signals (s : state) : nat :=
  Nat.b2n (num_initialized s <? n)%nat + Nat.b2n (negb (start s)) + Nat.b2n (num_done s <? n)%nat.

Definition potential (s : state) : nat :=
  2 * (n + 1) * signals s + total (workers s) + mrank (main s).

Lemma total_insert l i p p' :
  l !! i = Some p -> (total (<[i := p']> l) + wrank p = total l + wrank p')%nat.
Proof.
  revert i; induction l as [|q l IH]; intros [|i] Hi; simplify_eq/=; [lia|].
  specialize (IH i Hi). lia.
Qed.

Lemma total_wake l : (total (map wake l) <= total l + 2 * length l)%nat.
Proof. induction l as [|p l IH]; simpl; [lia|]. destruct p; simpl; lia. Qed.

Lemma mrank_wake q : (mrank (wake_main q) <= mrank q + 2)%nat.
Proof. destruct q; simpl; lia. Qed.

(** A move that wakes nobody. *)
Lemma potential_moved s i p p' m' k d :
  workers s !! i = Some p -> (num_initialized s <= k)%nat -> (num_done s <= d)%nat ->
  (potential (mkState m' k d (start s) (main s) (<[i := p']> (workers s))) + wrank p <= potential s + wrank p')%nat.
Proof.
  intros Hp Hk Hd. unfold potential, signals. cbn [num_initialized num_done start main workers].
  pose proof (total_insert _ _ _ p' Hp).
  destruct (Nat.ltb_spec k n), (Nat.ltb_spec d n), (Nat.ltb_spec (num_initialized s) n),
    (Nat.ltb_spec (num_done s) n); try lia; cbn [Nat.b2n]; nia.
Qed.

Lemma potential_move s i p p' m' k d :
  workers s !! i = Some p -> (wrank p' < wrank p)%nat ->
  (num_initialized s <= k)%nat -> (num_done s <= d)%nat ->
  (potential (mkState m' k d (start s) (main s) (<[i := p']> (workers s))) < potential s)%nat.
Proof. intros Hp Hr Hk Hd. pose proof (potential_moved s i p p' m' k d Hp Hk Hd). lia. Qed.

(** A move that increments a counter to [n] and wakes everybody. *)
Lemma potential_signal s i p p' m' k d :
  length (workers s) = n -> workers s !! i = Some p -> wake p = p -> (wrank p' < wrank p)%nat ->
  ((num_initialized s < n <= k)%nat /\ d = num_done s) \/
  ((num_done s < n <= d)%nat /\ k = num_initialized s) ->
  (potential (mkState m' k d (start s) (wake_main (main s)) (<[i := p']> (map wake (workers s))))
    < potential s)%nat.
Proof.
  intros Hl Hp Hw Hr Hc. unfold potential, signals. cbn [num_initialized num_done start main workers].
  assert (Hp' : map wake (workers s) !! i = Some p).
  { rewrite list_lookup_fmap, Hp. simpl. by rewrite Hw. }
  pose proof (total_insert _ _ _ p' Hp'). pose proof (total_wake (workers s)).
  pose proof (mrank_wake (main s)).
  destruct (Nat.ltb_spec k n), (Nat.ltb_spec d n), (Nat.ltb_spec (num_initialized s) n),
    (Nat.ltb_spec (num_done s) n); try lia; cbn [Nat.b2n]; nia.
Qed.

(** A worker that is not counted leaves room in the counter. *)
Lemma cnt_room P l i p : l !! i = Some p -> P p = false -> (cnt P l < length l)%nat.
Proof.
  intros Hp HP. pose proof (cnt_le P l). destruct (decide (cnt P l = length l)) as [Hf|]; [|lia].
  apply cnt_full in Hf. rewrite Forall_lookup in Hf. rewrite (Hf i p Hp) in HP. done.
Qed.

Ltac rank_lia := cbn [set_mu SignalAll num_initialized num_done wrank]; lia.

(** Only the look of a background writer raises it, by one. *)
Lemma worker_rank s i s' :
  inv s -> step_worker n bg i s = Some s' ->
  (potential s' < potential s)%nat \/ (looks bg i s = 1 /\ potential s' <= potential s + 1)%nat.
Proof.
  intros Hinv. unfold step_worker, looks. destruct (workers s !! i) as [p|] eqn:Hp; [|done].
  pose proof (inv_len s Hinv) as Hl.
  destruct (decide (p = WRun)) as [->|Hne].
  { destruct (bg i).
    - intros (s1 & [_ ->]%lock_inv & ->)%fmap_Some. right. rewrite bool_decide_true by done. split; [done|].
      pose proof (potential_moved s i WRun WPoll (Some (Worker i)) (num_initialized s) (num_done s) Hp) as H.
      cbn [wrank] in H. unfold set_worker. cbn [set_mu mu num_initialized num_done start main workers]. lia.
    - intros [= <-]. left. eapply (potential_move s i WRun); [done|rank_lia..]. }
  intros Hs. left. revert Hs. destruct p; try done;
    try (intros (s1 & [_ ->]%lock_inv & ->)%fmap_Some;
         eapply (potential_move s i); [done|rank_lia..]).
  - intros [= <-]. pose proof (cnt_room initialized _ _ _ Hp eq_refl) as Hroom.
    rewrite <- (inv_init s Hinv) in Hroom.
    destruct (Nat.leb_spec n (S (num_initialized s))).
    + apply (potential_signal s i WInit WTest); [done..|rank_lia|left; rank_lia].
    + apply (potential_move s i WInit WTest); [done|rank_lia..].
  - destruct (negb (start s)); intros [= <-];
      (eapply (potential_move s i WTest); [done|rank_lia..]).
  - destruct (_ <=? _)%nat; intros [= <-];
      (eapply (potential_move s i WPoll); [done|rank_lia..]).
  - intros [= <-]. pose proof (cnt_room finished _ _ _ Hp eq_refl) as Hroom.
    rewrite <- (inv_done s Hinv) in Hroom.
    destruct (Nat.leb_spec n (S (num_done s))).
    + apply (potential_signal s i WFin WUnlock); [done..|rank_lia|right; rank_lia].
    + apply (potential_move s i WFin WUnlock); [done|rank_lia..].
  - intros [= <-]. eapply (potential_move s i WUnlock); [done|rank_lia..].
Qed.

Lemma looks_le i s : (looks bg i s <= 1)%nat.
Proof. unfold looks. destruct (_ && _); simpl; lia. Qed.

Lemma worker_lowers s i s' :
  (forall i, bg i = false) -> inv s -> step_worker n bg i s = Some s' ->
  (potential s' < potential s)%nat.
Proof.
  intros Hbg Hinv Hs. destruct (worker_rank s i s' Hinv Hs) as [|[H _]]; [done|].
  unfold looks in H. by rewrite Hbg in H.
Qed.

(** A wake-up raises it by at most two. *)
Lemma spurious_main_rank s : (potential (set_main (wake_main (main s)) s) <= potential s + 2)%nat.
Proof. unfold potential, signals. pose proof (mrank_wake (main s)). simpl. lia. Qed.

Lemma spurious_worker_rank s i p :
  workers s !! i = Some p -> (potential (set_worker i (wake p) s) <= potential s + 2)%nat.
Proof.
  intros Hp. pose proof (potential_moved s i p (wake p) (mu s) (num_initialized s) (num_done s) Hp) as H.
  assert (wrank (wake p) <= wrank p + 2)%nat by (destruct p; simpl; lia). unfold set_worker. lia.
Qed.

(** A move of the main thread that wakes nobody. *)
Lemma potential_main s q' m' :
  (mrank q' < mrank (main s))%nat -> (potential (set_main q' (set_mu m' s)) < potential s)%nat.
Proof. intros Hr. unfold potential, signals. simpl. lia. Qed.

Lemma main_lowers s s' : inv s -> step_main n s = Some s' -> (potential s' < potential s)%nat.
Proof.
  intros Hinv. unfold step_main. pose proof (inv_len s Hinv) as Hl.
  destruct (main s) as [k| | | | | | | |] eqn:Hm; try done;
    try (intros (s1 & [_ ->]%lock_inv & ->)%fmap_Some; apply potential_main; rewrite Hm; simpl; lia).
  - destruct (Nat.ltb_spec k n); intros [= <-].
    + destruct (lookup_lt_is_Some_2 (workers s) k ltac:(lia)) as [p Hp].
      assert (p = WNew) as ->. { apply (inv_spawn s Hinv k p Hp). by rewrite Hm. }
      pose proof (total_insert _ _ _ WLock1 Hp) as Ht. unfold potential, signals. rewrite Hm.
      cbn [set_main set_worker num_initialized num_done start main workers mrank wrank] in *. lia.
    + unfold potential, signals. rewrite Hm. simpl. lia.
  - destruct (num_initialized s <? n)%nat eqn:E; intros [= <-].
    + apply potential_main. rewrite Hm. simpl. lia.
    + pose proof (inv_start s Hinv) as Hst. rewrite Hm in Hst. cbn [after_start] in Hst.
      pose proof (total_wake (workers s)). unfold potential, signals. rewrite Hm, Hst.
      cbn [set_main SignalAll num_initialized num_done start main workers mrank negb Nat.b2n]. nia.
  - destruct (_ <? _)%nat; intros [= <-]; apply potential_main; rewrite Hm; simpl; lia.
Qed.

Lemma run_bounded k w l s s' :
  inv s -> run n bg k w l s s' ->
  inv s' /\ (k + potential s' <= potential s + 2 * w + 2 * l)%nat /\ ((forall i, bg i = false) -> l = 0%nat).
Proof.
  intros Hinv Hrun. induction Hrun as [s|k w l s s1 s2 _ IH Hs|k w l i s s1 s2 _ IH Hs|k w l s s1 _ IH|k w l i p s s1 _ IH Hp];
    [by auto with lia|..]; destruct (IH Hinv) as (H1 & H2 & H3).
  - pose proof (main_lowers s1 s2 H1 Hs). split; [by eapply inv_step_main|]. split; [lia|done].
  - pose proof (worker_rank s1 i s2 H1 Hs) as Hr. pose proof (looks_le i s1).
    split; [by eapply inv_step_worker|]. split; [lia|]. intros Hbg. rewrite (H3 Hbg). unfold looks. by rewrite Hbg.
  - pose proof (spurious_main_rank s1). split; [by apply inv_spurious_main|]. split; [lia|done].
  - pose proof (spurious_worker_rank s1 i p Hp). split; [by apply inv_spurious_worker|]. split; [lia|done].
Qed.

(** Without a background writer the threads get to the end from everywhere. *)
Lemma run_to_end k w l s : forall s',
  (forall i, bg i = false) -> inv s -> run n bg k w l s s' ->
  exists k' s'', run n bg k' w l s s'' /\ final s''.
Proof.
  intros s' Hbg Hinv Hrun. remember (potential s') as x eqn:Ex. revert k s' Hrun Ex.
  induction (lt_wf x) as [x _ IH]. intros k s' Hrun ->. destruct (run_bounded k w l s s' Hinv Hrun) as (H1 & _ & H3).
  destruct (progress s' H1) as [Hf|[s2 Hact]]; [by exists k, s'|].
  inversion Hact as [s0 s0' Ha|i s0 s0' Ha]; subst s0 s0'.
  - eapply (IH _ (main_lowers s' s2 H1 Ha)); [by eapply run_main|done].
  - eapply (IH _ (worker_lowers s' i s2 Hbg H1 Ha)); [|done].
    replace l with (looks bg i s' + l)%nat by (unfold looks; by rewrite Hbg). by eapply run_worker.
Qed.

Lemma potential_init : (potential (init n) <= 17 * n + 14)%nat.
Proof.
  assert (Ht : total (replicate n WNew) = (10 * n)%nat) by (induction n; simpl in *; lia).
  unfold potential, signals. cbn [init num_initialized num_done start main workers mrank negb].
  rewrite Ht. destruct (0 <? n)%nat; cbn [Nat.b2n]; lia.
Qed.

End invariant.

(** ** Running a schedule *)
Definition step_of (n : nat) (bg : nat -> bool) (t : who) (s : state) : option state :=
  match t with Main => step_main n s | Worker i => step_worker n bg i s end.

Fixpoint exec (n : nat) (bg : nat -> bool) (sched : list who) (s : state) : option state :=
  match sched with
  | [] => Some s
  | t :: sched' => s' ← step_of n bg t s; exec n bg sched' s'
  end.

Lemma exec_run n bg sched : forall k w l s s1 s2,
  run n bg k w l s s1 -> exec n bg sched s1 = Some s2 ->
  exists l', run n bg (k + length sched) w l' s s2.
Proof.
  induction sched as [|t sched IH]; intros k w l s s1 s2 Hr; simpl.
  - intros [= <-]. exists l. by rewrite Nat.add_0_r.
  - intros (s' & H1 & H2)%bind_Some. rewrite Nat.add_succ_r, <- Nat.add_succ_l.
    destruct t as [|i]; [by eapply (IH _ _ _ _ s'); [by eapply run_main|]|by eapply (IH _ _ _ _ s'); [by eapply run_worker|]].
Qed.

Lemma exec_reachable n bg sched s : exec n bg sched (init n) = Some s -> reachable n bg s.
Proof.
  assert (Hr : reachable n bg (init n)) by constructor. revert Hr. generalize (init n).
  induction sched as [|t sched IH]; intros s0 Hr; simpl; [by intros [= <-]|].
  intros (s1 & H1 & H2)%bind_Some. apply (IH s1); [|done]. eapply reach_step; [done|].
  apply step_act. destruct t as [|i]; [by apply act_main|by apply (act_worker n bg i)].
Qed.

(** Two workers, one of which starts late. *)
Definition demo_sched : list who :=
  [Main; Main; Worker 0; Worker 0; Main; Worker 0; Worker 1; Worker 1; Worker 1; Worker 0;
   Worker 0; Main; Main; Main; Worker 1; Worker 1; Worker 1; Worker 1; Worker 1; Worker 1;
   Worker 0; Worker 0; Worker 0; Worker 0; Worker 0; Worker 0; Main; Main].

(** The same with worker 0 writing in the background. *)
Definition demo_writer_sched : list who :=
  [Main; Main; Worker 0; Worker 0; Main; Worker 0; Worker 1; Worker 1; Worker 1; Worker 0;
   Worker 0; Main; Main; Main; Worker 1; Worker 1; Worker 1; Worker 1; Worker 1; Worker 1;
   Worker 0; Worker 0; Worker 0; Worker 0].

(** ** Properties *)

(** C5: the barrier.  In every reachable state, a worker that is past the
    wait sees [start] set and every worker has counted itself initialized; once
    the main thread reports, every worker has left [ThreadBody], so that its
    statistics and the shared state are no longer in use; and at most one thread
    is inside a critical section. *)
Theorem barrier_safe n bg s (Hs : reachable n bg s) :
  (forall i p, workers s !! i = Some p -> passed p = true ->
     start s = true /\ Forall (fun q => initialized q = true) (workers s)) /\
  (main s = MReport -> Forall (fun p => p = WExit) (workers s)) /\
  (forall i j p q, workers s !! i = Some p -> workers s !! j = Some q ->
     holding p = true -> holding q = true -> i = j /\ mholding (main s) = false).
Proof.
  apply reachable_inv in Hs as []. split_and!.
  - intros i p Hp Hpass. pose proof (inv_passed0 i p Hp Hpass) as Hst. split; [done|].
    apply cnt_full. specialize (inv_all0 Hst). lia.
  - intros Hm. apply Forall_lookup. eauto.
  - intros i j p q Hp Hq Hhp Hhq. apply (inv_holder0 i p Hp) in Hhp. apply (inv_holder0 j q Hq) in Hhq.
    split; [congruence|]. destruct (mholding (main s)); [|done].
    assert (mu s = Some Main) by (by apply inv_mholder0). congruence.
Qed.

Lemma barrier_safe_witness :
  Forall (fun p => p = WExit) (workers (mkState None 2 2 true MReport [WExit; WExit])).
Proof.
  apply (barrier_safe 2 (fun _ => false) (mkState None 2 2 true MReport [WExit; WExit])).
  - apply (exec_reachable 2 (fun _ => false) demo_sched). vm_compute. reflexivity.
  - reflexivity.
Defined.

(** No deadlock and no lost wake-up.  In every reachable state, spurious
    wake-ups included, either the run is over or some thread can take its next
    action without any further spurious wake-up. *)
Theorem barrier_no_deadlock n bg s (Hs : reachable n bg s) :
  (main s = MReport /\ Forall (fun p => p = WExit) (workers s)) \/ exists s', act n bg s s'.
Proof. apply progress. by eapply reachable_inv. Qed.

Lemma barrier_no_deadlock_witness : exists s', act 2 (fun _ => false) (init 2) s'.
Proof.
  destruct (barrier_no_deadlock 2 (fun _ => false) (init 2) (reach_init _ _)) as [[H _]|H].
  - discriminate H.
  - exact H.
Defined.

(** C6: termination.  However the threads are scheduled, [n] workers and the main
    thread take at most [17 n + 14] actions, two more for each wait that ends
    without a signal, and two more for each look a background writer takes at the
    counters, of which there are none without such a writer.  A run in which no
    thread can act has ended with every worker gone and the main thread
    reporting, and without a background writer every run, whatever wake-ups it
    has had, can be brought to that end without any more. *)
Theorem barrier_terminates n bg k w l s (Hrun : run n bg k w l (init n) s) :
  (k <= 17 * n + 14 + 2 * w + 2 * l)%nat /\
  ((~ exists s', act n bg s s') -> main s = MReport /\ Forall (fun p => p = WExit) (workers s)) /\
  ((forall i, bg i = false) -> l = 0%nat /\
     exists k' s', run n bg k' 0 0 s s' /\ main s' = MReport /\ Forall (fun p => p = WExit) (workers s')).
Proof.
  destruct (run_bounded n bg k w l (init n) s (inv_initial n bg) Hrun) as (Hinv & Hle & Hl).
  pose proof (potential_init n). split_and!; [lia|..].
  - intros Hstuck. destruct (progress n bg s Hinv) as [Hf|Hex]; [done|]. by destruct Hstuck.
  - intros Hbg. split; [auto|]. apply (run_to_end n bg 0 0 0 s s Hbg Hinv). constructor.
Qed.

(** Worker 0 wakes up once without a signal, finds [start] unset and sleeps on. *)
Lemma barrier_terminates_witness :
  exists k s, run 2 (fun _ => false) k 1 0 (init 2) s /\ (k <= 17 * 2 + 14 + 2)%nat /\ main s = MReport.
Proof.
  destruct (exec 2 (fun _ => false) (take 6 demo_sched) (init 2)) as [s1|] eqn:E1; [|vm_compute in E1; discriminate E1].
  destruct (exec_run 2 (fun _ => false) (take 6 demo_sched) 0 0 0 (init 2) (init 2) s1 (run_nil _ _ _) E1) as (l1 & R1).
  assert (Hp : workers s1 !! 0%nat = Some WWait) by (vm_compute in E1; injection E1 as <-; reflexivity).
  pose proof (run_spurious_worker _ _ _ _ _ _ _ _ _ R1 Hp) as R2.
  destruct (exec 2 (fun _ => false) ([Worker 0; Worker 0] ++ drop 6 demo_sched) (set_worker 0 (wake WWait) s1))
    as [s2|] eqn:E2; [|vm_compute in E1; injection E1 as <-; vm_compute in E2; discriminate E2].
  destruct (exec_run _ _ _ _ _ _ _ _ _ R2 E2) as (l2 & R3).
  destruct (barrier_terminates 2 (fun _ => false) _ 1 l2 s2 R3) as (Hk & _ & Hend).
  destruct (Hend (fun _ => eq_refl)) as (Hl & _). rewrite Hl in R3, Hk.
  eexists _, s2. split; [exact R3|]. split; [lia|].
  vm_compute in E1. injection E1 as <-. vm_compute in E2. injection E2 as <-. reflexivity.
Defined.

(** The background writer of [readwhilewriting] leaves its loop only when
    every other worker has counted itself done: it writes for as long as there
    are readers. *)
Theorem writer_outlasts_readers n bg s i p j q
  (Hs : reachable n bg s) (Hbg : bg i = true)
  (Hi : workers s !! i = Some p) (Hran : ran p = true)
  (Hj : j <> i) (Hq : workers s !! j = Some q) :
  finished q = true.
Proof. apply reachable_inv in Hs as []. eauto. Qed.

Lemma writer_outlasts_readers_witness :
  exists s, reachable 2 (fun i => (i =? 0)%nat) s /\ workers s !! 0%nat = Some WLock2 /\
    exists q, workers s !! 1%nat = Some q /\ finished q = true.
Proof.
  exists (mkState None 2 1 true MWait2 [WLock2; WExit]).
  assert (H : reachable 2 (fun i => (i =? 0)%nat) (mkState None 2 1 true MWait2 [WLock2; WExit])).
  { apply (exec_reachable 2 (fun i => (i =? 0)%nat) demo_writer_sched). vm_compute. reflexivity. }
  split; [exact H|]. split; [reflexivity|]. exists WExit. split; [reflexivity|].
  apply (writer_outlasts_readers 2 (fun i => (i =? 0)%nat) _ 0 WLock2 1 WExit H);
    [reflexivity|reflexivity|reflexivity|lia|reflexivity].
Defined.

End Barrier.
