(* ===== verification/PosixOS.v ===== *)
(** * The system calls bench/util/env_posix.cc makes

    [PosixOS] is the operating system as the sources call it, a parameter of
    the file layer; [PosixLaws] is what POSIX says of the calls on regular
    files, in terms of a view of the world: names, contents and open
    descriptors.  A call may fail at any time; [read] and [write] may be
    interrupted, finitely often, and may transfer fewer bytes than asked for.
    [MemOS] is a small system with this behaviour, to run the definitions on. *)

From S2P Require Import Prelude.

Local Open Scope Z_scope.

(** A call returns a value, or -1 with [errno] set. *)
Inductive sysret (A : Type) := Ret (a : A) | Errno (e : Z).
Arguments Ret {A} a.
Arguments Errno {A} e.

Definition ENOENT : Z := 2.
Definition EINTR : Z := 4.
Definition EINVAL : Z := 22.

Definition O_RDONLY : Z := 0.
Definition O_WRONLY : Z := 1.
Definition O_RDWR : Z := 2.
Definition O_CREAT : Z := 64.
Definition O_TRUNC : Z := 512.
Definition O_APPEND : Z := 1024.

(** [struct flock]; a length of 0 is up to the end of the file. *)
Inductive lock_type := F_WRLCK | F_UNLCK.
Inductive whence := SEEK_SET | SEEK_CUR | SEEK_END.
Record flock := mkFlock { l_type : lock_type; l_whence : whence; l_start : Z; l_len : Z }.

Class PosixOS (W : Type) := {
  strerror : Z -> bytes;
  os_open : bytes -> Z -> W -> sysret Z * W;
  os_close : Z -> W -> sysret unit * W;
  os_read : Z -> Z -> W -> sysret bytes * W;
  (** descriptor, count, offset *)
  os_pread : Z -> Z -> Z -> W -> sysret bytes * W;
  os_write : Z -> bytes -> W -> sysret Z * W;
  (** [lseek(fd, n, SEEK_CUR)] *)
  os_lseek : Z -> Z -> W -> sysret Z * W;
  os_fsync : Z -> W -> sysret unit * W;
  os_fdatasync : Z -> W -> sysret unit * W;
  (** [mmap(NULL, size, PROT_READ, MAP_SHARED, fd, 0)]: the bytes of the region *)
  os_mmap : Z -> Z -> W -> sysret bytes * W;
  os_munmap : bytes -> Z -> W -> W;
  (** [access(name, F_OK) == 0] *)
  os_access : bytes -> W -> bool;
  (** [opendir] and the entries [readdir] yields until [closedir] *)
  os_readdir : bytes -> W -> sysret (list bytes) * W;
  os_unlink : bytes -> W -> sysret unit * W;
  os_mkdir : bytes -> W -> sysret unit * W;
  os_rmdir : bytes -> W -> sysret unit * W;
  (** [st_size] *)
  os_stat : bytes -> W -> sysret Z * W;
  os_rename : bytes -> bytes -> W -> sysret unit * W;
  (** [fcntl(fd, F_SETLK, &f)] *)
  os_setlk : Z -> flock -> W -> sysret unit * W;
  (** [gettimeofday]: seconds and microseconds *)
  os_gettimeofday : W -> Z * Z * W;
  os_usleep : Z -> W -> W;
  getenv : bytes -> W -> option bytes;
  geteuid : W -> Z
}.

(** An open descriptor: the file, the offset, and O_APPEND. *)
Record desc := mkDesc { d_ino : nat; d_off : Z; d_append : bool }.

(** The view: the directory, the contents of files, the open descriptors, and
    a bound on the interruptions still to come. *)
Record view := mkView {
  dir : gmap bytes nat; data : gmap nat bytes; fds : gmap Z desc; interrupts : nat
}.

(** The file is the same up to interruptions. *)
Definition same_files (v v' : view) : Prop :=
  dir v' = dir v /\ data v' = data v /\ fds v' = fds v /\ (interrupts v' <= interrupts v)%nat.

(** The contents after writing [p] at [off]. *)
Definition write_at (c : bytes) (off : Z) (p : bytes) : bytes :=
  take (Z.to_nat off) c ++ p ++ drop (Z.to_nat off + length p) c.

Class PosixLaws (W : Type) `{PosixOS W} (vw : W -> view) : Prop := {
  (** opening for reading, a file or a directory *)
  open_read name w fd w' :
    os_open name O_RDONLY w = (Ret fd, w') ->
    exists d, 0 <= fd /\ fds (vw w) !! fd = None /\
      (forall ino, dir (vw w) !! name = Some ino -> d = mkDesc ino 0 false) /\
      dir (vw w') = dir (vw w) /\ data (vw w') = data (vw w) /\
      fds (vw w') = <[fd := d]> (fds (vw w)) /\
      (interrupts (vw w') <= interrupts (vw w))%nat;
  (** opening for writing, from an empty file *)
  open_trunc name w fd w' :
    os_open name (Z.lor (Z.lor O_TRUNC O_WRONLY) O_CREAT) w = (Ret fd, w') ->
    exists ino, 0 <= fd /\ fds (vw w) !! fd = None /\
      (dir (vw w) !! name = Some ino \/ (dir (vw w) !! name = None /\ data (vw w) !! ino = None)) /\
      dir (vw w') = <[name := ino]> (dir (vw w)) /\
      data (vw w') = <[ino := []]> (data (vw w)) /\
      fds (vw w') = <[fd := mkDesc ino 0 false]> (fds (vw w)) /\
      (interrupts (vw w') <= interrupts (vw w))%nat;
  (** opening for appending *)
  open_append name w fd w' :
    os_open name (Z.lor (Z.lor O_APPEND O_WRONLY) O_CREAT) w = (Ret fd, w') ->
    exists ino, 0 <= fd /\ fds (vw w) !! fd = None /\
      dir (vw w') = <[name := ino]> (dir (vw w)) /\
      ((dir (vw w) !! name = Some ino /\ data (vw w') = data (vw w)) \/
       (dir (vw w) !! name = None /\ data (vw w) !! ino = None /\
        data (vw w') = <[ino := []]> (data (vw w)))) /\
      fds (vw w') = <[fd := mkDesc ino 0 true]> (fds (vw w)) /\
      (interrupts (vw w') <= interrupts (vw w))%nat;
  open_error name flags w e w' :
    os_open name flags w = (Errno e, w') -> same_files (vw w) (vw w');
  (** the descriptor is gone even when [close] reports an error *)
  close_frees fd d w :
    fds (vw w) !! fd = Some d ->
    dir (vw (snd (os_close fd w))) = dir (vw w) /\
    data (vw (snd (os_close fd w))) = data (vw w) /\
    fds (vw (snd (os_close fd w))) = delete fd (fds (vw w)) /\
    (interrupts (vw (snd (os_close fd w))) <= interrupts (vw w))%nat;
  (** a short read is possible, an empty one only at the end of the file *)
  read_some fd n w d c b w' :
    fds (vw w) !! fd = Some d -> data (vw w) !! d_ino d = Some c -> 0 < n -> 0 <= d_off d ->
    os_read fd n w = (Ret b, w') ->
    zlen b <= n /\ b = take (length b) (drop (Z.to_nat (d_off d)) c) /\
    (b = [] -> zlen c <= d_off d) /\
    dir (vw w') = dir (vw w) /\ data (vw w') = data (vw w) /\
    fds (vw w') = <[fd := mkDesc (d_ino d) (d_off d + zlen b) (d_append d)]> (fds (vw w)) /\
    (interrupts (vw w') <= interrupts (vw w))%nat;
  read_error fd n w e w' :
    os_read fd n w = (Errno e, w') -> same_files (vw w) (vw w') /\
    (e = EINTR -> (interrupts (vw w') < interrupts (vw w))%nat);
  (** a short write is possible; with O_APPEND it goes to the end *)
  write_some fd p w d c r w' :
    fds (vw w) !! fd = Some d -> data (vw w) !! d_ino d = Some c -> p <> [] -> 0 <= d_off d ->
    os_write fd p w = (Ret r, w') ->
    let off := if d_append d then zlen c else d_off d in
    0 < r <= zlen p /\
    dir (vw w') = dir (vw w) /\
    data (vw w') = <[d_ino d := write_at c off (take (Z.to_nat r) p)]> (data (vw w)) /\
    fds (vw w') = <[fd := mkDesc (d_ino d) (off + r) (d_append d)]> (fds (vw w)) /\
    (interrupts (vw w') <= interrupts (vw w))%nat;
  write_error fd p w e w' :
    os_write fd p w = (Errno e, w') -> same_files (vw w) (vw w') /\
    (e = EINTR -> (interrupts (vw w') < interrupts (vw w))%nat);
  fsync_files fd w : same_files (vw w) (vw (snd (os_fsync fd w)));
  fdatasync_files fd w : same_files (vw w) (vw (snd (os_fdatasync fd w)));
  unlink_ok name w w' :
    os_unlink name w = (Ret tt, w') ->
    dir (vw w') = delete name (dir (vw w)) /\ data (vw w') = data (vw w) /\ fds (vw w') = fds (vw w);
  (** the descriptor's own offset is neither used nor moved *)
  pread_some fd n off w d c b w' :
    fds (vw w) !! fd = Some d -> data (vw w) !! d_ino d = Some c -> 0 <= n -> 0 <= off ->
    os_pread fd n off w = (Ret b, w') ->
    zlen b <= n /\ b = take (length b) (drop (Z.to_nat off) c) /\
    (b = [] -> n = 0 \/ zlen c <= off) /\ same_files (vw w) (vw w');
  pread_error fd n off w e w' :
    os_pread fd n off w = (Errno e, w') -> same_files (vw w) (vw w');
  (** a mapping that does not reach past the end of the file *)
  mmap_some size fd w d c b w' :
    fds (vw w) !! fd = Some d -> data (vw w) !! d_ino d = Some c -> 0 <= size <= zlen c ->
    os_mmap size fd w = (Ret b, w') -> b = take (Z.to_nat size) c /\ same_files (vw w) (vw w');
  mmap_error size fd w e w' :
    os_mmap size fd w = (Errno e, w') -> same_files (vw w) (vw w');
  munmap_files b n w : same_files (vw w) (vw (os_munmap b n w));
  stat_some name w size w' ino c :
    dir (vw w) !! name = Some ino -> data (vw w) !! ino = Some c ->
    os_stat name w = (Ret size, w') -> size = zlen c /\ same_files (vw w) (vw w');
  stat_error name w e w' :
    os_stat name w = (Errno e, w') -> same_files (vw w) (vw w')
}.

(** ** A small system *)
Module MemOS.

(** The view, the next descriptor and file numbers, and the largest transfer. *)
Record world := mkWorld { files : view; next_fd : Z; next_ino : nat; cap : nat }.

Definition set_files (v : view) (w : world) : world :=
  mkWorld v (next_fd w) (next_ino w) (cap w).

Definition add_fd (name : bytes) (d : desc) (v : view) (w : world) : sysret Z * world :=
  match fds v !! next_fd w with
  | Some _ => (Errno 24, w)
  | None =>
      if next_fd w <? 0 then (Errno 24, w)
      else (Ret (next_fd w),
            mkWorld (mkView (dir v) (data v) (<[next_fd w := d]> (fds v)) (interrupts v))
              (next_fd w + 1) (S (next_ino w)) (cap w))
  end.

Definition open_ (name : bytes) (flags : Z) (w : world) : sysret Z * world :=
  let v := files w in
  let trunc := Z.testbit flags 9 in
  let app := Z.testbit flags 10 in
  match dir v !! name with
  | Some ino =>
      let v' := if trunc then mkView (<[name := ino]> (dir v)) (<[ino := []]> (data v)) (fds v) (interrupts v)
                else mkView (<[name := ino]> (dir v)) (data v) (fds v) (interrupts v) in
      add_fd name (mkDesc ino 0 app) v' w
  | None =>
      if Z.testbit flags 6 then
        match data v !! next_ino w with
        | Some _ => (Errno 28, w)
        | None =>
            add_fd name (mkDesc (next_ino w) 0 app)
              (mkView (<[name := next_ino w]> (dir v)) (<[next_ino w := []]> (data v)) (fds v) (interrupts v)) w
        end
      else (Errno ENOENT, w)
  end.

Definition close_ (fd : Z) (w : world) : sysret unit * world :=
  let v := files w in
  (Ret tt, set_files (mkView (dir v) (data v) (delete fd (fds v)) (interrupts v)) w).

(** An interruption uses up one of those to come. *)
Definition interrupted {A} (w : world) (k : sysret A * world) : sysret A * world :=
  let v := files w in
  match interrupts v with
  | S i => (Errno EINTR, set_files (mkView (dir v) (data v) (fds v) i) w)
  | O => k
  end.

(** How many of [n] bytes a call transfers. *)
Definition transfer (w : world) (n : nat) : nat := Nat.min (S (cap w)) n.
Arguments transfer w n : simpl never.

Definition read_ (fd n : Z) (w : world) : sysret bytes * world :=
  interrupted w
    (let v := files w in
     match fds v !! fd with
     | Some d =>
         match data v !! d_ino d with
         | Some c =>
             let b := take (transfer w (Z.to_nat n)) (drop (Z.to_nat (d_off d)) c) in
             (Ret b, set_files (mkView (dir v) (data v)
                (<[fd := mkDesc (d_ino d) (d_off d + zlen b) (d_append d)]> (fds v)) (interrupts v)) w)
         | None => (Errno 9, w)
         end
     | None => (Errno 9, w)
     end).

Definition write_ (fd : Z) (p : bytes) (w : world) : sysret Z * world :=
  interrupted w
    (let v := files w in
     match fds v !! fd with
     | Some d =>
         match data v !! d_ino d with
         | Some c =>
             let q := take (S (cap w)) p in
             let off := if d_append d then zlen c else d_off d in
             (Ret (zlen q), set_files (mkView (dir v) (<[d_ino d := write_at c off q]> (data v))
                (<[fd := mkDesc (d_ino d) (off + zlen q) (d_append d)]> (fds v)) (interrupts v)) w)
         | None => (Errno 9, w)
         end
     | None => (Errno 9, w)
     end).

Definition unlink_ (name : bytes) (w : world) : sysret unit * world :=
  let v := files w in
  match dir v !! name with
  | Some _ => (Ret tt, set_files (mkView (delete name (dir v)) (data v) (fds v) (interrupts v)) w)
  | None => (Errno ENOENT, w)
  end.

Definition pread_ (fd n off : Z) (w : world) : sysret bytes * world :=
  match fds (files w) !! fd ≫= fun d => data (files w) !! d_ino d with
  | Some c =>
      if off <? 0 then (Errno EINVAL, w)
      else (Ret (take (transfer w (Z.to_nat n)) (drop (Z.to_nat off) c)), w)
  | None => (Errno 9, w)
  end.

Definition mmap_ (size fd : Z) (w : world) : sysret bytes * world :=
  match fds (files w) !! fd ≫= fun d => data (files w) !! d_ino d with
  | Some c => if size <=? 0 then (Errno EINVAL, w) else (Ret (take (Z.to_nat size) c), w)
  | None => (Errno 9, w)
  end.

Definition stat_ (name : bytes) (w : world) : sysret Z * world :=
  match dir (files w) !! name ≫= fun ino => data (files w) !! ino with
  | Some c => (Ret (zlen c), w)
  | None => (Errno ENOENT, w)
  end.

#[export] Instance mem_os : PosixOS world := {|
  strerror e := b!"error";
  os_open := open_;
  os_close := close_;
  os_read := read_;
  os_pread := pread_;
  os_write := write_;
  os_lseek fd n w := (Ret 0, w);
  os_fsync fd w := (Ret tt, w);
  os_fdatasync fd w := (Ret tt, w);
  os_mmap := mmap_;
  os_munmap b n w := w;
  os_access name w := bool_decide (is_Some (dir (files w) !! name));
  os_readdir name w := (Errno ENOENT, w);
  os_unlink := unlink_;
  os_mkdir name w := (Errno 17, w);
  os_rmdir name w := (Errno ENOENT, w);
  os_stat := stat_;
  os_rename src target w := (Errno ENOENT, w);
  os_setlk fd lock w := (Ret tt, w);
  os_gettimeofday w := (0, 0, w);
  os_usleep n w := w;
  getenv name w := None;
  geteuid w := 0
|}.

Lemma take_own_length (n : nat) (l : bytes) : take n l = take (length (take n l)) l.
Proof.
  rewrite length_take. destruct (decide (n <= length l)%nat); [f_equal; lia|by rewrite !take_ge by lia].
Qed.

Lemma add_fd_ok name d v w fd w' :
  add_fd name d v w = (Ret fd, w') ->
  0 <= fd /\ fds v !! fd = None /\
  files w' = mkView (dir v) (data v) (<[fd := d]> (fds v)) (interrupts v).
Proof.
  unfold add_fd. destruct (fds v !! next_fd w) eqn:E; [done|].
  destruct (Z.ltb_spec (next_fd w) 0); [done|]. intros [= <- <-]. done.
Qed.

Lemma add_fd_error name d v w e w' : add_fd name d v w = (Errno e, w') -> w' = w.
Proof. unfold add_fd. repeat case_match; by intros [= <- <-]. Qed.

(** The bytes a read of [n] at [off] transfers. *)
Lemma transferred w (c : bytes) (n off : Z) :
  let b := take (transfer w (Z.to_nat n)) (drop (Z.to_nat off) c) in
  0 <= n -> 0 <= off ->
  zlen b <= n /\ b = take (length b) (drop (Z.to_nat off) c) /\ (b = [] -> n = 0 \/ zlen c <= off).
Proof.
  cbv zeta. intros Hn Ho. split_and!; [|apply take_own_length|].
  - unfold zlen, transfer. rewrite length_take. lia.
  - intros Hb. apply (f_equal length) in Hb. unfold transfer in Hb.
    rewrite length_take, length_drop in Hb. cbn [length] in Hb. unfold zlen. lia.
Qed.

(** A call that is interrupted, or fails and changes nothing. *)
Lemma interrupted_error {A} w (k : sysret A * world) e w' :
  (forall e' w1, k = (Errno e', w1) -> w1 = w /\ e' <> EINTR) -> interrupted w k = (Errno e, w') ->
  same_files (files w) (files w') /\ (e = EINTR -> (interrupts (files w') < interrupts (files w))%nat).
Proof.
  intros Hk. unfold interrupted. destruct (interrupts (files w)) as [|i] eqn:Ei.
  - intros [-> He]%Hk. split; [done|]. by intros ->.
  - intros [= <- <-]. unfold same_files. cbn. split_and!; auto with lia.
Qed.

Lemma write_law fd p w d c r w' :
  fds (files w) !! fd = Some d -> data (files w) !! d_ino d = Some c -> p <> [] ->
  write_ fd p w = (Ret r, w') ->
  let off := if d_append d then zlen c else d_off d in
  0 < r <= zlen p /\ dir (files w') = dir (files w) /\
  data (files w') = <[d_ino d := write_at c off (take (Z.to_nat r) p)]> (data (files w)) /\
  fds (files w') = <[fd := mkDesc (d_ino d) (off + r) (d_append d)]> (fds (files w)) /\
  (interrupts (files w') <= interrupts (files w))%nat.
Proof.
  intros Hd Hc Hp. unfold write_, interrupted.
  destruct (interrupts (files w)) as [|i] eqn:Ei; [|done]. rewrite Hd, Hc. intros [= <- <-].
  assert (Hq : take (Z.to_nat (zlen (take (S (cap w)) p))) p = take (S (cap w)) p).
  { rewrite to_nat_zlen. by rewrite <- take_own_length. }
  cbv zeta. rewrite Hq. cbn [set_files files dir data fds interrupts]. split_and!; try done.
  - unfold zlen. rewrite length_take. destruct p; [done|]. simpl. lia.
  - unfold zlen. rewrite length_take. lia.
Qed.

(** Opening with O_CREAT: an existing file, or a new one. *)
Lemma open_creat name flags w fd w' :
  Z.testbit flags 6 = true -> open_ name flags w = (Ret fd, w') ->
  exists ino, 0 <= fd /\ fds (files w) !! fd = None /\
    dir (files w') = <[name := ino]> (dir (files w)) /\
    ((dir (files w) !! name = Some ino /\
      data (files w') = if Z.testbit flags 9 then <[ino := []]> (data (files w)) else data (files w)) \/
     (dir (files w) !! name = None /\ data (files w) !! ino = None /\
      data (files w') = <[ino := []]> (data (files w)))) /\
    fds (files w') = <[fd := mkDesc ino 0 (Z.testbit flags 10)]> (fds (files w)) /\
    (interrupts (files w') <= interrupts (files w))%nat.
Proof.
  intros Hcreat. unfold open_. rewrite Hcreat. destruct (dir (files w) !! name) as [ino|] eqn:E.
  - intros (H1 & H2 & ->)%add_fd_ok. exists ino.
    destruct (Z.testbit flags 9); cbn [dir data fds interrupts] in *; split_and!; auto.
  - destruct (data (files w) !! next_ino w) eqn:E2; [done|].
    intros (H1 & H2 & ->)%add_fd_ok. exists (next_ino w). cbn [dir data fds interrupts] in *. split_and!; auto.
Qed.

#[export] Instance mem_laws : PosixLaws world files.
Proof.
  constructor; simpl.
  - intros name w fd w'. unfold open_. cbn [Z.testbit O_RDONLY].
    destruct (dir (files w) !! name) as [ino|] eqn:E; [|done].
    intros (H1 & H2 & ->)%add_fd_ok. cbn [dir data fds interrupts] in *.
    exists (mkDesc ino 0 false). split_and!; try done; [by intros ? [= <-]|]. by rewrite insert_id.
  - intros name w fd w' (ino & H1 & H2 & H3 & H4 & H5)%open_creat; [|done]. exists ino.
    destruct H4 as [(? & ?)|(? & ? & ?)]; split_and!; try apply H5; auto.
  - intros name w fd w' (ino & H1 & H2 & H3 & H4 & H5)%open_creat; [|done]. exists ino. done.
  - intros name flags w e w'. unfold open_. intros H.
    assert (w' = w) as ->; [|done]. revert H.
    repeat case_match; try (by intros [= _ <-]); apply add_fd_error.
  - done.
  - intros fd n w d c b w' Hd Hc Hn Ho. unfold read_, interrupted.
    destruct (interrupts (files w)); [|done]. rewrite Hd, Hc. intros [= <- <-].
    destruct (transferred w c n (d_off d)) as (H1 & H2 & H3); [lia..|].
    cbn [set_files files dir data fds interrupts]. split_and!; try done. intros Hb. specialize (H3 Hb). lia.
  - intros fd n w e w'. apply interrupted_error. intros e' w1 Hk. cbv zeta in Hk.
    repeat (case_match; try done). all: injection Hk as <- <-; (split; [reflexivity|discriminate]).
  - intros fd p w d c r w' Hd Hc Hp _. by apply write_law.
  - intros fd p w e w'. apply interrupted_error. intros e' w1 Hk. cbv zeta in Hk.
    repeat (case_match; try done). all: injection Hk as <- <-; (split; [reflexivity|discriminate]).
  - done.
  - done.
  - intros name w w'. unfold unlink_. case_match; [|done]. by intros [= <-].
  - intros fd n off w d c b w' Hd Hc Hn Ho. unfold pread_. rewrite Hd. cbn [mbind option_bind].
    rewrite Hc. destruct (Z.ltb_spec off 0); [lia|]. intros [= <- <-].
    destruct (transferred w c n off Hn Ho) as (H1 & H2 & H3). done.
  - intros fd n off w e w'. unfold pread_. repeat case_match; by intros [= <- <-].
  - intros size fd w d c b w' Hd Hc Hs. unfold mmap_. rewrite Hd. cbn [mbind option_bind].
    rewrite Hc. destruct (Z.leb_spec size 0); [done|]. by intros [= <- <-].
  - intros size fd w e w'. unfold mmap_. repeat case_match; by intros [= <- <-].
  - done.
  - intros name w size w' ino c Hd Hc. unfold stat_. rewrite Hd. cbn [mbind option_bind].
    rewrite Hc. by intros [= <- <-].
  - intros name w e w'. unfold stat_. repeat case_match; by intros [= <- <-].
Qed.

End MemOS.
