(* ===== verification/PosixFile.v ===== *)
(** * Files (bench/util/env_posix.cc)

    [PosixError], [PosixSequentialFile], [PosixRandomAccessFile],
    [PosixMmapReadableFile] and [PosixWritableFile] over the system calls of
    [PosixOS].  A loop that repeats an interrupted call takes fuel; to run out
    of it counts as undefined, and the theorems say how much is enough.  Status
    values are built in the form the constructor of [Status] was shown to give
    them. *)

From S2P Require Import Prelude CLib Slice Status PosixOS.

Local Open Scope Z_scope.

Definition kBufSize : Z := 65536.

Section files.
Context {W : Type} `{PosixOS W}.

Definition PosixError (context : bytes) (err_number : Z) : Status.Status :=
  if err_number =? ENOENT
  then Status.error Status.kNotFound context (strerror err_number)
  else Status.error Status.kIOError context (strerror err_number).

(** ** PosixSequentialFile *)
Record PosixSequentialFile := mkSeq { seq_filename_ : bytes; seq_fd_ : Z }.

(** [Read(n, result, scratch)]: the status and the bytes [*result] refers to,
    which stays as it was on an error. *)
Fixpoint seq_Read (fuel : nat) (f : PosixSequentialFile) (n : Z) (result : bytes) (w : W)
  : outcome (Status.Status * bytes * W) :=
  match fuel with
  | O => Undefined
  | S fuel' =>
      match os_read (seq_fd_ f) n w with
      | (Errno e, w) =>
          if e =? EINTR then seq_Read fuel' f n result w
          else Normal (PosixError (seq_filename_ f) e, result, w)
      | (Ret b, w) => Normal (Status.OK, b, w)
      end
  end.

(** [off_t] is signed. *)
Definition seq_Skip (f : PosixSequentialFile) (n : Z) (w : W) : Status.Status * W :=
  match os_lseek (seq_fd_ f) (i64 n) w with
  | (Errno e, w) => (PosixError (seq_filename_ f) e, w)
  | (Ret _, w) => (Status.OK, w)
  end.

Definition seq_delete (f : PosixSequentialFile) (w : W) : W := snd (os_close (seq_fd_ f) w).

(** ** PosixMmapReadableFile *)
Record PosixMmapReadableFile := mkMmap {
  mm_filename_ : bytes; mmapped_region_ : bytes; mm_length_ : Z
}.

(** [offset + n] is computed in 64 bits; a slice that starts outside the
    region is undefined. *)
Definition mm_Read (f : PosixMmapReadableFile) (offset n : Z) : outcome (Status.Status * Slice.Slice) :=
  if mm_length_ f <? u64 (offset + n)
  then Normal (PosixError (mm_filename_ f) EINVAL, Slice.Slice_empty)
  else if offset <=? zlen (mmapped_region_ f)
       then Normal (Status.OK, Slice.Slice_of_ptr (drop (Z.to_nat offset) (mmapped_region_ f)) n)
       else Undefined.

(** ** PosixRandomAccessFile

    [temporary_fd_] is decided by the limiter when the file is made. *)
Record PosixRandomAccessFile := mkRandomAccess {
  ra_filename_ : bytes; temporary_fd_ : bool; ra_fd_ : Z
}.

Definition ra_new (fname : bytes) (fd : Z) (acquired : bool) (w : W) : PosixRandomAccessFile * W :=
  if negb acquired then (mkRandomAccess fname true (-1), snd (os_close fd w))
  else (mkRandomAccess fname false fd, w).

(** [Read(offset, n, result, scratch)]: the status and the bytes [*result]
    refers to, which stays as it was when the file cannot be opened. *)
Definition ra_Read (f : PosixRandomAccessFile) (offset n : Z) (result : bytes) (w : W)
  : Status.Status * bytes * W :=
  match (if temporary_fd_ f then os_open (c_str (ra_filename_ f)) O_RDONLY w else (Ret (ra_fd_ f), w)) with
  | (Errno e, w) => (PosixError (ra_filename_ f) e, result, w)
  | (Ret fd, w) =>
      let '(r, w) := os_pread fd n (i64 offset) w in
      let result := match r with Ret b => b | Errno _ => [] end in
      let s := match r with Ret _ => Status.OK | Errno e => PosixError (ra_filename_ f) e end in
      let w := if temporary_fd_ f then snd (os_close fd w) else w in
      (s, result, w)
  end.

(** ** PosixWritableFile *)
Record PosixWritableFile := mkWritable {
  filename_ : bytes; fd_ : Z; buf_ : bytes; pos_ : Z
}.

(** [buf_] is not initialised. *)
Definition wf_new (junk : nat -> Z) (fname : bytes) (fd : Z) : PosixWritableFile :=
  mkWritable fname fd (new_block junk kBufSize) 0.

Fixpoint WriteRaw (fuel : nat) (fname : bytes) (fd : Z) (p : bytes) (w : W)
  : outcome (Status.Status * W) :=
  match p with
  | [] => Normal (Status.OK, w)
  | _ =>
      match fuel with
      | O => Undefined
      | S fuel' =>
          match os_write fd p w with
          | (Errno e, w) =>
              if e =? EINTR then WriteRaw fuel' fname fd p w
              else Normal (PosixError fname e, w)
          | (Ret r, w) => WriteRaw fuel' fname fd (drop (Z.to_nat r) p) w
          end
      end
  end.

Definition FlushBuffered (fuel : nat) (f : PosixWritableFile) (w : W)
  : outcome (Status.Status * PosixWritableFile * W) :=
  p ← defined (mem_read (buf_ f) 0 (pos_ f));
  '(s, w) ← WriteRaw fuel (filename_ f) (fd_ f) p w;
  Normal (s, mkWritable (filename_ f) (fd_ f) (buf_ f) 0, w).

Definition Append (fuel : nat) (f : PosixWritableFile) (data : Slice.Slice) (w : W)
  : outcome (Status.Status * PosixWritableFile * W) :=
  let n := Slice.size data in
  let p := Slice.data data in
  (* Fit as much as possible into buffer. *)
  let copy := Z.min n (u64 (kBufSize - pos_ f)) in
  src ← defined (mem_read p 0 copy);
  buf ← defined (mem_write (buf_ f) (pos_ f) src);
  let p := drop (Z.to_nat copy) p in
  let n := n - copy in
  let f := mkWritable (filename_ f) (fd_ f) buf (pos_ f + copy) in
  if n =? 0 then Normal (Status.OK, f, w)
  else
    (* Can't fit in buffer, so need to do at least one write. *)
    '(s, f, w) ← FlushBuffered fuel f w;
    if negb (Status.ok s) then Normal (s, f, w)
    else if n <? kBufSize then
      src ← defined (mem_read p 0 n);
      buf ← defined (mem_write (buf_ f) 0 src);
      Normal (Status.OK, mkWritable (filename_ f) (fd_ f) buf n, w)
    else
      src ← defined (mem_read p 0 n);
      '(s, w) ← WriteRaw fuel (filename_ f) (fd_ f) src w;
      Normal (s, f, w).

Definition Close (fuel : nat) (f : PosixWritableFile) (w : W)
  : outcome (Status.Status * PosixWritableFile * W) :=
  '(result, f, w) ← FlushBuffered fuel f w;
  let '(r, w) := os_close (fd_ f) w in
  let result := match r with
                | Errno e => if Status.ok result then PosixError (filename_ f) e else result
                | Ret _ => result
                end in
  Normal (result, mkWritable (filename_ f) (-1) (buf_ f) (pos_ f), w).

(** [~PosixWritableFile()] *)
Definition wf_delete (fuel : nat) (f : PosixWritableFile) (w : W) : outcome W :=
  if 0 <=? fd_ f then '(_, _, w) ← Close fuel f w; Normal w else Normal w.

Definition Flush (fuel : nat) (f : PosixWritableFile) (w : W)
  : outcome (Status.Status * PosixWritableFile * W) := FlushBuffered fuel f w.

(** [strrchr(f, '/')]: the index of the last slash. *)
Fixpoint strrchr (c : Z) (s : bytes) : option Z :=
  match s with
  | [] => None
  | x :: s' =>
      match strrchr c s' with
      | Some i => Some (i + 1)
      | None => if x =? c then Some 0 else None
      end
  end.

(** The directory and the base name of the file; [starts_with] below is defined
    on the slices of whole strings. *)
Definition split_name (fname : bytes) : bytes * bytes :=
  let f := c_str fname in
  match strrchr 47 f with
  | None => (b!".", f)
  | Some i => (take (Z.to_nat i) f, drop (Z.to_nat i + 1) f)
  end.

Definition SyncDirIfManifest (f : PosixWritableFile) (w : W) : Status.Status * W :=
  let '(dir, basename) := split_name (filename_ f) in
  match Slice.starts_with (Slice.Slice_of_string basename) (Slice.Slice_of_string b!"MANIFEST") with
  | Some true =>
      match os_open (c_str dir) O_RDONLY w with
      | (Errno e, w) => (PosixError dir e, w)
      | (Ret fd, w) =>
          let '(r, w) := os_fsync fd w in
          let s := match r with Errno e => PosixError dir e | Ret _ => Status.OK end in
          (s, snd (os_close fd w))
      end
  | _ => (Status.OK, w)
  end.

Definition Sync (fuel : nat) (f : PosixWritableFile) (w : W)
  : outcome (Status.Status * PosixWritableFile * W) :=
  let '(s, w) := SyncDirIfManifest f w in
  if negb (Status.ok s) then Normal (s, f, w)
  else
    '(s, f, w) ← FlushBuffered fuel f w;
    if Status.ok s then
      match os_fdatasync (fd_ f) w with
      | (Errno e, w) => Normal (PosixError (filename_ f) e, f, w)
      | (Ret _, w) => Normal (s, f, w)
      end
    else Normal (s, f, w).

End files.

(** ** Lemmas *)
Lemma write_at_end c p : write_at c (zlen c) p = c ++ p.
Proof.
  unfold write_at. rewrite to_nat_zlen, firstn_all, drop_ge by lia. by rewrite app_nil_r.
Qed.

(** All but one file and one descriptor are as they were. *)
Record kept (ino : nat) (fd : Z) (v v' : view) : Prop := {
  kept_dir : dir v' = dir v;
  kept_data j : j <> ino -> data v' !! j = data v !! j;
  kept_fds g : g <> fd -> fds v' !! g = fds v !! g;
  kept_interrupts : (interrupts v' <= interrupts v)%nat
}.

Lemma kept_refl ino fd v : kept ino fd v v.
Proof. split; auto. Qed.

Lemma kept_trans ino fd v1 v2 v3 : kept ino fd v1 v2 -> kept ino fd v2 v3 -> kept ino fd v1 v3.
Proof.
  intros [] []. split; [congruence| | |lia].
  - intros j Hj. rewrite kept_data1, kept_data0; done.
  - intros g Hg. rewrite kept_fds1, kept_fds0; done.
Qed.

Lemma same_kept ino fd v v' : same_files v v' -> kept ino fd v v'.
Proof. intros (H1 & H2 & H3 & H4). split; try done; intros; congruence. Qed.

(** Descriptor [fd] writes at the end of file [ino], whose contents are [c]. *)
Definition open_at (v : view) (fd : Z) (ino : nat) (c : bytes) : Prop :=
  exists d, fds v !! fd = Some d /\ d_ino d = ino /\ data v !! ino = Some c /\ 0 <= d_off d /\
    (d_append d = true \/ d_off d = zlen c).

Lemma same_open_at v v' fd ino c : same_files v v' -> open_at v fd ino c -> open_at v' fd ino c.
Proof.
  intros (H1 & H2 & H3 & H4) (d & Hd & ?). exists d. rewrite H3, H2. done.
Qed.

Section writable.
Context {W : Type} {OS : PosixOS W} {vw : W -> view} {Laws : PosixLaws W vw}.

(** One [write] that returns. *)
Lemma write_appends fd p w ino c r w' :
  open_at (vw w) fd ino c -> p <> [] -> os_write fd p w = (Ret r, w') ->
  0 < r <= zlen p /\ open_at (vw w') fd ino (c ++ take (Z.to_nat r) p) /\ kept ino fd (vw w) (vw w').
Proof.
  intros (d & Hd & <- & Hc & Ho & Hend) Hp Hw.
  pose proof (write_some fd p w d c r w' Hd Hc Hp Ho Hw) as Hs. cbv zeta in Hs.
  replace (if d_append d then zlen c else d_off d) with (zlen c) in Hs
    by (destruct Hend as [->| ->]; [done|by destruct (d_append d)]).
  destruct Hs as (H1 & H2 & H3 & H4 & H5). rewrite write_at_end in H3.
  pose proof (zlen_nonneg c). split_and!; [lia..| |].
  - exists (mkDesc (d_ino d) (zlen c + r) (d_append d)). rewrite H4, H3. cbn [d_ino d_off d_append].
    split_and!; [by simplify_map_eq|done|by simplify_map_eq|lia|]. right.
    unfold zlen in *. rewrite length_app, length_take. lia.
  - split; [done| | |done].
    + intros j Hj. rewrite H3. by rewrite lookup_insert_ne.
    + intros g Hg. rewrite H4. by rewrite lookup_insert_ne.
Qed.

Lemma PosixError_not_ok context e : Status.ok (PosixError context e) = false.
Proof. unfold PosixError. by case_match. Qed.

Lemma WriteRaw_spec fname fd ino : forall fuel p w c,
  open_at (vw w) fd ino c -> (length p + interrupts (vw w) <= fuel)%nat ->
  exists s w' k, WriteRaw fuel fname fd p w = Normal (s, w') /\
    open_at (vw w') fd ino (c ++ take k p) /\ kept ino fd (vw w) (vw w') /\
    (Status.ok s = true -> (length p <= k)%nat).
Proof.
  induction fuel as [|fuel IH]; intros p w c Ho Hf.
  { destruct p; [|simpl in Hf; lia]. exists Status.OK, w, 0%nat. cbn [WriteRaw take].
    rewrite app_nil_r. split_and!; [done|done|apply kept_refl|simpl; lia]. }
  destruct p as [|x p].
  { exists Status.OK, w, 0%nat. cbn [WriteRaw take]. rewrite app_nil_r.
    split_and!; [done|done|apply kept_refl|simpl; lia]. }
  cbn [WriteRaw]. destruct (os_write fd (x :: p) w) as [[r|e] w1] eqn:E.
  - destruct (write_appends fd (x :: p) w ino c r w1 Ho ltac:(done) E) as (Hr & Ho1 & Hk1).
    assert (Hlen : (length (drop (Z.to_nat r) (x :: p)) + interrupts (vw w1) <= fuel)%nat).
    { rewrite length_drop. pose proof (kept_interrupts _ _ _ _ Hk1). unfold zlen in Hr. lia. }
    destruct (IH _ w1 _ Ho1 Hlen) as (s & w2 & k & E2 & Ho2 & Hk2 & Hs).
    exists s, w2, (Z.to_nat r + k)%nat. split_and!; [exact E2| | |].
    + rewrite <- (take_take_drop (x :: p)), app_assoc. done.
    + by eapply kept_trans.
    + intros Hok. specialize (Hs Hok). rewrite length_drop in Hs. lia.
  - destruct (write_error fd (x :: p) w e w1 E) as [Hsame Hi].
    assert (Hk1 : kept ino fd (vw w) (vw w1)) by (by apply same_kept).
    pose proof (same_open_at _ _ _ _ _ Hsame Ho) as Ho1.
    destruct (Z.eqb_spec e EINTR) as [->|He].
    + specialize (Hi eq_refl). destruct (IH (x :: p) w1 c Ho1) as (s & w2 & k & E2 & Ho2 & Hk2 & Hs); [lia|].
      exists s, w2, k. split_and!; [exact E2|done| |done]. by eapply kept_trans.
    + exists (PosixError fname e), w1, 0%nat. cbn [take]. rewrite app_nil_r.
      split_and!; [done|done|done|]. by rewrite PosixError_not_ok.
Qed.

(** The buffer of a writable file: [buf_[0, pos_)] is still to be written. *)
Record wf_ok (f : PosixWritableFile) : Prop := {
  wf_buf : zlen (buf_ f) = kBufSize;
  wf_pos : 0 <= pos_ f <= kBufSize
}.

Definition buffered (f : PosixWritableFile) : bytes := take (Z.to_nat (pos_ f)) (buf_ f).

Lemma zlen_buffered f : wf_ok f -> zlen (buffered f) = pos_ f.
Proof. intros [H1 H2]. unfold buffered, zlen in *. rewrite length_take. lia. Qed.

Lemma read_buffered f : wf_ok f -> mem_read (buf_ f) 0 (pos_ f) = Some (buffered f).
Proof.
  intros [H1 H2]. unfold mem_read. zcases; try lia. by rewrite drop_0.
Qed.

(** [memcpy(buf_ + pos, src, size)] within the buffer. *)
Lemma buffer_fill (buf src : bytes) pos :
  0 <= pos -> pos + zlen src <= zlen buf ->
  exists buf', mem_write buf pos src = Some buf' /\ zlen buf' = zlen buf /\
    take (Z.to_nat (pos + zlen src)) buf' = take (Z.to_nat pos) buf ++ src.
Proof.
  intros Hp Hl. unfold mem_write. pose proof (zlen_nonneg src). zcases; try lia.
  eexists. split; [reflexivity|]. unfold zlen in *. rewrite !length_app, length_take, length_drop.
  split; [lia|]. rewrite app_assoc. apply take_app_length'.
  rewrite length_app, length_take. lia.
Qed.

Lemma FlushBuffered_spec fuel f w ino c :
  wf_ok f -> open_at (vw w) (fd_ f) ino c ->
  (Z.to_nat (pos_ f) + interrupts (vw w) <= fuel)%nat ->
  exists s w' k, FlushBuffered fuel f w =
      Normal (s, mkWritable (filename_ f) (fd_ f) (buf_ f) 0, w') /\
    open_at (vw w') (fd_ f) ino (c ++ take k (buffered f)) /\ kept ino (fd_ f) (vw w) (vw w') /\
    (Status.ok s = true -> take k (buffered f) = buffered f).
Proof.
  intros Hf Ho Hfuel. unfold FlushBuffered. rewrite read_buffered by done.
  cbn [defined mbind outcome_bind]. pose proof (zlen_buffered f Hf) as Hl.
  destruct (WriteRaw_spec (filename_ f) (fd_ f) ino fuel (buffered f) w c Ho)
    as (s & w' & k & -> & Ho' & Hk & Hs).
  { unfold zlen in Hl. lia. }
  exists s, w', k. split_and!; [done..|]. intros Hok. apply take_ge. auto.
Qed.

(** What an operation on a writable file promises: it returns; the file is
    still open with the part [c'] of the data in it; the data of a call that
    succeeds is in the file or in the buffer, and the file never holds anything
    but a prefix of the data it was given. *)
Record op_result (f : PosixWritableFile) (w : W) (ino : nat) (c new : bytes)
    (s : Status.Status) (f' : PosixWritableFile) (w' : W) : Prop := {
  res_ok : wf_ok f';
  res_fd : fd_ f' = fd_ f /\ filename_ f' = filename_ f;
  res_kept : kept ino (fd_ f) (vw w) (vw w');
  res_data : exists c', open_at (vw w') (fd_ f) ino c' /\
    c' `prefix_of` c ++ buffered f ++ new /\
    (Status.ok s = true -> c' ++ buffered f' = c ++ buffered f ++ new)
}.

Lemma wf_ok_empty f : wf_ok f -> wf_ok (mkWritable (filename_ f) (fd_ f) (buf_ f) 0).
Proof. intros [H1 H2]. split; cbn [buf_ pos_]; [done|lia]. Qed.

Lemma Flush_result fuel f w ino c :
  wf_ok f -> open_at (vw w) (fd_ f) ino c ->
  (Z.to_nat (pos_ f) + interrupts (vw w) <= fuel)%nat ->
  exists s f' w', FlushBuffered fuel f w = Normal (s, f', w') /\
    op_result f w ino c [] s f' w' /\ pos_ f' = 0.
Proof.
  intros Hf Ho Hfuel. destruct (FlushBuffered_spec fuel f w ino c Hf Ho Hfuel)
    as (s & w' & k & -> & Ho' & Hk & Hs).
  do 3 eexists. split; [done|]. split; [|done]. split; [by apply wf_ok_empty|done|done|].
  eexists. split; [exact Ho'|]. rewrite app_nil_r. split.
  - apply prefix_app. exists (drop k (buffered f)). by rewrite take_drop.
  - intros Hok. rewrite (Hs Hok). unfold buffered. cbn [pos_ buf_]. simpl. by rewrite !app_nil_r.
Qed.

(** The part of a slice after its first [copy] bytes. *)
Lemma read_rest data copy :
  Slice.slice_ok data -> 0 <= copy <= Slice.size_ data ->
  mem_read (drop (Z.to_nat copy) (Slice.data_ data)) 0 (Slice.size_ data - copy) =
    Some (drop (Z.to_nat copy) (Slice.view data)).
Proof.
  intros [Hs _] Hc. unfold mem_read, Slice.view. unfold zlen in *. rewrite length_drop. zcases; try lia.
  rewrite drop_0, skipn_firstn_comm. do 2 f_equal. lia.
Qed.

(** The tail of [Append]: the buffer is full and [rest] is left. *)
Lemma Append_overflow fuel f data copy w ino c :
  wf_ok f -> open_at (vw w) (fd_ f) ino c -> Slice.slice_ok data ->
  0 <= copy < Slice.size_ data ->
  (Z.to_nat kBufSize + Z.to_nat (Slice.size_ data) + interrupts (vw w) <= fuel)%nat ->
  exists s f' w',
    ('(s, f, w) ← FlushBuffered fuel f w;
     if negb (Status.ok s) then Normal (s, f, w)
     else if Slice.size_ data - copy <? kBufSize then
       src ← defined (mem_read (drop (Z.to_nat copy) (Slice.data_ data)) 0 (Slice.size_ data - copy));
       buf ← defined (mem_write (buf_ f) 0 src);
       Normal (Status.OK, mkWritable (filename_ f) (fd_ f) buf (Slice.size_ data - copy), w)
     else
       src ← defined (mem_read (drop (Z.to_nat copy) (Slice.data_ data)) 0 (Slice.size_ data - copy));
       '(s, w) ← WriteRaw fuel (filename_ f) (fd_ f) src w;
       Normal (s, f, w)) = Normal (s, f', w') /\
    op_result f w ino c (drop (Z.to_nat copy) (Slice.view data)) s f' w'.
Proof.
  intros Hf Ho Hd Hc Hfuel. pose proof Hf as [Hbuf Hpos].
  destruct (FlushBuffered_spec fuel f w ino c Hf Ho) as (s & w1 & k & -> & Ho1 & Hk1 & Hs); [lia|].
  cbn [mbind outcome_bind]. destruct (Status.ok s) eqn:Eok; cbn [negb].
  2:{ do 3 eexists. split; [done|]. split; [by apply wf_ok_empty|done|done|].
      eexists. split; [exact Ho1|]. rewrite Eok. split; [|done].
      apply prefix_app. eapply prefix_app_r. exists (drop k (buffered f)). by rewrite take_drop. }
  rewrite (Hs eq_refl) in Ho1. rewrite read_rest by (done || lia). set (rest := drop _ _).
  assert (Hrest : zlen rest = Slice.size_ data - copy).
  { unfold rest, zlen. rewrite length_drop. pose proof (Slice.length_view data Hd). unfold zlen in *. lia. }
  pose proof (kept_interrupts _ _ _ _ Hk1).
  destruct (Z.ltb_spec (Slice.size_ data - copy) kBufSize) as [Hlt|Hge].
  - cbn [defined mbind outcome_bind buf_ filename_ fd_].
    destruct (buffer_fill (buf_ f) rest 0) as (buf & -> & Hb1 & Hb2); [lia|lia|].
    cbn [defined mbind outcome_bind]. do 3 eexists. split; [done|].
    split; cbn [fd_ filename_]; [split; cbn [buf_ pos_]; lia|done|done|].
    eexists. split; [exact Ho1|]. split; [rewrite app_assoc; by exists rest|]. intros _.
    unfold buffered at 2. cbn [pos_ buf_]. rewrite <- Hrest.
    change (0 + zlen rest) with (zlen rest) in Hb2. rewrite Hb2. simpl. by rewrite app_assoc.
  - cbn [defined mbind outcome_bind filename_ fd_].
    destruct (WriteRaw_spec (filename_ f) (fd_ f) ino fuel rest w1 _ Ho1) as (s2 & w2 & k2 & -> & Ho2 & Hk2 & Hs2).
    { unfold zlen in Hrest. lia. }
    do 3 eexists. split; [done|]. split; [by apply wf_ok_empty|done|by eapply kept_trans|].
    eexists. split; [exact Ho2|]. rewrite app_assoc. split.
    + apply prefix_app. exists (drop k2 rest). by rewrite take_drop.
    + intros Hok. rewrite take_ge by auto. unfold buffered at 2. cbn [pos_ buf_]. simpl. by rewrite app_nil_r.
Qed.

Lemma Append_result fuel f data w ino c :
  wf_ok f -> open_at (vw w) (fd_ f) ino c -> Slice.slice_ok data ->
  (Z.to_nat kBufSize + Z.to_nat (Slice.size_ data) + interrupts (vw w) <= fuel)%nat ->
  exists s f' w', Append fuel f data w = Normal (s, f', w') /\
    op_result f w ino c (Slice.view data) s f' w'.
Proof.
  intros Hf Ho Hd Hfuel. pose proof Hf as [Hbuf Hpos]. pose proof Hd as [Hsize _].
  unfold Append. cbv zeta. rewrite u64_id by (unfold kBufSize in *; lia).
  change (Slice.size data) with (Slice.size_ data). change (Slice.data data) with (Slice.data_ data).
  set (copy := Z.min (Slice.size_ data) (kBufSize - pos_ f)).
  assert (Hcopy : 0 <= copy <= Slice.size_ data) by (unfold copy; lia).
  rewrite (Slice.mem_read_view data copy Hd) by lia. cbn [defined mbind outcome_bind].
  set (v := Slice.view data). assert (Hv : zlen v = Slice.size_ data) by (by apply Slice.length_view).
  assert (Hsrc : zlen (take (Z.to_nat copy) v) = copy) by (unfold zlen in *; rewrite length_take; lia).
  destruct (buffer_fill (buf_ f) (take (Z.to_nat copy) v) (pos_ f)) as (buf & -> & Hb1 & Hb2);
    [lia|unfold copy in *; lia|].
  rewrite Hsrc in Hb2. cbn [defined mbind outcome_bind].
  set (f1 := mkWritable (filename_ f) (fd_ f) buf (pos_ f + copy)).
  assert (Hf1 : wf_ok f1) by (split; cbn [f1 buf_ pos_]; unfold copy; lia).
  destruct (Z.eqb_spec (Slice.size_ data - copy) 0) as [He|Hne].
  - do 3 eexists. split; [done|]. split; [done|done|apply kept_refl|].
    exists c. split; [done|]. split; [by exists (buffered f ++ v)|]. intros _.
    unfold buffered at 1. cbn [f1 pos_ buf_]. rewrite Hb2. fold (buffered f).
    rewrite (take_ge v) by (unfold zlen in Hv; lia). done.
  - destruct (Append_overflow fuel f1 data copy w ino c Hf1 Ho Hd) as (s & f' & w' & -> & []); [lia|lia|].
    exists s, f', w'. split; [done|].
    assert (Hjoin : buffered f1 ++ drop (Z.to_nat copy) v = buffered f ++ v).
    { unfold buffered at 1. cbn [f1 pos_ buf_]. rewrite Hb2, <- app_assoc, take_drop. done. }
    fold v in res_data0. rewrite Hjoin in res_data0. split; done.
Qed.

Lemma same_files_trans v1 v2 v3 : same_files v1 v2 -> same_files v2 v3 -> same_files v1 v3.
Proof. intros (?&?&?&?) (?&?&?&?). unfold same_files. split_and!; [congruence..|lia]. Qed.

Lemma SyncDir_same f w : same_files (vw w) (vw (snd (SyncDirIfManifest f w))).
Proof.
  unfold SyncDirIfManifest. destruct (split_name (filename_ f)) as [dn bn].
  destruct (Slice.starts_with _ _) as [[]|]; [|done..].
  destruct (os_open (c_str dn) O_RDONLY w) as [[fd|e] w1] eqn:E.
  - destruct (open_read _ _ _ _ E) as (d & Hfd & Hfree & _ & H1 & H2 & H3 & H4).
    pose proof (fsync_files fd w1) as (H5 & H6 & H7 & H8). destruct (os_fsync fd w1) as [r w2].
    cbn [fst snd] in *.
    assert (Hd : fds (vw w2) !! fd = Some d) by (rewrite H7, H3; by simplify_map_eq).
    destruct (close_frees fd d w2 Hd) as (H9 & H10 & H11 & H12).
    unfold same_files. split_and!; [congruence|congruence| |lia].
    rewrite H11, H7, H3. by apply delete_insert_id.
  - by apply (open_error _ _ _ _ _ E).
Qed.

Lemma Sync_result fuel f w ino c :
  wf_ok f -> open_at (vw w) (fd_ f) ino c ->
  (Z.to_nat (pos_ f) + interrupts (vw w) <= fuel)%nat ->
  exists s f' w', Sync fuel f w = Normal (s, f', w') /\ op_result f w ino c [] s f' w' /\
    (Status.ok s = true -> pos_ f' = 0).
Proof.
  intros Hf Ho Hfuel. unfold Sync. pose proof (SyncDir_same f w) as Hsame.
  destruct (SyncDirIfManifest f w) as [s w1]. cbn [snd] in Hsame.
  pose proof (same_open_at _ _ _ _ _ Hsame Ho) as Ho1.
  pose proof (same_kept ino (fd_ f) _ _ Hsame) as Hk1.
  destruct (Status.ok s) eqn:Es; cbn [negb].
  2:{ do 3 eexists. split; [done|]. rewrite Es. split; [|done]. split; [done|done|done|].
      exists c. split; [done|]. split; [eexists; done|by rewrite Es]. }
  destruct (Flush_result fuel f w1 ino c Hf Ho1) as (s2 & f2 & w2 & -> & [] & Hp2).
  { destruct Hsame as (_ & _ & _ & ?). lia. }
  destruct res_data0 as (c' & Ho2 & Hpre & Hok). cbn [mbind outcome_bind].
  destruct (Status.ok s2) eqn:Es2.
  - pose proof (fdatasync_files (fd_ f2) w2) as Hsame2.
    destruct (os_fdatasync (fd_ f2) w2) as [r w3]. cbn [snd] in Hsame2.
    assert (Hk3 : kept ino (fd_ f) (vw w) (vw w3)).
    { eapply kept_trans; [exact Hk1|]. eapply kept_trans; [exact res_kept0|]. by apply same_kept. }
    pose proof (same_open_at _ _ _ _ _ Hsame2 Ho2) as Ho3.
    destruct r; do 3 eexists; (split; [done|]); (split; [|done]); (split; [done|done|done|]);
      exists c'; (split; [done|]); (split; [done|]); [by auto|by rewrite PosixError_not_ok].
  - do 3 eexists. split; [done|]. rewrite Es2. split; [|done]. split; [done|done|by eapply kept_trans|].
    exists c'. rewrite Es2. done.
Qed.

Lemma Close_result fuel f w ino c :
  wf_ok f -> open_at (vw w) (fd_ f) ino c ->
  (Z.to_nat (pos_ f) + interrupts (vw w) <= fuel)%nat ->
  exists s f' w' c', Close fuel f w = Normal (s, f', w') /\ fd_ f' = -1 /\
    dir (vw w') = dir (vw w) /\ fds (vw w') = delete (fd_ f) (fds (vw w)) /\
    (forall j, j <> ino -> data (vw w') !! j = data (vw w) !! j) /\
    (interrupts (vw w') <= interrupts (vw w))%nat /\
    data (vw w') !! ino = Some c' /\ c' `prefix_of` c ++ buffered f /\
    (Status.ok s = true -> c' = c ++ buffered f).
Proof.
  intros Hf Ho Hfuel. unfold Close.
  destruct (FlushBuffered_spec fuel f w ino c Hf Ho Hfuel) as (s & w1 & k & -> & Ho1 & [] & Hs).
  cbn [mbind outcome_bind fd_ filename_ buf_ pos_]. destruct Ho1 as (d & Hd & _ & Hdata & _).
  pose proof (close_frees (fd_ f) d w1 Hd) as (H1 & H2 & H3 & H4).
  destruct (os_close (fd_ f) w1) as [r w2]. cbn [snd] in *.
  do 4 eexists. split; [done|]. cbn [fd_]. split_and!; [done|congruence| | |lia|by rewrite H2| |].
  - rewrite H3. apply map_eq. intros g. destruct (decide (g = fd_ f)) as [->|Hg].
    + by rewrite !lookup_delete_eq.
    + rewrite !lookup_delete_ne by done. auto.
  - intros j Hj. rewrite H2. auto.
  - apply prefix_app. exists (drop k (buffered f)). by rewrite take_drop.
  - intros Hok. f_equal. apply Hs. destruct r; [done|]. destruct (Status.ok s) eqn:E; [done|congruence].
Qed.

End writable.

(** ** Sequences of operations *)
Inductive wop := WAppend (data : Slice.Slice) | WFlush | WSync.

Definition op_bytes (o : wop) : bytes :=
  match o with WAppend d => Slice.view d | _ => [] end.

Definition op_ok (o : wop) : Prop :=
  match o with WAppend d => Slice.slice_ok d | _ => True end.

Definition op_size (o : wop) : Z :=
  match o with WAppend d => Slice.size_ d | _ => 0 end.

Section sequences.
Context {W : Type} {OS : PosixOS W}.

Definition run_op (fuel : nat) (o : wop) (f : PosixWritableFile) (w : W)
  : outcome (Status.Status * PosixWritableFile * W) :=
  match o with
  | WAppend d => Append fuel f d w
  | WFlush => Flush fuel f w
  | WSync => Sync fuel f w
  end.

(** The operations up to the first that fails, whose status is returned. *)
Fixpoint run_ops (fuel : nat) (ops : list wop) (f : PosixWritableFile) (w : W)
  : outcome (Status.Status * PosixWritableFile * W) :=
  match ops with
  | [] => Normal (Status.OK, f, w)
  | o :: ops' =>
      '(s, f, w) ← run_op fuel o f w;
      if Status.ok s then run_ops fuel ops' f w else Normal (s, f, w)
  end.

Context {vw : W -> view} {Laws : PosixLaws W vw}.

Lemma run_op_result fuel o f w ino c :
  wf_ok f -> open_at (vw w) (fd_ f) ino c -> op_ok o ->
  (Z.to_nat kBufSize + Z.to_nat (op_size o) + interrupts (vw w) <= fuel)%nat ->
  exists s f' w', run_op fuel o f w = Normal (s, f', w') /\ op_result (vw := vw) f w ino c (op_bytes o) s f' w'.
Proof.
  intros Hf Ho Hok Hfuel. pose proof Hf as [_ Hpos]. destruct o as [d| |]; cbn [run_op op_bytes op_size] in *.
  - by apply Append_result.
  - destruct (Flush_result fuel f w ino c Hf Ho) as (s & f' & w' & ? & ? & _); [lia|by eauto].
  - destruct (Sync_result fuel f w ino c Hf Ho) as (s & f' & w' & ? & ? & _); [lia|by eauto].
Qed.

Lemma run_ops_result fuel ops : forall f w ino c,
  wf_ok f -> open_at (vw w) (fd_ f) ino c -> Forall op_ok ops ->
  Forall (fun o => Z.to_nat kBufSize + Z.to_nat (op_size o) + interrupts (vw w) <= fuel)%nat ops ->
  exists s f' w', run_ops fuel ops f w = Normal (s, f', w') /\
    op_result (vw := vw) f w ino c (concat (map op_bytes ops)) s f' w'.
Proof.
  induction ops as [|o ops IH]; intros f w ino c Hf Ho Hok Hfuel; cbn [run_ops].
  - do 3 eexists. split; [done|]. split; [done|done|apply kept_refl|]. exists c. simpl.
    rewrite app_nil_r. split; [done|]. split; [by eexists|done].
  - inversion Hok as [|? ? Hok1 Hok2]; inversion Hfuel as [|? ? Hf1 Hf2]; subst.
    destruct (run_op_result fuel o f w ino c Hf Ho Hok1 Hf1) as (s & f1 & w1 & -> & []).
    destruct res_data0 as (c1 & Ho1 & Hpre1 & Heq1). destruct res_fd0 as [Hfd Hname].
    cbn [mbind outcome_bind map concat]. destruct (Status.ok s) eqn:Es.
    + rewrite <- Hfd in Ho1. destruct (IH f1 w1 ino c1 res_ok0 Ho1 Hok2) as (s2 & f2 & w2 & -> & []).
      { eapply Forall_impl; [exact Hf2|]. intros o' Ho'. pose proof (kept_interrupts _ _ _ _ res_kept0). cbv beta in *. lia. }
      rewrite Hfd in *. destruct res_data0 as (c2 & Ho2 & Hpre2 & Heq2). destruct res_fd0 as [Hfd2 Hname2].
      specialize (Heq1 eq_refl). rewrite (app_assoc c1), Heq1 in *.
      do 3 eexists. split; [done|]. split; [done|split; congruence|by eapply kept_trans|].
      exists c2. rewrite <- !app_assoc in *. done.
    + do 3 eexists. split; [done|]. split; [done|done|done|]. exists c1. split; [done|].
      rewrite Es. split; [|done]. rewrite !app_assoc. apply prefix_app_r. by rewrite <- app_assoc.
Qed.

End sequences.

(** ** Properties *)

(** C13: [PosixWritableFile] as an append-only file.  Whatever [write] does
    within its specification (short transfers, interruptions, errors), every
    sequence of [Append], [Flush] and [Sync] calls returns, and the file always
    holds a prefix of the old contents followed by the data appended; when all
    calls and the final [Close] return OK, it holds exactly that, and the
    descriptor is released. *)
Theorem writable_file_appends {W : Type} {OS : PosixOS W} (vw : W -> view) (Laws : PosixLaws W vw)
  fuel f w ino c ops
  (Hf : wf_ok f) (Hempty : pos_ f = 0) (Ho : open_at (vw w) (fd_ f) ino c) (Hok : Forall op_ok ops)
  (Hfuel : Forall (fun o => Z.to_nat kBufSize + Z.to_nat (op_size o) + interrupts (vw w) <= fuel)%nat
             (WFlush :: ops)) :
  exists s f' w', run_ops fuel ops f w = Normal (s, f', w') /\
    (exists c', data (vw w') !! ino = Some c' /\ c' `prefix_of` c ++ concat (map op_bytes ops)) /\
    (Status.ok s = true ->
       exists s2 f2 w2, Close fuel f' w' = Normal (s2, f2, w2) /\ fds (vw w2) !! fd_ f = None /\
         (Status.ok s2 = true -> data (vw w2) !! ino = Some (c ++ concat (map op_bytes ops)))).
Proof.
  inversion Hfuel as [|? ? Hf1 Hf2]; subst.
  destruct (run_ops_result fuel ops f w ino c Hf Ho Hok Hf2) as (s & f' & w' & E & []).
  destruct res_data0 as (c' & Ho' & Hpre & Heq). destruct res_fd0 as [Hfd _].
  assert (Hb : buffered f = []) by (unfold buffered; rewrite Hempty; done).
  rewrite Hb in *. cbn [app] in *. exists s, f', w'. split; [done|]. split.
  { destruct Ho' as (d & _ & _ & Hd & _). eauto. }
  intros Hs. rewrite <- Hfd in Ho'. destruct res_ok0 as [Hbuf' Hpos'].
  destruct (Close_result fuel f' w' ino c') as (s2 & f2 & w2 & c2 & -> & _ & _ & Hfds & _ & _ & Hd & _ & Hc2).
  - done.
  - done.
  - pose proof (kept_interrupts _ _ _ _ res_kept0). lia.
  - do 3 eexists. split; [done|]. rewrite Hfds, Hfd, lookup_delete_eq. split; [done|].
    intros Hs2. rewrite Hd, (Hc2 Hs2), (Heq Hs). done.
Qed.

(** A world of [MemOS] with one file, open for writing as descriptor 3; calls
    transfer at most four bytes and two of them are interrupted. *)
Definition demo_world : MemOS.world :=
  MemOS.mkWorld (mkView {[ b!"/f" := 0%nat ]} {[ 0%nat := b!"old " ]} {[ 3 := mkDesc 0 4 false ]} 2) 4 1 3.

Definition demo_file : PosixWritableFile := wf_new (fun _ => 0) b!"/f" 3.

Lemma demo_file_ok : wf_ok demo_file.
Proof.
  split; cbn [demo_file wf_new buf_ pos_]; unfold kBufSize; [|lia].
  unfold zlen. rewrite length_new_block. lia.
Qed.

Lemma demo_file_open : open_at (MemOS.files demo_world) (fd_ demo_file) 0 b!"old ".
Proof.
  exists (mkDesc 0 4 false). split_and!; try reflexivity; [cbn [d_off]; lia|]. right. reflexivity.
Qed.

Lemma demo_fuel (n : Z) :
  0 <= n <= 1000 -> (Z.to_nat kBufSize + Z.to_nat n + 2 <= Z.to_nat 70000)%nat.
Proof. intros Hn. unfold kBufSize. lia. Qed.

Lemma writable_file_appends_witness :
  exists s f' w', run_ops (OS := MemOS.mem_os) (Z.to_nat 70000)
      [WAppend (Slice.Slice_of_string b!"hello "); WFlush; WAppend (Slice.Slice_of_string b!"world")]
      demo_file demo_world = Normal (s, f', w') /\
    exists c', data (MemOS.files w') !! 0%nat = Some c' /\ c' `prefix_of` b!"old hello world".
Proof.
  destruct (writable_file_appends (OS := MemOS.mem_os) MemOS.files MemOS.mem_laws (Z.to_nat 70000) demo_file demo_world 0
    b!"old " [WAppend (Slice.Slice_of_string b!"hello "); WFlush; WAppend (Slice.Slice_of_string b!"world")]
    demo_file_ok eq_refl demo_file_open) as (s & f' & w' & H1 & H2 & _).
  - repeat constructor; vm_compute; congruence.
  - apply Forall_cons; split; [exact (demo_fuel 0 ltac:(lia))|].
    apply Forall_cons; split; [exact (demo_fuel 6 ltac:(lia))|].
    apply Forall_cons; split; [exact (demo_fuel 0 ltac:(lia))|].
    apply Forall_cons; split; [exact (demo_fuel 5 ltac:(lia))|apply Forall_nil_2].
  - exists s, f', w'. split; [exact H1|exact H2].
Defined.
