(* ===== verification/Env.v ===== *)
(** * The environment interface (bench/include/leveldb/env.h, bench/util/env.cc,
    class ErrorEnv of bench/util/testutil.h)

    [Env] is the interface of the file operations of an environment over a
    world [W]; the utilities that copy a string to and from a file are written
    against it.  [EnvWrapper] forwards every call; [ErrorEnv] overrides the
    creation of writable files.  Calls that may not return take the fuel of
    their loops inside the instance. *)

From S2P Require Import Prelude CLib Slice Status.

Local Open Scope Z_scope.

(** The methods of a file for sequential reading, and [delete]. *)
Class SequentialFile (W SF : Type) := {
  file_Read : SF -> Z -> bytes -> W -> outcome (Status.Status * bytes * W);
  file_Skip : SF -> Z -> W -> Status.Status * W;
  file_release : SF -> W -> W
}.

(** The methods of a file for sequential writing, and [delete]. *)
Class WritableFile (W WF : Type) := {
  file_Append : WF -> Slice.Slice -> W -> outcome (Status.Status * WF * W);
  file_Close : WF -> W -> outcome (Status.Status * WF * W);
  file_Flush : WF -> W -> outcome (Status.Status * WF * W);
  file_Sync : WF -> W -> outcome (Status.Status * WF * W);
  file_delete : WF -> W -> outcome W
}.

(** [SF], [RF], [WF] and [FL] are the types of sequential, random-access and
    writable files and of file locks; NULL is [None]. *)
Class Env (W SF RF WF FL : Type) := {
  #[global] env_sequential :: SequentialFile W SF;
  #[global] env_writable :: WritableFile W WF;
  NewSequentialFile : bytes -> W -> Status.Status * option SF * W;
  NewRandomAccessFile : bytes -> W -> Status.Status * option RF * W;
  NewWritableFile : bytes -> W -> Status.Status * option WF * W;
  NewAppendableFile : bytes -> W -> Status.Status * option WF * W;
  FileExists : bytes -> W -> bool;
  GetChildren : bytes -> W -> Status.Status * list bytes * W;
  DeleteFile : bytes -> W -> Status.Status * W;
  CreateDir : bytes -> W -> Status.Status * W;
  DeleteDir : bytes -> W -> Status.Status * W;
  GetFileSize : bytes -> W -> Status.Status * Z * W;
  RenameFile : bytes -> bytes -> W -> Status.Status * W;
  LockFile : bytes -> W -> Status.Status * option FL * W;
  UnlockFile : FL -> W -> Status.Status * W;
  GetTestDirectory : W -> Status.Status * bytes * W;
  NowMicros : W -> Z * W;
  SleepForMicroseconds : Z -> W -> W
}.

Section utilities.
Context {W SF RF WF FL : Type} `{Env W SF RF WF FL}.

(** [DoWriteStringToFile]: a step after a failed one is skipped. *)
Definition DoWriteStringToFile (data : Slice.Slice) (fname : bytes) (should_sync : bool) (w : W)
  : outcome (Status.Status * W) :=
  let '(s, file, w) := NewWritableFile fname w in
  if negb (Status.ok s) then Normal (s, w)
  else
    file ← defined file;
    '(s, file, w) ← file_Append file data w;
    '(s, file, w) ← (if Status.ok s && should_sync then file_Sync file w else Normal (s, file, w));
    '(s, file, w) ← (if Status.ok s then file_Close file w else Normal (s, file, w));
    w ← file_delete file w;
    let w := if negb (Status.ok s) then snd (DeleteFile fname w) else w in
    Normal (s, w).

Definition WriteStringToFile (data : Slice.Slice) (fname : bytes) (w : W) : outcome (Status.Status * W) :=
  DoWriteStringToFile data fname false w.

Definition WriteStringToFileSync (data : Slice.Slice) (fname : bytes) (w : W) : outcome (Status.Status * W) :=
  DoWriteStringToFile data fname true w.

Definition kBufferSize : Z := 8192.

(** The loop of [ReadFileToString]. *)
Fixpoint read_loop (fuel : nat) (file : SF) (data : bytes) (w : W)
  : outcome (Status.Status * bytes * W) :=
  match fuel with
  | O => Undefined
  | S fuel' =>
      '(s, fragment, w) ← file_Read file kBufferSize [] w;
      if negb (Status.ok s) then Normal (s, data, w)
      else
        let data := data ++ fragment in
        match fragment with
        | [] => Normal (s, data, w)
        | _ => read_loop fuel' file data w
        end
  end.

Definition ReadFileToString (fuel : nat) (fname : bytes) (w : W) : outcome (Status.Status * bytes * W) :=
  let '(s, file, w) := NewSequentialFile fname w in
  if negb (Status.ok s) then Normal (s, [], w)
  else
    file ← defined file;
    '(s, data, w) ← read_loop fuel file [] w;
    Normal (s, data, file_release file w).

(** [Env::NewAppendableFile], for an environment that does not override it *)
Definition default_NewAppendableFile (fname : bytes) (w : W) : Status.Status * option WF * W :=
  (Status.error Status.kNotSupported b!"NewAppendableFile" fname, None, w).

End utilities.

(** ** EnvWrapper *)
Definition EnvWrapper {W SF RF WF FL} (target_ : Env W SF RF WF FL) : Env W SF RF WF FL := {|
  env_sequential := @env_sequential _ _ _ _ _ target_;
  env_writable := @env_writable _ _ _ _ _ target_;
  NewSequentialFile := @NewSequentialFile _ _ _ _ _ target_;
  NewRandomAccessFile := @NewRandomAccessFile _ _ _ _ _ target_;
  NewWritableFile := @NewWritableFile _ _ _ _ _ target_;
  NewAppendableFile := @NewAppendableFile _ _ _ _ _ target_;
  FileExists := @FileExists _ _ _ _ _ target_;
  GetChildren := @GetChildren _ _ _ _ _ target_;
  DeleteFile := @DeleteFile _ _ _ _ _ target_;
  CreateDir := @CreateDir _ _ _ _ _ target_;
  DeleteDir := @DeleteDir _ _ _ _ _ target_;
  GetFileSize := @GetFileSize _ _ _ _ _ target_;
  RenameFile := @RenameFile _ _ _ _ _ target_;
  LockFile := @LockFile _ _ _ _ _ target_;
  UnlockFile := @UnlockFile _ _ _ _ _ target_;
  GetTestDirectory := @GetTestDirectory _ _ _ _ _ target_;
  NowMicros := @NowMicros _ _ _ _ _ target_;
  SleepForMicroseconds := @SleepForMicroseconds _ _ _ _ _ target_
|}.

(** ** ErrorEnv *)
Record ErrorEnv (W : Type) := mkErrorEnv {
  writable_file_error_ : bool; num_writable_file_errors_ : Z; target_world : W
}.
Arguments mkErrorEnv {W}.
Arguments writable_file_error_ {W}.
Arguments num_writable_file_errors_ {W}.
Arguments target_world {W}.

Section error_env.
Context {W SF RF WF FL : Type} (target : Env W SF RF WF FL).

Definition error_new (w : W) : ErrorEnv W := mkErrorEnv false 0 w.

Definition with_target (e : ErrorEnv W) (w : W) : ErrorEnv W :=
  mkErrorEnv (writable_file_error_ e) (num_writable_file_errors_ e) w.

Definition error_NewWritableFile (fname : bytes) (e : ErrorEnv W)
  : Status.Status * option WF * ErrorEnv W :=
  if writable_file_error_ e then
    (Status.error Status.kIOError fname b!"fake error", None,
     mkErrorEnv (writable_file_error_ e) (i32 (num_writable_file_errors_ e + 1)) (target_world e))
  else
    let '(s, f, w) := @NewWritableFile _ _ _ _ _ target fname (target_world e) in
    (s, f, with_target e w).

Definition error_NewAppendableFile (fname : bytes) (e : ErrorEnv W)
  : Status.Status * option WF * ErrorEnv W :=
  if writable_file_error_ e then
    (Status.error Status.kIOError fname b!"fake error", None,
     mkErrorEnv (writable_file_error_ e) (i32 (num_writable_file_errors_ e + 1)) (target_world e))
  else
    let '(s, f, w) := @NewAppendableFile _ _ _ _ _ target fname (target_world e) in
    (s, f, with_target e w).

(** A call forwarded to the target. *)
Definition forward {A} (call : W -> A * W) (e : ErrorEnv W) : A * ErrorEnv W :=
  let '(a, w) := call (target_world e) in (a, with_target e w).

Definition forward_outcome {A} (call : W -> outcome (A * W)) (e : ErrorEnv W) : outcome (A * ErrorEnv W) :=
  '(a, w) ← call (target_world e); Normal (a, with_target e w).

(** The files are those of the target. *)
Definition error_sequential : SequentialFile (ErrorEnv W) SF := {|
  file_Read f n r := forward_outcome (file_Read f n r);
  file_Skip f n := forward (file_Skip f n);
  file_release f e := with_target e (file_release f (target_world e))
|}.

Definition error_writable : WritableFile (ErrorEnv W) WF := {|
  file_Append f d := forward_outcome (file_Append f d);
  file_Close f := forward_outcome (file_Close f);
  file_Flush f := forward_outcome (file_Flush f);
  file_Sync f := forward_outcome (file_Sync f);
  file_delete f e := w ← file_delete f (target_world e); Normal (with_target e w)
|}.

Definition error_env : Env (ErrorEnv W) SF RF WF FL := {|
  env_sequential := error_sequential;
  env_writable := error_writable;
  NewSequentialFile fname := forward (@NewSequentialFile _ _ _ _ _ target fname);
  NewRandomAccessFile fname := forward (@NewRandomAccessFile _ _ _ _ _ target fname);
  NewWritableFile := error_NewWritableFile;
  NewAppendableFile := error_NewAppendableFile;
  FileExists fname e := @FileExists _ _ _ _ _ target fname (target_world e);
  GetChildren dir := forward (@GetChildren _ _ _ _ _ target dir);
  DeleteFile fname := forward (@DeleteFile _ _ _ _ _ target fname);
  CreateDir name := forward (@CreateDir _ _ _ _ _ target name);
  DeleteDir name := forward (@DeleteDir _ _ _ _ _ target name);
  GetFileSize fname := forward (@GetFileSize _ _ _ _ _ target fname);
  RenameFile src target' := forward (@RenameFile _ _ _ _ _ target src target');
  LockFile fname := forward (@LockFile _ _ _ _ _ target fname);
  UnlockFile lock := forward (@UnlockFile _ _ _ _ _ target lock);
  GetTestDirectory := forward (@GetTestDirectory _ _ _ _ _ target);
  NowMicros := forward (@NowMicros _ _ _ _ _ target);
  SleepForMicroseconds micros e := with_target e (@SleepForMicroseconds _ _ _ _ _ target micros (target_world e))
|}.

End error_env.

(** ** Lemmas *)
Section forwarding.
Context {W SF RF WF FL : Type} (target : Env W SF RF WF FL).

Lemma read_loop_forward fuel file : forall data e,
  @read_loop _ _ _ _ _ (error_env target) fuel file data e =
    ('(r, w) ← @read_loop _ _ _ _ _ target fuel file data (target_world e); Normal (r, with_target e w)).
Proof.
  induction fuel as [|fuel IH]; intros data e; cbn [read_loop]; [done|].
  cbn [error_env env_sequential error_sequential file_Read]. unfold forward_outcome.
  destruct (file_Read file kBufferSize [] (target_world e)) as [[[s b] w]| | | |]; try done.
  cbn [mbind outcome_bind]. destruct (negb (Status.ok s)); [done|]. destruct b; [done|].
  rewrite IH. done.
Qed.

(** The end of [DoWriteStringToFile]: the file object goes, and the file too
    after an error. *)
Ltac finish_forward :=
  cbn [mbind outcome_bind target_world with_target];
  match goal with |- context [file_delete ?f ?w] => destruct (file_delete f w); try done end;
  cbn [mbind outcome_bind];
  match goal with |- context [if negb ?b then _ else _] => destruct (negb b); [|done] | _ => idtac end;
  unfold forward; cbn [target_world with_target];
  match goal with |- context [DeleteFile ?n ?w] => by destruct (DeleteFile n w) end.

Lemma DoWrite_forward data fname sync e :
  writable_file_error_ e = false ->
  @DoWriteStringToFile _ _ _ _ _ (error_env target) data fname sync e =
    ('(s, w) ← @DoWriteStringToFile _ _ _ _ _ target data fname sync (target_world e);
     Normal (s, with_target e w)).
Proof.
  intros He. unfold DoWriteStringToFile.
  cbn [error_env env_writable error_writable NewWritableFile file_Append file_Sync file_Close file_delete DeleteFile].
  unfold error_NewWritableFile. rewrite He.
  destruct (NewWritableFile fname (target_world e)) as [[s file] w].
  destruct (negb (Status.ok s)); [done|]. destruct file as [file|]; [|done].
  cbn [defined mbind outcome_bind]. unfold forward_outcome. cbn [target_world with_target].
  destruct (file_Append file data w) as [[[s1 f1] w1]| | | |]; try done.
  cbn [mbind outcome_bind]. destruct (Status.ok s1 && sync).
  - cbn [target_world with_target].
    destruct (file_Sync f1 w1) as [[[s2 f2] w2]| | | |]; try done. cbn [mbind outcome_bind].
    destruct (Status.ok s2) eqn:E2; cbn [target_world with_target mbind outcome_bind].
    + destruct (file_Close f2 w2) as [[[s3 f3] w3]| | | |]; try done. finish_forward.
    + rewrite E2. cbn [negb]. finish_forward.
  - cbn [mbind outcome_bind]. destruct (Status.ok s1) eqn:E1; cbn [target_world with_target mbind outcome_bind].
    + destruct (file_Close f1 w1) as [[[s3 f3] w3]| | | |]; try done. finish_forward.
    + rewrite E1. cbn [negb]. finish_forward.
Qed.

Lemma ReadFile_forward fuel fname e :
  @ReadFileToString _ _ _ _ _ (error_env target) fuel fname e =
    ('(r, w) ← @ReadFileToString _ _ _ _ _ target fuel fname (target_world e);
     Normal (r, with_target e w)).
Proof.
  unfold ReadFileToString. cbn [error_env env_sequential error_sequential NewSequentialFile file_release]. unfold forward.
  destruct (NewSequentialFile fname (target_world e)) as [[s file] w].
  destruct (negb (Status.ok s)); [done|]. destruct file as [file|]; [|done].
  cbn [defined mbind outcome_bind]. rewrite read_loop_forward. cbn [target_world with_target].
  by destruct (read_loop fuel file [] w) as [[[s1 d] w1]| | | |].
Qed.

End forwarding.

(** ** Properties *)

(** [ErrorEnv] over any environment.  With the error switched on, writing
    a string to a file fails with the injected I/O error, leaves the wrapped
    environment untouched and counts the error; with it switched off, writing
    does exactly what it does in the wrapped environment, and reading does so
    in either case. *)
Theorem error_env_injects {W SF RF WF FL : Type} (target : Env W SF RF WF FL)
  data fname sync fuel (e : ErrorEnv W) :
  let write := @DoWriteStringToFile _ _ _ _ _ (error_env target) data fname sync e in
  (if writable_file_error_ e then
     write = Normal (Status.error Status.kIOError fname b!"fake error",
               mkErrorEnv true (i32 (num_writable_file_errors_ e + 1)) (target_world e))
   else
     write = ('(s, w) ← @DoWriteStringToFile _ _ _ _ _ target data fname sync (target_world e);
              Normal (s, with_target e w))) /\
  @ReadFileToString _ _ _ _ _ (error_env target) fuel fname e =
    ('(r, w) ← @ReadFileToString _ _ _ _ _ target fuel fname (target_world e);
     Normal (r, with_target e w)).
Proof.
  cbv zeta. split; [|apply ReadFile_forward].
  destruct (writable_file_error_ e) eqn:E; [|by apply DoWrite_forward].
  unfold DoWriteStringToFile. cbn [error_env NewWritableFile]. unfold error_NewWritableFile.
  rewrite E. done.
Qed.
