(* ===== verification/PosixEnv.v ===== *)
(** * PosixEnv (bench/util/env_posix.cc)

    The environment on top of the system calls: opening and managing files,
    the table of locks of the process, and the limits on mappings and
    descriptors.  Threads and the background queue are in [Background]. *)

From S2P Require Import Prelude CLib Slice Status PosixOS PosixFile Env.

Local Open Scope Z_scope.

(** ** Limits *)

(** [Limiter]: the value of [allowed_]; the concurrent view is in [Limiter]. *)
Definition limiter_Acquire (allowed : Z) : bool * Z :=
  if allowed <=? 0 then (false, allowed) else (true, allowed - 1).

Definition limiter_Release (allowed : Z) : Z := allowed + 1.

(** [MaxMmaps()]: the static [mmap_limit] and the result; pointers have 8 bytes. *)
Definition MaxMmaps (mmap_limit : Z) : Z * Z :=
  if 0 <=? mmap_limit then (mmap_limit, mmap_limit)
  else let mmap_limit := if 8 <=? 8 then 1000 else 0 in (mmap_limit, mmap_limit).

(** [getrlimit(RLIMIT_NOFILE, ...)] *)
Inductive rlimit := RFailed | RInfinity | RLimit (cur : Z).

(** [MaxOpenFiles()]: the static [open_read_only_file_limit], an [int], and the
    result. *)
Definition MaxOpenFiles (limit : Z) (rlim : rlimit) : Z * Z :=
  if 0 <=? limit then (limit, limit)
  else
    let limit := match rlim with
                 | RFailed => 50
                 | RInfinity => 2 ^ 31 - 1
                 | RLimit cur => i32 (cur / 5)
                 end in
    (limit, limit).

(** ** The state of the environment *)
Record PosixEnv (W : Type) := mkEnv {
  os : W; locks_ : gset bytes; mmap_limit_ : Z; fd_limit_ : Z
}.
Arguments mkEnv {W}.
Arguments os {W}.
Arguments locks_ {W}.
Arguments mmap_limit_ {W}.
Arguments fd_limit_ {W}.

(** [PosixEnv()] *)
Definition env_new {W} (mmap_limit open_limit : Z) (rlim : rlimit) (w : W) : PosixEnv W :=
  mkEnv w ∅ (snd (MaxMmaps mmap_limit)) (snd (MaxOpenFiles open_limit rlim)).

(** The two kinds of random-access files. *)
Inductive RandomAccessFile :=
  | Mmapped (f : PosixMmapReadableFile)
  | Pread (f : PosixRandomAccessFile).

Record PosixFileLock := mkLock { lock_fd_ : Z; lock_name_ : bytes }.

Section env.
Context {W : Type} `{PosixOS W}.
Variable (junk : nat -> Z).

Definition set_os (e : PosixEnv W) (w : W) : PosixEnv W :=
  mkEnv w (locks_ e) (mmap_limit_ e) (fd_limit_ e).

Definition posix_NewSequentialFile (fname : bytes) (e : PosixEnv W)
  : Status.Status * option PosixSequentialFile * PosixEnv W :=
  match os_open (c_str fname) O_RDONLY (os e) with
  | (Errno n, w) => (PosixError fname n, None, set_os e w)
  | (Ret fd, w) => (Status.OK, Some (mkSeq fname fd), set_os e w)
  end.

Definition posix_GetFileSize (fname : bytes) (e : PosixEnv W) : Status.Status * Z * PosixEnv W :=
  match os_stat (c_str fname) (os e) with
  | (Errno n, w) => (PosixError fname n, 0, set_os e w)
  | (Ret size, w) => (Status.OK, u64 size, set_os e w)
  end.

Definition posix_NewRandomAccessFile (fname : bytes) (e : PosixEnv W)
  : Status.Status * option RandomAccessFile * PosixEnv W :=
  match os_open (c_str fname) O_RDONLY (os e) with
  | (Errno n, w) => (PosixError fname n, None, set_os e w)
  | (Ret fd, w) =>
      let e := set_os e w in
      let '(acquired, allowed) := limiter_Acquire (mmap_limit_ e) in
      let e := mkEnv (os e) (locks_ e) allowed (fd_limit_ e) in
      if (acquired : bool) then
        let '(s, size, e) := posix_GetFileSize fname e in
        let '(s, result, e) :=
          if Status.ok s then
            match os_mmap size fd (os e) with
            | (Ret base, w) => (s, Some (Mmapped (mkMmap fname base size)), set_os e w)
            | (Errno n, w) => (PosixError fname n, None, set_os e w)
            end
          else (s, None, e) in
        let e := set_os e (snd (os_close fd (os e))) in
        let e := if negb (Status.ok s)
                 then mkEnv (os e) (locks_ e) (limiter_Release (mmap_limit_ e)) (fd_limit_ e) else e in
        (s, result, e)
      else
        let '(acquired, allowed) := limiter_Acquire (fd_limit_ e) in
        let '(f, w) := ra_new fname fd acquired (os e) in
        (Status.OK, Some (Pread f), mkEnv w (locks_ e) (mmap_limit_ e) allowed)
  end.

(** [~PosixMmapReadableFile]: [munmap] and the release of the limiter *)
Definition mmap_delete (f : PosixMmapReadableFile) (e : PosixEnv W) : PosixEnv W :=
  mkEnv (os_munmap (mmapped_region_ f) (mm_length_ f) (os e)) (locks_ e)
    (limiter_Release (mmap_limit_ e)) (fd_limit_ e).

(** [~PosixRandomAccessFile] *)
Definition pread_delete (f : PosixRandomAccessFile) (e : PosixEnv W) : PosixEnv W :=
  if negb (temporary_fd_ f)
  then mkEnv (snd (os_close (ra_fd_ f) (os e))) (locks_ e) (mmap_limit_ e)
         (limiter_Release (fd_limit_ e))
  else e.

(** [delete] of a random-access file *)
Definition posix_release (f : RandomAccessFile) (e : PosixEnv W) : PosixEnv W :=
  match f with
  | Mmapped f => mmap_delete f e
  | Pread f => pread_delete f e
  end.

Definition posix_NewWritableFile (fname : bytes) (e : PosixEnv W)
  : Status.Status * option PosixWritableFile * PosixEnv W :=
  match os_open (c_str fname) (Z.lor (Z.lor O_TRUNC O_WRONLY) O_CREAT) (os e) with
  | (Errno n, w) => (PosixError fname n, None, set_os e w)
  | (Ret fd, w) => (Status.OK, Some (wf_new junk fname fd), set_os e w)
  end.

Definition posix_NewAppendableFile (fname : bytes) (e : PosixEnv W)
  : Status.Status * option PosixWritableFile * PosixEnv W :=
  match os_open (c_str fname) (Z.lor (Z.lor O_APPEND O_WRONLY) O_CREAT) (os e) with
  | (Errno n, w) => (PosixError fname n, None, set_os e w)
  | (Ret fd, w) => (Status.OK, Some (wf_new junk fname fd), set_os e w)
  end.

Definition posix_FileExists (fname : bytes) (e : PosixEnv W) : bool := os_access (c_str fname) (os e).

Definition posix_GetChildren (dir : bytes) (e : PosixEnv W) : Status.Status * list bytes * PosixEnv W :=
  match os_readdir (c_str dir) (os e) with
  | (Errno n, w) => (PosixError dir n, [], set_os e w)
  | (Ret names, w) => (Status.OK, names, set_os e w)
  end.

(** A call that returns 0 or fails, with the name in the message. *)
Definition unit_call (context : bytes) (call : W -> sysret unit * W) (e : PosixEnv W)
  : Status.Status * PosixEnv W :=
  match call (os e) with
  | (Errno n, w) => (PosixError context n, set_os e w)
  | (Ret _, w) => (Status.OK, set_os e w)
  end.

Definition posix_DeleteFile (fname : bytes) := unit_call fname (os_unlink (c_str fname)).
Definition posix_CreateDir (name : bytes) := unit_call name (os_mkdir (c_str name)).
Definition posix_DeleteDir (name : bytes) := unit_call name (os_rmdir (c_str name)).
Definition posix_RenameFile (src target : bytes) := unit_call src (os_rename (c_str src) (c_str target)).

(** [PosixLockTable::Insert] and [Remove] *)
Definition lock_Insert (fname : bytes) (t : gset bytes) : bool * gset bytes :=
  if decide (fname ∈ t) then (false, t) else (true, {[ fname ]} ∪ t).

Definition lock_Remove (fname : bytes) (t : gset bytes) : gset bytes := t ∖ {[ fname ]}.

(** The whole file: from its start, with the length 0. *)
Definition LockOrUnlock (fd : Z) (lock : bool) : W -> sysret unit * W :=
  os_setlk fd (mkFlock (if lock then F_WRLCK else F_UNLCK) SEEK_SET 0 0).

Definition posix_LockFile (fname : bytes) (e : PosixEnv W)
  : Status.Status * option PosixFileLock * PosixEnv W :=
  match os_open (c_str fname) (Z.lor O_RDWR O_CREAT) (os e) with
  | (Errno n, w) => (PosixError fname n, None, set_os e w)
  | (Ret fd, w) =>
      let '(inserted, locks) := lock_Insert fname (locks_ e) in
      if negb inserted then
        (Status.error Status.kIOError (b!"lock " ++ fname) b!"already held by process", None,
         mkEnv (snd (os_close fd w)) locks (mmap_limit_ e) (fd_limit_ e))
      else
        match LockOrUnlock fd true w with
        | (Errno n, w) =>
            (PosixError (b!"lock " ++ fname) n, None,
             mkEnv (snd (os_close fd w)) (lock_Remove fname locks) (mmap_limit_ e) (fd_limit_ e))
        | (Ret _, w) =>
            (Status.OK, Some (mkLock fd fname), mkEnv w locks (mmap_limit_ e) (fd_limit_ e))
        end
  end.

Definition posix_UnlockFile (lock : PosixFileLock) (e : PosixEnv W) : Status.Status * PosixEnv W :=
  let '(r, w) := LockOrUnlock (lock_fd_ lock) false (os e) in
  let result := match r with Errno n => PosixError b!"unlock" n | Ret _ => Status.OK end in
  (result, mkEnv (snd (os_close (lock_fd_ lock) w)) (lock_Remove (lock_name_ lock) (locks_ e))
             (mmap_limit_ e) (fd_limit_ e)).

Definition posix_GetTestDirectory (e : PosixEnv W) : Status.Status * bytes * PosixEnv W :=
  let result := match getenv b!"TEST_TMPDIR" (os e) with
                | Some (c :: v) => c :: v
                | _ => snprintf 100 (b!"/tmp/leveldbtest-" ++ format_d (i32 (geteuid (os e))))
                end in
  let '(_, e) := posix_CreateDir result e in
  (Status.OK, result, e).

Definition posix_NowMicros (e : PosixEnv W) : Z * PosixEnv W :=
  let '(tv_sec, tv_usec, w) := os_gettimeofday (os e) in
  (u64 (u64 tv_sec * 1000000 + tv_usec), set_os e w).

(** [usleep] takes an unsigned number *)
Definition posix_SleepForMicroseconds (micros : Z) (e : PosixEnv W) : PosixEnv W :=
  set_os e (os_usleep (u32 micros) (os e)).

(** A file operation on the world of the system. *)
Definition on_os {A} (op : W -> outcome (A * W)) (e : PosixEnv W) : outcome (A * PosixEnv W) :=
  '(a, w) ← op (os e); Normal (a, set_os e w).

(** The files, their loops with the given fuel. *)
Definition posix_sequential (fuel : nat) : SequentialFile (PosixEnv W) PosixSequentialFile := {|
  file_Read f n r := on_os (seq_Read fuel f n r);
  file_Skip f n e := let '(s, w) := seq_Skip f n (os e) in (s, set_os e w);
  file_release f e := set_os e (seq_delete f (os e))
|}.

Definition posix_writable (fuel : nat) : WritableFile (PosixEnv W) PosixWritableFile := {|
  file_Append f d := on_os (Append fuel f d);
  file_Close f := on_os (Close fuel f);
  file_Flush f := on_os (Flush fuel f);
  file_Sync f := on_os (Sync fuel f);
  file_delete f e := w ← wf_delete fuel f (os e); Normal (set_os e w)
|}.

(** The environment. *)
Definition posix_env (fuel : nat)
  : Env (PosixEnv W) PosixSequentialFile RandomAccessFile PosixWritableFile PosixFileLock := {|
  env_sequential := posix_sequential fuel;
  env_writable := posix_writable fuel;
  NewSequentialFile := posix_NewSequentialFile;
  NewRandomAccessFile := posix_NewRandomAccessFile;
  NewWritableFile := posix_NewWritableFile;
  NewAppendableFile := posix_NewAppendableFile;
  FileExists := posix_FileExists;
  GetChildren := posix_GetChildren;
  DeleteFile := posix_DeleteFile;
  CreateDir := posix_CreateDir;
  DeleteDir := posix_DeleteDir;
  GetFileSize := posix_GetFileSize;
  RenameFile := posix_RenameFile;
  LockFile := posix_LockFile;
  UnlockFile := posix_UnlockFile;
  GetTestDirectory := posix_GetTestDirectory;
  NowMicros := posix_NowMicros;
  SleepForMicroseconds := posix_SleepForMicroseconds
|}.

End env.

(** The clock: exact, and so in the order of the times, for the next 550 000
    years. *)
Lemma posix_NowMicros_exact {W} `{PosixOS W} (e : PosixEnv W) sec usec w :
  os_gettimeofday (os e) = (sec, usec, w) -> 0 <= sec < 2 ^ 44 -> 0 <= usec < 1000000 ->
  fst (posix_NowMicros e) = sec * 1000000 + usec.
Proof.
  intros Ht Hs Hu. unfold posix_NowMicros. rewrite Ht. cbn [fst]. rewrite (u64_id sec) by lia. apply u64_id. lia.
Qed.

(** ** Reading a file *)
Section reading.
Context {W : Type} {OS : PosixOS W} {vw : W -> view} {Laws : PosixLaws W vw}.

Lemma seq_Read_spec f n r d c : 0 < n -> 0 <= d_off d -> forall fuel w,
  fds (vw w) !! seq_fd_ f = Some d -> data (vw w) !! d_ino d = Some c ->
  (interrupts (vw w) < fuel)%nat ->
  exists s b w', seq_Read fuel f n r w = Normal (s, b, w') /\
    dir (vw w') = dir (vw w) /\ data (vw w') = data (vw w) /\
    (interrupts (vw w') <= interrupts (vw w))%nat /\
    ((Status.ok s = true /\ b = take (length b) (drop (Z.to_nat (d_off d)) c) /\
      (b = [] -> zlen c <= d_off d) /\
      fds (vw w') = <[seq_fd_ f := mkDesc (d_ino d) (d_off d + zlen b) (d_append d)]> (fds (vw w))) \/
     (Status.ok s = false /\ fds (vw w') = fds (vw w))).
Proof.
  intros Hn Hoff fuel. induction fuel as [|fuel IH]; intros w Hd Hc Hf; [lia|]. cbn [seq_Read].
  destruct (os_read (seq_fd_ f) n w) as [[b|e] w1] eqn:E.
  - destruct (read_some _ _ _ _ _ _ _ Hd Hc Hn Hoff E) as (H1 & H2 & H3 & H4 & H5 & H6 & H7).
    do 3 eexists. split; [done|]. split_and!; try done. left. done.
  - destruct (read_error _ _ _ _ _ E) as [(H1 & H2 & H3 & H4) H5].
    destruct (Z.eqb_spec e EINTR) as [->|Hne].
    + specialize (H5 eq_refl). destruct (IH w1) as (s & b & w' & -> & G1 & G2 & G3 & G4);
        [by rewrite H3|by rewrite H2|lia|].
      do 3 eexists. split; [done|]. rewrite H3 in G4. split_and!; [congruence..|lia|done].
    + do 3 eexists. split; [done|]. split_and!; try done. right. by rewrite PosixError_not_ok.
Qed.

Lemma read_loop_spec junk fuel f ino c : forall rounds out d (e : PosixEnv W),
  fds (vw (os e)) !! seq_fd_ f = Some d -> d_ino d = ino -> 0 <= d_off d ->
  data (vw (os e)) !! ino = Some c ->
  (interrupts (vw (os e)) < fuel)%nat -> (length c - Z.to_nat (d_off d) < rounds)%nat ->
  exists s out' d' w', @read_loop _ _ _ _ _ (posix_env junk fuel) rounds f out e =
      Normal (s, out', set_os e w') /\
    dir (vw w') = dir (vw (os e)) /\ data (vw w') = data (vw (os e)) /\
    fds (vw w') = <[seq_fd_ f := d']> (fds (vw (os e))) /\
    (Status.ok s = true -> out' = out ++ drop (Z.to_nat (d_off d)) c).
Proof.
  intros rounds. induction rounds as [|rounds IH]; intros out d e Hd Hi Hoff Hc Hf Hr; [lia|].
  cbn [read_loop posix_env env_sequential posix_sequential file_Read]. unfold on_os. subst ino.
  destruct (seq_Read_spec f kBufferSize [] d c ltac:(done) Hoff fuel (os e) Hd Hc Hf)
    as (s & b & w1 & -> & H1 & H2 & H3 & H4).
  cbn [mbind outcome_bind]. destruct H4 as [(Hs & Hb & Hend & Hfds)|(Hs & Hfds)]; rewrite Hs; cbn [negb].
  2:{ exists s, out, d, w1. split_and!; [done|done|done|by rewrite Hfds, insert_id|by rewrite Hs]. }
  destruct b as [|x b].
  - exists s, (out ++ []), (mkDesc (d_ino d) (d_off d + zlen (@nil Z)) (d_append d)), w1.
    split_and!; try done. intros _. f_equal. rewrite drop_ge; [done|].
    specialize (Hend eq_refl). unfold zlen in Hend. lia.
  - assert (Hlen : (S (length b) <= length c - Z.to_nat (d_off d))%nat).
    { apply (f_equal length) in Hb. rewrite length_take, length_drop in Hb. cbn [length] in Hb. lia. }
    set (d1 := mkDesc (d_ino d) (d_off d + zlen (x :: b)) (d_append d)).
    destruct (IH (out ++ x :: b) d1 (set_os e w1)) as (s2 & out2 & d2 & w2 & -> & G1 & G2 & G3 & G4).
    + cbn [os set_os]. rewrite Hfds. by simplify_map_eq.
    + done.
    + cbn [d1 d_off]. pose proof (zlen_nonneg (x :: b)). lia.
    + cbn [os set_os]. by rewrite H2.
    + cbn [os set_os]. lia.
    + cbn [d1 d_off]. unfold zlen. cbn [length]. lia.
    + cbn [os set_os] in *. exists s2, out2, d2, w2. split_and!; [done|congruence|congruence| |].
      * rewrite G3, Hfds. apply insert_insert_eq.
      * intros Hok. rewrite (G4 Hok), <- app_assoc. f_equal. cbn [d1 d_off].
        rewrite Hb at 1. rewrite Z2Nat.inj_add by (unfold zlen; lia). rewrite to_nat_zlen.
        rewrite <- drop_drop. apply take_drop.
Qed.

End reading.

(** ** Writing a file *)
Section writing.
Context {W : Type} {OS : PosixOS W} {vw : W -> view} {Laws : PosixLaws W vw}.
Context (junk : nat -> Z) (fuel : nat).

Lemma wf_new_ok fname fd : wf_ok (wf_new junk fname fd).
Proof.
  split; cbn [wf_new buf_ pos_]; unfold kBufSize; [|lia]. unfold zlen. rewrite length_new_block. lia.
Qed.

(** The state while the file is being written: [fds0] are the descriptors
    before it was opened, the name leads to it, and its contents are [c]. *)
Record writing (fds0 : gmap Z desc) (name : bytes) (ino : nat) (bound : nat)
    (f : PosixWritableFile) (w : W) (c : bytes) : Prop := {
  wr_ok : wf_ok f;
  wr_open : open_at (vw w) (fd_ f) ino c;
  wr_fd : 0 <= fd_ f /\ fds0 !! fd_ f = None;
  wr_fds g : g <> fd_ f -> fds (vw w) !! g = fds0 !! g;
  wr_name : dir (vw w) !! name = Some ino;
  wr_fuel : (interrupts (vw w) <= bound)%nat
}.

Lemma writing_step fds0 name ino bound f w c new s f' w' :
  writing fds0 name ino bound f w c -> op_result (vw := vw) f w ino c new s f' w' ->
  exists c', writing fds0 name ino bound f' w' c' /\
    (Status.ok s = true -> c' ++ buffered f' = c ++ buffered f ++ new).
Proof.
  intros [] [Hok [Hfd Hname] [Hk1 Hk2 Hk3 Hk4] (c' & Ho & _ & Heq)]. exists c'. split; [|done].
  split; rewrite ?Hfd; try done.
  - intros g Hg. rewrite Hk3 by done. auto.
  - congruence.
  - lia.
Qed.

(** Closing gives the descriptors back. *)
Lemma writing_close fds0 name ino bound f w c :
  writing fds0 name ino bound f w c -> (Z.to_nat kBufSize + bound <= fuel)%nat ->
  exists s f' w', Close fuel f w = Normal (s, f', w') /\ fd_ f' = -1 /\ fds (vw w') = fds0 /\
    dir (vw w') !! name = Some ino /\ (interrupts (vw w') <= bound)%nat /\
    (Status.ok s = true -> data (vw w') !! ino = Some (c ++ buffered f)).
Proof.
  intros [] Hfuel. pose proof wr_ok0 as [_ Hpos].
  destruct (Close_result fuel f w ino c wr_ok0 wr_open0) as
    (s & f' & w' & c' & E & Hfd & Hdir & Hfds & _ & Hi & Hd & _ & Hok); [lia|].
  exists s, f', w'. split_and!; [done|done| |congruence|lia|].
  - rewrite Hfds. apply map_eq. intros g. destruct (decide (g = fd_ f)) as [->|Hg].
    + rewrite lookup_delete_eq. by destruct wr_fd0.
    + rewrite lookup_delete_ne by done. auto.
  - intros Hs. by rewrite Hd, (Hok Hs).
Qed.

Lemma new_writing fname e fd w' :
  os_open (c_str fname) (Z.lor (Z.lor O_TRUNC O_WRONLY) O_CREAT) (os e) = (Ret fd, w') ->
  exists ino, writing (fds (vw (os e))) (c_str fname) ino (interrupts (vw (os e)))
    (wf_new junk fname fd) w' [].
Proof.
  intros (ino & H1 & H2 & _ & H4 & H5 & H6 & H7)%open_trunc. exists ino.
  split; [apply wf_new_ok|..]; cbn [wf_new fd_]; try done.
  - exists (mkDesc ino 0 false). rewrite H6, H5. cbn [d_ino d_off d_append].
    split_and!; [by simplify_map_eq|done|by simplify_map_eq|done|by right].
  - intros g Hg. rewrite H6. by rewrite lookup_insert_ne.
  - rewrite H4. by simplify_map_eq.
Qed.

(** The end of [DoWriteStringToFile], with the file closed or still open. *)
Lemma finish_write fds0 name ino bound f w c s fname (e : PosixEnv W) :
  (Z.to_nat kBufSize + bound <= fuel)%nat -> Status.ok s = false ->
  writing fds0 name ino bound f w c ->
  exists w', (w0 ← (file_delete (WritableFile := posix_writable fuel) f (set_os e w));
    Normal (s, if negb (Status.ok s) then snd (@DeleteFile _ _ _ _ _ (posix_env junk fuel) fname w0) else w0)) =
    Normal (s, set_os e w') /\
    exists w1, fds (vw w1) = fds0 /\ snd (os_unlink (c_str fname) w1) = w'.
Proof.
  intros Hfuel Hs Hw. pose proof Hw as []. cbn [posix_env env_writable posix_writable file_delete DeleteFile]. unfold wf_delete.
  cbn [os set_os]. rewrite (proj2 (Z.leb_le 0 (fd_ f))) by (by destruct wr_fd0).
  destruct (writing_close _ _ _ _ _ _ _ Hw Hfuel) as (s2 & f2 & w2 & -> & _ & Hfds & _).
  cbn [mbind outcome_bind]. rewrite Hs. cbn [negb]. unfold posix_DeleteFile, unit_call. cbn [os set_os].
  destruct (os_unlink (c_str fname) w2) as [[u|n] w3] eqn:E; cbn [snd];
    exists w3; (split; [done|]); exists w2; rewrite E; done.
Qed.

(** What [DoWriteStringToFile] promises: on success the name leads to a file
    with the data, and no descriptor is left open; otherwise nothing was opened,
    or the last call was the removal of the file. *)
Definition write_result (data : Slice.Slice) (fname : bytes) (e : PosixEnv W)
    (s : Status.Status) (w' : W) : Prop :=
  if Status.ok s then
    fds (vw w') = fds (vw (os e)) /\ (interrupts (vw w') <= interrupts (vw (os e)))%nat /\
    exists ino, dir (vw w') !! c_str fname = Some ino /\
      PosixOS.data (vw w') !! ino = Some (Slice.view data)
  else
    same_files (vw (os e)) (vw w') \/
    exists w1, fds (vw w1) = fds (vw (os e)) /\ snd (os_unlink (c_str fname) w1) = w'.

(** The part after [Append] and [Sync]. *)
Lemma close_and_finish data fname (e : PosixEnv W) ino f w c s :
  (Z.to_nat kBufSize + interrupts (vw (os e)) <= fuel)%nat ->
  writing (fds (vw (os e))) (c_str fname) ino (interrupts (vw (os e))) f w c ->
  (Status.ok s = true -> c ++ buffered f = Slice.view data) ->
  exists s' w',
    ('(s, file, w0) ← (if Status.ok s then file_Close (WritableFile := posix_writable fuel) f (set_os e w)
                       else Normal (s, f, set_os e w));
     w0 ← file_delete (WritableFile := posix_writable fuel) file w0;
     Normal (s, if negb (Status.ok s) then snd (@DeleteFile _ _ _ _ _ (posix_env junk fuel) fname w0) else w0)) =
      Normal (s', set_os e w') /\ write_result data fname e s' w'.
Proof.
  intros Hfuel Hw Hc. destruct (Status.ok s) eqn:Es.
  2:{ cbn [mbind outcome_bind].
      destruct (finish_write _ _ _ _ _ _ _ s fname e Hfuel Es Hw) as (w' & E & H1).
      exists s, w'. rewrite E. split; [done|]. unfold write_result. rewrite Es. auto. }
  destruct (writing_close _ _ _ _ _ _ _ Hw Hfuel) as (s2 & f2 & w2 & E & Hfd & Hfds & Hdir & Hi & Hok).
  cbn [posix_env env_writable posix_writable file_Close file_delete DeleteFile]. unfold on_os. cbn [os set_os]. rewrite E.
  cbn [mbind outcome_bind]. unfold wf_delete. rewrite Hfd. cbn [Z.leb Z.compare os set_os].
  cbn [mbind outcome_bind]. unfold write_result. destruct (Status.ok s2) eqn:Es2; cbn [negb].
  - exists s2, w2. rewrite Es2. split; [done|]. split_and!; [done|lia|]. exists ino. split; [done|].
    by rewrite (Hok eq_refl), (Hc eq_refl).
  - unfold posix_DeleteFile, unit_call. cbn [os set_os].
    destruct (os_unlink (c_str fname) w2) as [[u|n] w3] eqn:Eu; cbn [snd];
      exists s2, w3; rewrite Es2; (split; [done|]); right; exists w2; rewrite Eu; done.
Qed.

Lemma DoWrite_posix data fname sync (e : PosixEnv W) :
  Slice.slice_ok data ->
  (Z.to_nat kBufSize + Z.to_nat (Slice.size_ data) + interrupts (vw (os e)) <= fuel)%nat ->
  exists s w', @DoWriteStringToFile _ _ _ _ _ (posix_env junk fuel) data fname sync e =
      Normal (s, set_os e w') /\ write_result data fname e s w'.
Proof.
  intros Hd Hfuel. unfold DoWriteStringToFile. cbn [posix_env NewWritableFile].
  unfold posix_NewWritableFile.
  destruct (os_open _ _ (os e)) as [[fd|n] w] eqn:E.
  2:{ rewrite PosixError_not_ok. cbn [negb]. do 2 eexists. split; [done|]. unfold write_result.
      rewrite PosixError_not_ok. left. by eapply open_error. }
  cbn [Status.ok Status.OK Status.state_ negb defined mbind outcome_bind].
  destruct (new_writing fname e fd w E) as (ino & Hw). pose proof Hw as [].
  cbn [file_Append file_Sync env_writable posix_writable posix_env]. unfold on_os. cbn [os set_os].
  destruct (Append_result fuel (wf_new junk fname fd) data w ino [] wr_ok0 wr_open0 Hd)
    as (s1 & f1 & w1 & -> & Hres1); [lia|].
  destruct (writing_step _ _ _ _ _ _ _ _ _ _ _ Hw Hres1) as (c1 & Hw1 & Hc1).
  replace (buffered (wf_new junk fname fd)) with (@nil Z) in Hc1 by done. cbn [app] in Hc1.
  cbn [mbind outcome_bind]. destruct (Status.ok s1 && sync) eqn:Eb.
  - apply andb_prop in Eb as [Es1 _]. cbn [os set_os].
    destruct Hw1 as []. pose proof wr_ok1 as [_ Hpos].
    destruct (Sync_result fuel f1 w1 ino c1 wr_ok1 wr_open1) as (s2 & f2 & w2 & -> & Hres2 & _); [lia|].
    destruct (writing_step (fds (vw (os e))) (c_str fname) ino (interrupts (vw (os e)))
      f1 w1 c1 [] s2 f2 w2) as (c2 & Hw2 & Hc2); [by split|done|].
    cbn [mbind outcome_bind].
    apply (close_and_finish data fname e ino f2 w2 c2 s2); [lia|done|].
    intros Hs2. rewrite (Hc2 Hs2), app_nil_r. auto.
  - cbn [mbind outcome_bind]. apply (close_and_finish data fname e ino f1 w1 c1 s1); [lia|done|done].
Qed.

End writing.

(** ** Properties *)

(** C9: a string written to a file and read back is the same string.  Over any
    system that behaves as POSIX says, [WriteStringToFile] (with or without
    [Sync]) returns; when it returns OK, no descriptor is left open, and
    [ReadFileToString] of that name returns, with exactly that string unless it
    reports an error, and again without leaving a descriptor open.  When it
    fails, either nothing was opened or the last thing done was to remove the
    file. *)
Theorem write_read_round_trip {W : Type} {OS : PosixOS W} (vw : W -> view) (Laws : PosixLaws W vw)
  junk fuel data fname sync (e : PosixEnv W)
  (Hd : Slice.slice_ok data)
  (Hfuel : (Z.to_nat kBufSize + Z.to_nat (Slice.size_ data) + interrupts (vw (os e)) <= fuel)%nat) :
  exists s w1, @DoWriteStringToFile _ _ _ _ _ (posix_env junk fuel) data fname sync e =
      Normal (s, set_os e w1) /\ write_result (vw := vw) data fname e s w1 /\
    (Status.ok s = true ->
       exists s2 out w2, @ReadFileToString _ _ _ _ _ (posix_env junk fuel) fuel fname (set_os e w1) =
           Normal (s2, out, set_os e w2) /\
         (Status.ok s2 = true -> out = Slice.view data /\ fds (vw w2) = fds (vw (os e)))).
Proof.
  destruct (DoWrite_posix (vw := vw) junk fuel data fname sync e Hd Hfuel) as (s & w1 & E & Hres).
  exists s, w1. split; [done|]. split; [done|]. intros Hs. unfold write_result in Hres.
  rewrite Hs in Hres. destruct Hres as (Hfds & Hi & ino & Hdir & Hdata).
  unfold ReadFileToString. cbn [posix_env NewSequentialFile]. unfold posix_NewSequentialFile.
  cbn [os set_os]. destruct (os_open (c_str fname) O_RDONLY w1) as [[fd|n] w2] eqn:Eo.
  2:{ rewrite PosixError_not_ok. cbn [negb]. do 3 eexists. split; [done|]. by rewrite PosixError_not_ok. }
  cbn [Status.ok Status.OK Status.state_ negb defined mbind outcome_bind].
  destruct (open_read _ _ _ _ Eo) as (d & Hfd & Hfree & Hino & H1 & H2 & H3 & H4).
  assert (Hlen : (length (Slice.view data) <= Z.to_nat (Slice.size_ data))%nat).
  { pose proof (Slice.length_view data Hd). unfold zlen in *. lia. }
  rewrite (Hino ino Hdir) in H3.
  assert (H0k : (1 <= Z.to_nat kBufSize)%nat) by (unfold kBufSize; lia).
  destruct (read_loop_spec junk fuel (mkSeq fname fd) ino (Slice.view data) fuel []
    (mkDesc ino 0 false) (set_os (set_os e w1) w2)) as (s2 & out & d2 & w3 & -> & G1 & G2 & G3 & G4);
    cbn [os set_os seq_fd_ d_ino d_off] in *.
  - rewrite H3. apply lookup_insert_eq.
  - reflexivity.
  - lia.
  - rewrite H2. exact Hdata.
  - lia.
  - lia.
  - cbn [mbind outcome_bind env_sequential posix_env posix_sequential file_release seq_delete]. unfold seq_delete. cbn [os set_os seq_fd_].
    exists s2, out, (snd (os_close fd w3)). split; [reflexivity|]. intros Hok. split; [rewrite (G4 Hok); reflexivity|].
    assert (Hd2 : fds (vw w3) !! fd = Some d2) by (rewrite G3; apply lookup_insert_eq).
    destruct (close_frees fd d2 w3 Hd2) as (_ & _ & -> & _).
    rewrite G3, H3, delete_insert_eq, delete_insert_id by exact Hfree. exact Hfds.
Qed.

(** A fresh world: calls transfer at most four bytes, two are interrupted. *)
Definition demo_env : PosixEnv MemOS.world :=
  env_new (-1) (-1) (RLimit 1024) (MemOS.mkWorld (mkView ∅ ∅ ∅ 2) 3 0 3).

Lemma write_read_round_trip_witness :
  exists s w1, @DoWriteStringToFile _ _ _ _ _ (posix_env (H := MemOS.mem_os) (fun _ => 0) (Z.to_nat 70000))
      (Slice.Slice_of_string b!"hello") b!"/f" true demo_env = Normal (s, set_os demo_env w1) /\
    write_result (OS := MemOS.mem_os) (vw := MemOS.files) (Slice.Slice_of_string b!"hello") b!"/f" demo_env s w1.
Proof.
  destruct (write_read_round_trip (OS := MemOS.mem_os) MemOS.files MemOS.mem_laws (fun _ => 0)
    (Z.to_nat 70000) (Slice.Slice_of_string b!"hello") b!"/f" true demo_env) as (s & w1 & H1 & H2 & _).
  - apply Slice.Slice_of_string_ok. reflexivity.
  - exact (demo_fuel 5 ltac:(lia)).
  - exists s, w1. exact (conj H1 H2).
Defined.

(** ** Locks of the process *)
Section locks.
Context {W : Type} {OS : PosixOS W}.

(** A program that locks and unlocks files: [held] are the locks it was given
    and has not released. *)
Inductive lock_step : list PosixFileLock * PosixEnv W -> list PosixFileLock * PosixEnv W -> Prop :=
  | step_lock held e fname s l e' :
      posix_LockFile fname e = (s, Some l, e') -> lock_step (held, e) (l :: held, e')
  | step_lock_failed held e fname s e' :
      posix_LockFile fname e = (s, None, e') -> lock_step (held, e) (held, e')
  | step_unlock held1 l held2 e :
      lock_step (held1 ++ l :: held2, e) (held1 ++ held2, snd (posix_UnlockFile l e)).

Definition names (held : list PosixFileLock) : list bytes := map lock_name_ held.

(** The table holds exactly the names of the locks handed out, each once. *)
Definition locks_ok (c : list PosixFileLock * PosixEnv W) : Prop :=
  NoDup (names (fst c)) /\ locks_ (snd c) = list_to_set (names (fst c)).

Lemma LockFile_result fname (e : PosixEnv W) s l e' :
  posix_LockFile fname e = (s, l, e') ->
  match l with
  | Some l => Status.ok s = true /\ lock_name_ l = fname /\ ~ (fname ∈ locks_ e) /\
              locks_ e' = {[ fname ]} ∪ locks_ e
  | None => Status.ok s = false /\ locks_ e' = locks_ e
  end.
Proof.
  unfold posix_LockFile. destruct (os_open _ _ _) as [[fd|n] w].
  2:{ intros [= <- <- <-]. by rewrite PosixError_not_ok. }
  unfold lock_Insert. case_decide as Hin; cbn [negb]; [by intros [= <- <- <-]|].
  destruct (LockOrUnlock fd true w) as [[u|n] w']; intros [= <- <- <-]; [done|].
  rewrite PosixError_not_ok. split; [done|]. cbn [locks_]. unfold lock_Remove. set_solver.
Qed.

Lemma names_app a b : names (a ++ b) = names a ++ names b.
Proof. apply map_app. Qed.

Lemma lock_step_ok c c' : lock_step c c' -> locks_ok c -> locks_ok c'.
Proof.
  intros [held e fname s l e' E|held e fname s e' E|held1 l held2 e] [Hnd Ht];
    unfold locks_ok; cbn [fst snd] in *.
  - apply LockFile_result in E as (_ & Hn & Hnot & ->). cbn [names map]. rewrite Hn.
    rewrite Ht in *. split; [|set_solver]. constructor; [|done]. set_solver.
  - apply LockFile_result in E as (_ & ->). done.
  - rewrite names_app in *. cbn [names map] in *. fold (names held2) in *.
    apply NoDup_app in Hnd as (H1 & H2 & [H3 H4]%NoDup_cons).
    split; [apply NoDup_app; split_and!; [done| |done]; set_solver|].
    unfold posix_UnlockFile. destruct (LockOrUnlock _ _ _) as [r w]. cbn [snd locks_].
    unfold lock_Remove. rewrite Ht, !list_to_set_app_L. cbn [list_to_set].
    apply set_eq. intros x. specialize (H2 (lock_name_ l)). set_solver.
Qed.

Lemma lock_steps_ok c c' : rtc lock_step c c' -> locks_ok c -> locks_ok c'.
Proof. induction 1 as [|c1 c2 c3 H1 _ IH]; [done|]. intros Hc. apply IH. by eapply lock_step_ok. Qed.

End locks.

(** Locks within the process.  Starting with no lock held, whatever the
    system answers and in whatever order files are locked and unlocked, the
    names in the table are exactly those of the locks handed out and not yet
    released, no two of which have the same name; so a file that is locked
    cannot be locked again: the call fails, hands out nothing and leaves the
    table as it was. *)
Theorem locks_exclusive {W : Type} {OS : PosixOS W} (e0 : PosixEnv W) held (e : PosixEnv W) fname
  (H0 : locks_ e0 = ∅) (Hsteps : rtc lock_step ([], e0) (held, e)) :
  NoDup (map lock_name_ held) /\ locks_ e = list_to_set (map lock_name_ held) /\
  (fname ∈ map lock_name_ held ->
     exists s e', posix_LockFile fname e = (s, None, e') /\ Status.ok s = false /\ locks_ e' = locks_ e).
Proof.
  assert (Hinv : locks_ok (held, e)).
  { apply (lock_steps_ok _ _ Hsteps). split; [constructor|done]. }
  destruct Hinv as [Hnd Ht]. split; [done|]. split; [done|]. intros Hin.
  destruct (posix_LockFile fname e) as [[s l] e'] eqn:E. pose proof (LockFile_result _ _ _ _ _ E) as HL.
  destruct l as [l|]; [|by exists s, e'].
  destruct HL as (_ & _ & Hnot & _). destruct Hnot. cbn [fst snd] in Ht. rewrite Ht.
  by apply elem_of_list_to_set.
Qed.

(** A second attempt to lock a file that is locked. *)
Lemma locks_exclusive_witness :
  exists s e', posix_LockFile (H := MemOS.mem_os) b!"/LOCK"
      (snd (posix_LockFile (H := MemOS.mem_os) b!"/LOCK" demo_env)) = (s, None, e') /\ Status.ok s = false.
Proof.
  destruct (locks_exclusive (OS := MemOS.mem_os) demo_env [mkLock 3 b!"/LOCK"]
    (snd (posix_LockFile (H := MemOS.mem_os) b!"/LOCK" demo_env)) b!"/LOCK") as (_ & _ & H).
  - reflexivity.
  - apply rtc_once. apply (step_lock [] demo_env b!"/LOCK" Status.OK). vm_compute. reflexivity.
  - destruct H as (s & e' & H1 & H2 & _); [apply list_elem_of_here|]. exists s, e'. exact (conj H1 H2).
Defined.
