(* ===== verification/FileLocks.v ===== *)
(** * File locks between processes (bench/util/env_posix.cc, LockFile, UnlockFile)

    [LockFile] takes a lock of the kernel with [fcntl(F_SETLK)] besides the
    entry in the table of the process.  Each process has a table of its own and
    makes its calls to one kernel, whose locks follow POSIX: a file is locked by
    at most one process, and a process loses its locks on a file when it closes
    any of its descriptors of the file. *)

From S2P Require Import Prelude CLib Slice Status PosixOS PosixFile Env PosixEnv.

Local Open Scope Z_scope.

(** ** The kernel *)

(** Which file a descriptor of a process stands for, and which process has
    locked a file. *)
Record lview := mkLview { opened : gmap (nat * Z) bytes; owner : gmap bytes nat }.

(** The owner of a file after process [p] gives up its lock, if it has one. *)
Definition drop_lock (p : nat) (name : bytes) (o : gmap bytes nat) : gmap bytes nat :=
  if decide (o !! name = Some p) then delete name o else o.

(** [calls p] are the system calls of process [p]. *)
Class LockLaws (W : Type) (calls : nat -> PosixOS W) (vw : W -> lview) : Prop := {
  open_descriptor p name fl w :
    let '(r, w') := @os_open _ (calls p) name fl w in
    match r with
    | Ret fd => opened (vw w) !! (p, fd) = None /\
                vw w' = mkLview (<[(p, fd) := name]> (opened (vw w))) (owner (vw w))
    | Errno _ => vw w' = vw w
    end;
  close_drops p fd name w :
    opened (vw w) !! (p, fd) = Some name ->
    vw (snd (@os_close _ (calls p) fd w)) =
      mkLview (delete (p, fd) (opened (vw w))) (drop_lock p name (owner (vw w)));
  setlk_locks p fd name w :
    opened (vw w) !! (p, fd) = Some name ->
    let '(r, w') := @os_setlk _ (calls p) fd (mkFlock F_WRLCK SEEK_SET 0 0) w in
    match r with
    | Ret _ => (owner (vw w) !! name = None \/ owner (vw w) !! name = Some p) /\
               vw w' = mkLview (opened (vw w)) (<[name := p]> (owner (vw w)))
    | Errno _ => vw w' = vw w
    end;
  setlk_unlocks p fd name w :
    opened (vw w) !! (p, fd) = Some name ->
    let '(r, w') := @os_setlk _ (calls p) fd (mkFlock F_UNLCK SEEK_SET 0 0) w in
    match r with
    | Ret _ => vw w' = mkLview (opened (vw w)) (drop_lock p name (owner (vw w)))
    | Errno _ => vw w' = vw w
    end
}.

Lemma drop_lock_ne p name o name' : name' <> name -> drop_lock p name o !! name' = o !! name'.
Proof. intros Hn. unfold drop_lock. case_decide; [by rewrite lookup_delete_ne|done]. Qed.

Lemma drop_lock_other p q name o : q <> p -> o !! name = Some q -> drop_lock p name o = o.
Proof. intros Hq Ho. unfold drop_lock. rewrite decide_False; congruence. Qed.

Lemma drop_lock_own p name o : o !! name = Some p -> drop_lock p name o !! name = None.
Proof. intros Ho. unfold drop_lock. rewrite decide_True by done. by rewrite lookup_delete_eq. Qed.

(** ** Processes *)

(** The locks handed out and not yet released, with their processes; the
    table of each process; the kernel. *)
Record system (W : Type) := mkSystem {
  held : list (nat * PosixFileLock); table : nat -> gset bytes; kernel : W
}.
Arguments mkSystem {W}.
Arguments held {W}.
Arguments table {W}.
Arguments kernel {W}.

Definition set_table (p : nat) (t : gset bytes) (tab : nat -> gset bytes) : nat -> gset bytes :=
  fun q => if decide (q = p) then t else tab q.

Section processes.
Context {W : Type} (calls : nat -> PosixOS W) (mmaps fds : Z).

(** What process [p] calls its functions on. *)
Definition env_of (p : nat) (s : system W) : PosixEnv W := mkEnv (kernel s) (table s p) mmaps fds.

(** Process [p] locks a file it has not locked, or unlocks one it has. *)
Inductive process_step (s : system W) : system W -> Prop :=
  | process_locks p fname st l e :
      (fname ∉ table s p) -> c_str fname = fname ->
      posix_LockFile (H := calls p) fname (env_of p s) = (st, l, e) ->
      process_step s (mkSystem (match l with Some l => (p, l) :: held s | None => held s end)
        (set_table p (locks_ e) (table s)) (os e))
  | process_unlocks p l h1 h2 st e :
      held s = h1 ++ (p, l) :: h2 ->
      posix_UnlockFile (H := calls p) l (env_of p s) = (st, e) ->
      process_step s (mkSystem (h1 ++ h2) (set_table p (locks_ e) (table s)) (os e)).

Definition file_of (x : nat * PosixFileLock) : bytes := lock_name_ (snd x).

Context (vw : W -> lview) {Laws : LockLaws W calls vw}.

(** A lock that was handed out is in the table and held in the kernel. *)
Definition lock_ok (s : system W) (x : nat * PosixFileLock) : Prop :=
  file_of x ∈ table s (fst x) /\ owner (vw (kernel s)) !! file_of x = Some (fst x) /\
  opened (vw (kernel s)) !! (fst x, lock_fd_ (snd x)) = Some (file_of x).

Record system_ok (s : system W) : Prop := {
  ok_locks x : x ∈ held s -> lock_ok s x;
  ok_names : NoDup (map file_of (held s))
}.

(** What [LockFile] leaves of the kernel: a lock, or nothing new. *)
Lemma LockFile_kernel p fname s st l e :
  (fname ∉ table s p) -> c_str fname = fname ->
  posix_LockFile (H := calls p) fname (env_of p s) = (st, l, e) ->
  let v := vw (kernel s) in
  match l with
  | Some l => locks_ e = {[ fname ]} ∪ table s p /\ lock_name_ l = fname /\
      opened v !! (p, lock_fd_ l) = None /\ (owner v !! fname = None \/ owner v !! fname = Some p) /\
      vw (os e) = mkLview (<[(p, lock_fd_ l) := fname]> (opened v)) (<[fname := p]> (owner v))
  | None => locks_ e = table s p /\ (vw (os e) = v \/ vw (os e) = mkLview (opened v) (drop_lock p fname (owner v)))
  end.
Proof using Laws.
  intros Hnot Hstr. unfold posix_LockFile. rewrite Hstr. cbn [os locks_ env_of mmap_limit_ fd_limit_].
  pose proof (open_descriptor p fname (Z.lor O_RDWR O_CREAT) (kernel s)) as Ho.
  destruct (@os_open _ (calls p) fname (Z.lor O_RDWR O_CREAT) (kernel s)) as [[fd|n] w1].
  2: { intros [= <- <- <-]. cbn. auto. }
  destruct Ho as [Hfd Hv1]. unfold lock_Insert. rewrite decide_False by done. cbn [negb].
  assert (Hop : opened (vw w1) !! (p, fd) = Some fname) by (rewrite Hv1; apply lookup_insert_eq).
  pose proof (setlk_locks p fd fname w1 Hop) as Hl. unfold LockOrUnlock.
  destruct (@os_setlk _ (calls p) fd _ w1) as [[u|n] w2]; intros [= <- <- <-]; cbn [locks_ os lock_name_ lock_fd_].
  - destruct Hl as [Hfree Hv2]. rewrite Hv2, Hv1 in *. by split_and!.
  - split; [unfold lock_Remove; set_solver|]. right.
    rewrite (close_drops p fd fname w2) by (by rewrite Hl). rewrite Hl, Hv1. cbn [opened owner].
    by rewrite delete_insert_id.
Qed.

Lemma UnlockFile_kernel p l s st e :
  opened (vw (kernel s)) !! (p, lock_fd_ l) = Some (lock_name_ l) ->
  posix_UnlockFile (H := calls p) l (env_of p s) = (st, e) ->
  locks_ e = table s p ∖ {[ lock_name_ l ]} /\
  vw (os e) = mkLview (delete (p, lock_fd_ l) (opened (vw (kernel s)))) (drop_lock p (lock_name_ l) (owner (vw (kernel s)))).
Proof using Laws.
  intros Hop. unfold posix_UnlockFile. cbn [os locks_ env_of mmap_limit_ fd_limit_].
  pose proof (setlk_unlocks p (lock_fd_ l) _ _ Hop) as Hu. unfold LockOrUnlock.
  destruct (@os_setlk _ (calls p) (lock_fd_ l) _ (kernel s)) as [[u|n] w2]; intros [= <- <-];
    cbn [locks_ os]; (split; [done|]); (rewrite (close_drops p _ (lock_name_ l) w2) by (by rewrite Hu));
    rewrite Hu; cbn [opened owner]; [|done].
  f_equal. unfold drop_lock at 1. case_decide as Hd; [|done]. exfalso.
  destruct (decide (owner (vw (kernel s)) !! lock_name_ l = Some p)) as [Ho|Ho].
  - by rewrite drop_lock_own in Hd.
  - unfold drop_lock in Hd. by rewrite decide_False in Hd.
Qed.

(** A file that another lock stands for is not the one [p] is about to lock. *)
Lemma locked_by_other p fname s x :
  system_ok s -> (fname ∉ table s p) -> x ∈ held s -> file_of x = fname -> fst x <> p.
Proof. intros [Hl _] Hnot Hx Hf Hp. destruct (Hl x Hx) as (H1 & _). congruence. Qed.

Lemma process_step_ok s s' : process_step s s' -> system_ok s -> system_ok s'.
Proof using Laws.
  intros [p fname st l e Hnot Hstr E|p l h1 h2 st e Eh E] Hs; pose proof Hs as [Hl Hnd].
  - pose proof (LockFile_kernel p fname s st l e Hnot Hstr E) as HL. cbv zeta in HL. destruct l as [l|].
    + destruct HL as (Ht & Hname & Hfd & Hfree & Hv).
      assert (Hnew : forall x, x ∈ held s -> file_of x <> fname).
      { intros x Hx Hf. destruct (Hl x Hx) as (_ & Ho & _). rewrite Hf in Ho.
        pose proof (locked_by_other p fname s x Hs Hnot Hx Hf). destruct Hfree; congruence. }
      split; cbn [held].
      * intros x [->|Hx]%elem_of_cons; unfold lock_ok, file_of; cbn [fst snd table kernel]; rewrite Hv, ?Hname; cbn [owner opened].
        -- unfold set_table. rewrite decide_True, !lookup_insert_eq by done. split; [set_solver|done].
        -- destruct (Hl x Hx) as (H1 & H2 & H3). unfold file_of in *. specialize (Hnew x Hx).
           unfold set_table. rewrite lookup_insert_ne by congruence.
           rewrite lookup_insert_ne by (intros Eq; rewrite <- Eq in H3; congruence).
           split_and!; [|done|done]. case_decide as Hd; [rewrite Hd in H1; set_solver|done].
      * cbn [map]. constructor; [|done]. unfold file_of at 1. cbn [snd]. rewrite Hname.
        intros (x & Hx & Hin)%list_elem_of_fmap. by apply (Hnew x).
    + destruct HL as [Ht Hv]. split; [|done]. cbn [held]. intros x Hx. destruct (Hl x Hx) as (H1 & H2 & H3).
      unfold lock_ok. cbn [fst snd table kernel]. unfold set_table. rewrite Ht.
      split; [case_decide as Hd; [by rewrite Hd in H1|done]|]. destruct Hv as [-> | ->]; [done|]. cbn [owner opened].
      split; [|done]. destruct (decide (file_of x = fname)) as [Hf|Hf]; [|by rewrite drop_lock_ne].
      subst fname. rewrite (drop_lock_other p (fst x)); [done| |done]. by apply (locked_by_other p (file_of x) s).
  - rewrite Eh in *. rewrite map_app in Hnd. cbn [map] in Hnd. apply NoDup_app in Hnd as (N1 & N2 & [N3 N4]%NoDup_cons).
    destruct (Hl (p, l)) as (_ & _ & Hop); [set_solver|]. cbn [fst snd] in Hop.
    apply (UnlockFile_kernel p l s st e Hop) in E as [Ht Hv]. split; cbn [held].
    + intros x Hx. assert (Hne : file_of x <> file_of (p, l)).
      { intros Hf. apply elem_of_app in Hx as [Hx|Hx].
        - apply (N2 (file_of x)); [by apply list_elem_of_fmap_2|rewrite Hf; by left].
        - apply N3. rewrite <- Hf. by apply list_elem_of_fmap_2. }
      destruct (Hl x) as (H1 & H2 & H3); [set_solver|]. unfold lock_ok. cbn [fst snd table kernel].
      rewrite Hv. cbn [owner opened]. unfold set_table. rewrite drop_lock_ne by done.
      rewrite lookup_delete_ne by (intros Eq; rewrite <- Eq in H3; unfold file_of in *; cbn [snd] in *; congruence).
      split_and!; [|done|done]. rewrite Ht. unfold file_of in Hne. cbn [snd] in Hne.
      case_decide as Hd; [|done]. rewrite Hd in H1. unfold file_of in *. set_solver.
    + rewrite map_app. apply NoDup_app. split_and!; [done| |done]. intros x Hx Hx'. apply (N2 x Hx). by right.
Qed.

Lemma process_steps_ok s s' : rtc process_step s s' -> system_ok s -> system_ok s'.
Proof using Laws. induction 1 as [|s1 s2 s3 H1 _ IH]; [done|]. intros Hs. apply IH. by eapply process_step_ok. Qed.

End processes.

(** ** A small kernel with this behaviour *)
Module MemLocks.

(** descriptors and locks, and the next number for a descriptor *)
Definition world : Type := lview * Z.

Definition open_ (p : nat) (name : bytes) (w : world) : sysret Z * world :=
  let '(v, n) := w in
  if decide (opened v !! (p, n) = None)
  then (Ret n, (mkLview (<[(p, n) := name]> (opened v)) (owner v), n + 1))
  else (Errno 24, w).

Definition close_ (p : nat) (fd : Z) (w : world) : sysret unit * world :=
  let '(v, n) := w in
  match opened v !! (p, fd) with
  | Some name => (Ret tt, (mkLview (delete (p, fd) (opened v)) (drop_lock p name (owner v)), n))
  | None => (Errno 9, w)
  end.

Definition setlk_ (p : nat) (fd : Z) (f : flock) (w : world) : sysret unit * world :=
  let '(v, n) := w in
  match opened v !! (p, fd) with
  | Some name =>
      match l_type f with
      | F_WRLCK =>
        match owner v !! name with
        | Some q => if decide (q = p) then (Ret tt, w) else (Errno 11, w)
        | None => (Ret tt, (mkLview (opened v) (<[name := p]> (owner v)), n))
        end
      | F_UNLCK => (Ret tt, (mkLview (opened v) (drop_lock p name (owner v)), n))
      end
  | None => (Errno 9, w)
  end.

(** The calls [LockFile] does not make fail. *)
Definition calls (p : nat) : PosixOS world := {|
  strerror e := b!"error"; os_open name _ := open_ p name; os_close := close_ p; os_setlk := setlk_ p;
  os_read _ _ w := (Errno 38, w); os_pread _ _ _ w := (Errno 38, w); os_write _ _ w := (Errno 38, w);
  os_lseek _ _ w := (Errno 38, w); os_fsync _ w := (Errno 38, w); os_fdatasync _ w := (Errno 38, w);
  os_mmap _ _ w := (Errno 38, w); os_munmap _ _ w := w; os_access _ _ := false;
  os_readdir _ w := (Errno 38, w); os_unlink _ w := (Errno 38, w); os_mkdir _ w := (Errno 38, w);
  os_rmdir _ w := (Errno 38, w); os_stat _ w := (Errno 38, w); os_rename _ _ w := (Errno 38, w);
  os_gettimeofday w := (0, 0, w); os_usleep _ w := w; getenv _ _ := None; geteuid _ := 0
|}.

#[export] Instance laws : LockLaws world calls fst.
Proof.
  split.
  - intros p name fl [v n]. cbn. unfold open_. by case_decide.
  - intros p fd name [v n] Hop. cbn in *. by rewrite Hop.
  - intros p fd name [v n] Hop. cbn in *. rewrite Hop. destruct (owner v !! name) as [q|] eqn:Eo.
    + case_decide; [subst|done]. split; [by right|]. cbn. rewrite insert_id by done. by destruct v.
    + split; [by left|done].
  - intros p fd name [v n] Hop. cbn in *. by rewrite Hop.
Qed.

Definition empty : system world := mkSystem [] (fun _ => ∅) (mkLview ∅ ∅, 3).

End MemLocks.

(** Process [p] calls [LockFile]. *)
Definition lock_by (p : nat) (fname : bytes) (s : system MemLocks.world) : system MemLocks.world :=
  let '(_, l, e) := posix_LockFile (H := MemLocks.calls p) fname (env_of 0 0 p s) in
  mkSystem (match l with Some l => (p, l) :: held s | None => held s end)
    (set_table p (locks_ e) (table s)) (os e).

Lemma lock_by_step p fname s :
  (fname ∉ table s p) -> c_str fname = fname -> process_step MemLocks.calls 0 0 s (lock_by p fname s).
Proof.
  intros H1 H2. unfold lock_by. destruct (posix_LockFile _ _) as [[st l] e] eqn:E.
  by apply process_locks with (st := st) (fname := fname).
Qed.

(** ** Properties *)

(** C21: locks between processes.  Whatever the system calls answer, in whatever
    order processes lock files that they have not locked and unlock files that
    they have: no two of the locks handed out and not yet released, of the same
    or of different processes, are locks of one file, and each of them is held
    in the kernel, on the descriptor it was taken with. *)
Theorem locks_across_processes {W : Type} (calls : nat -> PosixOS W) mmaps fds (vw : W -> lview)
  (Laws : LockLaws W calls vw) (s0 s : system W)
  (H0 : held s0 = []) (Hsteps : rtc (process_step calls mmaps fds) s0 s) :
  NoDup (map file_of (held s)) /\
  forall p l, (p, l) ∈ held s ->
    owner (vw (kernel s)) !! lock_name_ l = Some p /\
    opened (vw (kernel s)) !! (p, lock_fd_ l) = Some (lock_name_ l).
Proof.
  assert (Hok : system_ok vw s0).
  { split; rewrite H0; [intros x []%elem_of_nil|constructor]. }
  destruct (process_steps_ok calls mmaps fds vw s0 s Hsteps Hok) as [Hl Hnd]. split; [done|].
  intros p l Hx. by destruct (Hl (p, l) Hx) as (_ & ? & ?).
Qed.

(** Process 1 locks the file, and process 2 tries to. *)
Lemma locks_across_processes_witness :
  NoDup (map file_of (held (lock_by 2 b!"/LOCK" (lock_by 1 b!"/LOCK" MemLocks.empty)))).
Proof.
  refine (proj1 (locks_across_processes MemLocks.calls 0 0 fst MemLocks.laws MemLocks.empty _ eq_refl _)).
  eapply rtc_l; [apply (lock_by_step 1 b!"/LOCK")|apply rtc_once, lock_by_step].
  - vm_compute. intros H. discriminate H.
  - reflexivity.
  - intros H. vm_compute in H. discriminate H.
  - reflexivity.
Defined.

(** C32: a second [LockFile] loses the lock.  When a process that has locked a
    file asks for the lock again, the call fails as it should and the table
    keeps the name, but the descriptor it opened and closes again was one of the
    locked file, and with it goes the lock of the kernel: the file is free for
    every other process. *)
Theorem second_attempt_loses_lock {W : Type} (calls : nat -> PosixOS W) mmaps fds (vw : W -> lview)
  (Laws : LockLaws W calls vw) (s : system W) p fname fd w st l e
  (Hheld : fname ∈ table s p) (Howner : owner (vw (kernel s)) !! fname = Some p)
  (Hstr : c_str fname = fname)
  (Hopen : @os_open _ (calls p) fname (Z.lor O_RDWR O_CREAT) (kernel s) = (Ret fd, w))
  (HLock : posix_LockFile (H := calls p) fname (env_of mmaps fds p s) = (st, l, e)) :
  l = None /\ Status.ok st = false /\ fname ∈ locks_ e /\ owner (vw (os e)) !! fname = None.
Proof.
  unfold posix_LockFile in HLock. rewrite Hstr in HLock. cbn [os locks_ env_of mmap_limit_ fd_limit_] in HLock.
  pose proof (open_descriptor (LockLaws := Laws) p fname (Z.lor O_RDWR O_CREAT) (kernel s)) as Ho.
  rewrite Hopen in HLock, Ho. destruct Ho as [_ Hv]. unfold lock_Insert in HLock.
  rewrite decide_True in HLock by done. cbn [negb] in HLock. injection HLock as <- <- <-. split_and!; [done..|].
  cbn [os]. rewrite (close_drops p fd fname w) by (rewrite Hv; apply lookup_insert_eq).
  cbn [owner]. rewrite Hv. by apply drop_lock_own.
Qed.

(** Process 1 locks the file and tries to lock it again; process 2 gets the lock. *)
Lemma second_attempt_loses_lock_witness :
  exists st e l2 e2,
    posix_LockFile (H := MemLocks.calls 1) b!"/LOCK" (env_of 0 0 1 (lock_by 1 b!"/LOCK" MemLocks.empty)) = (st, None, e) /\
    owner (fst (os e)) !! b!"/LOCK" = None /\
    posix_LockFile (H := MemLocks.calls 2) b!"/LOCK" (mkEnv (os e) ∅ 0 0) = (Status.OK, Some l2, e2).
Proof.
  destruct (posix_LockFile (H := MemLocks.calls 1) b!"/LOCK" (env_of 0 0 1 (lock_by 1 b!"/LOCK" MemLocks.empty)))
    as [[st l] e] eqn:E.
  destruct (second_attempt_loses_lock MemLocks.calls 0 0 fst MemLocks.laws (lock_by 1 b!"/LOCK" MemLocks.empty)
    1 b!"/LOCK" 4 (snd (MemLocks.open_ 1 b!"/LOCK" (kernel (lock_by 1 b!"/LOCK" MemLocks.empty)))) st l e)
    as (-> & _ & _ & H).
  - vm_compute. reflexivity.
  - vm_compute. reflexivity.
  - reflexivity.
  - vm_compute. reflexivity.
  - exact E.
  - vm_compute in E. injection E as <- <-. do 4 eexists. split; [reflexivity|]. split; [exact H|]. vm_compute. reflexivity.
Defined.
