(* ===== verification/Limiter.v ===== *)
(** * The resource limiter under concurrency (class Limiter of bench/util/env_posix.cc)

    Any number of threads call [Acquire] and [Release].  [allowed_] is an atomic
    word; every store to it is made with the mutex held, but [Acquire] first
    loads it without.  What a thread has acquired it may hand over to another,
    with the file it is held for, so that any thread may release it. *)

From S2P Require Import Prelude.

Local Open Scope Z_scope.

Module Limiter.

(** Where a thread is. *)
Inductive pc :=
  | Idle
  | AcqLock            (* the load without the mutex saw a positive value *)
  | AcqLoad            (* MutexLock held, intptr_t x = GetAllowed() *)
  | AcqStore (x : Z)   (* x > 0: SetAllowed(x - 1), return true *)
  | RelLock            (* Release() called *)
  | RelLoad            (* MutexLock held *)
  | RelStore (x : Z).  (* SetAllowed(x + 1) *)

(** A thread and the number of resources it holds; a release in progress still
    counts. *)
Record thread := mkThread { at_ : pc; held : nat }.

Record state := mkState { mu : option nat; allowed_ : Z; threads : list thread }.

Definition init (n : Z) (k : nat) : state := mkState None n (replicate k (mkThread Idle 0)).

Definition update (t : nat) (p : pc) (h : nat) (s : state) : state :=
  mkState (mu s) (allowed_ s) (<[t := mkThread p h]> (threads s)).

Definition set_mu (m : option nat) (s : state) : state := mkState m (allowed_ s) (threads s).

Definition GetAllowed (s : state) : Z := allowed_ s.

Definition SetAllowed (v : Z) (s : state) : state := mkState (mu s) v (threads s).

(** What a call returned to the thread, when it returned. *)
Inductive event := Internal | Acquired (t : nat) | Refused (t : nat) | Released (t : nat).

Inductive step : state -> event -> state -> Prop :=
  (* if (GetAllowed() <= 0) return false; *)
  | acquire_refused s t h :
      threads s !! t = Some (mkThread Idle h) -> GetAllowed s <= 0 -> step s (Refused t) s
  | acquire_try s t h :
      threads s !! t = Some (mkThread Idle h) -> 0 < GetAllowed s ->
      step s Internal (update t AcqLock h s)
  | acquire_lock s t h :
      threads s !! t = Some (mkThread AcqLock h) -> mu s = None ->
      step s Internal (update t AcqLoad h (set_mu (Some t) s))
  (* if (x <= 0) return false; the lock is released *)
  | acquire_late s t h :
      threads s !! t = Some (mkThread AcqLoad h) -> GetAllowed s <= 0 ->
      step s (Refused t) (update t Idle h (set_mu None s))
  | acquire_load s t h :
      threads s !! t = Some (mkThread AcqLoad h) -> 0 < GetAllowed s ->
      step s Internal (update t (AcqStore (GetAllowed s)) h s)
  | acquire_store s t x h :
      threads s !! t = Some (mkThread (AcqStore x) h) ->
      step s (Acquired t) (update t Idle (S h) (set_mu None (SetAllowed (x - 1) s)))
  (* Release() by a thread that holds something *)
  | release_call s t h :
      threads s !! t = Some (mkThread Idle (S h)) -> step s Internal (update t RelLock (S h) s)
  | release_lock s t h :
      threads s !! t = Some (mkThread RelLock h) -> mu s = None ->
      step s Internal (update t RelLoad h (set_mu (Some t) s))
  | release_load s t h :
      threads s !! t = Some (mkThread RelLoad h) ->
      step s Internal (update t (RelStore (GetAllowed s)) h s)
  | release_store s t x h :
      threads s !! t = Some (mkThread (RelStore x) (S h)) ->
      step s (Released t) (update t Idle h (set_mu None (SetAllowed (x + 1) s)))
  (* a resource passes to another thread, whatever that one is doing *)
  | hand_over s t u h p hu :
      t <> u -> threads s !! t = Some (mkThread Idle (S h)) -> threads s !! u = Some (mkThread p hu) ->
      step s Internal (update u p (S hu) (update t Idle h s)).

Inductive reachable (n : Z) (k : nat) : state -> Prop :=
  | reach_init : reachable n k (init n k)
  | reach_step s e s' : reachable n k s -> step s e s' -> reachable n k s'.

(** ** Lemmas *)
Definition holding (p : pc) : bool :=
  match p with AcqLoad | AcqStore _ | RelLoad | RelStore _ => true | _ => false end.

(** The value a thread has loaded and not yet stored back. *)
Definition loaded (p : pc) : option Z :=
  match p with AcqStore x | RelStore x => Some x | _ => None end.

Definition releasing (p : pc) : bool :=
  match p with RelLock | RelLoad | RelStore _ => true | _ => false end.

Fixpoint in_use (l : list thread) : Z :=
  match l with [] => 0 | t :: l' => Z.of_nat (held t) + in_use l' end.

Lemma in_use_insert l i t t' :
  l !! i = Some t -> in_use (<[i := t']> l) = in_use l - Z.of_nat (held t) + Z.of_nat (held t').
Proof.
  revert i; induction l as [|x l IH]; intros [|i] Hi; simplify_eq/=; [lia|].
  rewrite (IH i Hi). lia.
Qed.

Record inv (n : Z) (s : state) : Prop := {
  inv_total : allowed_ s + in_use (threads s) = n;
  inv_nonneg : 0 <= allowed_ s;
  inv_mu i t : threads s !! i = Some t -> holding (at_ t) = true <-> mu s = Some i;
  inv_loaded i t x : threads s !! i = Some t -> loaded (at_ t) = Some x ->
    x = allowed_ s /\ (at_ t = AcqStore x -> 0 < x);
  inv_release i t : threads s !! i = Some t -> releasing (at_ t) = true -> (0 < held t)%nat
}.

(** A thread moves; [m'] and [v'] are the mutex and the word after it. *)
Lemma limiter_move n s i t p' h' m' v' :
  inv n s -> threads s !! i = Some t ->
  v' + Z.of_nat h' = allowed_ s + Z.of_nat (held t) -> 0 <= v' ->
  ((m' = mu s /\ holding p' = holding (at_ t)) \/
   (mu s = None /\ m' = Some i /\ holding p' = true) \/
   (mu s = Some i /\ m' = None /\ holding p' = false)) ->
  (v' = allowed_ s \/ mu s = Some i) ->
  (forall x, loaded p' = Some x -> x = v' /\ (p' = AcqStore x -> 0 < x)) ->
  (releasing p' = true -> (0 < h')%nat) ->
  inv n (mkState m' v' (<[i := mkThread p' h']> (threads s))).
Proof.
  intros [] Hi Hv Hnn Hmu Hst Hld Hrel.
  assert (Hcase : forall j q, <[i := mkThread p' h']> (threads s) !! j = Some q ->
            (j = i /\ q = mkThread p' h') \/ (j <> i /\ threads s !! j = Some q)).
  { intros j q Hj. apply list_lookup_insert_Some in Hj as [(-> & -> & _)|[? ?]]; auto. }
  split; cbn [mu allowed_ threads]; [|done|..].
  - rewrite (in_use_insert _ _ _ _ Hi). cbn [held]. lia.
  - intros j q [[-> ->]|[Hj Hq]]%Hcase; cbn [at_].
    + specialize (inv_mu0 i t Hi).
      destruct Hmu as [[-> ->]|[(Hm & -> & ->)|(Hm & -> & ->)]]; [done|done|]. split; congruence.
    + rewrite (inv_mu0 j q Hq).
      destruct Hmu as [[-> _]|[(Hm & -> & _)|(Hm & -> & _)]]; [done|..]; rewrite ?Hm; split; congruence.
  - intros j q x [[-> ->]|[Hj Hq]]%Hcase Hx; [by apply Hld|].
    destruct (inv_loaded0 j q x Hq Hx) as [-> Hp]. split; [|done].
    destruct Hst as [->|Hm]; [done|]. exfalso.
    assert (Hh : holding (at_ q) = true) by (by destruct (at_ q)).
    apply (inv_mu0 j q Hq) in Hh. congruence.
  - intros j q [[-> ->]|[Hj Hq]]%Hcase; [done|]. by apply inv_release0 with j.
Qed.

(** Nobody moves, and as much is held as before. *)
Lemma hand_over_inv n s t u h p hu :
  inv n s -> t <> u -> threads s !! t = Some (mkThread Idle (S h)) -> threads s !! u = Some (mkThread p hu) ->
  inv n (update u p (S hu) (update t Idle h s)).
Proof.
  intros [] Hne Ht Hu. unfold update. cbn [mu allowed_ threads].
  assert (Hu' : <[t := mkThread Idle h]> (threads s) !! u = Some (mkThread p hu)) by (by rewrite list_lookup_insert_ne).
  assert (Hcase : forall j q, <[u := mkThread p (S hu)]> (<[t := mkThread Idle h]> (threads s)) !! j = Some q ->
            exists q0, threads s !! j = Some q0 /\ at_ q0 = at_ q /\ (q = q0 \/ at_ q = Idle \/ (0 < held q)%nat)).
  { intros j q [(-> & <- & _)|[_ [(-> & <- & _)|[_ Hq]]%list_lookup_insert_Some]]%list_lookup_insert_Some.
    - eexists. split; [exact Hu|]. split; [done|]. right; right. cbn. lia.
    - eexists. split; [exact Ht|]. split; [done|]. right; by left.
    - exists q. auto. }
  split; cbn [mu allowed_ threads]; [|done|..].
  - rewrite (in_use_insert _ _ _ _ Hu'), (in_use_insert _ _ _ _ Ht). cbn [held]. lia.
  - intros j q (q0 & Hq & <- & _)%Hcase. eauto.
  - intros j q x (q0 & Hq & <- & _)%Hcase. eauto.
  - intros j q (q0 & Hq & Ha & Hh)%Hcase Hr. destruct Hh as [->|[Hi|Hh]]; [eauto|by rewrite Hi in Hr|done].
Qed.

Lemma step_inv n s e s' : inv n s -> step s e s' -> inv n s'.
Proof.
  intros Hinv Hstep. pose proof Hinv as [].
  destruct Hstep as [s t h Ht Ha|s t h Ht Ha|s t h Ht Hm|s t h Ht Ha|s t h Ht Ha|s t x h Ht
                    |s t h Ht|s t h Ht Hm|s t h Ht|s t x h Ht|s t u h p hu Hne Ht Hu]; [done|..].
  - apply (limiter_move n s t _ AcqLock h (mu s) (allowed_ s) Hinv Ht); try done; auto.
  - apply (limiter_move n s t _ AcqLoad h (Some t) (allowed_ s) Hinv Ht); try done; auto.
  - assert (Hm : mu s = Some t) by (by apply (inv_mu0 t _ Ht)).
    apply (limiter_move n s t _ Idle h None (allowed_ s) Hinv Ht); try done; auto.
  - apply (limiter_move n s t _ (AcqStore (allowed_ s)) h (mu s) (allowed_ s) Hinv Ht); try done; auto.
    by intros x [= <-].
  - assert (Hm : mu s = Some t) by (by apply (inv_mu0 t _ Ht)).
    destruct (inv_loaded0 t _ x Ht eq_refl) as [-> Hpos]. specialize (Hpos eq_refl).
    apply (limiter_move n s t _ Idle (S h) None (allowed_ s - 1) Hinv Ht); try done; auto;
      cbn [held]; lia.
  - apply (limiter_move n s t _ RelLock (S h) (mu s) (allowed_ s) Hinv Ht); try done; auto. lia.
  - apply (limiter_move n s t _ RelLoad h (Some t) (allowed_ s) Hinv Ht); try done; auto.
    intros _. by apply (inv_release0 t _ Ht).
  - apply (limiter_move n s t _ (RelStore (allowed_ s)) h (mu s) (allowed_ s) Hinv Ht); try done; auto.
    + by intros x [= <-].
    + intros _. by apply (inv_release0 t _ Ht).
  - assert (Hm : mu s = Some t) by (by apply (inv_mu0 t _ Ht)).
    destruct (inv_loaded0 t _ x Ht eq_refl) as [-> _].
    apply (limiter_move n s t _ Idle h None (allowed_ s + 1) Hinv Ht); try done; auto; cbn [held]; lia.
  - by apply hand_over_inv.
Qed.

Lemma init_inv n k : 0 <= n -> inv n (init n k).
Proof.
  intros Hn. split; cbn [init mu allowed_ threads]; [|done|..].
  - assert (in_use (replicate k (mkThread Idle 0)) = 0) by (induction k; simpl; lia). lia.
  - by intros i t [-> _]%lookup_replicate.
  - by intros i t x [-> _]%lookup_replicate.
  - by intros i t [-> _]%lookup_replicate.
Qed.

Lemma limiter_inv n k s : 0 <= n -> reachable n k s -> inv n s.
Proof. intros Hn. induction 1; [by apply init_inv|by eapply step_inv]. Qed.

(** ** Properties *)

(** C30: however the calls of any number of threads interleave, and whichever of
    them releases what another acquired, the resources
    acquired and not released never exceed the limit, the word holds exactly
    what is left, and a call that is refused was refused when nothing was
    left. *)
Theorem limiter_never_exceeds n k s
  (Hn : 0 <= n) (Hs : reachable n k s) :
  in_use (threads s) <= n /\ allowed_ s = n - in_use (threads s) /\
  (forall t s', step s (Refused t) s' -> in_use (threads s) = n) /\
  (forall t s', step s (Acquired t) s' -> in_use (threads s) < n /\
     in_use (threads s') = in_use (threads s) + 1).
Proof.
  pose proof (limiter_inv n k s Hn Hs) as Hinv. pose proof Hinv as [].
  split_and!; [lia|lia|..].
  - intros t s' Hstep. inversion Hstep; subst; unfold GetAllowed in *; lia.
  - intros t s' Hstep. pose proof (step_inv n s _ s' Hinv Hstep) as [].
    inversion Hstep as [| | | | |? ? x h Ht| | | | |]; subst.
    destruct (inv_loaded0 t _ x Ht eq_refl) as [-> Hpos]. specialize (Hpos eq_refl).
    cbn [update set_mu SetAllowed threads allowed_] in *. lia.
Qed.

(** Thread 0 acquires the only resource and hands it to thread 1. *)
Lemma limiter_never_exceeds_witness :
  in_use (threads (mkState None 0 [mkThread Idle 0; mkThread Idle 1])) <= 1.
Proof.
  apply (limiter_never_exceeds 1 2 (mkState None 0 [mkThread Idle 0; mkThread Idle 1])); [lia|].
  set (s1 := mkState None 1 [mkThread AcqLock 0; mkThread Idle 0]).
  set (s2 := mkState (Some 0%nat) 1 [mkThread AcqLoad 0; mkThread Idle 0]).
  set (s3 := mkState (Some 0%nat) 1 [mkThread (AcqStore 1) 0; mkThread Idle 0]).
  set (s4 := mkState None 0 [mkThread Idle 1; mkThread Idle 0]).
  apply (reach_step 1 2 s4 Internal); [|exact (hand_over s4 0 1 0 Idle 0 ltac:(discriminate) eq_refl eq_refl)].
  apply (reach_step 1 2 s3 (Acquired 0)); [|exact (acquire_store s3 0 1 0 eq_refl)].
  apply (reach_step 1 2 s2 Internal); [|exact (acquire_load s2 0 0 eq_refl eq_refl)].
  apply (reach_step 1 2 s1 Internal); [|exact (acquire_lock s1 0 0 eq_refl eq_refl)].
  apply (reach_step 1 2 (init 1 2) Internal); [apply reach_init|].
  exact (acquire_try (init 1 2) 0 0 eq_refl eq_refl).
Defined.

End Limiter.
