(* ===== verification/RandomAccess.v ===== *)
(** * Random-access files (bench/util/env_posix.cc)

    The two kinds of random-access files [PosixEnv::NewRandomAccessFile] makes,
    a mapping while the limit allows one and otherwise a descriptor, which is
    kept open or opened for every read: what a read yields, and that the
    descriptors and the limits are given back.  A mapping is modelled by the
    bytes it shows, so the file is not changed while it is mapped. *)

From S2P Require Import Prelude CLib Slice Status PosixOS PosixFile Env PosixEnv.

Local Open Scope Z_scope.

Section reads.
Context {W : Type} `{PosixOS W}.

(** [RandomAccessFile::Read(offset, n, result, scratch)] *)
Definition random_Read (f : RandomAccessFile) (offset n : Z) (result : bytes) (e : PosixEnv W)
  : outcome (Status.Status * Slice.Slice * PosixEnv W) :=
  match f with
  | Mmapped f => '(s, r) ← mm_Read f offset n; Normal (s, r, e)
  | Pread f =>
      let '(s, b, w) := ra_Read f offset n result (os e) in
      Normal (s, Slice.Slice_of_ptr b (zlen b), set_os e w)
  end.

End reads.

(** ** Lemmas *)
Section lemmas.
Context {W : Type} {OS : PosixOS W} {vw : W -> view} {Laws : PosixLaws W vw}.

(** The files, descriptors, limits and locks are as they were. *)
Definition same_env (e e' : PosixEnv W) : Prop :=
  same_files (vw (os e)) (vw (os e')) /\ locks_ e' = locks_ e /\
  mmap_limit_ e' = mmap_limit_ e /\ fd_limit_ e' = fd_limit_ e.

(** What a read that succeeds returns of a file with contents [c]. *)
Definition read_result (c : bytes) (offset n : Z) (b : bytes) : Prop :=
  zlen b <= n /\ b = take (length b) (drop (Z.to_nat offset) c) /\
  (b = [] -> n = 0 \/ zlen c <= offset).

Lemma mm_Read_inside fname region offset n :
  zlen region < 2 ^ 64 -> 0 <= offset -> 0 <= n -> offset + n <= zlen region ->
  exists r, mm_Read (mkMmap fname region (zlen region)) offset n = Normal (Status.OK, r) /\
    Slice.slice_ok r /\ Slice.view r = take (Z.to_nat n) (drop (Z.to_nat offset) region).
Proof.
  intros Hl Ho Hn Hin. unfold mm_Read. cbn [mm_length_ mmapped_region_ mm_filename_].
  rewrite u64_id by lia. zcases; try lia. eexists. split; [reflexivity|]. split; [|done].
  split; cbn [Slice.Slice_of_ptr Slice.size_ Slice.data_]; zlia.
Qed.

Lemma mm_Read_outside fname region offset n :
  zlen region < offset + n < 2 ^ 64 ->
  mm_Read (mkMmap fname region (zlen region)) offset n =
    Normal (PosixError fname EINVAL, Slice.Slice_empty).
Proof.
  intros Hin. unfold mm_Read. cbn [mm_length_ mm_filename_]. pose proof (zlen_nonneg region).
  rewrite u64_id by lia. by zcases; try lia.
Qed.

Lemma read_result_exact c offset n :
  0 <= offset -> 0 <= n -> offset + n <= zlen c ->
  read_result c offset n (take (Z.to_nat n) (drop (Z.to_nat offset) c)).
Proof.
  intros Ho Hn Hin. split_and!; [zlia|apply MemOS.take_own_length|].
  intros Hb%(f_equal length). left. zlia.
Qed.

(** What every read of [f] in an environment like [e1] promises. *)
Definition serves (c : bytes) (f : RandomAccessFile) (e1 : PosixEnv W) : Prop :=
  forall e2 offset n result, same_env e1 e2 -> 0 <= offset -> 0 <= n -> offset + n < 2 ^ 63 ->
  exists s b e3, random_Read f offset n result e2 = Normal (s, b, e3) /\ same_env e2 e3 /\
    (Status.ok s = true -> read_result c offset n (Slice.view b)).

Lemma mapped_serves fname c e1 :
  zlen c < 2 ^ 63 -> serves c (Mmapped (mkMmap fname c (zlen c))) e1.
Proof.
  intros Hl e2 offset n result _ Ho Hn Hs. cbn [random_Read].
  destruct (decide (offset + n <= zlen c)) as [Hin|Hout].
  - destruct (mm_Read_inside fname c offset n) as (r & -> & _ & Hv); [lia..|].
    do 3 eexists. split; [reflexivity|]. split; [done|]. intros _. rewrite Hv.
    by apply read_result_exact.
  - rewrite mm_Read_outside by lia. do 3 eexists. split; [reflexivity|]. split; [done|].
    by rewrite PosixError_not_ok.
Qed.

(** One [pread] of an open descriptor. *)
Lemma pread_serves fd offset n w d ino c :
  fds (vw w) !! fd = Some d -> d_ino d = ino -> data (vw w) !! ino = Some c ->
  0 <= offset -> 0 <= n -> offset + n < 2 ^ 63 ->
  exists r w', os_pread fd n (i64 offset) w = (r, w') /\ same_files (vw w) (vw w') /\
    match r with Ret b => read_result c offset n b | Errno _ => True end.
Proof.
  intros Hd <- Hc Ho Hn Hs. rewrite i64_id by lia.
  destruct (os_pread fd n offset w) as [[b|k] w'] eqn:E; do 2 eexists; (split; [reflexivity|]).
  - destruct (pread_some _ _ _ _ _ _ _ _ Hd Hc Hn Ho E) as (H1 & H2 & H3 & H4). done.
  - split; [by eapply pread_error|done].
Qed.

(** A descriptor that is opened and closed again leaves everything as it was. *)
Lemma opened_closed (v v1 v2 v3 : view) fd d :
  fds v !! fd = None -> dir v1 = dir v -> data v1 = data v -> fds v1 = <[fd := d]> (fds v) ->
  (interrupts v1 <= interrupts v)%nat -> same_files v1 v2 ->
  dir v3 = dir v2 -> data v3 = data v2 -> fds v3 = delete fd (fds v2) ->
  (interrupts v3 <= interrupts v2)%nat -> same_files v v3.
Proof.
  intros Hfree H1 H2 H3 H4 (G1 & G2 & G3 & G4) K1 K2 K3 K4. unfold same_files.
  rewrite K3, G3, H3, delete_insert_id by done. split_and!; [congruence..|done|lia].
Qed.

Lemma temporary_serves fname ino c e1 :
  dir (vw (os e1)) !! c_str fname = Some ino -> data (vw (os e1)) !! ino = Some c ->
  serves c (Pread (mkRandomAccess fname true (-1))) e1.
Proof.
  intros Hdir Hc e2 offset n result [(S1 & S2 & S3 & S4) _] Ho Hn Hs. cbn [random_Read].
  unfold ra_Read. cbn [temporary_fd_ ra_filename_].
  destruct (os_open (c_str fname) O_RDONLY (os e2)) as [[fd|k] w1] eqn:E.
  2:{ do 3 eexists. split; [reflexivity|]. split; [|by rewrite PosixError_not_ok].
      split; [by eapply open_error|done]. }
  destruct (open_read _ _ _ _ E) as (d & Hfd & Hfree & Hino & H1 & H2 & H3 & H4).
  rewrite (Hino ino) in H3 by congruence.
  destruct (pread_serves fd offset n w1 (mkDesc ino 0 false) ino c) as (r & w2 & -> & Hsame & Hr);
    [rewrite H3; apply lookup_insert_eq|done|congruence|done..|].
  assert (Hd2 : fds (vw w2) !! fd = Some (mkDesc ino 0 false)).
  { destruct Hsame as (_ & _ & -> & _). rewrite H3. apply lookup_insert_eq. }
  destruct (close_frees fd _ w2 Hd2) as (K1 & K2 & K3 & K4).
  assert (Hback : same_files (vw (os e2)) (vw (snd (os_close fd w2)))).
  { by eapply opened_closed. }
  do 3 eexists. split; [reflexivity|]. split; [by split|].
  destruct r; [|by rewrite PosixError_not_ok]. intros _. unfold Slice.view.
  cbn [Slice.Slice_of_ptr Slice.size_ Slice.data_]. by rewrite to_nat_zlen, firstn_all.
Qed.

Lemma kept_open_serves fname fd ino c (e1 : PosixEnv W) :
  fds (vw (os e1)) !! fd = Some (mkDesc ino 0 false) -> data (vw (os e1)) !! ino = Some c ->
  serves c (Pread (mkRandomAccess fname false fd)) e1.
Proof.
  intros Hfd Hc e2 offset n result [(S1 & S2 & S3 & S4) _] Ho Hn Hs. cbn [random_Read].
  unfold ra_Read. cbn [temporary_fd_ ra_filename_ ra_fd_].
  destruct (pread_serves fd offset n (os e2) (mkDesc ino 0 false) ino c)
    as (r & w2 & -> & Hsame & Hr); [congruence|done|congruence|done..|].
  do 3 eexists. split; [reflexivity|]. split; [by split|].
  destruct r; [|by rewrite PosixError_not_ok]. intros _. unfold Slice.view.
  cbn [Slice.Slice_of_ptr Slice.size_ Slice.data_]. by rewrite to_nat_zlen, firstn_all.
Qed.

(** The environment after [open(fname, O_RDONLY)]. *)
Record opened (e : PosixEnv W) (fd : Z) (ino : nat) (w : W) : Prop := {
  op_free : fds (vw (os e)) !! fd = None;
  op_dir : dir (vw w) = dir (vw (os e));
  op_data : data (vw w) = data (vw (os e));
  op_fds : fds (vw w) = <[fd := mkDesc ino 0 false]> (fds (vw (os e)));
  op_int : (interrupts (vw w) <= interrupts (vw (os e)))%nat
}.

Lemma open_opened fname ino e fd w :
  dir (vw (os e)) !! c_str fname = Some ino ->
  os_open (c_str fname) O_RDONLY (os e) = (Ret fd, w) -> opened e fd ino w.
Proof.
  intros Hdir E. destruct (open_read _ _ _ _ E) as (d & _ & Hfree & Hino & H1 & H2 & H3 & H4).
  rewrite (Hino ino Hdir) in H3. by split.
Qed.

(** Closing the descriptor restores the environment. *)
Lemma opened_close e fd ino w w1 :
  opened e fd ino w -> same_files (vw w) (vw w1) ->
  same_files (vw (os e)) (vw (snd (os_close fd w1))).
Proof.
  intros [] Hs. assert (Hd : fds (vw w1) !! fd = Some (mkDesc ino 0 false)).
  { destruct Hs as (_ & _ & -> & _). rewrite op_fds0. apply lookup_insert_eq. }
  destruct (close_frees fd _ w1 Hd) as (K1 & K2 & K3 & K4).
  exact (opened_closed _ _ _ _ fd _ op_free0 op_dir0 op_data0 op_fds0 op_int0 Hs K1 K2 K3 K4).
Qed.

(** [GetFileSize] and [mmap] of the open file. *)
Lemma map_file fname fd ino c e w :
  opened e fd ino w -> dir (vw (os e)) !! c_str fname = Some ino ->
  data (vw (os e)) !! ino = Some c -> zlen c < 2 ^ 63 ->
  forall e1 : PosixEnv W, os e1 = w ->
  exists s r w2,
    (let '(s, size, e2) := posix_GetFileSize fname e1 in
     if Status.ok s then
       match os_mmap size fd (os e2) with
       | (Ret base, w) => (s, Some (Mmapped (mkMmap fname base size)), set_os e2 w)
       | (Errno n, w) => (PosixError fname n, None, set_os e2 w)
       end
     else (s, None, e2)) = (s, r, set_os e1 w2) /\ same_files (vw w) (vw w2) /\
    ((Status.ok s = true /\ r = Some (Mmapped (mkMmap fname c (zlen c)))) \/
     (Status.ok s = false /\ r = None)).
Proof.
  intros [] Hdir Hc Hl e1 <-. unfold posix_GetFileSize.
  destruct (os_stat (c_str fname) (os e1)) as [[size|k] w1] eqn:E.
  2:{ rewrite PosixError_not_ok. do 3 eexists. split; [reflexivity|].
      split; [by eapply stat_error|]. right. by rewrite PosixError_not_ok. }
  assert (Hd1 : dir (vw (os e1)) !! c_str fname = Some ino) by congruence.
  assert (Hc1 : data (vw (os e1)) !! ino = Some c) by congruence.
  destruct (stat_some _ _ _ _ ino c Hd1 Hc1 E) as [-> Hs].
  pose proof (zlen_nonneg c) as H. rewrite u64_id by lia.
  cbn [Status.ok Status.OK Status.state_ os set_os]. pose proof Hs as (S1 & S2 & S3 & S4).
  destruct (os_mmap (zlen c) fd w1) as [[b|k] w2] eqn:E2.
  - assert (Hfd : fds (vw w1) !! fd = Some (mkDesc ino 0 false))
      by (rewrite S3, op_fds0; apply lookup_insert_eq).
    assert (Hc2 : data (vw w1) !! d_ino (mkDesc ino 0 false) = Some c) by (cbn [d_ino]; congruence).
    destruct (mmap_some _ _ _ _ c _ _ Hfd Hc2 (conj H (Z.le_refl _)) E2) as [-> Hs2].
    rewrite to_nat_zlen, firstn_all. do 3 eexists. split; [reflexivity|].
    split; [by eapply same_files_trans|]. by left.
  - do 3 eexists. split; [reflexivity|].
    split; [eapply same_files_trans; [done|by eapply mmap_error]|]. right. by rewrite PosixError_not_ok.
Qed.

(** The two limits, and what a release gives back. *)
Lemma limiter_round a :
  limiter_Acquire a = (true, a - 1) /\ limiter_Release (a - 1) = a \/ limiter_Acquire a = (false, a).
Proof. unfold limiter_Acquire, limiter_Release. zcases; [by right|left; split; [done|lia]]. Qed.

(** What [NewRandomAccessFile] promises of a file with contents [c]. *)
Definition random_file_result (c : bytes) (e : PosixEnv W)
    (s : Status.Status) (r : option RandomAccessFile) (e1 : PosixEnv W) : Prop :=
  dir (vw (os e1)) = dir (vw (os e)) /\ data (vw (os e1)) = data (vw (os e)) /\
  match r with
  | None => Status.ok s = false /\ same_env e e1
  | Some f =>
      Status.ok s = true /\ serves c f e1 /\
      forall e2, same_env e1 e2 -> same_env e (posix_release f e2)
  end.

Lemma mapped_result fname c e w1 :
  zlen c < 2 ^ 63 -> limiter_Release (mmap_limit_ e - 1) = mmap_limit_ e ->
  same_files (vw (os e)) (vw w1) ->
  random_file_result c e Status.OK (Some (Mmapped (mkMmap fname c (zlen c))))
    (mkEnv w1 (locks_ e) (mmap_limit_ e - 1) (fd_limit_ e)).
Proof.
  intros Hl Hrel Hs. pose proof Hs as (S1 & S2 & S3 & S4).
  split_and!; cbn [os]; [done..| |]; [by apply mapped_serves|].
  intros e2 (Hf & H1 & H2 & H3). cbn [os locks_ mmap_limit_ fd_limit_] in *.
  unfold posix_release, mmap_delete, pread_delete. cbn [mmapped_region_ mm_length_]. split_and!; cbn [os locks_ mmap_limit_ fd_limit_];
    [|congruence..]. eapply same_files_trans; [|apply munmap_files]. by eapply same_files_trans.
Qed.

Lemma kept_open_result fname fd ino c e w :
  opened e fd ino w -> data (vw (os e)) !! ino = Some c ->
  limiter_Release (fd_limit_ e - 1) = fd_limit_ e ->
  random_file_result c e Status.OK (Some (Pread (mkRandomAccess fname false fd)))
    (mkEnv w (locks_ e) (mmap_limit_ e) (fd_limit_ e - 1)).
Proof.
  intros Ho Hc Hrel. pose proof Ho as [].
  split_and!; cbn [os]; [done..| |].
  - apply (kept_open_serves _ _ ino); cbn [os]; [rewrite op_fds0; apply lookup_insert_eq|congruence].
  - intros e2 (Hf & H1 & H2 & H3). cbn [os locks_ mmap_limit_ fd_limit_] in *.
    unfold posix_release, mmap_delete, pread_delete. cbn [temporary_fd_ negb ra_fd_].
    split_and!; cbn [os locks_ mmap_limit_ fd_limit_]; [|congruence..]. by eapply opened_close.
Qed.

Lemma temporary_result fname fd ino c e w :
  opened e fd ino w -> dir (vw (os e)) !! c_str fname = Some ino -> data (vw (os e)) !! ino = Some c ->
  random_file_result c e Status.OK (Some (Pread (mkRandomAccess fname true (-1))))
    (mkEnv (snd (os_close fd w)) (locks_ e) (mmap_limit_ e) (fd_limit_ e)).
Proof.
  intros Ho Hdir Hc.
  pose proof (opened_close e fd ino w w Ho (conj eq_refl (conj eq_refl (conj eq_refl (le_n _))))) as Hs.
  pose proof Hs as (S1 & S2 & S3 & S4). split_and!; cbn [os]; [done..| |].
  - apply (temporary_serves _ ino); cbn [os]; congruence.
  - intros e2 (Hf & H1 & H2 & H3). cbn [os locks_ mmap_limit_ fd_limit_] in *.
    unfold posix_release, mmap_delete, pread_delete. cbn [temporary_fd_ negb]. split_and!; [|done..]. by eapply same_files_trans.
Qed.

Lemma NewRandomAccessFile_result fname ino c e :
  dir (vw (os e)) !! c_str fname = Some ino -> data (vw (os e)) !! ino = Some c -> zlen c < 2 ^ 63 ->
  forall s r e1, posix_NewRandomAccessFile fname e = (s, r, e1) -> random_file_result c e s r e1.
Proof.
  intros Hdir Hc Hl s r e1. unfold posix_NewRandomAccessFile.
  destruct (os_open (c_str fname) O_RDONLY (os e)) as [[fd|k] w] eqn:E.
  2:{ intros [= <- <- <-]. pose proof (open_error _ _ _ _ _ E) as Hs. pose proof Hs as (H1 & H2 & _).
      split_and!; try done. by rewrite PosixError_not_ok. }
  pose proof (open_opened _ _ _ _ _ Hdir E) as Ho. cbn [set_os mmap_limit_ fd_limit_ locks_ os].
  destruct (limiter_round (mmap_limit_ e)) as [[-> Hrel]| ->].
  - destruct (map_file fname fd ino c e w Ho Hdir Hc Hl
      (mkEnv w (locks_ e) (mmap_limit_ e - 1) (fd_limit_ e)) eq_refl) as (s1 & r1 & w2 & HM & Hsame & Hcase).
    destruct (posix_GetFileSize fname _) as [[s0 size] e2]. rewrite HM. clear HM.
    cbn [set_os os locks_ mmap_limit_ fd_limit_]. pose proof (opened_close _ _ _ _ _ Ho Hsame) as Hs.
    destruct Hcase as [[Hok ->]|[Hok ->]]; rewrite Hok; cbn [negb]; intros [= <- <- <-].
    + destruct (mapped_result fname c e _ Hl Hrel Hs) as (H1 & H2 & _ & H3). split; [exact H1|]. split; [exact H2|]. exact (conj Hok H3).
    + pose proof Hs as (H1 & H2 & _). split_and!; cbn [os locks_ mmap_limit_ fd_limit_]; try done.
  - destruct (limiter_round (fd_limit_ e)) as [[-> Hrel]| ->]; cbn [ra_new negb]; intros [= <- <- <-].
    + by apply (kept_open_result fname fd ino).
    + by apply (temporary_result fname fd ino).
Qed.

End lemmas.

(** ** Properties *)

(** A read of a mapped file.  Inside the file it yields exactly the bytes
    asked for; past its end it fails with EINVAL and an empty slice, unless
    [offset + n] exceeds 64 bits: the sum then wraps, the test passes, and the
    slice returned reaches outside the mapping or starts outside of it. *)
Theorem mmap_Read_cases {W : Type} {OS : PosixOS W} fname region offset n
  (Hl : zlen region < 2 ^ 64) (Ho : 0 <= offset < 2 ^ 64) (Hn : 0 <= n < 2 ^ 64) :
  let f := mkMmap fname region (zlen region) in
  (offset + n <= zlen region ->
     exists r, mm_Read (H := OS) f offset n = Normal (Status.OK, r) /\ Slice.slice_ok r /\
       Slice.view r = take (Z.to_nat n) (drop (Z.to_nat offset) region)) /\
  (zlen region < offset + n < 2 ^ 64 ->
     mm_Read (H := OS) f offset n = Normal (PosixError (H := OS) fname EINVAL, Slice.Slice_empty)) /\
  (2 ^ 64 <= offset + n <= 2 ^ 64 + zlen region ->
     mm_Read (H := OS) f offset n = Undefined \/
     exists r, mm_Read (H := OS) f offset n = Normal (Status.OK, r) /\ ~ Slice.slice_ok r).
Proof.
  cbv zeta. split_and!.
  - intros Hin. apply mm_Read_inside; lia.
  - intros Hout. apply mm_Read_outside; lia.
  - intros Hwrap. unfold mm_Read. cbn [mm_length_ mmapped_region_].
    replace (u64 (offset + n)) with (offset + n - 2 ^ 64)
      by (unfold u64; rewrite <- (Z.mod_unique (offset + n) (2 ^ 64) 1 (offset + n - 2 ^ 64)); lia).
    zcases; try lia; [|by left]. right. eexists. split; [reflexivity|].
    intros [Hsize _]. cbn [Slice.Slice_of_ptr Slice.size_ Slice.data_] in Hsize. zlia.
Qed.

(** Three bytes at the end of a region, and a request whose end wraps around. *)
Lemma mmap_Read_cases_witness :
  (exists r, mm_Read (H := MemOS.mem_os) (mkMmap b!"f" b!"abcdef" 6) 3 3 = Normal (Status.OK, r) /\ Slice.view r = b!"def") /\
  (exists r, mm_Read (H := MemOS.mem_os) (mkMmap b!"f" b!"abcdef" 6) 4 (2 ^ 64 - 2) = Normal (Status.OK, r) /\
     ~ Slice.slice_ok r).
Proof.
  split.
  - destruct (mmap_Read_cases (OS := MemOS.mem_os) b!"f" b!"abcdef" 3 3) as (H & _ & _); [reflexivity|lia|lia|].
    destruct H as (r & H1 & _ & H2); [discriminate|]. exists r. exact (conj H1 H2).
  - destruct (mmap_Read_cases (OS := MemOS.mem_os) b!"f" b!"abcdef" 4 (2 ^ 64 - 2)) as (_ & _ & H); [reflexivity|lia|lia|].
    destruct H as [H|H]; [split; discriminate|discriminate|exact H].
Defined.

(** C26: a random-access file.  Over any system that behaves as POSIX says,
    opening an existing file either fails and changes nothing, or gives a file
    every read of which returns, and when it succeeds yields bytes of the file
    at that offset, none only if none were asked for or the end was reached;
    reads leave descriptors, limits and files as they were, and after the file
    object is destroyed the descriptors and both limits are again those before
    it was opened, whichever of the three kinds was chosen. *)
Theorem random_access_serves {W : Type} {OS : PosixOS W} (vw : W -> view) (Laws : PosixLaws W vw)
  fname ino c (e : PosixEnv W)
  (Hdir : dir (vw (os e)) !! c_str fname = Some ino) (Hc : data (vw (os e)) !! ino = Some c)
  (Hl : zlen c < 2 ^ 63) :
  let '(s, r, e1) := posix_NewRandomAccessFile fname e in
  match r with
  | None => Status.ok s = false /\ same_env (vw := vw) e e1
  | Some f =>
      Status.ok s = true /\
      (forall e2 offset n result,
         same_env (vw := vw) e1 e2 -> 0 <= offset -> 0 <= n -> offset + n < 2 ^ 63 ->
         exists s' b e3, random_Read f offset n result e2 = Normal (s', b, e3) /\
           same_env (vw := vw) e2 e3 /\
           (Status.ok s' = true -> read_result c offset n (Slice.view b))) /\
      (forall e2, same_env (vw := vw) e1 e2 -> same_env (vw := vw) e (posix_release f e2))
  end.
Proof.
  destruct (posix_NewRandomAccessFile fname e) as [[s r] e1] eqn:E.
  destruct (NewRandomAccessFile_result (vw := vw) fname ino c e Hdir Hc Hl s r e1 E) as (_ & _ & H).
  exact H.
Qed.

(** A file of five bytes, mapped, kept open, and opened for every read. *)
Definition five_world : MemOS.world :=
  MemOS.mkWorld (mkView {[ b!"/f" := 0%nat ]} {[ 0%nat := b!"hello" ]} ∅ 0) 3 1 3.

Definition five_env (mmaps files : Z) : PosixEnv MemOS.world := mkEnv five_world ∅ mmaps files.

Definition five_read (mmaps files : Z) : bytes :=
  match posix_NewRandomAccessFile (H := MemOS.mem_os) b!"/f" (five_env mmaps files) with
  | (_, Some f, e) =>
      match random_Read (H := MemOS.mem_os) f 1 3 [] e with
      | Normal (_, b, _) => Slice.view b
      | _ => []
      end
  | _ => []
  end.

Example five_reads : five_read 1 1 = b!"ell" /\ five_read 0 1 = b!"ell" /\ five_read 0 0 = b!"ell".
Proof. vm_compute. done. Qed.

Lemma random_access_serves_witness :
  let '(s, r, e1) := posix_NewRandomAccessFile (H := MemOS.mem_os) b!"/f" (five_env 0 1) in
  Status.ok s = true /\ exists f, r = Some f /\
    same_env (vw := MemOS.files) (five_env 0 1) (posix_release (H := MemOS.mem_os) f e1).
Proof.
  pose proof (random_access_serves MemOS.files MemOS.mem_laws b!"/f" 0%nat b!"hello" (five_env 0 1)
    ltac:(vm_compute; reflexivity) ltac:(vm_compute; reflexivity) ltac:(vm_compute; reflexivity)) as Hr.
  destruct (posix_NewRandomAccessFile (H := MemOS.mem_os) b!"/f" (five_env 0 1)) as [[s [f|]] e1] eqn:E.
  - destruct Hr as (Hs & _ & H). split; [exact Hs|]. exists f. split; [reflexivity|].
    apply H. split; [|done]. split_and!; done.
  - vm_compute in E. discriminate E.
Defined.
