(* ===== verification/Background.v ===== *)
(** * The background thread (bench/util/env_posix.cc, Schedule and BGThread)

    Any number of threads call [Schedule], each with its own list of items; the
    first call starts the background thread, which takes the items off the
    queue and runs them.  The next action of a thread is a function of the
    state, [None] when it is blocked; actions interleave in any order, and
    [pthread_cond_wait] may return without a signal.  The functions scheduled
    are one action each; the pthread calls succeed ([PthreadCall] aborts
    otherwise). *)

From S2P Require Import Prelude.

Module Background.

(** Entry per [Schedule()] call. *)
Record BGItem := mkItem { arg : Z; function : Z }.

(** Where a caller is in [Schedule]. *)
Inductive cpc :=
  | CIdle    (* about to lock mu_, when it has an item left *)
  | CStart   (* if (!started_bgthread_) *)
  | CSignal  (* if (queue_.empty()) *)
  | CPush    (* queue_.push_back *)
  | CUnlock.

(** Where the background thread is in [BGThread]. *)
Inductive bpc :=
  | BNone                  (* not created yet *)
  | BLock                  (* pthread_mutex_lock *)
  | BCheck                 (* while (queue_.empty()), with mu_ *)
  | BWait                  (* asleep in pthread_cond_wait *)
  | BWoken                 (* woken in it, acquiring mu_ *)
  | BUnlock (it : BGItem)  (* the item is off the queue *)
  | BRun (it : BGItem).    (* ( *function)(arg) *)

Inductive who := Caller (i : nat) | BG.

#[export] Instance who_eq_dec : EqDecision who.
Proof. solve_decision. Defined.

Record caller := mkCaller { c_pc : cpc; c_todo : list BGItem }.

(** [mu_], [started_bgthread_], [queue_] and the threads; [pushed] and [ran]
    are the history: which caller scheduled what, and what has been run. *)
Record state := mkState {
  mu_ : option who; started_bgthread_ : bool; queue_ : list BGItem;
  callers : list caller; bg : bpc;
  pushed : list (nat * BGItem); ran : list BGItem
}.

Definition init (todos : list (list BGItem)) : state :=
  mkState None false [] (map (mkCaller CIdle) todos) BNone [] [].

Definition set_caller (i : nat) (p : cpc) (l : list BGItem) (s : state) : state :=
  mkState (mu_ s) (started_bgthread_ s) (queue_ s) (<[i := mkCaller p l]> (callers s)) (bg s)
    (pushed s) (ran s).

Definition set_bg (p : bpc) (s : state) : state :=
  mkState (mu_ s) (started_bgthread_ s) (queue_ s) (callers s) p (pushed s) (ran s).

Definition set_mu (m : option who) (s : state) : state :=
  mkState m (started_bgthread_ s) (queue_ s) (callers s) (bg s) (pushed s) (ran s).

Definition lock (t : who) (s : state) : option state :=
  match mu_ s with None => Some (set_mu (Some t) s) | Some _ => None end.

(** [pthread_cond_signal(&bgsignal_)]: only the background thread waits. *)
Definition signal (p : bpc) : bpc := match p with BWait => BWoken | _ => p end.

(** [Schedule] *)
Definition step_caller (i : nat) (s : state) : option state :=
  match callers s !! i with
  | Some (mkCaller CIdle (it :: l)) => set_caller i CStart (it :: l) <$> lock (Caller i) s
  | Some (mkCaller CStart l) =>
      let s := if negb (started_bgthread_ s)
               then mkState (mu_ s) true (queue_ s) (callers s) BLock (pushed s) (ran s) else s in
      Some (set_caller i CSignal l s)
  | Some (mkCaller CSignal l) =>
      let s := match queue_ s with [] => set_bg (signal (bg s)) s | _ => s end in
      Some (set_caller i CPush l s)
  | Some (mkCaller CPush (it :: l)) =>
      let s := mkState (mu_ s) (started_bgthread_ s) (queue_ s ++ [it]) (callers s) (bg s)
                 (pushed s ++ [(i, it)]) (ran s) in
      Some (set_caller i CUnlock l s)
  | Some (mkCaller CUnlock l) => Some (set_caller i CIdle l (set_mu None s))
  | _ => None
  end.

(** [BGThread] *)
Definition step_bg (s : state) : option state :=
  match bg s with
  | BLock | BWoken => set_bg BCheck <$> lock BG s
  | BCheck =>
      match queue_ s with
      | [] => Some (set_bg BWait (set_mu None s))
      | it :: q =>
          Some (mkState (mu_ s) (started_bgthread_ s) q (callers s) (BUnlock it) (pushed s) (ran s))
      end
  | BUnlock it => Some (set_bg (BRun it) (set_mu None s))
  | BRun it =>
      Some (mkState (mu_ s) (started_bgthread_ s) (queue_ s) (callers s) BLock (pushed s) (ran s ++ [it]))
  | BNone | BWait => None
  end.

(** An action of the program. *)
Inductive act : state -> state -> Prop :=
  | act_caller i s s' : step_caller i s = Some s' -> act s s'
  | act_bg s s' : step_bg s = Some s' -> act s s'.

(** A run with [k] actions and [j] waits that end without a signal. *)
Inductive exec : nat -> nat -> state -> state -> Prop :=
  | exec_done s : exec 0 0 s s
  | exec_act k j s s1 s2 : exec k j s s1 -> act s1 s2 -> exec (S k) j s s2
  | exec_spurious k j s s1 : exec k j s s1 -> bg s1 = BWait -> exec k (S j) s (set_bg BWoken s1).

(** ** The invariant *)
Definition holding (p : cpc) : bool := match p with CIdle => false | _ => true end.

Definition bg_holding (p : bpc) : bool :=
  match p with BCheck | BUnlock _ => true | _ => false end.

(** The item taken off the queue and not yet run. *)
Definition in_flight (p : bpc) : list BGItem :=
  match p with BUnlock it | BRun it => [it] | _ => [] end.

(** What caller [i] has scheduled. *)
Definition pushed_by (i : nat) (l : list (nat * BGItem)) : list BGItem :=
  snd <$> filter (fun p => p.1 = i) l.

Record inv (todos : list (list BGItem)) (s : state) : Prop := {
  inv_callers : length (callers s) = length todos;
  inv_todo i c : callers s !! i = Some c ->
    todos !! i = Some (pushed_by i (pushed s) ++ c_todo c) /\
    (c_pc c = CStart \/ c_pc c = CSignal \/ c_pc c = CPush -> c_todo c <> []);
  inv_pushed p : p ∈ pushed s -> (p.1 < length todos)%nat;
  inv_order : map snd (pushed s) = ran s ++ in_flight (bg s) ++ queue_ s;
  inv_mu i c : callers s !! i = Some c -> holding (c_pc c) = true <-> mu_ s = Some (Caller i);
  inv_mu_in i : mu_ s = Some (Caller i) -> (i < length (callers s))%nat;
  inv_mu_bg : bg_holding (bg s) = true <-> mu_ s = Some BG;
  inv_started : bg s = BNone <-> started_bgthread_ s = false;
  inv_not_started : started_bgthread_ s = false ->
    queue_ s = [] /\ forall i c, callers s !! i = Some c -> c_pc c = CIdle \/ c_pc c = CStart;
  (** a thread that sleeps has nothing to do, and is woken before it has *)
  inv_wait : bg s = BWait ->
    queue_ s = [] /\ forall i c, callers s !! i = Some c -> c_pc c <> CPush
}.

(** ** Lemmas *)
Lemma lookup_set (l : list caller) i c' j c :
  <[i := c']> l !! j = Some c -> (j = i /\ c = c') \/ (j <> i /\ l !! j = Some c).
Proof. intros [(-> & -> & _)|[? ?]]%list_lookup_insert_Some; auto. Qed.

Lemma pushed_by_app i l l' : pushed_by i (l ++ l') = pushed_by i l ++ pushed_by i l'.
Proof. unfold pushed_by. by rewrite filter_app, fmap_app. Qed.

Lemma pushed_by_same i it : pushed_by i [(i, it)] = [it].
Proof. unfold pushed_by. by rewrite filter_cons_True. Qed.

Lemma pushed_by_other i j it : j <> i -> pushed_by j [(i, it)] = [].
Proof. intros Hj. unfold pushed_by. rewrite filter_cons_False; [done|]. simpl. congruence. Qed.

Ltac proj := cbn [mu_ started_bgthread_ queue_ callers bg pushed ran c_pc c_todo
  set_caller set_bg set_mu] in *.

(** The callers after one of them has moved. *)
Ltac caller_case :=
  match goal with
  | H : <[_ := _]> _ !! _ = Some _ |- _ =>
      apply lookup_set in H as [[-> ->]|[? H]]; proj
  end.

Section invariant.
Variable todos : list (list BGItem).

Lemma bg_waits_locked s i c :
  inv todos s -> callers s !! i = Some c -> holding (c_pc c) = true -> bg_holding (bg s) = false.
Proof.
  intros Hinv Hi Hh. apply (inv_mu _ _ Hinv i c Hi) in Hh.
  destruct (bg_holding (bg s)) eqn:E; [|done]. apply (inv_mu_bg _ _ Hinv) in E. congruence.
Qed.

Lemma other_idle s i c j c' :
  inv todos s -> callers s !! i = Some c -> holding (c_pc c) = true ->
  callers s !! j = Some c' -> j <> i -> c_pc c' = CIdle.
Proof.
  intros Hinv Hi Hh Hj Hne. apply (inv_mu _ _ Hinv i c Hi) in Hh.
  destruct (c_pc c') eqn:E; [done|..]; exfalso;
    assert (Hm : mu_ s = Some (Caller j)) by (apply (inv_mu _ _ Hinv j c' Hj); by rewrite E); congruence.
Qed.

Lemma caller_lock_inv s i it l :
  inv todos s -> callers s !! i = Some (mkCaller CIdle (it :: l)) -> mu_ s = None ->
  inv todos (set_caller i CStart (it :: l) (set_mu (Some (Caller i)) s)).
Proof.
  intros Hinv Hi Hm. pose proof Hinv as []. destruct (inv_todo0 i _ Hi) as [Ht _].
  assert (Hlen : (i < length (callers s))%nat) by (by eapply lookup_lt_Some).
  assert (Hfree : forall j c, callers s !! j = Some c -> c_pc c = CIdle).
  { intros j c Hj. destruct (c_pc c) eqn:E; [done|..]; exfalso;
      assert (mu_ s = Some (Caller j)) by (apply (inv_mu0 j c Hj); by rewrite E); congruence. }
  assert (Hbg : bg_holding (bg s) = false).
  { destruct (bg_holding (bg s)) eqn:E; [|done]. apply (inv_mu_bg _ _ Hinv) in E. congruence. }
  split; proj; try done.
  - by rewrite length_insert.
  - intros j c Hj. caller_case; [by split|by apply inv_todo0].
  - intros j c Hj. caller_case; [done|]. rewrite (Hfree j c) by done. cbn. split; congruence.
  - intros j [= <-]. by rewrite length_insert.
  - rewrite Hbg. done.
  - intros Hs. destruct (inv_not_started0 Hs) as [Hq _]. split; [done|].
    intros j c Hj. caller_case; [by right|]. left. by apply (Hfree j).
  - intros Hb. destruct (inv_wait0 Hb) as [Hq Hc]. split; [done|].
    intros j c Hj. caller_case; [done|by apply (Hc j)].
Qed.

(** A step of [Schedule] with the mutex held throughout. *)
Lemma caller_held_inv s i c p' l' st' q' b' pu' :
  inv todos s -> callers s !! i = Some c -> holding (c_pc c) = true -> holding p' = true ->
  todos !! i = Some (pushed_by i pu' ++ l') ->
  (forall j, j <> i -> pushed_by j pu' = pushed_by j (pushed s)) ->
  (p' = CStart \/ p' = CSignal \/ p' = CPush -> l' <> []) ->
  (forall x, x ∈ pu' -> (x.1 < length todos)%nat) ->
  map snd pu' = ran s ++ in_flight b' ++ q' ->
  bg_holding b' = false -> st' = true -> b' <> BNone ->
  (b' = BWait -> q' = [] /\ p' <> CPush) ->
  inv todos (mkState (mu_ s) st' q' (<[i := mkCaller p' l']> (callers s)) b' pu' (ran s)).
Proof.
  intros Hinv Hi Hh Hp Ht Hoth Hne Hpu Hord Hb -> Hnone Hw.
  pose proof (other_idle s i c) as Hidle. pose proof Hinv as [].
  split; proj; try done.
  - by rewrite length_insert.
  - intros j d Hj. caller_case; [done|]. rewrite Hoth by done. by apply inv_todo0.
  - intros j d Hj. caller_case; [|by apply inv_mu0]. rewrite Hp. split; [|done].
    intros _. by apply (inv_mu0 i c Hi).
  - intros j Hm. rewrite length_insert. by apply inv_mu_in0.
  - rewrite Hb. split; [done|]. intros Hm. apply (inv_mu0 i c Hi) in Hh. congruence.
  - intros Hbw. destruct (Hw Hbw) as [Hq Hp']. split; [done|].
    intros j d Hj. caller_case; [done|]. by rewrite (Hidle j d).
Qed.

Lemma caller_unlock_inv s i l :
  inv todos s -> callers s !! i = Some (mkCaller CUnlock l) ->
  inv todos (set_caller i CIdle l (set_mu None s)).
Proof.
  intros Hinv Hi. pose proof (bg_waits_locked s i _ Hinv Hi eq_refl) as Hb.
  pose proof (fun j d => other_idle s i _ j d Hinv Hi eq_refl) as Hidle. pose proof Hinv as [].
  destruct (inv_todo0 i _ Hi) as [Ht _]. split; proj; try done.
  - by rewrite length_insert.
  - intros j d Hj. caller_case; [split; [done|by intros [|[|]]]|by apply inv_todo0].
  - intros j d Hj. caller_case; [done|]. by rewrite (Hidle j d).
  - by rewrite Hb.
  - intros Hs. destruct (inv_not_started0 Hs) as [Hq Hc]. split; [done|].
    intros j d Hj. caller_case; [by left|by apply (Hc j)].
  - intros Hbw. destruct (inv_wait0 Hbw) as [Hq Hc]. split; [done|].
    intros j d Hj. caller_case; [done|by apply (Hc j)].
Qed.

Lemma started_when s i c :
  inv todos s -> callers s !! i = Some c -> c_pc c <> CIdle -> c_pc c <> CStart ->
  started_bgthread_ s = true /\ bg s <> BNone.
Proof.
  intros [] Hi H1 H2. destruct (started_bgthread_ s) eqn:E.
  - split; [done|]. intros Hb. apply inv_started0 in Hb. congruence.
  - destruct (inv_not_started0 eq_refl) as [_ Hc]. by destruct (Hc i c Hi).
Qed.

Lemma step_caller_inv i s s' : inv todos s -> step_caller i s = Some s' -> inv todos s'.
Proof.
  intros Hinv. unfold step_caller. destruct (callers s !! i) as [[p l]|] eqn:Hi; [|done].
  pose proof (bg_waits_locked s i _ Hinv Hi) as Hb. pose proof (started_when s i _ Hinv Hi) as Hst.
  destruct (inv_todo _ _ Hinv i _ Hi) as [Ht Hne]. pose proof (inv_order _ _ Hinv) as Hord.
  pose proof (inv_pushed _ _ Hinv) as Hpu. proj.
  destruct p.
  - destruct l as [|it l]; [done|]. unfold lock. destruct (mu_ s) eqn:Em; [done|].
    intros [= <-]. by apply caller_lock_inv.
  - intros [= <-]. specialize (Hb eq_refl). destruct (started_bgthread_ s) eqn:Es; cbn [negb].
    + eapply (caller_held_inv s i); try done; proj; auto.
      * intros Hbn. apply (inv_started _ _ Hinv) in Hbn. congruence.
      * intros Hbw. destruct (inv_wait _ _ Hinv Hbw). done.
    + assert (Hbn : bg s = BNone) by (by apply (inv_started _ _ Hinv)).
      eapply (caller_held_inv s i); try done; proj; auto.
      rewrite Hord, Hbn. done.
  - intros [= <-]. specialize (Hb eq_refl). destruct Hst as [Hst Hnn]; [done..|].
    destruct (queue_ s) as [|q0 q] eqn:Eq.
    + unfold set_caller, set_bg. proj. rewrite Eq.
      eapply (caller_held_inv s i _ CPush l _ []); try done; proj; auto.
      * rewrite Hord. by destruct (bg s).
      * by destruct (bg s).
      * by destruct (bg s).
      * by destruct (bg s).
    + rewrite <- Eq in *. eapply (caller_held_inv s i); try done; proj; auto.
      intros Hbw. destruct (inv_wait _ _ Hinv Hbw). congruence.
  - destruct l as [|it l]; [done|]. intros [= <-]. specialize (Hb eq_refl).
    destruct Hst as [Hst Hnn]; [done..|].
    eapply (caller_held_inv s i); try done; proj; auto.
    + by rewrite pushed_by_app, pushed_by_same, <- app_assoc.
    + intros j Hj. by rewrite pushed_by_app, pushed_by_other, app_nil_r.
    + intros [|[|]]; done.
    + intros x [Hx|Hx%list_elem_of_singleton]%elem_of_app; [auto|]. subst x. cbn.
      rewrite <- (inv_callers _ _ Hinv). by eapply lookup_lt_Some.
    + by rewrite map_app, Hord, <- !app_assoc.
    + intros Hbw. destruct (inv_wait _ _ Hinv Hbw) as [_ Hc]. by destruct (Hc i _ Hi).
  - intros [= <-]. by apply caller_unlock_inv.
Qed.

(** A step of the background thread; [m'] and [b'] are the mutex and the place
    after it. *)
Lemma bg_move_inv s m' q' b' r' :
  inv todos s -> bg s <> BNone -> b' <> BNone ->
  ((m' = mu_ s /\ bg_holding b' = bg_holding (bg s)) \/
   (mu_ s = None /\ m' = Some BG /\ bg_holding b' = true) \/
   (mu_ s = Some BG /\ m' = None /\ bg_holding b' = false)) ->
  ran s ++ in_flight (bg s) ++ queue_ s = r' ++ in_flight b' ++ q' ->
  (b' = BWait -> q' = [] /\ mu_ s = Some BG) ->
  inv todos (mkState m' (started_bgthread_ s) q' (callers s) b' (pushed s) r').
Proof.
  intros Hinv Hbn Hbn' Hm Hord Hw. pose proof Hinv as [].
  assert (Hst : started_bgthread_ s = true).
  { destruct (started_bgthread_ s) eqn:E; [done|]. by apply (inv_started _ _ Hinv) in E. }
  split; proj; try done.
  - by rewrite inv_order0.
  - intros i c Hi. rewrite (inv_mu0 i c Hi).
    destruct Hm as [[-> _]|[(Hm & -> & _)|(Hm & -> & _)]]; [done|..]; rewrite Hm; split; congruence.
  - intros i Hi. apply inv_mu_in0.
    destruct Hm as [[-> _]|[(Hm & -> & _)|(Hm & -> & _)]]; congruence.
  - destruct Hm as [[-> ->]|[(Hm & -> & ->)|(Hm & -> & ->)]]; done.
  - rewrite Hst. split; congruence.
  - congruence.
  - intros Hb. destruct (Hw Hb) as [Hq Hmb]. split; [done|]. intros i c Hi Hp.
    assert (mu_ s = Some (Caller i)) by (apply (inv_mu0 i c Hi); by rewrite Hp). congruence.
Qed.

Lemma step_bg_inv s s' : inv todos s -> step_bg s = Some s' -> inv todos s'.
Proof.
  intros Hinv. pose proof (inv_mu_bg _ _ Hinv) as Hmb. unfold step_bg, lock.
  destruct (bg s) eqn:Eb; cbn [bg_holding] in Hmb; try done.
  - destruct (mu_ s) eqn:Em; [done|]. intros [= <-].
    apply (bg_move_inv s); rewrite ?Eb, ?Em; try done. by right; left.
  - assert (Hm : mu_ s = Some BG) by (by apply Hmb). destruct (queue_ s) eqn:Eq; intros [= <-].
    + unfold set_bg, set_mu. proj.
      apply (bg_move_inv s); rewrite ?Eb, ?Hm, ?Eq; try done. by right; right.
    + apply (bg_move_inv s); rewrite ?Eb, ?Hm, ?Eq; try done. by left.
  - destruct (mu_ s) eqn:Em; [done|]. intros [= <-].
    apply (bg_move_inv s); rewrite ?Eb, ?Em; try done. by right; left.
  - assert (Hm : mu_ s = Some BG) by (by apply Hmb). intros [= <-].
    apply (bg_move_inv s); rewrite ?Eb, ?Hm; try done. by right; right.
  - intros [= <-]. apply (bg_move_inv s); rewrite ?Eb; try done; [by left|].
    by rewrite <- app_assoc.
Qed.

Lemma spurious_inv s : inv todos s -> bg s = BWait -> inv todos (set_bg BWoken s).
Proof.
  intros Hinv Hb. apply (bg_move_inv s); rewrite ?Hb; try done. by left.
Qed.

Lemma init_background_inv : inv todos (init todos).
Proof.
  assert (Hc : forall i c, map (mkCaller CIdle) todos !! i = Some c ->
            c_pc c = CIdle /\ todos !! i = Some (c_todo c)).
  { intros i c Hi. rewrite list_lookup_fmap in Hi.
    destruct (todos !! i) as [l|]; [|done]. by injection Hi as <-. }
  split; cbn [init mu_ started_bgthread_ queue_ callers bg pushed ran]; try done.
  - by rewrite length_map.
  - intros i c Hi. destruct (Hc i c Hi) as [Hp Ht]. split; [done|]. rewrite Hp. by intros [|[|]].
  - by intros p ?%elem_of_nil.
  - intros i c Hi. destruct (Hc i c Hi) as [-> _]. done.
  - split; [done|]. intros i c Hi. left. by apply (Hc i c).
Qed.

Lemma exec_inv k j s s' : exec k j s s' -> inv todos s -> inv todos s'.
Proof.
  induction 1 as [s|k j s s1 s2 _ IH Ha|k j s s1 _ IH Hb]; [done|..]; intros Hs; specialize (IH Hs).
  - inversion_clear Ha as [i ? ? Hi|? ? Hi]; [exact (step_caller_inv _ _ _ IH Hi)|exact (step_bg_inv _ _ IH Hi)].
  - by apply spurious_inv.
Qed.

(** *** Progress *)
Definition finished (s : state) : Prop :=
  Forall (fun c => c = mkCaller CIdle []) (callers s) /\ queue_ s = [] /\ (bg s = BNone \/ bg s = BWait).

Lemma free_idle s i c : inv todos s -> mu_ s = None -> callers s !! i = Some c -> c_pc c = CIdle.
Proof.
  intros Hinv Hm Hi. destruct (c_pc c) eqn:E; [done|..];
    (assert (Hh : mu_ s = Some (Caller i)) by (apply (inv_mu _ _ Hinv i c Hi); by rewrite E)); congruence.
Qed.

(** A caller inside [Schedule] can go on. *)
Lemma caller_moves s i : inv todos s -> mu_ s = Some (Caller i) -> exists s', act s s'.
Proof.
  intros Hinv Hm. pose proof (inv_mu_in _ _ Hinv i Hm) as Hlt.
  destruct (lookup_lt_is_Some_2 _ _ Hlt) as [[p l] Hi].
  assert (Hh : holding p = true) by (by apply (inv_mu _ _ Hinv i _ Hi)).
  destruct (inv_todo _ _ Hinv i _ Hi) as [_ Hne]. proj.
  destruct p; try done; try (eexists; apply (act_caller i); unfold step_caller; rewrite Hi; done).
  destruct l as [|it l]; [exfalso; apply Hne; auto|].
  eexists. apply (act_caller i). unfold step_caller. by rewrite Hi.
Qed.

Lemma bg_moves s :
  inv todos s -> bg s <> BNone -> bg s <> BWait ->
  (mu_ s = None \/ mu_ s = Some BG) -> exists s', act s s'.
Proof.
  intros Hinv H1 H2 Hm. pose proof (inv_mu_bg _ _ Hinv) as Hb.
  enough (exists s', step_bg s = Some s') as [s' Hs] by (exists s'; by apply act_bg).
  unfold step_bg, lock. destruct (bg s); try done; cbn [bg_holding] in Hb; try by eexists.
  - destruct Hm as [->|Hm]; [by eexists|]. by apply Hb in Hm.
  - destruct (queue_ s); by eexists.
  - destruct Hm as [->|Hm]; [by eexists|]. by apply Hb in Hm.
Qed.

Lemma background_progress s : inv todos s -> finished s \/ exists s', act s s'.
Proof.
  intros Hinv. destruct (mu_ s) as [[i|]|] eqn:Em.
  - right. by apply (caller_moves s i).
  - right. apply bg_moves; auto; intros Hb; pose proof (proj2 (inv_mu_bg _ _ Hinv) Em) as Hh;
      by rewrite Hb in Hh.
  - destruct (decide (Exists (fun c => c_todo c <> []) (callers s))) as [Hex|Hno].
    { right. apply Exists_exists in Hex as ([p l] & (i & Hi)%list_elem_of_lookup & Hl). proj.
      pose proof (free_idle s i _ Hinv Em Hi) as Hp. proj. subst p. destruct l as [|it l]; [done|].
      eexists. apply (act_caller i). unfold step_caller, lock. by rewrite Hi, Em. }
    assert (Hall : Forall (fun c => c = mkCaller CIdle []) (callers s)).
    { apply Forall_lookup. intros i [p l] Hi. pose proof (free_idle s i _ Hinv Em Hi) as Hp. proj.
      subst p. destruct l as [|it l]; [done|]. destruct Hno. apply Exists_exists.
      eexists. split; [by eapply list_elem_of_lookup_2|done]. }
    assert (Hb : bg s = BNone \/ bg s = BWait \/ (bg s <> BNone /\ bg s <> BWait)).
    { destruct (bg s); auto. }
    destruct Hb as [Hb|[Hb|[H1 H2]]]; [left..|right].
    + apply (inv_started _ _ Hinv) in Hb as Hs. destruct (inv_not_started _ _ Hinv Hs) as [Hq _].
      split_and!; auto.
    + destruct (inv_wait _ _ Hinv Hb) as [Hq _]. split_and!; auto.
    + apply bg_moves; auto.
Qed.

(** *** Termination *)

(** Actions a caller still has before it: five per item, six more for the
    background thread to be woken and to take and run it. *)
Definition caller_rank (c : caller) : nat :=
  let k := length (c_todo c) in
  match c_pc c with
  | CIdle => 11 * k
  | CStart => 11 * k - 1
  | CSignal => 11 * k - 2
  | CPush => 11 * k - 5
  | CUnlock => 11 * k + 1
  end.

Definition bg_rank (p : bpc) : nat :=
  match p with
  | BNone | BLock | BWoken => 2 | BCheck => 1 | BWait => 0 | BUnlock _ => 4 | BRun _ => 3
  end.

Definition potential (s : state) : nat :=
  sum_list_with caller_rank (callers s) + 4 * length (queue_ s) + bg_rank (bg s).

Lemma rank_insert l i c c' :
  l !! i = Some c ->
  (sum_list_with caller_rank (<[i := c']> l) + caller_rank c =
   sum_list_with caller_rank l + caller_rank c')%nat.
Proof.
  revert i; induction l as [|x l IH]; intros [|i] Hi; simplify_eq/=; [lia|].
  specialize (IH i Hi). lia.
Qed.

Lemma act_lowers s s' : inv todos s -> act s s' -> (potential s' < potential s)%nat.
Proof.
  intros Hinv Hact. unfold potential. inversion Hact as [i s0 s1 Ha|s0 s1 Ha]; subst s0 s1; clear Hact.
  - unfold step_caller in Ha. destruct (callers s !! i) as [[p l]|] eqn:Hi; [|done].
    pose proof (fun c' => rank_insert _ i _ c' Hi) as Hr.
    destruct (inv_todo _ _ Hinv i _ Hi) as [_ Hne]. proj.
    destruct p; [destruct l as [|it l]; [done|]; unfold lock in Ha; destruct (mu_ s); [done|]
      | | |destruct l as [|it l]; [done|]|]; injection Ha as <-; proj.
    + specialize (Hr (mkCaller CStart (it :: l))). unfold caller_rank in Hr at 2 4. proj.
      cbn [length] in Hr. lia.
    + specialize (Hr (mkCaller CSignal l)). unfold caller_rank in Hr at 2 4. proj.
      assert (l <> []) by auto. destruct l; [done|]. cbn [length] in Hr.
      destruct (started_bgthread_ s) eqn:Es; cbn [negb]; proj; [lia|].
      apply (inv_started _ _ Hinv) in Es. rewrite Es. cbn [bg_rank]. lia.
    + specialize (Hr (mkCaller CPush l)). unfold caller_rank in Hr at 2 4. proj.
      assert (l <> []) by auto. destruct l; [done|]. cbn [length] in Hr.
      destruct (queue_ s) eqn:Eq; proj; rewrite ?Eq; [|lia].
      destruct (bg s); cbn [signal bg_rank length]; lia.
    + specialize (Hr (mkCaller CUnlock l)). unfold caller_rank in Hr at 2 4. proj.
      rewrite length_app. cbn [length] in *. lia.
    + specialize (Hr (mkCaller CIdle l)). unfold caller_rank in Hr at 2 4. proj. lia.
  - unfold step_bg, lock in Ha. destruct (bg s); try done;
      repeat match goal with
      | H : context [match mu_ ?s with _ => _ end] |- _ => destruct (mu_ s); try done
      | H : context [match queue_ ?s with _ => _ end] |- _ => destruct (queue_ s) eqn:?
      end; try done; injection Ha as <-; proj; cbn [bg_rank length]; rewrite ?Heql; cbn [length]; lia.
Qed.

Lemma exec_bounded k j s s' :
  exec k j s s' -> inv todos s -> (k + potential s' <= potential s + 2 * j)%nat.
Proof.
  induction 1 as [s|k j s s1 s2 He IH Ha|k j s s1 He IH Hb]; intros Hs; [lia|..]; specialize (IH Hs).
  - pose proof (act_lowers _ _ (exec_inv _ _ _ _ He Hs) Ha). lia.
  - unfold potential in *. proj. rewrite Hb in IH. cbn [bg_rank] in *. lia.
Qed.

Lemma potential_start :
  potential (init todos) = (11 * sum_list_with length todos + 2)%nat.
Proof.
  unfold potential. cbn [init callers queue_ bg bg_rank length].
  assert (sum_list_with caller_rank (map (mkCaller CIdle) todos) = 11 * sum_list_with length todos)%nat
    as ->; [|lia].
  induction todos as [|l t IH]; cbn [map sum_list_with]; [done|]. rewrite IH.
  unfold caller_rank. cbn [c_pc c_todo]. lia.
Qed.

End invariant.

(** Where a caller of a reachable state is in its own list. *)
Lemma caller_share todos s i l :
  inv todos s -> todos !! i = Some l ->
  exists c, callers s !! i = Some c /\ l = pushed_by i (pushed s) ++ c_todo c.
Proof.
  intros Hinv Hl. assert (Hlt : (i < length (callers s))%nat).
  { rewrite (inv_callers todos _ Hinv). by eapply lookup_lt_Some. }
  destruct (lookup_lt_is_Some_2 _ _ Hlt) as [c Hc]. exists c. split; [done|].
  destruct (inv_todo todos _ Hinv i c Hc) as [Ht _]. congruence.
Qed.

(** ** Properties *)

(** C11: the background thread runs every item once and in order.  However the
    threads interleave, and whether or not a wait ends without a signal, the
    items that have been run, the one taken off the queue and those still in it
    are, in this order, the items scheduled so far, and those scheduled by a
    caller are the first of its own items, in its order.  A run has at most
    eleven actions per item and two more, and two for every wait that ends
    without a signal; when no thread can act, every caller has scheduled all
    its items and exactly the items scheduled have been run. *)
Theorem background_runs_all todos k j s
  (Hrun : exec k j (init todos) s) :
  map snd (pushed s) = ran s ++ in_flight (bg s) ++ queue_ s /\
  (forall p, p ∈ pushed s -> (p.1 < length todos)%nat) /\
  (forall i l, todos !! i = Some l -> exists rest, l = pushed_by i (pushed s) ++ rest) /\
  (k <= 11 * sum_list_with length todos + 2 + 2 * j)%nat /\
  ((~ exists s', act s s') ->
     ran s = map snd (pushed s) /\ forall i l, todos !! i = Some l -> pushed_by i (pushed s) = l).
Proof.
  pose proof (exec_inv todos _ _ _ _ Hrun (init_background_inv todos)) as Hinv.
  pose proof (exec_bounded todos _ _ _ _ Hrun (init_background_inv todos)) as Hb.
  rewrite potential_start in Hb.
  split; [by apply (inv_order todos)|]. split; [apply (inv_pushed todos _ Hinv)|].
  split; [|split; [lia|]].
  - intros i l Hl. destruct (caller_share todos s i l Hinv Hl) as (c & _ & ->). by eexists.
  - intros Hstuck. destruct (background_progress todos s Hinv) as [(Hc & Hq & Hbg)|?]; [|done]. split.
    + rewrite (inv_order todos _ Hinv), Hq. destruct Hbg as [-> | ->]; by rewrite !app_nil_r.
    + intros i l Hl. destruct (caller_share todos s i l Hinv Hl) as (c & Hci & ->).
      rewrite Forall_lookup in Hc. by rewrite (Hc i c Hci), app_nil_r.
Qed.

(** A schedule: who acts next. *)
Definition sched_step (t : who) (s : state) : option state :=
  match t with Caller i => step_caller i s | BG => step_bg s end.

Fixpoint run (l : list who) (s : state) : option state :=
  match l with
  | [] => Some s
  | t :: l' => s' ← sched_step t s; run l' s'
  end.

Lemma run_exec l : forall k j s s1 s2, exec k j s s1 -> run l s1 = Some s2 -> exec (length l + k) j s s2.
Proof.
  induction l as [|t l IH]; intros k j s s1 s2 He Hr; cbn [run] in Hr.
  { by injection Hr as <-. }
  destruct (sched_step t s1) as [s3|] eqn:E; [|done]. cbn [length]. rewrite Nat.add_succ_comm.
  apply (IH _ _ _ s3); [|done]. eapply exec_act; [done|].
  destruct t as [i|]; [by apply (act_caller i)|by apply act_bg].
Qed.

(** Two callers; the background thread goes to sleep before the second item
    arrives and is woken for it. *)
Definition demo_items : list (list BGItem) := [[mkItem 1 10]; [mkItem 2 20]].

Definition demo_sched : list who :=
  replicate 5 (Caller 0) ++ replicate 6 BG ++ replicate 5 (Caller 1) ++ replicate 6 BG.

Definition demo_end : state :=
  mkState None true [] [mkCaller CIdle []; mkCaller CIdle []] BWait
    [(0%nat, mkItem 1 10); (1%nat, mkItem 2 20)] [mkItem 1 10; mkItem 2 20].

Lemma demo_run : run demo_sched (init demo_items) = Some demo_end.
Proof. vm_compute. reflexivity. Qed.

Lemma background_runs_all_witness :
  (22 <= 11 * 2 + 2)%nat /\ ran demo_end = [mkItem 1 10; mkItem 2 20].
Proof.
  pose proof (run_exec demo_sched 0 0 _ _ _ (exec_done _) demo_run) as He.
  destruct (background_runs_all demo_items _ 0 demo_end He) as (_ & _ & _ & H1 & H2).
  split; [exact H1|]. destruct H2 as [H2 _]; [|exact H2].
  intros [s' Ha]. inversion Ha as [i ? ? Hi|? ? Hi]; subst; [|discriminate].
  destruct i as [|[|i]]; discriminate.
Defined.

End Background.
