(* ===== verification/CommandLine.v ===== *)
(** * The command line (bench/bench.cc, main)

    [main] reads its arguments into the flags, one after the other; an argument
    that no test accepts ends the program.  [sscanf] is modelled for the two
    conversions the sources use, [%d] and [%c]: a number that does not fit an
    [int] has no defined result. *)

From S2P Require Import Prelude CLib Slice Workload.

Local Open Scope Z_scope.

(** ** sscanf(arg, "<prefix>%d%c", &n, &junk) *)

(** The rest of [s] after [prefix]. *)
Fixpoint strip_prefix (prefix s : bytes) : option bytes :=
  match prefix, s with
  | [], _ => Some s
  | x :: p, y :: s' => if x =? y then strip_prefix p s' else None
  | _, _ => None
  end.

Fixpoint skip_spaces (s : bytes) : bytes :=
  match s with
  | c :: s' => if isspace c then skip_spaces s' else s
  | [] => []
  end.

(** The longest prefix of digits, and the rest. *)
Fixpoint span_digits (s : bytes) : bytes * bytes :=
  match s with
  | c :: s' => if isdigit c then let '(d, r) := span_digits s' in (c :: d, r) else ([], s)
  | [] => ([], [])
  end.

Definition scan_sign (s : bytes) : Z * bytes :=
  match s with
  | 45 :: s' => (-1, s')
  | 43 :: s' => (1, s')
  | _ => (1, s)
  end.

(** What the call stores in [n], when it returns 1: the number is there and
    nothing follows it. *)
Definition sscanf_d (prefix arg : bytes) : outcome (option Z) :=
  match strip_prefix prefix arg with
  | None => Normal None
  | Some s =>
      let '(sign, s) := scan_sign (skip_spaces s) in
      let '(digits, rest) := span_digits s in
      match digits with
      | [] => Normal None
      | _ =>
          n ← int_result (sign * dec_value digits);
          Normal (match rest with [] => Some n | _ => None end)
      end
  end.

(** [strncmp(arg, prefix, strlen(prefix)) == 0], and [arg + strlen(prefix)] *)
Definition strncmp_prefix (prefix arg : bytes) : option bytes := strip_prefix prefix arg.

(** ** Flags *)
Definition set_benchmarks v f := mkFlags v (FLAGS_engine f) (FLAGS_num f) (FLAGS_reads f) (FLAGS_threads f)
  (FLAGS_key_size f) (FLAGS_value_size f) (FLAGS_histogram f) (FLAGS_db f) (FLAGS_db_size_in_gb f)
  (FLAGS_readwritepercent f).

Definition set_engine v f := mkFlags (FLAGS_benchmarks f) v (FLAGS_num f) (FLAGS_reads f) (FLAGS_threads f)
  (FLAGS_key_size f) (FLAGS_value_size f) (FLAGS_histogram f) (FLAGS_db f) (FLAGS_db_size_in_gb f)
  (FLAGS_readwritepercent f).

Definition set_num v f := mkFlags (FLAGS_benchmarks f) (FLAGS_engine f) v (FLAGS_reads f) (FLAGS_threads f)
  (FLAGS_key_size f) (FLAGS_value_size f) (FLAGS_histogram f) (FLAGS_db f) (FLAGS_db_size_in_gb f)
  (FLAGS_readwritepercent f).

Definition set_reads v f := mkFlags (FLAGS_benchmarks f) (FLAGS_engine f) (FLAGS_num f) v (FLAGS_threads f)
  (FLAGS_key_size f) (FLAGS_value_size f) (FLAGS_histogram f) (FLAGS_db f) (FLAGS_db_size_in_gb f)
  (FLAGS_readwritepercent f).

Definition set_threads v f := mkFlags (FLAGS_benchmarks f) (FLAGS_engine f) (FLAGS_num f) (FLAGS_reads f) v
  (FLAGS_key_size f) (FLAGS_value_size f) (FLAGS_histogram f) (FLAGS_db f) (FLAGS_db_size_in_gb f)
  (FLAGS_readwritepercent f).

Definition set_key_size v f := mkFlags (FLAGS_benchmarks f) (FLAGS_engine f) (FLAGS_num f) (FLAGS_reads f)
  (FLAGS_threads f) v (FLAGS_value_size f) (FLAGS_histogram f) (FLAGS_db f) (FLAGS_db_size_in_gb f)
  (FLAGS_readwritepercent f).

Definition set_value_size v f := mkFlags (FLAGS_benchmarks f) (FLAGS_engine f) (FLAGS_num f) (FLAGS_reads f)
  (FLAGS_threads f) (FLAGS_key_size f) v (FLAGS_histogram f) (FLAGS_db f) (FLAGS_db_size_in_gb f)
  (FLAGS_readwritepercent f).

Definition set_histogram v f := mkFlags (FLAGS_benchmarks f) (FLAGS_engine f) (FLAGS_num f) (FLAGS_reads f)
  (FLAGS_threads f) (FLAGS_key_size f) (FLAGS_value_size f) v (FLAGS_db f) (FLAGS_db_size_in_gb f)
  (FLAGS_readwritepercent f).

Definition set_db v f := mkFlags (FLAGS_benchmarks f) (FLAGS_engine f) (FLAGS_num f) (FLAGS_reads f)
  (FLAGS_threads f) (FLAGS_key_size f) (FLAGS_value_size f) (FLAGS_histogram f) v (FLAGS_db_size_in_gb f)
  (FLAGS_readwritepercent f).

Definition set_db_size v f := mkFlags (FLAGS_benchmarks f) (FLAGS_engine f) (FLAGS_num f) (FLAGS_reads f)
  (FLAGS_threads f) (FLAGS_key_size f) (FLAGS_value_size f) (FLAGS_histogram f) (FLAGS_db f) v
  (FLAGS_readwritepercent f).

Definition set_readwritepercent v f := mkFlags (FLAGS_benchmarks f) (FLAGS_engine f) (FLAGS_num f)
  (FLAGS_reads f) (FLAGS_threads f) (FLAGS_key_size f) (FLAGS_value_size f) (FLAGS_histogram f) (FLAGS_db f)
  (FLAGS_db_size_in_gb f) v.

(** [else if (sscanf(...) == 1) flag = n; else ...] *)
Definition try_d (prefix arg : bytes) (set : Z -> Flags) (next : outcome Flags) : outcome Flags :=
  r ← sscanf_d prefix arg;
  match r with Some n => Normal (set n) | None => next end.

(** The body of the loop over the arguments. *)
Definition parse_arg (arg : bytes) (f : Flags) : outcome Flags :=
  b ← defined (Slice.starts_with (Slice.Slice_of_string arg) (Slice.Slice_of_string b!"--benchmarks="));
  if (b : bool) then Normal (set_benchmarks (drop (length b!"--benchmarks=") arg) f)
  else match strncmp_prefix b!"--engine=" arg with
  | Some v => Normal (set_engine v f)
  | None =>
      h ← sscanf_d b!"--histogram=" arg;
      match h with
      | Some 0 => Normal (set_histogram false f)
      | Some 1 => Normal (set_histogram true f)
      | _ =>
          try_d b!"--num=" arg (fun n => set_num n f)
         (try_d b!"--reads=" arg (fun n => set_reads n f)
         (try_d b!"--threads=" arg (fun n => set_threads n f)
         (try_d b!"--key_size=" arg (fun n => set_key_size n f)
         (try_d b!"--value_size=" arg (fun n => set_value_size n f)
         (try_d b!"--readwritepercent=" arg (fun n => set_readwritepercent n f)
         (match strncmp_prefix b!"--db=" arg with
          | Some v => Normal (set_db v f)
          | None => try_d b!"--db_size_in_gb=" arg (fun n => set_db_size n f) (Exited 1)
          end))))))
      end
  end.

Fixpoint parse_args (args : list bytes) (f : Flags) : outcome Flags :=
  match args with
  | [] => Normal f
  | a :: args' => f ← parse_arg a f; parse_args args' f
  end.

(** The words that print the usage. *)
Definition is_help (arg : bytes) : bool :=
  existsb (fun w => bool_decide (arg = w)) [b!"?"; b!"-?"; b!"h"; b!"-h"; b!"-help"; b!"--help"].

(** [main] up to the creation of the benchmark; [args] are [argv[1]] on. *)
Definition main_flags (args : list bytes) : outcome Flags :=
  match args with
  | a :: _ => if is_help a then Exited 1 else parse_args args default_flags
  | [] => parse_args args default_flags
  end.

(** ** Lemmas *)
Lemma strip_prefix_app p s : strip_prefix p (p ++ s) = Some s.
Proof. induction p as [|x p IH]; cbn; [done|]. by rewrite Z.eqb_refl. Qed.

Lemma strip_prefix_take p s r : strip_prefix p s = Some r -> s = p ++ r.
Proof.
  revert s; induction p as [|x p IH]; intros s; cbn; [by intros [= ->]|].
  destruct s as [|y s]; [done|]. zcases; [|done]. intros H%IH. by subst.
Qed.

Lemma span_digits_all l : Forall (fun c => isdigit c = true) l -> span_digits l = (l, []).
Proof. induction 1 as [|c l Hc _ IH]; cbn; [done|]. by rewrite Hc, IH. Qed.

Lemma isdigit_range c : isdigit c = true -> 48 <= c <= 57.
Proof. unfold isdigit. zcases; by try lia. Qed.

(** A number printed with [%d] and scanned with it. *)
Lemma scan_printed n :
  - 2 ^ 31 <= n < 2 ^ 31 ->
  exists digits, scan_sign (skip_spaces (format_d n)) = (if n <? 0 then -1 else 1, digits) /\
    span_digits digits = (digits, []) /\ digits <> [] /\
    (if n <? 0 then -1 else 1) * dec_value digits = n.
Proof.
  intros Hn. unfold format_d. set (l := fun z => dec_digits 20 z []).
  assert (Hl : forall z, 0 <= z <= 2 ^ 31 ->
            span_digits (l z) = (l z, []) /\ dec_value (l z) = z /\
            exists c t, l z = c :: t /\ 48 <= c <= 57).
  { intros z Hz. pose proof (dec_digits_isdigit 20 z [] ltac:(lia) (Forall_nil_2 _)) as Hd. fold (l z) in Hd.
    split; [by apply span_digits_all|]. split; [unfold l; by rewrite dec_digits_value by lia|].
    pose proof (dec_digits_nonempty 20 z [] ltac:(lia)) as Hne. fold (l z) in Hne.
    destruct (l z) as [|c t]; [cbn in Hne; lia|]. exists c, t. split; [done|].
    apply Forall_cons in Hd as [Hc _]. by apply isdigit_range. }
  destruct (Z.ltb_spec n 0) as [Hneg|Hpos]; fold (l n) (l (- n)).
  - destruct (Hl (- n) ltac:(lia)) as (H1 & H2 & c & t & H3 & Hc). exists (l (- n)).
    split_and!; [done|done|by rewrite H3|lia].
  - destruct (Hl n ltac:(lia)) as (H1 & H2 & c & t & H3 & Hc). exists (l n). split_and!; [|done|by rewrite H3|lia].
    rewrite H3. cbn [skip_spaces]. replace (isspace c) with false by (unfold isspace; zcases; lia).
    unfold scan_sign. repeat case_match; try done; lia.
Qed.

Lemma sscanf_printed p n : - 2 ^ 31 <= n < 2 ^ 31 -> sscanf_d p (p ++ format_d n) = Normal (Some n).
Proof.
  intros Hn. unfold sscanf_d. rewrite strip_prefix_app.
  destruct (scan_printed n Hn) as (digits & -> & -> & Hne & Hv). destruct digits; [done|].
  rewrite Hv. unfold int_result. by zcases; try lia.
Qed.

Lemma sscanf_other p arg : strip_prefix p arg = None -> sscanf_d p arg = Normal None.
Proof. intros H. unfold sscanf_d. by rewrite H. Qed.

Lemma starts_with_prefix p arg :
  zlen arg < 2 ^ 64 -> zlen p < 2 ^ 64 ->
  Slice.starts_with (Slice.Slice_of_string arg) (Slice.Slice_of_string p) =
    Some (bool_decide (is_Some (strip_prefix p arg))).
Proof.
  intros Ha Hp. rewrite Slice.starts_with_view by (by apply Slice.Slice_of_string_ok).
  rewrite !Slice.view_of_string. f_equal. apply bool_decide_ext. split.
  - intros [r ->]. rewrite strip_prefix_app. by eexists.
  - intros [r ->%strip_prefix_take]. by eexists.
Qed.

(** ** Well-formed arguments *)
Inductive setting :=
  | SBenchmarks (v : bytes) | SEngine (v : bytes) | SHistogram (b : bool) | SNum (n : Z)
  | SReads (n : Z) | SThreads (n : Z) | SKeySize (n : Z) | SValueSize (n : Z)
  | SReadWritePercent (n : Z) | SDb (v : bytes) | SDbSize (n : Z).

(** The argument, as a user writes it. *)
Definition print_setting (s : setting) : bytes :=
  match s with
  | SBenchmarks v => b!"--benchmarks=" ++ v
  | SEngine v => b!"--engine=" ++ v
  | SHistogram b => b!"--histogram=" ++ format_d (if b then 1 else 0)
  | SNum n => b!"--num=" ++ format_d n
  | SReads n => b!"--reads=" ++ format_d n
  | SThreads n => b!"--threads=" ++ format_d n
  | SKeySize n => b!"--key_size=" ++ format_d n
  | SValueSize n => b!"--value_size=" ++ format_d n
  | SReadWritePercent n => b!"--readwritepercent=" ++ format_d n
  | SDb v => b!"--db=" ++ v
  | SDbSize n => b!"--db_size_in_gb=" ++ format_d n
  end.

Definition apply_setting (f : Flags) (s : setting) : Flags :=
  match s with
  | SBenchmarks v => set_benchmarks v f
  | SEngine v => set_engine v f
  | SHistogram b => set_histogram b f
  | SNum n => set_num n f
  | SReads n => set_reads n f
  | SThreads n => set_threads n f
  | SKeySize n => set_key_size n f
  | SValueSize n => set_value_size n f
  | SReadWritePercent n => set_readwritepercent n f
  | SDb v => set_db v f
  | SDbSize n => set_db_size n f
  end.

(** A string fits the address space, a number an [int]. *)
Definition setting_ok (s : setting) : Prop :=
  match s with
  | SBenchmarks v | SEngine v | SDb v => zlen v < 2 ^ 63
  | SHistogram _ => True
  | SNum n | SReads n | SThreads n | SKeySize n | SValueSize n | SReadWritePercent n | SDbSize n =>
      - 2 ^ 31 <= n < 2 ^ 31
  end.

Lemma zlen_format_d n : zlen (format_d n) <= 21.
Proof.
  unfold format_d. pose proof (dec_digits_length 20 n []). pose proof (dec_digits_length 20 (- n) []).
  cbn [length] in *. case_match; zlia.
Qed.

Lemma zlen_print s : setting_ok s -> zlen (print_setting s) < 2 ^ 64.
Proof.
  intros Hs. destruct s; cbn [print_setting setting_ok] in *; rewrite zlen_app;
    try match goal with |- context [format_d ?n] => pose proof (zlen_format_d n) end;
    match goal with |- zlen (str ?s) + _ < _ => assert (zlen (str s) <= 100) by (vm_compute; discriminate) end;
    lia.
Qed.

(** One test after the other, until the one for this argument. *)
Ltac flag_test :=
  match goal with
  | |- context [strip_prefix ?p (?q ++ ?v)] =>
      first [ replace (strip_prefix p (q ++ v)) with (@None bytes) by reflexivity
            | rewrite (strip_prefix_app p v) ]
  | |- context [sscanf_d ?p (?q ++ format_d ?n)] =>
      first [ rewrite (sscanf_other p (q ++ format_d n)) by reflexivity
            | rewrite (sscanf_printed p n) by lia ]
  | |- context [sscanf_d ?p (?q ++ ?v)] => rewrite (sscanf_other p (q ++ v)) by reflexivity
  end; cbn [mbind outcome_bind].

Lemma parse_printed s f :
  setting_ok s -> parse_arg (print_setting s) f = Normal (apply_setting f s).
Proof.
  intros Hs. pose proof (zlen_print s Hs) as Hl. unfold parse_arg, try_d, strncmp_prefix.
  rewrite starts_with_prefix by (done || (vm_compute; reflexivity)). cbn [defined mbind outcome_bind].
  destruct s; cbn [print_setting setting_ok apply_setting] in *.
  { rewrite strip_prefix_app. rewrite bool_decide_true by (by eexists). by rewrite drop_app_length. }
  all: match goal with |- context [strip_prefix ?p (?q ++ ?v)] =>
         replace (strip_prefix p (q ++ v)) with (@None bytes) by reflexivity end;
       rewrite bool_decide_false by (by intros [? ?]).
  all: repeat flag_test; try reflexivity.
  by destruct b.
Qed.

Lemma print_not_help s : is_help (print_setting s) = false.
Proof.
  unfold is_help. cbn [existsb].
  destruct s; cbn [print_setting]; match goal with |- context [str _ ++ ?v] => generalize v; intros u end;
    repeat (rewrite bool_decide_false by (intros H; vm_compute in H; discriminate H)); done.
Qed.

Lemma parse_args_printed l : forall rest f,
  Forall setting_ok l ->
  parse_args (map print_setting l ++ rest) f = parse_args rest (fold_left apply_setting l f).
Proof.
  induction l as [|s l IH]; intros rest f Hl; [done|]. apply Forall_cons in Hl as [Hs Hl].
  cbn [map app parse_args fold_left]. rewrite parse_printed by done. cbn [mbind outcome_bind]. by apply IH.
Qed.

(** The words the flags begin with. *)
Definition flag_names : list bytes :=
  [b!"--benchmarks="; b!"--engine="; b!"--histogram="; b!"--num="; b!"--reads="; b!"--threads=";
   b!"--key_size="; b!"--value_size="; b!"--readwritepercent="; b!"--db="; b!"--db_size_in_gb="].

Lemma parse_unknown a f :
  zlen a < 2 ^ 64 -> Forall (fun p => strip_prefix p a = None) flag_names -> parse_arg a f = Exited 1.
Proof.
  intros Ha Hn. unfold flag_names in Hn. rewrite !Forall_cons in Hn.
  destruct Hn as (H1 & H2 & H3 & H4 & H5 & H6 & H7 & H8 & H9 & H10 & H11 & _).
  unfold parse_arg, try_d, strncmp_prefix.
  rewrite starts_with_prefix by (done || (vm_compute; reflexivity)). cbn [defined mbind outcome_bind].
  rewrite H1, bool_decide_false by (by intros [? ?]). rewrite H2.
  rewrite !sscanf_other by done. cbn [mbind outcome_bind]. by rewrite H10.
Qed.

Lemma main_flags_printed l :
  Forall setting_ok l ->
  main_flags (map print_setting l) = Normal (fold_left apply_setting l default_flags).
Proof.
  intros Hl. pose proof (parse_args_printed l [] default_flags Hl) as H. rewrite app_nil_r in H.
  unfold main_flags. destruct l as [|s l]; [done|]. cbn [map] in *. by rewrite print_not_help, H.
Qed.

(** ** Properties *)

(** C22: the command line.  Every list of flags in the documented form, with
    numbers that fit an [int] and in any order, is accepted, and gives the
    default flags changed by each in turn, so that the last of two for the same
    flag counts; an argument that begins like none of the flags ends the program
    with status 1 wherever it stands. *)
Theorem command_line_read l
  (Hl : Forall setting_ok l) :
  main_flags (map print_setting l) = Normal (fold_left apply_setting l default_flags) /\
  forall a rest, zlen a < 2 ^ 64 -> Forall (fun p => strip_prefix p a = None) flag_names ->
    main_flags (map print_setting l ++ a :: rest) = Exited 1.
Proof.
  split.
  - by apply main_flags_printed.
  - intros a rest Ha Hn. pose proof (parse_args_printed l (a :: rest) default_flags Hl) as H.
    cbn [parse_args] in H. rewrite parse_unknown in H by done. cbn [mbind outcome_bind] in H.
    unfold main_flags. destruct l as [|s l]; cbn [map app] in *.
    + rewrite H. by destruct (is_help a).
    + by rewrite print_not_help.
Qed.

Lemma command_line_read_witness :
  main_flags [b!"--num=5"; b!"--db=/tmp/x"; b!"--num=-7"] =
    Normal (set_num (-7) (set_db b!"/tmp/x" (set_num 5 default_flags))) /\
  main_flags [b!"--num=5"; b!"--size=3"] = Exited 1.
Proof.
  destruct (command_line_read [SNum 5; SDb b!"/tmp/x"; SNum (-7)]) as [H _].
  - repeat (apply Forall_cons_2; [cbn [setting_ok]; first [lia | reflexivity]|]). apply Forall_nil_2.
  - split; [exact H|]. destruct (command_line_read [SNum 5]) as [_ H2].
    + apply Forall_cons_2; [cbn [setting_ok]; lia|apply Forall_nil_2].
    + apply (H2 b!"--size=3" []); [reflexivity|].
      repeat (apply Forall_cons_2; [reflexivity|]). apply Forall_nil_2.
Defined.
