(* ===== verification/MachineInfo.v ===== *)
(** * The header of a report (bench/bench.cc: TrimSpace, PrintEnvironment, PrintHeader)

    The description of the machine is read from /proc/cpuinfo line by line into
    a buffer of 1000 bytes.  The contents of the file, [None] when it cannot be
    opened, and the date [ctime] returns are arguments. *)

From Stdlib Require Import SpecFloat.
From S2P Require Import Prelude CLib Slice Double Format Workload.

Local Open Scope Z_scope.
Import Slice.

(** ** TrimSpace *)

(** [isspace] of a [char], which is signed: undefined for a negative value other
    than EOF *)
Definition isspace_char (c : Z) : option bool :=
  let i := schar c in
  if (0 <=? i) || (i =? -1) then Some (isspace i) else None.

(** [while (start < s.size() && isspace(s[start])) start++] *)
Fixpoint trim_start (fuel : nat) (s : Slice) (start : Z) : option Z :=
  if start <? size s then
    c ← index s start;
    space ← isspace_char c;
    if (space : bool) then match fuel with O => None | S fuel' => trim_start fuel' s (start + 1) end
    else Some start
  else Some start.

(** [while (limit > start && isspace(s[limit - 1])) limit--] *)
Fixpoint trim_limit (fuel : nat) (s : Slice) (start limit : Z) : option Z :=
  if start <? limit then
    c ← index s (limit - 1);
    space ← isspace_char c;
    if (space : bool) then match fuel with O => None | S fuel' => trim_limit fuel' s start (limit - 1) end
    else Some limit
  else Some limit.

(** one round more than there are bytes to read *)
Definition TrimSpace (s : Slice) : option Slice :=
  start ← trim_start (S (length (data s))) s 0;
  limit ← trim_limit (S (length (data s))) s start (size s);
  Some (Slice_of_ptr (drop (Z.to_nat start) (data s)) (limit - start)).

(** ** Reading cpuinfo *)

(** [strchr(s, c)]: the index, if any, before the terminating NUL; [None] when
    the block ends first. *)
Fixpoint strchr (s : bytes) (c : Z) : option (option Z) :=
  match s with
  | [] => None
  | x :: s' => if x =? c then Some (Some 0) else if x =? 0 then Some None
               else option_map (option_map (Z.add 1)) (strchr s' c)
  end.

(** [fgets]: at most [n] bytes of the file, up to a newline, and the rest. *)
Fixpoint fgets (n : nat) (file : bytes) : bytes * bytes :=
  match n, file with
  | O, _ | _, [] => ([], file)
  | S n', c :: file' => if c =? 10 then ([c], file') else let '(l, r) := fgets n' file' in (c :: l, r)
  end.

Record cpu := mkCpu { num_cpus : Z; cpu_type : bytes; cache_size : bytes }.

(** one round of the loop, with the line in the buffer *)
Definition cpu_line (line : bytes) (c : cpu) : outcome cpu :=
  sep ← defined (strchr line 58);
  match sep with
  | None => Normal c
  | Some sep =>
      key ← defined (TrimSpace (Slice_of_ptr line (u64 (sep - 1))));
      rest ← defined (Slice_of_cstr (drop (Z.to_nat (sep + 1)) line));
      val ← defined (TrimSpace rest);
      is_model ← defined (slice_eq key (Slice_of_string b!"model name"));
      if (is_model : bool) then
        n ← int_result (num_cpus c + 1);
        t ← defined (ToString val);
        Normal (mkCpu n t (cache_size c))
      else
        is_cache ← defined (slice_eq key (Slice_of_string b!"cache size"));
        if (is_cache : bool) then
          t ← defined (ToString val);
          Normal (mkCpu (num_cpus c) (cpu_type c) t)
        else Normal c
  end.

(** [while (fgets(line, sizeof(line), cpuinfo) != NULL)]: the buffer [buf] keeps
    what a shorter line leaves of it *)
Fixpoint cpu_loop (fuel : nat) (file buf : bytes) (c : cpu) : outcome cpu :=
  match file with
  | [] => Normal c
  | _ =>
      match fuel with
      | O => Undefined
      | S fuel' =>
          let '(text, rest) := fgets 999 file in
          buf ← defined (mem_write buf 0 (text ++ [0]));
          c ← cpu_line buf c;
          cpu_loop fuel' rest buf c
      end
  end.

Definition PrintEnvironment (junk : nat -> Z) (date : bytes) (cpuinfo : option bytes) : outcome bytes :=
  let head := b!"Date:       " ++ date in
  match cpuinfo with
  | None => Normal head
  | Some file =>
      c ← cpu_loop (length file) file (new_block junk 1000) (mkCpu 0 [] []);
      Normal (head ++ b!"CPU:        " ++ format_d (num_cpus c) ++ b!" * " ++ c_str (cpu_type c) ++ [10] ++
              b!"CPUCache:   " ++ c_str (cache_size c) ++ [10])
  end.

(** ** The header *)

(** by the macros of the compiler *)
Definition PrintWarnings (optimize ndebug : bool) : bytes :=
  (if optimize then [] else b!"WARNING: Optimization is disabled: benchmarks unnecessarily slow" ++ [10]) ++
  (if ndebug then [] else b!"WARNING: Assertions are enabled; benchmarks unnecessarily slow" ++ [10]).

(** What the header depends on beside the flags: what the buffer [line] held,
    [ctime], /proc/cpuinfo, how the C library shows a NaN, and the macros. *)
Record host := mkHost {
  h_line : nat -> Z; h_date : bytes; h_cpuinfo : option bytes; h_nan : bytes; h_optimize : bool; h_ndebug : bool
}.

Definition PrintHeader (h : host) (f : Flags) (num_ : Z) : outcome bytes :=
  env ← PrintEnvironment (h_line h) (h_date h) (h_cpuinfo h);
  entry ← int_result (FLAGS_key_size f + FLAGS_value_size f);
  Normal (env ++
    b!"Path:       " ++ c_str (FLAGS_db f) ++ [10] ++
    b!"Engine:     " ++ c_str (FLAGS_engine f) ++ [10] ++
    b!"Keys:       " ++ format_d (FLAGS_key_size f) ++ b!" bytes each" ++ [10] ++
    b!"Values:     " ++ format_d (FLAGS_value_size f) ++ b!" bytes each" ++ [10] ++
    b!"Entries:    " ++ format_d num_ ++ [10] ++
    b!"RawSize:    " ++ format_f (h_nan h) 1 (ddiv (d_of_Z (entry * num_)) (d_of_Z 1048576))
      ++ b!" MB (estimated)" ++ [10] ++
    PrintWarnings (h_optimize h) (h_ndebug h) ++
    b!"------------------------------------------------" ++ [10]).

(** ** Specification *)
Fixpoint drop_spaces (l : bytes) : bytes :=
  match l with
  | [] => []
  | c :: l' => if isspace c then drop_spaces l' else l
  end.

Definition trim (l : bytes) : bytes := reverse (drop_spaces (reverse (drop_spaces l))).

(** The bytes at which the two loops stop are ones [isspace] is defined on. *)
Definition testable (c : Z) : Prop := isspace_char c = Some (isspace c).

Definition trimmable (l : bytes) : Prop :=
  (forall c, head (drop_spaces l) = Some c -> testable c) /\ (forall c, last (trim l) = Some c -> testable c).

(** ** Lemmas *)
Lemma space_testable c : isspace c = true -> testable c.
Proof.
  unfold testable, isspace_char, schar, isspace. intros H.
  destruct (Z.ltb_spec c 128); [|exfalso; revert H; zcases; done || lia].
  revert H. destruct (Z.leb_spec 0 c); [done|]. zcases; done || lia.
Qed.

Lemma drop_spaces_split l : exists sp, l = sp ++ drop_spaces l.
Proof.
  induction l as [|c l [sp IH]]; [by exists []|]. cbn. destruct (isspace c).
  - exists (c :: sp). cbn. by f_equal.
  - by exists [].
Qed.

Lemma trim_end_snoc l c :
  reverse (drop_spaces (reverse (l ++ [c]))) =
  if isspace c then reverse (drop_spaces (reverse l)) else l ++ [c].
Proof. rewrite reverse_snoc. cbn [drop_spaces]. destruct (isspace c); [done|]. by rewrite reverse_cons, reverse_involutive. Qed.

(** The first loop, having passed [pre]. *)
Lemma trim_start_ok l : forall pre post fuel,
  (length l <= fuel)%nat -> (forall c, head (drop_spaces l) = Some c -> testable c) ->
  exists sp, l = sp ++ drop_spaces l /\
    trim_start fuel (mkSlice (pre ++ l ++ post) (zlen (pre ++ l))) (zlen pre) = Some (zlen (pre ++ sp)).
Proof.
  induction l as [|c l IH]; intros pre post fuel Hf Ht.
  { exists []. split; [done|]. destruct fuel; cbn [trim_start size size_]; rewrite !app_nil_r, Z.ltb_irrefl; done. }
  destruct fuel as [|fuel]; [cbn in Hf; lia|]. cbn [trim_start size size_].
  rewrite (proj2 (Z.ltb_lt _ _)) by zlia.
  assert (Hi : index (mkSlice (pre ++ (c :: l) ++ post) (zlen (pre ++ c :: l))) (zlen pre) = Some c).
  { rewrite index_lookup. cbn [data_ app]. rewrite to_nat_zlen. by rewrite list_lookup_middle. }
  rewrite Hi. cbn [mbind option_bind drop_spaces] in *.
  assert (Hc : isspace_char c = Some (isspace c)) by (destruct (isspace c) eqn:Ec; [by rewrite <- Ec; apply space_testable|by rewrite <- Ec; apply Ht]).
  rewrite Hc. cbn [mbind option_bind]. destruct (isspace c).
  - destruct (IH (pre ++ [c]) post fuel) as (sp & El & E); [cbn in Hf; lia|done|]. exists (c :: sp).
    split; [cbn; by f_equal|]. rewrite <- !app_assoc in E. cbn [app] in E |- *.
    replace (zlen pre + 1) with (zlen (pre ++ [c])) by zlia. exact E.
  - exists []. split; [done|]. by rewrite app_nil_r.
Qed.

(** The second loop, over what is left of [l]. *)
Lemma trim_limit_ok l : forall pre post n fuel,
  (length l <= fuel)%nat -> zlen (pre ++ l) <= n ->
  (forall c, last (reverse (drop_spaces (reverse l))) = Some c -> testable c) ->
  trim_limit fuel (mkSlice (pre ++ l ++ post) n) (zlen pre) (zlen (pre ++ l)) =
  Some (zlen (pre ++ reverse (drop_spaces (reverse l)))).
Proof.
  induction l as [|c l IH] using rev_ind; intros pre post n fuel Hf Hn Ht.
  { destruct fuel; cbn [trim_limit]; rewrite !app_nil_r, Z.ltb_irrefl; done. }
  rewrite length_app in Hf. cbn in Hf. destruct fuel as [|fuel]; [lia|]. cbn [trim_limit].
  rewrite (proj2 (Z.ltb_lt _ _)) by zlia.
  assert (Hz : zlen (pre ++ l ++ [c]) - 1 = zlen (pre ++ l)) by zlia. rewrite Hz.
  assert (Hi : index (mkSlice (pre ++ (l ++ [c]) ++ post) n) (zlen (pre ++ l)) = Some c).
  { rewrite index_lookup. cbn [data_]. rewrite to_nat_zlen, <- app_assoc, app_assoc. cbn [app]. by rewrite list_lookup_middle. }
  rewrite trim_end_snoc in Ht |- *. rewrite Hi. cbn [mbind option_bind].
  assert (Hc : isspace_char c = Some (isspace c)).
  { destruct (isspace c) eqn:Ec; rewrite <- Ec; [by apply space_testable|]. apply Ht. by rewrite last_snoc. }
  rewrite Hc. cbn [mbind option_bind]. destruct (isspace c); [|done].
  rewrite <- (IH pre ([c] ++ post) n fuel) by (done || zlia). by rewrite <- (app_assoc l [c] post).
Qed.

Lemma TrimSpace_ok s :
  slice_ok s -> trimmable (view s) -> exists s', TrimSpace s = Some s' /\ slice_ok s' /\ view s' = trim (view s).
Proof.
  intros Hs [Ht1 Ht2]. pose proof (ok_size s Hs) as Hsz. pose proof (ok_width s Hs).
  pose proof (length_view s Hs) as Hlen. set (l := view s) in *.
  assert (Es : s = mkSlice (l ++ drop (length l) (data_ s)) (zlen l)).
  { destruct s as [d n]. unfold l, view in *. cbn in *. rewrite Hlen. f_equal.
    rewrite length_take_le by (unfold zlen in Hsz; lia). by rewrite take_drop. }
  set (post := drop (length l) (data_ s)) in *. clearbody l post. subst s. cbn [size_ data_] in *.
  assert (Hf : (length l <= S (length (l ++ post)))%nat) by (rewrite length_app; lia).
  destruct (trim_start_ok l [] post _ Hf Ht1) as (sp & El & E1). unfold TrimSpace. cbn [data data_ size size_].
  change (zlen ([] : bytes)) with 0 in E1. cbn [app] in E1. rewrite E1. cbn [mbind option_bind].
  set (r := drop_spaces l) in *. set (t := reverse (drop_spaces (reverse r))).
  assert (E2 : trim_limit (S (length (l ++ post))) (mkSlice (l ++ post) (zlen l)) (zlen sp) (zlen l) = Some (zlen (sp ++ t))).
  { rewrite El, <- app_assoc. apply trim_limit_ok; [rewrite !length_app; lia|zlia|exact Ht2]. }
  rewrite E2. cbn [mbind option_bind]. eexists. split; [reflexivity|].
  assert (Hd : drop (Z.to_nat (zlen sp)) (l ++ post) = r ++ post).
  { rewrite to_nat_zlen, El, <- app_assoc. apply drop_app_length. }
  rewrite Hd. replace (zlen (sp ++ t) - zlen sp) with (zlen t) by zlia.
  assert (Ht : exists k, r = t ++ k).
  { destruct (drop_spaces_split (reverse r)) as [k Ek]. exists (reverse k).
    unfold t. rewrite <- reverse_app, <- Ek. by rewrite reverse_involutive. }
  destruct Ht as [k Ek]. split.
  - split; cbn [size_ data_ Slice_of_ptr].
    + pose proof (zlen_nonneg t). split; [done|]. rewrite Ek. zlia.
    + assert (zlen t <= zlen l) by (rewrite El, Ek; zlia). lia.
  - unfold view. cbn [size_ data_ Slice_of_ptr]. rewrite to_nat_zlen, Ek, <- app_assoc. apply take_app_length.
Qed.

Lemma drop_spaces_snoc l c :
  isspace c -> drop_spaces (l ++ [c]) = drop_spaces l ++ [c] \/ (drop_spaces (l ++ [c]) = [] /\ drop_spaces l = []).
Proof.
  intros Hc. induction l as [|x l IH]; cbn [app drop_spaces].
  - right. by destruct (isspace c).
  - destruct (isspace x); [exact IH|by left].
Qed.

(** Spaces at the end do not change the trimmed text. *)
Lemma trim_snoc l c : isspace c -> trim (l ++ [c]) = trim l.
Proof.
  intros Hc. unfold trim. destruct (drop_spaces_snoc l c Hc) as [->|[-> ->]]; [|done].
  rewrite trim_end_snoc. by destruct (isspace c).
Qed.

Lemma trimmable_snoc l c : isspace c -> trimmable l -> trimmable (l ++ [c]).
Proof.
  intros Hc [H1 H2]. split; [|by rewrite trim_snoc].
  intros x. destruct (drop_spaces_snoc l c Hc) as [->|[-> _]]; [|done].
  destruct (drop_spaces l) as [|y l'] eqn:El; [|apply H1]. cbn. intros [= <-]. apply space_testable. by destruct (isspace c).
Qed.

Lemma strchr_found k c r :
  Forall (fun x => x <> 0 /\ x <> c) k -> strchr (k ++ c :: r) c = Some (Some (zlen k)).
Proof.
  induction 1 as [|x k [H0 Hc] _ IH]; cbn [app strchr]; [by rewrite Z.eqb_refl|].
  rewrite (proj2 (Z.eqb_neq _ _) Hc), (proj2 (Z.eqb_neq _ _) H0), IH. cbn. do 2 f_equal. zlia.
Qed.

Lemma strchr_none t c r :
  c <> 0 -> Forall (fun x => x <> 0 /\ x <> c) t -> strchr (t ++ 0 :: r) c = Some None.
Proof.
  intros Hc0. induction 1 as [|x t [H0 Hc] _ IH]; cbn [app strchr].
  - by rewrite (proj2 (Z.eqb_neq _ _)).
  - by rewrite (proj2 (Z.eqb_neq _ _) Hc), (proj2 (Z.eqb_neq _ _) H0), IH.
Qed.

Lemma fgets_line t r : forall n,
  Forall (fun x => x <> 10) t -> (length t < n)%nat -> fgets n (t ++ 10 :: r) = (t ++ [10], r).
Proof.
  intros n Ht. revert n. induction Ht as [|x t Hx _ IH]; intros [|n] Hn; cbn in Hn; try lia; [done|].
  cbn [app fgets]. rewrite (proj2 (Z.eqb_neq _ _) Hx), IH by lia. done.
Qed.

(** A line in a buffer of [n] bytes. *)
Lemma buffer_line buf text :
  (length text < length buf)%nat ->
  exists r, mem_write buf 0 (text ++ [0]) = Some (text ++ 0 :: r) /\
    length (text ++ 0 :: r) = length buf.
Proof.
  intros H. exists (drop (length text + 1) buf). unfold mem_write.
  assert (zlen text < zlen buf) by zlia. pose proof (zlen_nonneg text). rewrite zlen_app.
  change (zlen [0]) with 1. zcases; try lia. cbn [Z.to_nat take app]. rewrite <- app_assoc, !length_app.
  split; [done|]. cbn [length Nat.add]. rewrite length_drop. lia.
Qed.

(** Only space: in front, behind; none at the ends of what is left. *)
Lemma drop_spaces_spec l :
  exists sp, l = sp ++ drop_spaces l /\ Forall (fun c => isspace c = true) sp /\
    (forall c, head (drop_spaces l) = Some c -> isspace c = false).
Proof.
  induction l as [|c l (sp & E & Hsp & Hh)]; cbn [drop_spaces]; [by exists []|].
  destruct (isspace c) eqn:Ec.
  - exists (c :: sp). cbn. split; [by f_equal|]. auto.
  - exists []. split; [done|]. split; [done|]. cbn. by intros ? [= <-].
Qed.

Lemma trim_spec l :
  exists a b, l = a ++ trim l ++ b /\ Forall (fun c => isspace c = true) (a ++ b) /\
    (forall c, head (trim l) = Some c -> isspace c = false) /\ (forall c, last (trim l) = Some c -> isspace c = false).
Proof.
  destruct (drop_spaces_spec l) as (a & Ea & Ha & Hh).
  destruct (drop_spaces_spec (reverse (drop_spaces l))) as (b & Eb & Hb & Hl). fold (trim l) in *.
  assert (Et : drop_spaces l = trim l ++ reverse b).
  { unfold trim. rewrite <- reverse_app, <- Eb. by rewrite reverse_involutive. }
  exists a, (reverse b). split_and!.
  - rewrite <- Et. exact Ea.
  - apply Forall_app. split; [done|]. by apply Forall_reverse.
  - intros c Hc. apply Hh. rewrite Et. by destruct (trim l).
  - intros c Hc. apply Hl. unfold trim in Hc. by rewrite last_reverse in Hc.
Qed.

Lemma testable_ascii c : 0 <= c < 128 -> testable c.
Proof. intros Hc. unfold testable, isspace_char, schar. rewrite (proj2 (Z.ltb_lt c 128)) by lia. by rewrite (proj2 (Z.leb_le 0 c)) by lia. Qed.

Lemma trimmable_ascii l : Forall (fun c => 0 <= c < 128) l -> trimmable l.
Proof.
  intros Hl. rewrite Forall_forall in Hl. split; intros c Hc; apply testable_ascii, Hl.
  - destruct (drop_spaces_split l) as [sp E]. rewrite E. apply elem_of_app. right.
    destruct (drop_spaces l); [done|]. injection Hc as ->. by left.
  - destruct (trim_spec l) as (a & b & E & _). rewrite E, !elem_of_app. right. left.
    by apply last_Some_elem_of.
Qed.

(** ** What the lines of the file mean *)

(** Text with no colon, or a key, the byte in front of the colon, and a value. *)
Inductive entry := Other (t : bytes) | Field (k : bytes) (c : Z) (v : bytes).

Definition entry_body (e : entry) : bytes :=
  match e with Other t => t | Field k c v => k ++ c :: 58 :: v end.

(** What [fgets] reads: a line with its newline, or 999 bytes of a longer one. *)
Inductive piece := Line (e : entry) | Cut (e : entry).

Definition entry_of (x : piece) : entry := match x with Line e | Cut e => e end.

Definition newline (x : piece) : bytes := match x with Line _ => [10] | Cut _ => [] end.

Definition piece_text (x : piece) : bytes := entry_body (entry_of x) ++ newline x.

Definition plain (x : Z) : Prop := x <> 0 /\ x <> 10.

Definition entry_ok (e : entry) : Prop :=
  match e with
  | Other t => Forall (fun x => plain x /\ x <> 58) t
  | Field k c v =>
      Forall (fun x => plain x /\ x <> 58) (k ++ [c]) /\ Forall plain v /\ trimmable k /\ trimmable v
  end.

Definition piece_ok (x : piece) : Prop :=
  entry_ok (entry_of x) /\
  match x with
  | Line e => (length (entry_body e) < 999)%nat
  | Cut e => length (entry_body e) = 999%nat
  end.

(** Processors are counted by their names; the last name and cache size stay. *)
Definition learn (c : cpu) (e : entry) : cpu :=
  match e with
  | Other _ => c
  | Field k _ v =>
      if decide (trim k = b!"model name") then mkCpu (num_cpus c + 1) (trim v) (cache_size c)
      else if decide (trim k = b!"cache size") then mkCpu (num_cpus c) (cpu_type c) (trim v)
      else c
  end.

Lemma view_prefix a b : view (mkSlice (a ++ b) (zlen a)) = a.
Proof. unfold view. cbn [size_ data_]. rewrite to_nat_zlen. apply take_app_length. Qed.

Lemma prefix_ok a b : zlen a < 2 ^ 64 -> slice_ok (mkSlice (a ++ b) (zlen a)).
Proof. intros. pose proof (zlen_nonneg a). split; cbn [size_ data_]; [zlia|done]. Qed.

Lemma slice_eq_text key t :
  slice_ok key -> zlen t < 2 ^ 64 ->
  slice_eq key (Slice_of_string t) = Some (bool_decide (view key = t)).
Proof. intros Hk Ht. rewrite slice_eq_view by eauto using Slice_of_string_ok. by rewrite view_of_string. Qed.

Lemma cpu_line_other t r c :
  Forall (fun x => x <> 0 /\ x <> 58) t -> cpu_line (t ++ 0 :: r) c = Normal c.
Proof. intros Ht. unfold cpu_line. by rewrite strchr_none. Qed.

Lemma cpu_line_field k x v nl r c :
  nl = [10] \/ nl = [] ->
  Forall (fun y => y <> 0 /\ y <> 58) (k ++ [x]) -> Forall (fun y => y <> 0) v ->
  zlen k < 2 ^ 63 -> zlen v < 2 ^ 63 -> trimmable k -> trimmable v -> - 2 ^ 31 <= num_cpus c < 2 ^ 31 - 1 ->
  cpu_line (k ++ x :: 58 :: v ++ nl ++ 0 :: r) c = Normal (learn c (Field k x v)).
Proof.
  intros Hnl Hk Hv Lk Lv Tk Tv Hn. unfold cpu_line. pose proof (zlen_nonneg k).
  replace (k ++ x :: 58 :: v ++ nl ++ 0 :: r) with ((k ++ [x]) ++ 58 :: (v ++ nl) ++ 0 :: r)
    by (by rewrite <- !app_assoc).
  rewrite strchr_found by done. cbn [defined mbind outcome_bind].
  assert (Hd : drop (Z.to_nat (zlen (k ++ [x]) + 1)) ((k ++ [x]) ++ 58 :: (v ++ nl) ++ 0 :: r)
               = (v ++ nl) ++ 0 :: r).
  { replace (Z.to_nat (zlen (k ++ [x]) + 1)) with (length ((k ++ [x]) ++ [58])) by zlia.
    change (58 :: (v ++ nl) ++ 0 :: r) with ([58] ++ (v ++ nl) ++ 0 :: r).
    rewrite (app_assoc (k ++ [x]) [58] ((v ++ nl) ++ 0 :: r)). apply drop_app_length. }
  rewrite Hd. unfold Slice_of_cstr, Slice_of_ptr.
  rewrite strlen_app_nul by (apply Forall_app; split; [done|by destruct Hnl as [->| ->]; constructor]).
  replace (u64 (zlen (k ++ [x]) - 1)) with (zlen k).
  2:{ unfold u64. rewrite Z.mod_small; [zlia|]. split; [zlia|]. rewrite zlen_app. change (zlen [x]) with 1. lia. }
  rewrite <- (app_assoc k [x]). cbn [option_bind mbind defined outcome_bind].
  edestruct (TrimSpace_ok (mkSlice (k ++ [x] ++ 58 :: (v ++ nl) ++ 0 :: r) (zlen k))) as (key & -> & Kok & Kv).
  { apply prefix_ok. lia. } { by rewrite view_prefix. }
  edestruct (TrimSpace_ok (mkSlice ((v ++ nl) ++ 0 :: r) (zlen (v ++ nl)))) as (val & -> & Vok & Vv).
  { apply prefix_ok. rewrite zlen_app. assert (zlen nl <= 1) by (by destruct Hnl as [->| ->]). lia. }
  { rewrite view_prefix. destruct Hnl as [->| ->]; [by apply trimmable_snoc|by rewrite app_nil_r]. }
  rewrite view_prefix in Kv, Vv. replace (trim (v ++ nl)) with (trim v) in Vv by (destruct Hnl as [->| ->]; [by rewrite trim_snoc|by rewrite app_nil_r]). cbn [mbind outcome_bind defined].
  rewrite !slice_eq_text by done. cbn [mbind outcome_bind defined learn]. rewrite Kv, ToString_view, Vv by done.
  unfold bool_decide. repeat case_match; try done; cbn [mbind outcome_bind defined].
  by rewrite int_result_ok by lia.
Qed.

Lemma cpu_line_piece x r c :
  piece_ok x -> - 2 ^ 31 <= num_cpus c < 2 ^ 31 - 1 ->
  cpu_line (piece_text x ++ 0 :: r) c = Normal (learn c (entry_of x)).
Proof.
  intros [He Hl] Hn. assert (Hlen : (length (entry_body (entry_of x)) <= 999)%nat) by (destruct x; cbn in *; lia).
  assert (Hnl : newline x = [10] \/ newline x = []) by (destruct x; auto). unfold piece_text. clear Hl.
  destruct (entry_of x) as [t|k y v]; cbn [entry_body] in *.
  - apply cpu_line_other. apply Forall_app. split; [|by destruct Hnl as [->| ->]; repeat constructor].
    eapply Forall_impl; [exact He|]. by intros z [[??]?].
  - destruct He as (Hk & Hv & Tk & Tv). rewrite length_app in Hlen. cbn [length] in Hlen.
    rewrite <- !app_assoc. cbn [app].
    apply cpu_line_field; [done| | |unfold zlen; lia..|done|done|done].
    + eapply Forall_impl; [exact Hk|]. by intros z [[??]?].
    + eapply Forall_impl; [exact Hv|]. by intros z [??].
Qed.

Lemma fgets_cut t r : forall n, Forall (fun x => x <> 10) t -> length t = n -> fgets n (t ++ r) = (t, r).
Proof.
  intros n Ht. revert n. induction Ht as [|x t Hx _ IH]; intros [|n] Hn; cbn in Hn; try lia; [done|].
  cbn [app fgets]. rewrite (proj2 (Z.eqb_neq _ _) Hx), IH by lia. done.
Qed.

Lemma body_one_line e : entry_ok e -> Forall (fun x => x <> 10) (entry_body e).
Proof.
  destruct e as [t|k x v]; cbn [entry_body entry_ok].
  - intros He. eapply Forall_impl; [exact He|]. by intros y [[??]?].
  - intros (Hk & Hv & _). apply Forall_app in Hk as [Hk Hx]. apply Forall_app. split.
    + eapply Forall_impl; [exact Hk|]. by intros y [[??]?].
    + apply Forall_cons in Hx as [[[? ?] ?] _]. repeat constructor; [done|done|].
      eapply Forall_impl; [exact Hv|]. by intros y [??].
Qed.

Lemma fgets_piece x rest : piece_ok x -> fgets 999 (piece_text x ++ rest) = (piece_text x, rest).
Proof.
  intros [He Hl]. pose proof (body_one_line _ He) as Hb. destruct x as [e|e]; unfold piece_text; cbn [entry_of newline] in *.
  - rewrite <- app_assoc. apply fgets_line; [done|lia].
  - rewrite app_nil_r. by apply fgets_cut.
Qed.

Lemma piece_fits x : piece_ok x -> (0 < length (piece_text x) < 1000)%nat.
Proof. intros [_ Hl]. unfold piece_text. rewrite length_app. destruct x; cbn [entry_of newline length] in *; lia. Qed.

Lemma learn_counts c e : num_cpus c <= num_cpus (learn c e) <= num_cpus c + 1.
Proof. destruct e; cbn [learn]; [lia|]. repeat case_match; cbn [num_cpus]; lia. Qed.

Lemma cpu_loop_entries es : forall fuel buf c,
  (length es <= fuel)%nat -> length buf = 1000%nat -> Forall piece_ok es ->
  0 <= num_cpus c -> num_cpus c + zlen es < 2 ^ 31 ->
  cpu_loop fuel (concat (map piece_text es)) buf c = Normal (fold_left learn (map entry_of es) c).
Proof.
  induction es as [|e es IH]; intros fuel buf c Hf Hb Hes Hc Hn; [by destruct fuel|].
  apply Forall_cons in Hes as [He Hes]. destruct fuel as [|fuel]; [cbn in Hf; lia|].
  rewrite zlen_cons in Hn. pose proof (zlen_nonneg es). cbn [map concat fold_left].
  pose proof (piece_fits e He) as Hl.
  assert (exists x l, piece_text e ++ concat (map piece_text es) = x :: l) as (x & l & Ex).
  { destruct (piece_text e); [cbn in Hl; lia|cbn; eauto]. }
  cbn [cpu_loop]. rewrite Ex, <- Ex, fgets_piece by done.
  destruct (buffer_line buf (piece_text e)) as (r & -> & Lr); [lia|]. cbn [defined mbind outcome_bind].
  rewrite cpu_line_piece by (done || lia). cbn [mbind outcome_bind].
  pose proof (learn_counts c (entry_of e)). apply IH; [cbn in Hf; lia|congruence|done|lia..].
Qed.

Lemma entries_fuel es : Forall piece_ok es -> (length es <= length (concat (map piece_text es)))%nat.
Proof.
  induction 1 as [|e es He _ IH]; [done|]. cbn [map concat length]. rewrite length_app.
  pose proof (piece_fits e He). lia.
Qed.

(** The environment is printed whole. *)
Lemma PrintEnvironment_pieces junk date es :
  Forall piece_ok es -> zlen es < 2 ^ 31 ->
  let c := fold_left learn (map entry_of es) (mkCpu 0 [] []) in
  PrintEnvironment junk date (Some (concat (map piece_text es))) =
  Normal (b!"Date:       " ++ date ++ b!"CPU:        " ++ format_d (num_cpus c) ++ b!" * " ++
          c_str (cpu_type c) ++ [10] ++ b!"CPUCache:   " ++ c_str (cache_size c) ++ [10]).
Proof.
  intros Hes Hn c. unfold PrintEnvironment. rewrite cpu_loop_entries; [| |by rewrite length_new_block|done|done|done].
  - cbn [mbind outcome_bind]. by rewrite <- !app_assoc.
  - by apply entries_fuel.
Qed.

(** A machine whose description can be read. *)
Definition host_ok (h : host) : Prop :=
  match h_cpuinfo h with
  | None => True
  | Some file => exists es, file = concat (map piece_text es) /\ Forall piece_ok es /\ zlen es < 2 ^ 31
  end.

Lemma PrintHeader_prints h f num :
  host_ok h -> - 2 ^ 31 <= FLAGS_key_size f + FLAGS_value_size f < 2 ^ 31 -> exists t, PrintHeader h f num = Normal t.
Proof.
  unfold host_ok, PrintHeader. intros Hh Hs. rewrite int_result_ok by done.
  destruct (h_cpuinfo h) as [file|]; [destruct Hh as (es & -> & Hes & Hn); rewrite PrintEnvironment_pieces by done|];
    by eexists.
Qed.

(** C39: the header reports the machine.  Of a file of lines, of which [fgets] reads
    those longer than 999 bytes in pieces, each line or piece either without a
    colon or a key, one more byte, a colon and a value that begin and end, apart
    from space, with bytes [isspace] is defined on, the report counts the pieces
    whose trimmed key is "model name" and shows the trimmed value of the last of
    them and of the last "cache size"; no byte outside the buffer is read,
    whatever a longer line left in it. *)
Theorem cpuinfo_read junk date es
    (Hes : Forall piece_ok es) (Hn : zlen es < 2 ^ 31) :
  let c := fold_left learn (map entry_of es) (mkCpu 0 [] []) in
  PrintEnvironment junk date (Some (concat (map piece_text es))) =
  Normal (b!"Date:       " ++ date ++ b!"CPU:        " ++ format_d (num_cpus c) ++ b!" * " ++
          c_str (cpu_type c) ++ [10] ++ b!"CPUCache:   " ++ c_str (cache_size c) ++ [10]).
Proof. by apply PrintEnvironment_pieces. Qed.

Definition demo_pieces : list piece :=
  [Line (Field b!"processor" 9 b!" 0"); Line (Field b!"model name" 9 b!" Some CPU @ 2.00GHz");
   Line (Field b!"cache size" 9 b!" 512 KB"); Cut (Field b!"flags" 9 (replicate 992 120)); Line (Other b!"yz");
   Line (Other []); Line (Field b!"model name" 9 b!" Some CPU @ 2.00GHz ")].

Lemma demo_pieces_ok : Forall piece_ok demo_pieces.
Proof.
  assert (Hascii : forall l, forallb (fun c => (0 <? c) && (c <? 128) && negb (c =? 10)) l = true ->
    Forall plain l /\ trimmable l).
  { intros l Hl. rewrite forallb_forall in Hl. split; [|apply trimmable_ascii]; apply Forall_forall;
      intros c Hc%list_elem_of_In; specialize (Hl c Hc); unfold plain; revert Hl; zcases; done || lia. }
  assert (Hnot : forall l, forallb (fun c => negb (c =? 0) && negb (c =? 10) && negb (c =? 58)) l = true ->
    Forall (fun x => plain x /\ x <> 58) l).
  { intros l Hl. rewrite forallb_forall in Hl. apply Forall_forall.
    intros c Hc%list_elem_of_In. specialize (Hl c Hc). unfold plain. revert Hl. zcases; done || lia. }
  assert (Hfield : forall k x v, forallb (fun c => (0 <? c) && (c <? 128) && negb (c =? 10)) k = true ->
    forallb (fun c => (0 <? c) && (c <? 128) && negb (c =? 10)) v = true ->
    forallb (fun c => negb (c =? 0) && negb (c =? 10) && negb (c =? 58)) (k ++ [x]) = true -> entry_ok (Field k x v)).
  { intros k x v [_ H1]%Hascii [H2 H3]%Hascii H4%Hnot. by split_and!. }
  apply Forall_forall. unfold demo_pieces. intros x Hx. rewrite !elem_of_cons, elem_of_nil in Hx.
  destruct Hx as [->|[->|[->|[->|[->|[->|[->|[]]]]]]]]; (split; [|vm_compute; lia]);
    first [apply Hfield; vm_compute; reflexivity | apply Hnot; vm_compute; reflexivity].
Qed.

Lemma cpuinfo_read_witness :
  PrintEnvironment (fun _ => 58) b!"today." (Some (concat (map piece_text demo_pieces))) =
  Normal (b!"Date:       today.CPU:        2 * Some CPU @ 2.00GHz" ++ [10] ++ b!"CPUCache:   512 KB" ++ [10]).
Proof.
  etransitivity; [apply cpuinfo_read; [exact demo_pieces_ok|vm_compute; reflexivity]|vm_compute; reflexivity].
Defined.

(** A key of [n] bytes, more than the buffer has. *)
Lemma TrimSpace_outside x r n :
  isspace_char x = Some false -> zlen (x :: r) < n -> TrimSpace (mkSlice (x :: r) n) = None.
Proof.
  intros Hx Hn. pose proof (zlen_nonneg r). rewrite zlen_cons in Hn.
  unfold TrimSpace. cbn [data data_ size size_ length trim_start].
  rewrite (proj2 (Z.ltb_lt 0 n)) by lia. rewrite (index_lookup _ 0).
  change (data_ (mkSlice (x :: r) n) !! Z.to_nat 0) with (Some x). cbn [mbind option_bind].
  rewrite Hx. cbn [mbind option_bind trim_limit].
  rewrite (proj2 (Z.ltb_lt 0 n)) by lia. rewrite (index_lookup _ (n - 1)).
  rewrite (lookup_ge_None_2 (data_ (mkSlice (x :: r) n))); [done|].
  cbn [data_ length]. unfold zlen in Hn. lia.
Qed.

Lemma cpu_line_key line c sep :
  strchr line 58 = Some (Some sep) -> TrimSpace (mkSlice line (u64 (sep - 1))) = None ->
  cpu_line line c = Undefined.
Proof. intros E1 E2. unfold cpu_line, Slice_of_ptr. rewrite E1. cbn [defined mbind outcome_bind]. by rewrite E2. Qed.

(** A line that begins with the colon asks for a key of [sep - 1 - line] bytes,
    which is 2^64 - 1: the key is read far outside the buffer. *)
Lemma colon_first_undefined r c : zlen r < 2 ^ 63 -> cpu_line (58 :: r) c = Undefined.
Proof.
  intros Hr. apply (cpu_line_key _ _ 0); [reflexivity|].
  assert (Hu : 2 ^ 63 < u64 (0 - 1)) by reflexivity.
  apply TrimSpace_outside; [reflexivity|]. rewrite zlen_cons. set (n := u64 (0 - 1)) in *. clearbody n. lia.
Qed.

(** ** Slices stay inside their storage *)

(** C36: slices stay inside their storage.  A slice made of a pointer and no more
    bytes than there are, of a C string or of a [std::string] is well formed; on
    well-formed slices every operation reads only bytes of the storage, and those
    that yield a slice yield a well-formed one.  [operator[]] below the size and
    [ToString] read what the slice denotes, [clear] leaves the empty string,
    [remove_prefix] of no more than the size drops so many bytes, and both are the
    same in a build with assertions; [starts_with], [==], [!=] and [compare]
    decide the prefix relation, equality and the lexicographic order of the
    strings; [TrimSpace] leaves out the space at both ends and nothing else, where
    [isspace] is defined on the bytes it stops at.  With the NDEBUG of the build
    a prefix longer than the size is not refused: the size wraps around, and the
    slice is no longer well formed. *)
Theorem slices_stay_inside s x (Hs : slice_ok s) (Hx : slice_ok x) :
  ((forall d n, 0 <= n <= zlen d -> n < 2 ^ 64 -> slice_ok (Slice_of_ptr d n)) /\
   (forall d r, 0 ∉ d -> zlen d < 2 ^ 64 ->
      exists y, Slice_of_cstr (d ++ 0 :: r) = Some y /\ slice_ok y /\ view y = d) /\
   (forall d, zlen d < 2 ^ 64 -> slice_ok (Slice_of_string d) /\ view (Slice_of_string d) = d) /\
   (slice_ok (clear s) /\ view (clear s) = [])) /\
  (size s = zlen (view s) /\ empty s = bool_decide (view s = []) /\ ToString s = Some (view s)) /\
  (forall ndebug n, 0 <= n < size s -> exists c, index_in ndebug s n = Some c /\ view s !! Z.to_nat n = Some c) /\
  (forall ndebug n, 0 <= n <= size s ->
     exists y, remove_prefix_in ndebug s n = Some y /\ slice_ok y /\ view y = drop (Z.to_nat n) (view s)) /\
  (forall n, size s < n <= zlen (data s) -> zlen (data s) < 2 ^ 63 ->
     remove_prefix_in false s n = None /\
     exists y, remove_prefix_in true s n = Some y /\ size y = 2 ^ 64 + size s - n /\ ~ slice_ok y) /\
  (starts_with s x = Some (bool_decide (view x `prefix_of` view s)) /\
   slice_eq s x = Some (bool_decide (view s = view x)) /\ slice_neq s x = Some (bool_decide (view s <> view x)) /\
   compare s x = Some (sign_of (lex_compare (view s) (view x)))) /\
  (trimmable (view s) -> exists y a b, TrimSpace s = Some y /\ slice_ok y /\ view s = a ++ view y ++ b /\
     Forall (fun c => isspace c = true) (a ++ b) /\
     (forall c, head (view y) = Some c -> isspace c = false) /\
     (forall c, last (view y) = Some c -> isspace c = false)).
Proof.
  pose proof (length_view s Hs) as Hl. pose proof (ok_width s Hs). split_and!.
  - intros d n Hn Hn'. by split.
  - intros d r Hd Hz. unfold Slice_of_cstr. rewrite strlen_app_nul.
    + eexists. split; [reflexivity|]. split; [by apply prefix_ok|apply view_prefix].
    + apply Forall_forall. intros c Hc ->. done.
  - intros d Hd. split; [by apply Slice_of_string_ok|apply view_of_string].
  - apply Slice_empty_ok.
  - apply view_empty.
  - done.
  - unfold empty. rewrite <- Hl. destruct (view s) as [|c l]; [done|]. rewrite zlen_cons. pose proof (zlen_nonneg l).
    rewrite (proj2 (Z.eqb_neq _ 0)) by lia. done.
  - by apply ToString_view.
  - intros ndebug n Hn. rewrite index_in_view by done.
    destruct (lookup_lt_is_Some_2 (view s) (Z.to_nat n)) as [c Hc]; [|by exists c].
    unfold zlen, size in *. lia.
  - intros ndebug n Hn. by apply remove_prefix_view.
  - intros n Hn Hd. split.
    + unfold remove_prefix_in, assert_in. cbn [orb]. unfold size in *. by rewrite (proj2 (Z.leb_gt n (size_ s))) by lia.
    + destruct (remove_prefix_beyond s n) as (y & E & H1 & H2); [done|done|unfold data in *; lia|]. exists y. auto.
  - by apply starts_with_view.
  - by apply slice_eq_view.
  - by apply slice_neq_view.
  - by apply compare_lex.
  - intros Ht. destruct (TrimSpace_ok s Hs Ht) as (s' & E & Hok & Hv). destruct (trim_spec (view s)) as (a & b & Hab).
    exists s', a, b. by rewrite Hv.
Qed.

Lemma slices_stay_inside_witness :
  let s := Slice_of_string b!"  cache size " in
  (exists y, remove_prefix s 3 = Some y /\ slice_ok y /\ view y = b!"ache size ") /\
  (exists y, TrimSpace s = Some y /\ slice_ok y).
Proof.
  intros s. destruct (slices_stay_inside s Slice_empty) as (_ & _ & _ & H & _ & _ & Ht).
  - apply Slice_of_string_ok. vm_compute. reflexivity.
  - apply Slice_empty_ok.
  - split.
    + apply (H true 3). split; [lia|vm_compute; discriminate].
    + destruct Ht as (y & a & b & E & Hy & _); [|exists y; exact (conj E Hy)].
      apply trimmable_ascii. apply Forall_forall. intros c Hc%list_elem_of_In. vm_compute in Hc. lia.
Defined.
