(* ===== verification/Run.v ===== *)
(** * The driver (bench/bench.cc, Benchmark::Run, Open, RunBenchmark)

    [Run] prints the header, takes the names in [FLAGS_benchmarks] one by one, opens the store
    when it has to, and runs the workload of the name.  How a workload runs in
    [n] threads is an argument of the definitions; [RunBenchmark] is the case of
    one thread, and [Barrier] and [FillThreads] treat the others.  What is
    printed is kept as a list of lines. *)

From Stdlib Require Import SpecFloat.
From S2P Require Import Prelude CLib Random Pmkv Double Histogram Stats TestUtil Workload.
From S2P Require Import WorkloadLogic Fill CommandLine MachineInfo.

Local Open Scope Z_scope.
Import Benchmark.

(** The member functions [method] may point to. *)
Inductive Method :=
  | MWriteSeq | MWriteRandom | MReadSeq | MReadRandom | MReadMissing | MDeleteSeq | MDeleteRandom
  | MReadWhileWriting | MReadRandomWriteRandom.

(** The chain of tests on the name: [method], [fresh_db], and how many threads
    are added to [FLAGS_threads]. *)
Definition select (name : bytes) : option Method * bool * Z :=
  if bool_decide (name = b!"fillseq") then (Some MWriteSeq, true, 0)
  else if bool_decide (name = b!"fillrandom") then (Some MWriteRandom, true, 0)
  else if bool_decide (name = b!"overwrite") then (Some MWriteRandom, false, 0)
  else if bool_decide (name = b!"readseq") then (Some MReadSeq, false, 0)
  else if bool_decide (name = b!"readrandom") then (Some MReadRandom, false, 0)
  else if bool_decide (name = b!"readmissing") then (Some MReadMissing, false, 0)
  else if bool_decide (name = b!"deleteseq") then (Some MDeleteSeq, false, 0)
  else if bool_decide (name = b!"deleterandom") then (Some MDeleteRandom, false, 0)
  else if bool_decide (name = b!"readwhilewriting") then (Some MReadWhileWriting, false, 1)
  else if bool_decide (name = b!"readrandomwriterandom") then (Some MReadRandomWriteRandom, false, 0)
  else (None, false, 0).

(** [strchr(benchmarks, ',')]: the name before it and what follows it. *)
Fixpoint next_name (benchmarks : bytes) : bytes * option bytes :=
  match benchmarks with
  | [] => ([], None)
  | c :: s =>
      if c =? 44 then ([], Some s)
      else let '(name, rest) := next_name s in (c :: name, rest)
  end.

(** A line of output. *)
Inductive line :=
  | Header (text : bytes)
  | Removed (micros : Z)
  | Opened (micros : Z)
  | UnknownBenchmark (name : bytes)
  | Reported (l : Stats.Line).

(** The world, the clock readings so far, [kv_], and the output. *)
Record rstate (W kv : Type) := mkRun {
  r_world : W; r_ticks : nat; r_kv : option kv; r_out : list line
}.
Arguments mkRun {W kv}.
Arguments r_world {W kv}.
Arguments r_ticks {W kv}.
Arguments r_kv {W kv}.
Arguments r_out {W kv}.

Section run.
Context {W kv : Type} `{PmkvOps W kv}.
Variables (f : Flags) (clock : nat -> Z) (junk : nat -> Z).
(** [std::remove], and the memory a [Stats] object is made in *)
Variables (std_remove : bytes -> W -> W) (junk_stats : Stats.Stats).

Abbreviation run := (Prog (rstate W kv)).

Definition r_NowMicros : run Z := fun s =>
  Normal (clock (r_ticks s), mkRun (r_world s) (S (r_ticks s)) (r_kv s) (r_out s)).

Definition print (l : line) : run unit :=
  modify (fun s => mkRun (r_world s) (r_ticks s) (r_kv s) (r_out s ++ [l])).

Definition set_kv (h : option kv) : run unit :=
  modify (fun s => mkRun (r_world s) (r_ticks s) h (r_out s)).

Definition on_world (g : W -> W) : run unit :=
  modify (fun s => mkRun (g (r_world s)) (r_ticks s) (r_kv s) (r_out s)).

(** [1024ULL * 1024ULL * 1024ULL * FLAGS_db_size_in_gb] *)
Definition pool_size : Z := u64 (1024 * 1024 * 1024 * u64 (FLAGS_db_size_in_gb f)).

Definition Open (fresh_db : bool) : run unit :=
  start ← r_NowMicros;
  _ ← (if fresh_db then on_world (std_remove (FLAGS_db f)) else mret tt);
  _ ← (fun s => '(h, w) ← PMKVWrapper.new (FLAGS_db f) pool_size fresh_db (r_world s);
                Normal (tt, mkRun w (r_ticks s) (Some h) (r_out s)));
  now ← r_NowMicros;
  print (Opened (u64 (now - start))).

(** A workload, by its method, in a thread. *)
Definition run_method (bm : Benchmark kv) (m : Method) (tid : Z) : Prog (pstate W) unit :=
  match m with
  | MWriteSeq => WriteSeq f clock junk bm tid
  | MWriteRandom => WriteRandom f clock junk bm tid
  | MReadSeq => ReadSeq f clock junk bm tid
  | MReadRandom => ReadRandom f clock junk bm tid
  | MReadMissing => ReadMissing f clock junk bm tid
  | MDeleteSeq => DeleteSeq f clock junk bm tid
  | MDeleteRandom => DeleteRandom f clock junk bm tid
  | MReadRandomWriteRandom => ReadRandomWriteRandom f clock junk bm
  | MReadWhileWriting => lift Undefined (* never in one thread *)
  end.

(** [RunBenchmark(1, name, method)]: [new ThreadState(0)], [ThreadBody], and
    the report. *)
Definition RunBenchmark (name : bytes) (m : Method) (h : kv) : run unit := fun s =>
  let thread := mkState (r_world s) (S (r_ticks s)) (Random.new (1000 + 0))
                  (Stats.new (clock (r_ticks s)) junk_stats) [] in
  '(_, t) ← (now ← NowMicros clock;
             _ ← modify (set_stats (Stats.Start now));
             _ ← run_method (Benchmark.new f h) m 0;
             now ← NowMicros clock;
             modify (set_stats (Stats.Stop now))) thread;
  let '(l, _) := Stats.Report (FLAGS_histogram f) name (stats t) in
  Normal (tt, mkRun (world t) (ticks t) (r_kv s) (r_out s ++ [Reported l])).

(** [threads n name method kv_]: the workload in [n] threads. *)
Variable threads : Z -> bytes -> Method -> kv -> run unit.

(** One round of the loop of [Run], from the name on. *)
Definition run_name (name : bytes) : run unit :=
  let '(method, fresh_db, extra) := select name in
  _ ← (match method, name with
       | None, _ :: _ => print (UnknownBenchmark name)
       | _, _ => mret tt
       end);
  _ ← (if (fresh_db : bool) then
         h ← gets r_kv;
         _ ← (match h with
              | Some h => _ ← on_world (PMKVWrapper.destroy h); set_kv None
              | None => mret tt
              end);
         if 0 <? FLAGS_db_size_in_gb f then
           start ← r_NowMicros;
           _ ← on_world (std_remove (FLAGS_db f));
           now ← r_NowMicros;
           print (Removed (u64 (now - start)))
         else mret tt
       else mret tt);
  h ← gets r_kv;
  _ ← (match h with None => Open fresh_db | Some _ => mret tt end);
  match method with
  | None => mret tt
  | Some m =>
      n ← lift (int_result (FLAGS_threads f + extra));
      h ← gets r_kv;
      h ← lift (defined h);
      threads n name m h
  end.

(** The loop; every round takes a name and a comma off. *)
Fixpoint run_loop (fuel : nat) (benchmarks : bytes) : run unit :=
  match fuel with
  | O => lift Undefined
  | S fuel' =>
      let '(name, rest) := next_name benchmarks in
      _ ← run_name name;
      match rest with
      | None => mret tt
      | Some benchmarks => run_loop fuel' benchmarks
      end
  end.

(** [num_] is [FLAGS_num] since the constructor. *)
Definition Run (machine : host) : run unit :=
  head ← lift (PrintHeader machine f (FLAGS_num f));
  _ ← print (Header head);
  run_loop (S (length (FLAGS_benchmarks f))) (FLAGS_benchmarks f).

End run.

(** ** main *)

(** [~Benchmark]: [delete kv_] *)
Definition Benchmark_destroy {W kv : Type} `{PmkvOps W kv} (s : rstate W kv) : W :=
  match r_kv s with
  | Some h => PMKVWrapper.destroy h (r_world s)
  | None => r_world s
  end.

(** [main]: the flags, [Benchmark benchmark; benchmark.Run();], and the
    destructor of [benchmark]; the output and the world at the end. *)
Definition main_ {W kv : Type} `{PmkvOps W kv} (machine : host) (clock : nat -> Z) (std_remove : bytes -> W -> W)
    (threads : Flags -> Z -> bytes -> Method -> kv -> Prog (rstate W kv) unit)
    (args : list bytes) (w : W) : outcome (list line * W) :=
  f ← main_flags args;
  '(_, s) ← Run f clock std_remove (threads f) machine (mkRun w 0 None []);
  Normal (r_out s, Benchmark_destroy s).

(** ** Lemmas *)

(** The fields of a list separated by commas. *)
Fixpoint fields (s : bytes) : list bytes :=
  match s with
  | [] => [[]]
  | c :: s' =>
      if c =? 44 then [] :: fields s'
      else match fields s' with n :: l => (c :: n) :: l | [] => [[c]] end
  end.

Fixpoint join_names (first : bytes) (rest : list bytes) : bytes :=
  match rest with
  | [] => first
  | n :: l => first ++ 44 :: join_names n l
  end.

Lemma fields_nonempty s : fields s <> [].
Proof. destruct s as [|c s]; cbn [fields]; [done|]. repeat case_match; done. Qed.

Lemma fields_next s :
  fields s = fst (next_name s) :: match snd (next_name s) with Some r => fields r | None => [] end.
Proof.
  induction s as [|c s IH]; cbn [fields next_name]; [done|]. zcases; [done|].
  rewrite IH. by destruct (next_name s) as [name rest].
Qed.

Lemma next_name_shorter s r : snd (next_name s) = Some r -> (length r < length s)%nat.
Proof.
  induction s as [|c s IH]; cbn [next_name]; [done|]. zcases.
  - cbn [snd length]. intros [= ->]. lia.
  - destruct (next_name s) as [name rest]. cbn [snd length] in *. intros Hr. specialize (IH Hr). lia.
Qed.

Lemma fields_join first rest :
  Forall (fun n => 44 ∉ n) (first :: rest) -> fields (join_names first rest) = first :: rest.
Proof.
  assert (Hone : forall n r, 44 ∉ n -> fields (n ++ 44 :: r) = n :: fields r).
  { induction n as [|c n IHn]; intros r Hn; cbn [app fields]; [by rewrite Z.eqb_refl|].
    apply not_elem_of_cons in Hn as [Hc Hn]. rewrite (proj2 (Z.eqb_neq c 44)) by congruence.
    by rewrite IHn. }
  assert (Hend : forall n, 44 ∉ n -> fields n = [n]).
  { induction n as [|c n IHn]; intros Hn; [done|]. apply not_elem_of_cons in Hn as [Hc Hn].
    cbn [fields]. rewrite (proj2 (Z.eqb_neq c 44)) by congruence. by rewrite IHn. }
  revert first. induction rest as [|n l IH]; intros first [Hf Hl]%Forall_cons; cbn [join_names]; [auto|].
  by rewrite Hone, IH.
Qed.

Section run_lemmas.
Context {W kv : Type} {Ops : PmkvOps W kv}.
Context (f : Flags) (clock : nat -> Z) (std_remove : bytes -> W -> W).
Context (threads : Z -> bytes -> Method -> kv -> Prog (rstate W kv) unit).

(** One name after the other. *)
Fixpoint run_names (l : list bytes) : Prog (rstate W kv) unit :=
  match l with
  | [] => mret tt
  | n :: l' => _ ← run_name f clock std_remove threads n; run_names l'
  end.

Lemma run_names_one name s :
  (_ ← run_name f clock std_remove threads name; mret tt) s = run_name f clock std_remove threads name s.
Proof. unfold mbind, prog_bind. by destruct (run_name _ _ _ _ name s) as [[[] s']| | | |]. Qed.

Lemma run_loop_fields fuel : forall benchmarks s,
  (length benchmarks < fuel)%nat ->
  run_loop f clock std_remove threads fuel benchmarks s = run_names (fields benchmarks) s.
Proof.
  induction fuel as [|fuel IH]; intros benchmarks s Hf; [lia|]. cbn [run_loop].
  rewrite fields_next. pose proof (next_name_shorter benchmarks) as Hs.
  destruct (next_name benchmarks) as [name rest]. cbn [fst snd run_names] in *.
  unfold mbind, prog_bind. destruct (run_name _ _ _ _ name s) as [[[] s']| | | |]; try done.
  destruct rest as [r|]; [|done]. apply IH. specialize (Hs r eq_refl). lia.
Qed.

Lemma Run_fields machine s :
  Run f clock std_remove threads machine s =
  (head ← lift (PrintHeader machine f (FLAGS_num f)); _ ← print (Header head);
   run_names (fields (FLAGS_benchmarks f))) s.
Proof.
  unfold Run, mbind, prog_bind, lift. destruct (PrintHeader machine f (FLAGS_num f)); try done.
  cbn [outcome_bind mbind print modify]. apply run_loop_fields. lia.
Qed.

(** On a machine whose description can be read, and with sizes the header can
    add up, the names follow the header. *)
Lemma Run_printed machine s :
  host_ok machine -> - 2 ^ 31 <= FLAGS_key_size f + FLAGS_value_size f < 2 ^ 31 ->
  exists head, PrintHeader machine f (FLAGS_num f) = Normal head /\
    Run f clock std_remove threads machine s =
    run_names (fields (FLAGS_benchmarks f))
      (mkRun (r_world s) (r_ticks s) (r_kv s) (r_out s ++ [Header head])).
Proof.
  intros Hm Hs. destruct (PrintHeader_prints machine f (FLAGS_num f) Hm Hs) as [head E]. exists head. split; [done|].
  rewrite Run_fields. unfold mbind, prog_bind, lift. rewrite E. done.
Qed.

End run_lemmas.

(** A line printed while the store is made ready. *)
Definition is_setup (l : line) : Prop :=
  match l with Removed _ | Opened _ => True | _ => False end.

Lemma bind_normal {S A B} (m : Prog S A) (k : A -> Prog S B) s a s' :
  m s = Normal (a, s') -> (x ← m; k x) s = k a s'.
Proof. intros H. unfold mbind, prog_bind. by rewrite H. Qed.

Lemma bind_thrown {S A B} (m : Prog S A) (k : A -> Prog S B) s e :
  m s = Thrown e -> (x ← m; k x) s = Thrown e.
Proof. intros H. unfold mbind, prog_bind. by rewrite H. Qed.

Section prepared.
Context {W kv : Type} {Ops : PmkvOps W kv} {contents : W -> kv -> option (gmap bytes bytes)}
  {Contract : PmkvContract W kv contents}.
Context (f : Flags) (clock : nat -> Z) (std_remove : bytes -> W -> W).
Context (threads : Z -> bytes -> Method -> kv -> Prog (rstate W kv) unit).
(** [pmkv_open] returns, with a handle or NULL. *)
Hypothesis Hopen : forall path sz create w, exists h w', pmkv_open path sz create w = Normal (h, w').

Lemma Open_result fresh s :
  Open f clock std_remove fresh s = Thrown PMKVWrapper.open_failed \/
  exists h s' t, Open f clock std_remove fresh s = Normal (tt, s') /\
    r_kv s' = Some h /\ r_out s' = r_out s ++ [Opened t] /\
    (fresh = true -> contents (r_world s') h = Some ∅).
Proof using Hopen Contract.
  unfold Open, mbind, prog_bind, r_NowMicros, PMKVWrapper.new, on_world, modify, mret, prog_ret.
  set (w := if fresh then std_remove (FLAGS_db f) (r_world s) else r_world s).
  destruct (Hopen (FLAGS_db f) (pool_size f) (if fresh then 1 else 0) w) as ([h|] & w' & E);
    destruct fresh; cbn [r_world r_ticks r_kv r_out]; subst w; rewrite E; cbn [outcome_bind];
    [right|right|by left..]; do 3 eexists; (split; [reflexivity|]); cbn [r_kv r_out r_world];
    (split; [done|]); (split; [done|]); [|done]. intros _. by apply (open_fresh _ _ _ _ _ E).
Qed.

(** The store is closed and removed before a fresh one is opened. *)
Lemma fresh_result s : exists s' pre,
  (h ← gets r_kv;
   _ ← (match h with
        | Some h => _ ← on_world (PMKVWrapper.destroy h); set_kv None
        | None => mret tt
        end);
   if 0 <? FLAGS_db_size_in_gb f then
     start ← r_NowMicros clock;
     _ ← on_world (std_remove (FLAGS_db f));
     now ← r_NowMicros clock;
     print (Removed (u64 (now - start)))
   else mret tt) s = Normal (tt, s') /\
  r_kv s' = None /\ r_out s' = r_out s ++ pre /\ Forall is_setup pre.
Proof.
  unfold mbind, prog_bind, gets, r_NowMicros, on_world, set_kv, print, modify, mret, prog_ret.
  destruct (r_kv s) as [h|] eqn:Eh; destruct (0 <? FLAGS_db_size_in_gb f);
    cbn [r_world r_ticks r_kv r_out]; do 2 eexists; (split; [reflexivity|]); cbn [r_kv r_out];
    (split; [done|]).
  all: first [split; [reflexivity|by repeat constructor] | split; [by rewrite app_nil_r|done]].
Qed.

Lemma run_name_prepared name m fresh extra s :
  select name = (Some m, fresh, extra) -> - 2 ^ 31 <= FLAGS_threads f + extra < 2 ^ 31 ->
  run_name f clock std_remove threads name s = Thrown PMKVWrapper.open_failed \/
  exists h s' pre,
    run_name f clock std_remove threads name s = threads (FLAGS_threads f + extra) name m h s' /\
    r_kv s' = Some h /\ r_out s' = r_out s ++ pre /\ Forall is_setup pre /\
    (fresh = true -> contents (r_world s') h = Some ∅) /\
    (fresh = false -> forall h0, r_kv s = Some h0 -> h = h0 /\ s' = s).
Proof using Hopen Contract.
  intros Hsel Hn. unfold run_name. rewrite Hsel.
  assert (Hlast : forall h s', r_kv s' = Some h ->
    (n ← lift (int_result (FLAGS_threads f + extra)); h ← gets r_kv; h ← lift (defined h);
     threads n name m h) s' = threads (FLAGS_threads f + extra) name m h s').
  { intros h s' Hk. unfold mbind, prog_bind, lift, gets. rewrite int_result_ok by done. cbn.
    by rewrite Hk. }
  rewrite (bind_normal (mret tt) _ s tt s eq_refl). destruct fresh.
  - destruct (fresh_result s) as (s1 & pre1 & E1 & Hk1 & Ho1 & Hp1).
    rewrite (bind_normal _ _ _ _ _ E1), (bind_normal (gets r_kv) _ s1 (r_kv s1) s1 eq_refl), Hk1.
    destruct (Open_result true s1) as [E2|(h & s2 & t & E2 & Hk2 & Ho2 & Hc)].
    { left. by rewrite (bind_thrown _ _ _ _ E2). }
    right. exists h, s2, (pre1 ++ [Opened t]). rewrite (bind_normal _ _ _ _ _ E2).
    split; [by apply Hlast|].
    split_and!; [done|by rewrite Ho2, Ho1, app_assoc|by apply Forall_app; split; [|constructor]|done|done].
  - rewrite (bind_normal (mret tt) _ s tt s eq_refl), (bind_normal (gets r_kv) _ s (r_kv s) s eq_refl).
    destruct (r_kv s) as [h|] eqn:Ek.
    + right. exists h, s, []. rewrite (bind_normal (mret tt) _ s tt s eq_refl).
      split; [by apply Hlast|]. split_and!; try done; [by rewrite app_nil_r|]. by intros _ h0 [= <-].
    + destruct (Open_result false s) as [E2|(h & s2 & t & E2 & Hk2 & Ho2 & Hc)].
      { left. by rewrite (bind_thrown _ _ _ _ E2). }
      right. exists h, s2, [Opened t]. rewrite (bind_normal _ _ _ _ _ E2).
      split; [by apply Hlast|]. split_and!; try done. by constructor.
Qed.

End prepared.

Lemma wp_weaken {S A} (E E' : bytes -> Prop) (m : Prog S A) (Q Q' : A -> S -> Prop) s :
  wp E m Q s -> (forall e, E e -> E' e) -> (forall a s', Q a s' -> Q' a s') -> wp E' m Q' s.
Proof. unfold wp. destruct (m s) as [[a s']| | | |]; auto. Qed.

Section one_thread.
Context {W kv : Type} {Ops : PmkvOps W kv}.
Context (f : Flags) (clock : nat -> Z) (junk : nat -> Z) (junk_stats : Stats.Stats).

(** What [RunBenchmark] with one thread does, from what its method does in a
    thread that has just started. *)
Lemma RunBenchmark_wp E name m h s (Q : pstate W -> Prop) :
  (forall t, started t -> world t = r_world s ->
     wp E (run_method f clock junk (Benchmark.new f h) m 0) (fun _ t' => Q t') t) ->
  wp E (RunBenchmark f clock junk junk_stats name m h)
    (fun _ s' => exists t l, Q t /\ r_world s' = world t /\ r_kv s' = r_kv s /\
       r_out s' = r_out s ++ [Reported l] /\ Stats.line_name l = name /\
       Stats.line_message l = Stats.message_ (stats t)) s.
Proof.
  intros Hm. unfold wp at 1, RunBenchmark.
  match goal with |- context [mkState ?a ?b ?c ?d ?e] => set (t0 := mkState a b c d e) end.
  match goal with |- context [mbind _ (?p t0)] =>
    assert (Hp : wp E p (fun _ t' => exists t, Q t /\ world t' = world t /\
                   Stats.message_ (stats t') = Stats.message_ (stats t)) t0) end.
  { apply wp_bind. unfold wp at 1, NowMicros. apply wp_bind, wp_modify, wp_bind. eapply wp_mono.
    - apply Hm; [|done]. split; [by do 2 eexists|]. apply Random.new_ok.
    - intros [] t Ht. apply wp_bind. unfold wp at 1, NowMicros. apply wp_modify. by exists t. }
  unfold wp in Hp. match goal with |- context [mbind _ ?o] => destruct o as [[u t']| | | |] end; try done.
  destruct Hp as (t & Ht & Hw & Hmsg). cbn [mbind outcome_bind].
  destruct (Stats.Report (FLAGS_histogram f) name (stats t')) as [l st] eqn:El.
  exists t, l. split_and!; [done|done|done|done|..]; unfold Stats.Report in El; injection El as <- _;
    [done|]. cbn [Stats.line_message]. rewrite <- Hmsg. by case_match.
Qed.

End one_thread.

Section fill_and_read.
Context {W kv : Type} {Ops : PmkvOps W kv} {contents : W -> kv -> option (gmap bytes bytes)}
  {Contract : PmkvContract W kv contents}.
Context (f : Flags) (clock : nat -> Z) (junk : nat -> Z) (std_remove : bytes -> W -> W)
  (junk_stats : Stats.Stats) (threads : Z -> bytes -> Method -> kv -> Prog (rstate W kv) unit).
Hypothesis Hopen : forall path sz create w, exists h w', pmkv_open path sz create w = Normal (h, w').
Hypothesis Hone : forall name m h s, threads 1 name m h s = RunBenchmark f clock junk junk_stats name m h s.
Hypothesis Hthreads : FLAGS_threads f = 1.
Hypothesis Hcfg : forall h : kv, config_ok f (Benchmark.new f h) 0.

(** How the program may fail. *)
Definition run_error (e : bytes) : Prop := e = PMKVWrapper.open_failed \/ e = PMKVWrapper.put_failed.

(** A name with a method that adds no thread. *)
Lemma run_name_wp name m fresh s Q :
  select name = (Some m, fresh, 0) ->
  (forall h s' pre, r_kv s' = Some h -> r_out s' = r_out s ++ pre -> Forall is_setup pre ->
     (fresh = true -> contents (r_world s') h = Some ∅) ->
     (fresh = false -> forall h0, r_kv s = Some h0 -> h = h0 /\ s' = s) ->
     wp run_error (RunBenchmark f clock junk junk_stats name m h) Q s') ->
  wp run_error (run_name f clock std_remove threads name) Q s.
Proof using Hopen Hone Hthreads Contract.
  intros Hsel HQ.
  destruct (run_name_prepared (contents := contents) f clock std_remove threads Hopen name m fresh 0 s Hsel)
    as [E|(h & s' & pre & E & H1 & H2 & H3 & H4 & H5)]; [rewrite Hthreads; lia|..]; unfold wp; rewrite E.
  - by left.
  - rewrite Hthreads, Z.add_0_r, Hone. by apply (HQ h s' pre).
Qed.

Lemma fill_and_read_wp s :
  reads_ (Benchmark.new f (kv := unit) tt) <= FLAGS_num f ->
  wp run_error (run_names f clock std_remove threads [b!"fillseq"; b!"readseq"])
    (fun _ s' => exists pre l1 l2, r_out s' = r_out s ++ pre ++ [Reported l1; Reported l2] /\
       Forall is_setup pre /\ Stats.line_name l1 = b!"fillseq" /\ Stats.line_name l2 = b!"readseq" /\
       Stats.line_message l2 =
         found_message (reads_ (Benchmark.new f (kv := unit) tt)) (reads_ (Benchmark.new f (kv := unit) tt))) s.
Proof using Hopen Hone Hthreads Contract Hcfg.
  intros Hreads. cbn [run_names]. apply wp_bind.
  apply (run_name_wp _ MWriteSeq true); [reflexivity|]. intros h s1 pre Hk1 Ho1 Hpre Hc _.
  specialize (Hc eq_refl). specialize (Hcfg h). set (bm := Benchmark.new f h) in *.
  pose proof Hcfg as Hc0. destruct Hc0.
  eapply wp_mono; [apply (RunBenchmark_wp f clock junk junk_stats run_error _ MWriteSeq h s1
    (fun t => contents (world t) h =
       Some (write_all (key_size_ bm) (xs bm) (fst (drawn bm 0 true (Z.to_nat (num_ bm)) (Random.mkRandom 0))) ∅)))|].
  { intros t Ht Hw. rewrite <- Hw in Hc. eapply wp_weaken.
    - exact (DoWrite_wp (contents := contents) f clock junk bm 0 Hcfg true ∅ t Ht Hc).
    - intros e [He _]. by right.
    - intros [] t' (Hm & _). rewrite drawn_seq in *. exact Hm. }
  intros [] s2 (t1 & l1 & Hm1 & Hw2 & Hk2 & Ho2 & Hn1 & _). rewrite <- Hw2 in Hm1. apply wp_bind.
  apply (run_name_wp _ MReadSeq false); [reflexivity|]. intros h' s3 pre3 Hk3 _ _ _ Hsame.
  destruct (Hsame eq_refl h) as [-> ->]; [congruence|].
  eapply wp_mono; [apply (RunBenchmark_wp f clock junk junk_stats run_error _ MReadSeq h s2
    (fun t => Stats.message_ (stats t) = found_message (reads_ bm) (reads_ bm)))|].
  { intros t Ht Hw. rewrite <- Hw in Hm1. eapply wp_weaken.
    - eapply (DoRead_wp (contents := contents) f clock junk bm 0 Hcfg true false _ t Ht Hm1).
      apply write_all_fit; [|apply map_Forall_empty]. rewrite zlen_xs; lia.
    - intros e [He _]. by right.
    - cbv zeta. intros [] t' (_ & _ & _ & _ & Hmsg). rewrite Hmsg.
      rewrite (found_in_all _ (xs bm)).
      + rewrite length_drawn, Z2Nat.id by lia. done.
      + intros z. rewrite elem_of_drawn_seq. intros Hz. apply write_all_in.
        rewrite elem_of_drawn_seq. change (reads_ (new f tt)) with (reads_ bm) in Hreads. lia. }
  intros [] s4 (t2 & l2 & Hmsg & _ & _ & Ho4 & Hn2 & Hl2). apply wp_ret.
  exists pre, l1, l2. split_and!; [|done|done|done|by rewrite Hl2, Hmsg].
  by rewrite Ho4, Ho2, Ho1, <- !app_assoc.
Qed.

End fill_and_read.

(** ** Properties *)

(** C16: [Run] prints the header and then runs the names of [FLAGS_benchmarks] one after the other, however
    many there are.  For a name that has a method, either the store cannot be
    opened, or the method is run once, in [FLAGS_threads] threads (one more for
    [readwhilewriting]), on an open handle: on an empty store for [fillseq] and
    [fillrandom], and otherwise on the handle and the world as they were when
    a store was already open.  All that is printed before are lines about the
    store. *)
Theorem run_takes_names {W kv : Type} {Ops : PmkvOps W kv}
  (contents : W -> kv -> option (gmap bytes bytes)) (Contract : PmkvContract W kv contents)
  f machine clock std_remove threads first rest name m fresh extra (s : rstate W kv)
  (Hopen : forall path sz create w, exists h w', pmkv_open path sz create w = Normal (h, w'))
  (Hnames : Forall (fun n => 44 ∉ n) (first :: rest))
  (Hf : FLAGS_benchmarks f = join_names first rest)
  (Hsel : select name = (Some m, fresh, extra))
  (Hn : - 2 ^ 31 <= FLAGS_threads f + extra < 2 ^ 31) :
  Run f clock std_remove threads machine s =
    (head ← lift (PrintHeader machine f (FLAGS_num f)); _ ← print (Header head);
     run_names f clock std_remove threads (first :: rest)) s /\
  (run_name f clock std_remove threads name s = Thrown PMKVWrapper.open_failed \/
   exists h s' pre,
     run_name f clock std_remove threads name s = threads (FLAGS_threads f + extra) name m h s' /\
     r_kv s' = Some h /\ r_out s' = r_out s ++ pre /\ Forall is_setup pre /\
     (fresh = true -> contents (r_world s') h = Some ∅) /\
     (fresh = false -> forall h0, r_kv s = Some h0 -> h = h0 /\ s' = s)).
Proof.
  split; [by rewrite Run_fields, Hf, fields_join|]. by apply run_name_prepared.
Qed.

(** The whole program on a machine whose description can be read.  With [--benchmarks=fillseq,readseq], one thread and
    sizes for which no counter overflows, given by any list of flags, [main] on
    a store that keeps the contract of pmkv.h ends with the exception of a store
    that cannot be opened or of a [put] that was refused, or it prints the header, the
    report of [fillseq] and then that of [readseq], which says that every key
    read was found. *)
Theorem fill_and_read_program {W kv : Type} {Ops : PmkvOps W kv}
  (contents : W -> kv -> option (gmap bytes bytes)) (Contract : PmkvContract W kv contents)
  machine clock junk std_remove junk_stats threads l (w : W)
  (f := fold_left apply_setting l default_flags)
  (reads := if FLAGS_reads f <? 0 then FLAGS_num f else FLAGS_reads f)
  (Hl : Forall setting_ok l)
  (Hopen : forall path sz create w, exists h w', pmkv_open path sz create w = Normal (h, w'))
  (Hone : forall f name m (h : kv) s,
     threads f 1 name m h s = RunBenchmark f clock junk junk_stats name m h s)
  (Hnames : FLAGS_benchmarks f = b!"fillseq,readseq") (Hthreads : FLAGS_threads f = 1)
  (Hnum : 0 < FLAGS_num f < 2 ^ 31 - 200000) (Hreads : reads <= FLAGS_num f)
  (Hvalue : 0 <= FLAGS_value_size f <= MAX_VAL_LEN)
  (Hkey : 0 <= FLAGS_key_size f) (Hentry : FLAGS_key_size f + FLAGS_value_size f < 2 ^ 31)
  (Hmachine : host_ok machine) :
  match main_ machine clock std_remove threads (map print_setting l) w with
  | Normal (out, _) =>
      exists head pre l1 l2, PrintHeader machine f (FLAGS_num f) = Normal head /\
        out = Header head :: pre ++ [Reported l1; Reported l2] /\ Forall is_setup pre /\
        Stats.line_name l1 = b!"fillseq" /\ Stats.line_name l2 = b!"readseq" /\
        Stats.line_message l2 = found_message reads reads
  | Thrown e => e = PMKVWrapper.open_failed \/ e = PMKVWrapper.put_failed
  | _ => False
  end.
Proof.
  assert (Hcfg : forall h : kv, config_ok f (Benchmark.new f h) 0).
  { assert (Hr0 : 0 <= reads) by (unfold reads; zcases; lia).
    intros h. split; cbn [Benchmark.new num_ reads_ value_size_ key_size_]; fold reads; lia. }
  destruct (Run_printed f clock std_remove (threads f) machine (mkRun w 0 None [])) as (head & Eh & Erun);
    [done|lia|]. cbn [r_world r_ticks r_kv r_out app] in Erun.
  pose proof (fill_and_read_wp (contents := contents) f clock junk std_remove junk_stats (threads f) Hopen (Hone f)
    Hthreads Hcfg (mkRun w 0 None [Header head]) Hreads) as Hwp.
  unfold main_. rewrite main_flags_printed by done. fold f. cbn [mbind outcome_bind].
  rewrite Erun, Hnames. clear Erun. change (fields b!"fillseq,readseq") with [b!"fillseq"; b!"readseq"].
  unfold wp in Hwp. destruct (run_names _ _ _ _ _ _) as [[u s]| | | |]; try done.
  cbn [mbind outcome_bind]. destruct Hwp as (pre & l1 & l2 & Ho & H). exists head, pre, l1, l2. done.
Qed.

(** A run over the small library of [Pmkv.MemLib]. *)
Lemma mem_opens path sz create w :
  exists h w', @pmkv_open _ _ mem_ops path sz create w = Normal (h, w').
Proof.
  cbn. unfold PmemkvImpl.pmkv_open. cbn. unfold MemLib.open_. repeat case_match; by do 2 eexists.
Qed.

Definition demo_settings : list setting :=
  [SNum 5; SBenchmarks b!"fillseq,readseq"; SValueSize 3; SDb b!"/pool"].

Definition demo_run_flags : Flags := fold_left apply_setting demo_settings default_flags.

Definition demo_threads (f : Flags) (n : Z) (name : bytes) (m : Method) (h : bytes)
  : Prog (rstate MemLib.world bytes) unit :=
  if n =? 1 then RunBenchmark (H := mem_ops) f (fun _ => 0) (fun _ => 0) demo_stats name m h
  else lift Undefined.

(** A machine with one processor. *)
Definition demo_machine : host :=
  mkHost (fun _ => 0) (b!"today." ++ [10])
    (Some (concat (map piece_text [Line (Field b!"model name" 9 b!" Some CPU"); Line (Other [])]))) b!"-nan" true true.

Lemma demo_machine_ok : host_ok demo_machine.
Proof.
  unfold host_ok, demo_machine. cbn [h_cpuinfo]. eexists. split; [reflexivity|]. split; [|reflexivity]. apply Forall_cons_2; [|apply Forall_singleton; split; [apply Forall_nil_2|cbn; lia]].
  split; [|vm_compute; lia]. split_and!; try apply trimmable_ascii; apply Forall_forall;
    intros c Hc%list_elem_of_In; vm_compute in Hc; unfold plain; lia.
Qed.

Lemma run_takes_names_witness :
  Run (H := mem_ops) demo_run_flags (fun _ => 0) (fun _ w => w) (demo_threads demo_run_flags) demo_machine
    (mkRun ∅ 0 None []) =
  (head ← lift (PrintHeader demo_machine demo_run_flags 5); _ ← print (Header head);
   run_names (Ops := mem_ops) demo_run_flags (fun _ => 0) (fun _ w => w) (demo_threads demo_run_flags)
     [b!"fillseq"; b!"readseq"]) (mkRun ∅ 0 None []).
Proof.
  apply (run_takes_names MemLib.mem_store mem_contract demo_run_flags demo_machine (fun _ => 0) (fun _ w => w)
    (demo_threads demo_run_flags) b!"fillseq" [b!"readseq"] b!"fillseq" MWriteSeq true 0 _ mem_opens).
  - repeat (apply Forall_cons_2; [intros Hin%list_elem_of_In; vm_compute in Hin; lia|]). apply Forall_nil_2.
  - reflexivity.
  - reflexivity.
  - vm_compute. split; [discriminate|reflexivity].
Defined.

Lemma fill_and_read_program_witness :
  exists head pre l1 l2, match main_ (H := mem_ops) demo_machine (fun _ => 0) (fun _ w => w) demo_threads
      (map print_setting demo_settings) ∅ with
    | Normal (out, _) => out = Header head :: pre ++ [Reported l1; Reported l2] /\
        Stats.line_message l2 = b!"(5 of 5 found)"
    | _ => False
    end.
Proof.
  pose proof (fill_and_read_program MemLib.mem_store mem_contract demo_machine (fun _ => 0) (fun _ => 0)
    (fun _ w => w) demo_stats demo_threads demo_settings ∅) as H. cbv zeta in H.
  assert (Hok : Forall setting_ok demo_settings).
  { repeat (apply Forall_cons_2; [cbn [setting_ok]; first [lia | reflexivity]|]). apply Forall_nil_2. }
  specialize (H Hok mem_opens (fun f name m h s => eq_refl) eq_refl eq_refl
    ltac:(vm_compute; split; reflexivity) ltac:(vm_compute; discriminate)
    ltac:(vm_compute; split; discriminate) ltac:(vm_compute; discriminate) ltac:(vm_compute; reflexivity)
    demo_machine_ok).
  destruct (main_ _ _ _ _ _ _) as [[out w']| | | |] eqn:E;
    [|destruct H|destruct H|vm_compute in E; discriminate E|destruct H].
  destruct H as (head & pre & l1 & l2 & _ & H1 & _ & _ & _ & H2). exists head, pre, l1, l2. exact (conj H1 H2).
Defined.
