(* ===== verification/Logger.v ===== *)
(** * PosixLogger (bench/util/posix_logger.h)

    [Logv] formats a line into a buffer on the stack and, when the line does
    not fit, once more into a larger one on the heap.  Its pointer [p] is an
    offset into the buffer, also when it is past the end.  The text [vsnprintf]
    makes of the caller's format and arguments is the argument [message]; the
    clock is read in each of the two rounds. *)

From S2P Require Import Prelude CLib.

Local Open Scope Z_scope.

(** ** The conversions of the header *)

(** [%0wd] *)
Definition format_0d (w : nat) (n : Z) : bytes :=
  let digits := dec_digits 20 (Z.abs n) [] in
  let sign := if n <? 0 then [45] else [] in
  sign ++ replicate (w - length sign - length digits) 48 ++ digits.

Fixpoint hex_digits (fuel : nat) (n : Z) (acc : bytes) : bytes :=
  match fuel with
  | O => acc
  | S fuel' =>
      let acc' := hex_digit (n mod 16) :: acc in
      if n / 16 =? 0 then acc' else hex_digits fuel' (n / 16) acc'
  end.

(** [%llx] *)
Definition format_llx (n : Z) : bytes := hex_digits 16 n [].

(** [struct tm] and [tv_usec], as [localtime_r] and [gettimeofday] fill them. *)
Record when := mkWhen {
  tm_year : Z; tm_mon : Z; tm_mday : Z; tm_hour : Z; tm_min : Z; tm_sec : Z; tv_usec : Z
}.

Definition header (t : when) (thread_id : Z) : bytes :=
  format_0d 4 (tm_year t + 1900) ++ b!"/" ++ format_0d 2 (tm_mon t + 1) ++ b!"/" ++
  format_0d 2 (tm_mday t) ++ b!"-" ++ format_0d 2 (tm_hour t) ++ b!":" ++
  format_0d 2 (tm_min t) ++ b!":" ++ format_0d 2 (tm_sec t) ++ b!"." ++
  format_0d 6 (tv_usec t) ++ b!" " ++ format_llx thread_id ++ b!" ".

(** What [snprintf] returns: the length of the whole text, or -1 (EOVERFLOW) for
    one that is not an [int]. *)
Definition printed_length (text : bytes) : Z := if zlen text <? 2 ^ 31 then zlen text else -1.

(** [snprintf(p, size, ...)] at offset [p] of a block, for a text that the
    format produces: the block, and the result. *)
Definition snprintf_at (m : bytes) (p size : Z) (text : bytes) : outcome (bytes * Z) :=
  if size <=? 0 then Normal (m, printed_length text)
  else
    m ← defined (mem_write m p (take (Z.to_nat (size - 1)) text ++ [0]));
    Normal (m, printed_length text).

(** ** Logv *)

(** One round with a buffer of [bufsize] bytes: [None] is [continue], otherwise
    the bytes handed to [fwrite]. *)
Definition log_round (last : bool) (bufsize : Z) (junk : nat -> Z) (head message : bytes)
  : outcome (option bytes) :=
  let base := new_block junk bufsize in
  let limit := bufsize in
  '(base, n) ← snprintf_at base 0 limit head;
  let p := n in
  '(base, p) ← (if p <? limit then
                  '(base, n) ← snprintf_at base p (limit - p) message; Normal (base, p + n)
                else Normal (base, p));
  if (limit <=? p) && negb last then Normal None
  else
    let p := if limit <=? p then limit - 1 else p in
    newline ← (if p =? 0 then Normal true
               else c ← defined (mem_read base (p - 1) 1); Normal (negb (bool_decide (c = [10]))));
    '(base, p) ← (if (newline : bool)
                  then base ← defined (mem_write base p [10]); Normal (base, p + 1)
                  else Normal (base, p));
    out ← defined (mem_read base 0 p);
    Normal (Some out).

(** What reaches the file. *)
Definition Logv (junk : nat -> Z) (now : nat -> when) (thread_id : Z) (message : bytes) : outcome bytes :=
  r ← log_round false 500 junk (header (now 0%nat) thread_id) message;
  match r with
  | Some out => Normal out
  | None =>
      r ← log_round true 30000 junk (header (now 1%nat) thread_id) message;
      match r with Some out => Normal out | None => Normal [] end
  end.

(** ** Lemmas *)

(** A line, ended by a newline unless it has one. *)
Definition with_newline (text : bytes) : bytes :=
  if bool_decide (last text = Some 10) then text else text ++ [10].

Lemma length_format_0d w n : (length (format_0d w n) <= w + 22)%nat.
Proof.
  unfold format_0d. pose proof (dec_digits_length 20 (Z.abs n) []) as H. cbn [length] in H.
  rewrite !length_app, length_replicate. destruct (n <? 0); cbn [length]; lia.
Qed.

Lemma length_hex_digits fuel : forall n acc, (length (hex_digits fuel n acc) <= fuel + length acc)%nat.
Proof.
  induction fuel as [|fuel IH]; intros n acc; cbn [hex_digits]; [lia|].
  case_match; cbn [length]; [lia|]. specialize (IH (n / 16) (hex_digit (n mod 16) :: acc)).
  cbn [length] in IH. lia.
Qed.

(** The header fits the small buffer, whatever the fields hold. *)
Lemma length_header t id : 1 < zlen (header t id) < 500.
Proof.
  unfold header, zlen. rewrite !length_app. change (length b!"/") with 1%nat.
  change (length b!"-") with 1%nat. change (length b!":") with 1%nat. change (length b!".") with 1%nat.
  change (length b!" ") with 1%nat. unfold format_llx.
  pose proof (length_hex_digits 16 id []) as Hx. cbn [length] in Hx.
  pose proof (length_format_0d 4 (tm_year t + 1900)). pose proof (length_format_0d 2 (tm_mon t + 1)).
  pose proof (length_format_0d 2 (tm_mday t)). pose proof (length_format_0d 2 (tm_hour t)).
  pose proof (length_format_0d 2 (tm_min t)). pose proof (length_format_0d 2 (tm_sec t)).
  pose proof (length_format_0d 6 (tv_usec t)). lia.
Qed.

(** [snprintf] behind [front], in a block of which [front] and [room] remain. *)
Lemma snprintf_at_ok (front room text : bytes) :
  (0 < length room)%nat ->
  exists rest, snprintf_at (front ++ room) (zlen front) (zlen room) text =
      Normal (front ++ take (length room - 1) text ++ 0 :: rest, printed_length text) /\
    length (take (length room - 1) text ++ 0 :: rest) = length room.
Proof.
  intros Hr. unfold snprintf_at. destruct (Z.leb_spec (zlen room) 0); [unfold zlen in *; lia|].
  replace (Z.to_nat (zlen room - 1)) with (length room - 1)%nat by (unfold zlen; lia).
  set (src := take (length room - 1) text ++ [0]).
  assert (Hsrc : (length src <= length room)%nat)
    by (unfold src; rewrite length_app, length_take; cbn [length]; lia).
  exists (drop (length src) room).
  rewrite <- (take_drop (length src) room) at 1.
  rewrite mem_write_middle by (rewrite length_take; lia). cbn [defined mbind outcome_bind].
  unfold src at 1. rewrite <- app_assoc. split; [done|].
  rewrite length_app. cbn [length]. rewrite length_drop. unfold src in *.
  rewrite length_app, length_take in *. cbn [length] in *. lia.
Qed.

(** The end of a round, with the text [q] in the buffer and room behind it. *)
Lemma finish_line (q rest : bytes) (y : Z) : q <> [] ->
  (newline ← (if zlen q =? 0 then Normal true
              else c ← defined (mem_read (q ++ y :: rest) (zlen q - 1) 1);
                   Normal (negb (bool_decide (c = [10]))));
   '(base, p) ← (if (newline : bool)
                 then base ← defined (mem_write (q ++ y :: rest) (zlen q) [10]); Normal (base, zlen q + 1)
                 else Normal (q ++ y :: rest, zlen q));
   out ← defined (mem_read base 0 p);
   Normal (Some out)) = Normal (Some (with_newline q)).
Proof.
  intros Hq. destruct (exists_last Hq) as (q' & x & ->). clear Hq.
  assert (Hz : zlen (q' ++ [x]) = zlen q' + 1) by zlia. pose proof (zlen_nonneg q').
  rewrite (proj2 (Z.eqb_neq _ 0)) by lia.
  replace (zlen (q' ++ [x]) - 1) with (zlen q') by lia.
  rewrite <- app_assoc. rewrite (mem_read_middle q' [x]). cbn [defined mbind outcome_bind].
  unfold with_newline. rewrite last_snoc.
  assert (Hb : bool_decide ([x] = [10]) = bool_decide (Some x = Some 10))
    by (apply bool_decide_ext; split; congruence). rewrite Hb. clear Hb.
  rewrite (app_assoc q' [x]). destruct (bool_decide (Some x = Some 10)); cbn [negb].
  - cbn [mbind outcome_bind]. by rewrite mem_read_prefix.
  - change (y :: rest) with ([y] ++ rest).
    rewrite (mem_write_middle (q' ++ [x]) [y] rest [10]) by done. cbn [defined mbind outcome_bind].
    replace (zlen (q' ++ [x]) + 1) with (zlen ((q' ++ [x]) ++ [10])) by zlia.
    rewrite (app_assoc _ [10] rest), mem_read_prefix. done.
Qed.

(** What is in the buffer of a round after the two calls of [snprintf]. *)
Lemma log_buffer B junk (head message : bytes) :
  0 < zlen head < B -> zlen head < 2 ^ 31 ->
  exists rest,
    ('(base, n) ← snprintf_at (new_block junk B) 0 B head;
     if n <? B then '(base, k) ← snprintf_at base n (B - n) message; Normal (base, n + k)
     else Normal (base, n)) =
    Normal (take (Z.to_nat (B - 1)) (head ++ message) ++ 0 :: rest, zlen head + printed_length message).
Proof.
  intros Hh Hint. set (m := new_block junk B). assert (Hm : zlen m = B).
  { unfold m, zlen. rewrite length_new_block. lia. }
  assert (Hm' : length m = Z.to_nat B) by (unfold zlen in Hm; lia).
  destruct (snprintf_at_ok [] m head) as (rest1 & E1 & Hl1); [lia|].
  cbn [app] in E1. rewrite Hm in E1. change (zlen []) with 0 in E1. rewrite E1.
  assert (Hp : printed_length head = zlen head) by (unfold printed_length; by rewrite (proj2 (Z.ltb_lt _ _) Hint)).
  rewrite Hp. cbn [mbind outcome_bind]. rewrite (proj2 (Z.ltb_lt _ _)) by lia.
  rewrite (take_ge head) in Hl1 |- * by (unfold zlen in *; lia).
  assert (Hroom : zlen (0 :: rest1) = B - zlen head)
    by (rewrite length_app in Hl1; unfold zlen in *; cbn [length] in *; lia).
  destruct (snprintf_at_ok head (0 :: rest1) message) as (rest2 & E2 & _); [cbn; lia|].
  rewrite Hroom in E2. rewrite E2. cbn [mbind outcome_bind].
  exists rest2. rewrite take_app_ge by (unfold zlen in *; lia).
  rewrite <- app_assoc. do 3 f_equal.
  f_equal. f_equal. unfold zlen in *. cbn [length] in *. lia.
Qed.

(** What the two calls have put together: the header and the message, or, when
    the length of the message is not an [int], the header without its last byte. *)
Definition put_together (head message : bytes) : bytes :=
  if zlen message <? 2 ^ 31 then head ++ message else take (length head - 1) head.

Lemma log_buffer_text B junk (head message : bytes) :
  1 < zlen head < B -> zlen head < 2 ^ 31 ->
  exists y rest, let text := put_together head message in
    ('(base, n) ← snprintf_at (new_block junk B) 0 B head;
     if n <? B then '(base, k) ← snprintf_at base n (B - n) message; Normal (base, n + k)
     else Normal (base, n)) =
    Normal (take (Z.to_nat (B - 1)) text ++ y :: rest, zlen text).
Proof.
  intros Hh Hint. destruct (log_buffer B junk head message) as (rest & ->); [lia|done|].
  unfold put_together, printed_length. destruct (Z.ltb_spec (zlen message) (2 ^ 31)) as [Hm|Hm]; cbv zeta.
  - exists 0, rest. by rewrite zlen_app.
  - set (q := take (length head - 1) head).
    assert (Eh : exists y, head = q ++ [y]).
    { destruct (lookup_lt_is_Some_2 head (length head - 1)) as [y Hy]; [unfold zlen in Hh; lia|]. exists y.
      unfold q. rewrite <- (take_S_r _ _ y Hy). symmetry. apply take_ge. lia. }
    destruct Eh as [y Eh]. exists y, (take (Z.to_nat (B - 1) - length head) message ++ 0 :: rest).
    assert (Hl : length head = (length q + 1)%nat) by (rewrite Eh, length_app; done).
    rewrite take_app_ge by (unfold zlen in Hh; lia). rewrite (take_ge q) by (unfold zlen in Hh; lia).
    f_equal. f_equal; [|unfold zlen; lia]. rewrite <- app_assoc. rewrite Eh at 1. by rewrite <- app_assoc.
Qed.

Lemma log_round_ok last B junk (head message : bytes) :
  1 < zlen head < B -> zlen head < 2 ^ 31 ->
  let text := put_together head message in
  log_round last B junk head message = Normal (
    if zlen text <? B then Some (with_newline text)
    else if (last : bool) then Some (with_newline (take (Z.to_nat (B - 1)) text))
    else None).
Proof.
  intros Hh Hint. cbv zeta. destruct (log_buffer_text B junk head message Hh Hint) as (y & rest & E). cbv zeta in E.
  assert (Ht : 0 < zlen (put_together head message)).
  { unfold put_together, zlen in *. case_match; rewrite ?length_app, ?length_take; lia. }
  set (text := put_together head message) in *. clearbody text. set (q := take (Z.to_nat (B - 1)) text) in *.
  assert (Hq : q <> []).
  { intros Hn%(f_equal length). unfold q in Hn. rewrite length_take in Hn.
    unfold zlen in *. cbn [length] in Hn. lia. }
  unfold log_round.
  assert (Hassoc : forall (X : Type) (k : bytes * Z -> outcome X),
    ('(base, n) ← snprintf_at (new_block junk B) 0 B head;
     r ← (if n <? B then '(base, k) ← snprintf_at base n (B - n) message; Normal (base, n + k)
          else Normal (base, n)); k r) = (r ← Normal (q ++ y :: rest, zlen text); k r)).
  { intros X k. rewrite <- E. destruct (snprintf_at _ 0 B head) as [[b n]| | | |]; done. }
  rewrite (Hassoc _ (fun '(base, p) => _)). cbn [mbind outcome_bind].
  destruct (Z.ltb_spec (zlen text) B) as [Hlt|Hge].
  - rewrite (proj2 (Z.leb_gt _ _)) by lia. cbn [andb].
    assert (q = text) as Hqt by (apply take_ge; unfold zlen in *; lia). rewrite Hqt in *.
    by apply finish_line.
  - rewrite (proj2 (Z.leb_le _ _)) by lia. destruct last; cbn [andb negb]; [|done].
    assert (Hz : B - 1 = zlen q) by (unfold q, zlen in *; rewrite length_take; lia).
    clearbody q. rewrite Hz. by apply finish_line.
Qed.

(** ** Properties *)

(** One call of [Logv] writes one line.  Whatever the clock reads and
    however long the message is, nothing outside the buffers is touched, and
    what reaches the file is the header and the message, complete when the line
    has fewer than 30000 bytes and otherwise its first 29999 bytes, ended by a
    newline unless it already ends in one; a line that does not fit 500 bytes
    carries the time of the second round.  Of a message of 2^31 bytes or more
    nothing is written. *)
Lemma Logv_writes_line junk now thread_id message :
  let text i := put_together (header (now i) thread_id) message in
  Logv junk now thread_id message = Normal (
    if zlen (text 0%nat) <? 500 then with_newline (text 0%nat)
    else if zlen (text 1%nat) <? 30000 then with_newline (text 1%nat)
    else with_newline (take (Z.to_nat 29999) (text 1%nat))).
Proof.
  cbv zeta. unfold Logv.
  pose proof (length_header (now 0%nat) thread_id). pose proof (length_header (now 1%nat) thread_id).
  rewrite !log_round_ok by lia. cbn [mbind outcome_bind].
  destruct (_ <? 500); [reflexivity|]. by destruct (_ <? 30000).
Qed.
