(* ===== verification/LogFile.v ===== *)
(** * Log files (PosixEnv::NewLogger and gettid of bench/util/env_posix.cc, Log of
    bench/util/env.cc, the constructor of bench/util/posix_logger.h)

    A logger owns a stdio stream.  [Stdio] is what the sources call of stdio;
    [StdioLaws] is what the C standard says of it, in terms of the bytes that
    have reached the file of a stream, the bytes in its buffer, and the space
    left for both: a write within that space is complete, and a flush moves the
    buffer to the file. *)

From S2P Require Import Prelude CLib Status PosixOS PosixFile Logger.

Local Open Scope Z_scope.

Class Stdio (W FILE : Type) := {
  (** name and mode; NULL with [errno] *)
  fopen : bytes -> bytes -> W -> sysret FILE * W;
  fwrite : FILE -> bytes -> W -> W;
  fflush : FILE -> W -> W;
  fclose : FILE -> W -> W
}.

Class StdioLaws (W FILE : Type) `{Stdio W FILE} (stream : FILE -> W -> option (bytes * bytes)) (room : W -> Z)
    : Prop := {
  fopen_truncates name w f w' :
    fopen name b!"w" w = (Ret f, w') -> stream f w' = Some ([], []) /\ room w' = room w;
  fopen_error name w e w' : fopen name b!"w" w = (Errno e, w') -> room w' = room w;
  (** some of the buffer may go to the file at any time *)
  fwrite_adds f w d b p :
    stream f w = Some (d, b) -> zlen p <= room w ->
    exists d' b', stream f (fwrite f p w) = Some (d', b') /\ d' ++ b' = (d ++ b) ++ p /\
      room (fwrite f p w) = room w - zlen p;
  fflush_writes f w d b :
    stream f w = Some (d, b) -> stream f (fflush f w) = Some (d ++ b, []) /\ room (fflush f w) = room w
}.

(** ** The logger *)
Section logger.
Context {U : Type} `{PosixOS U} {W FILE : Type} `{Stdio W FILE}.

(** [gettid_] is called when a line is written; the thread that writes it is
    the argument of the methods. *)
Record PosixLogger := mkLogger { file_ : FILE; gettid_ : Z -> Z }.

(** [PosixEnv::gettid]: the low 64 bits of [pthread_self()] *)
Definition gettid (pthread_self : Z) : Z := u64 pthread_self.

Definition NewLogger (fname : bytes) (w : W) : Status.Status * option PosixLogger * W :=
  match fopen (c_str fname) b!"w" w with
  | (Errno e, w) => (PosixError fname e, None, w)
  | (Ret f, w) => (Status.OK, Some (mkLogger f gettid), w)
  end.

(** The stack of each call, the clock in its two rounds, the thread that makes
    it, and the text its format and arguments give. *)
Record call := mkCall { junk : nat -> Z; clock : nat -> when; self : Z; message : bytes }.

Definition logger_Logv (l : PosixLogger) (k : call) (w : W) : outcome W :=
  out ← Logv (junk k) (clock k) (gettid_ l (self k)) (message k);
  Normal (fflush (file_ l) (fwrite (file_ l) out w)).

(** [Log(info_log, format, ...)]: nothing without a logger *)
Definition Log (info_log : option PosixLogger) (k : call) (w : W) : outcome W :=
  match info_log with
  | Some l => logger_Logv l k w
  | None => Normal w
  end.

(** [delete info_log] *)
Definition logger_delete (l : PosixLogger) (w : W) : W := fclose (file_ l) w.

Fixpoint log_all (info_log : option PosixLogger) (ks : list call) (w : W) : outcome W :=
  match ks with
  | [] => Normal w
  | k :: ks' => w ← Log info_log k w; log_all info_log ks' w
  end.
End logger.
Arguments PosixLogger : clear implicits.

(** ** What a line is *)

(** Of at most 30000 bytes: the header and the message, cut when they do not fit,
    and a newline; a message of 2^31 bytes or more is left out. *)
Definition log_line (k : call) : bytes :=
  let text i := put_together (header (clock k i) (u64 (self k))) (message k) in
  let long := text 1%nat in
  if zlen (text 0%nat) <? 500 then with_newline (text 0%nat)
  else if zlen long <? 30000 then with_newline long else with_newline (take (Z.to_nat 29999) long).

Lemma length_with_newline l : zlen (with_newline l) <= zlen l + 1.
Proof. unfold with_newline. case_bool_decide; zlia. Qed.

Lemma length_log_line k : zlen (log_line k) <= 30000.
Proof.
  unfold log_line. zcases; (etransitivity; [apply length_with_newline|]); try lia.
  unfold zlen. rewrite length_take. lia.
Qed.

Lemma Logv_line k : Logv (junk k) (clock k) (gettid (self k)) (message k) = Normal (log_line k).
Proof. apply Logv_writes_line. Qed.

Section lines.
Context {W FILE : Type} `{Stdio W FILE} {stream : FILE -> W -> option (bytes * bytes)} {room : W -> Z}
  {Laws : StdioLaws W FILE stream room}.

Lemma log_all_lines f ks : forall d w,
  stream f w = Some (d, []) -> zlen (concat (map log_line ks)) <= room w ->
  exists w', log_all (Some (mkLogger f gettid)) ks w = Normal w' /\
    stream f w' = Some (d ++ concat (map log_line ks), []).
Proof.
  induction ks as [|k ks IH]; intros d w Hs Hr; cbn [log_all map concat].
  - exists w. by rewrite app_nil_r.
  - cbn [map concat] in Hr. rewrite zlen_app in Hr. pose proof (zlen_nonneg (concat (map log_line ks))).
    unfold Log, logger_Logv. cbn [gettid_ file_]. rewrite Logv_line. cbn [mbind outcome_bind].
    destruct (fwrite_adds f w d [] (log_line k) Hs) as (d1 & b1 & H1 & Hcat & Hroom); [lia|].
    destruct (fflush_writes f _ d1 b1 H1) as [H2 Hroom2]. rewrite Hcat, app_nil_r in H2.
    destruct (IH (d ++ log_line k) _ H2) as (w' & E & Hw'); [lia|].
    exists w'. by rewrite app_assoc.
Qed.
End lines.

(** ** Properties *)

(** C27: a log file holds what was logged.  When [NewLogger] succeeds, the lines
    of any sequence of [Log] calls, from any threads, are in the file, in order
    and each complete up to 29999 bytes (of a message of 2^31 bytes or more only
    the header), after the last call returns, with nothing
    left in the buffer, if the device has room for them; nothing the file held
    before remains.  When it fails the status is the error of the system and
    [Log] without a logger does nothing. *)
Theorem log_file_lines {U : Type} `{PosixOS U} {W FILE : Type} `{Stdio W FILE}
    (stream : FILE -> W -> option (bytes * bytes)) (room : W -> Z) (Laws : StdioLaws W FILE stream room)
    fname ks w (Hroom : zlen (concat (map log_line ks)) <= room w) :
  match NewLogger fname w with
  | (s, Some l, w1) =>
      s = Status.OK /\
      exists w2, log_all (Some l) ks w1 = Normal w2 /\
        stream (file_ l) w2 = Some (concat (map log_line ks), [])
  | (s, None, w1) =>
      Status.ok s = false /\ log_all None ks w1 = Normal w1
  end.
Proof.
  unfold NewLogger. destruct (fopen (c_str fname) b!"w" w) as [[f|e] w1] eqn:E.
  - split; [done|]. destruct (fopen_truncates _ _ _ _ E) as [Hs Hr].
    destruct (log_all_lines f ks [] w1 Hs) as (w2 & E2 & H2); [congruence|]. by exists w2.
  - split; [apply PosixError_not_ok|]. induction ks as [|k ks IH]; [done|]. cbn [log_all Log mbind outcome_bind].
    apply IH. cbn [map concat] in Hroom. rewrite zlen_app in Hroom. pose proof (zlen_nonneg (log_line k)). lia.
Qed.

(** ** A small stdio: streams by number, and the space left *)
Module MemStdio.

Record world := mkWorld { streams : gmap nat (bytes * bytes); space : Z }.

Definition fresh_stream (w : world) : nat := fresh (dom (streams w)).

#[export] Instance mem_stdio : Stdio world nat := {|
  fopen name mode w :=
    if bool_decide (name = []) then (Errno ENOENT, w)
    else (Ret (fresh_stream w), mkWorld (<[fresh_stream w := ([], [])]> (streams w)) (space w));
  fwrite f p w :=
    match streams w !! f with
    | Some (d, b) =>
        let q := take (Z.to_nat (space w)) p in
        mkWorld (<[f := (d, b ++ q)]> (streams w)) (space w - zlen q)
    | None => w
    end;
  fflush f w :=
    match streams w !! f with
    | Some (d, b) => mkWorld (<[f := (d ++ b, [])]> (streams w)) (space w)
    | None => w
    end;
  fclose f w := mkWorld (delete f (streams w)) (space w)
|}.

#[export] Instance mem_stdio_laws : StdioLaws world nat (fun f w => streams w !! f) space.
Proof.
  split; cbn [fopen fwrite fflush mem_stdio].
  - intros name w f w'. case_bool_decide; [done|]. intros [= <- <-]. cbn. by rewrite lookup_insert_eq.
  - intros name w e w'. case_bool_decide; [|done]. by intros [= <- <-].
  - intros f w d b p -> Hp. exists d, (b ++ p). rewrite take_ge by (unfold zlen in Hp; lia). cbn.
    rewrite lookup_insert_eq. by rewrite app_assoc.
  - intros f w d b ->. cbn. by rewrite lookup_insert_eq.
Qed.

End MemStdio.

Import MemStdio.

Definition demo_call (i : Z) (m : bytes) : call :=
  mkCall (fun _ => 0) (fun _ => mkWhen 117 (i - 1) 2 3 4 5 678) 255 m.

Lemma log_file_lines_witness :
  exists s (l : PosixLogger nat) w1 w2, NewLogger (H := MemOS.mem_os) b!"/log" (MemStdio.mkWorld ∅ 1000) = (s, Some l, w1) /\
    log_all (Some l) [demo_call 1 b!"opened"; demo_call 2 b!"closed"] w1 = Normal w2 /\
    MemStdio.streams w2 !! file_ l =
      Some (b!"2017/01/02-03:04:05.000678 ff opened" ++ [10] ++
            b!"2017/02/02-03:04:05.000678 ff closed" ++ [10], []).
Proof.
  pose proof (log_file_lines (H := MemOS.mem_os) _ _ MemStdio.mem_stdio_laws b!"/log"
    [demo_call 1 b!"opened"; demo_call 2 b!"closed"] (MemStdio.mkWorld ∅ 1000)) as T.
  destruct T as [_ (w2 & E & Hs)]; [vm_compute; congruence|].
  do 4 eexists. split; [reflexivity|]. split; [exact E|]. rewrite Hs. vm_compute. reflexivity.
Defined.
