(* ===== verification/Runs.v ===== *)
(** * Runs: programs with all their states

    A [Run] yields the state after every call, the outcome and the last state,
    also when the program ends by an exception, [exit] or [abort].  [rwp] is its
    weakest precondition, with a condition on every state on the way: for a
    program that can crash, what has to hold where the crash strikes. *)

From S2P Require Import Prelude.

Local Open Scope Z_scope.

(** The states after each call, the outcome, the last state. *)
Definition Run (S A : Type) : Type := S -> list S * outcome A * S.

(** An outcome that ends the enclosing computation too. *)
Definition stop {A B} (r : outcome A) : outcome B :=
  match r with
  | Normal _ | Undefined => Undefined
  | Aborted => Aborted
  | Thrown what => Thrown what
  | Exited code => Exited code
  end.

#[export] Instance run_ret {S} : MRet (Run S) := fun A a s => ([], Normal a, s).

#[export] Instance run_bind {S} : MBind (Run S) := fun A B k m s =>
  match m s with
  | (t, Normal a, s') => let '(t', r, s'') := k a s' in (t ++ t', r, s'')
  | (t, r, s') => (t, stop r, s')
  end.

(** One call. *)
Definition act {S A} (f : S -> A * S) : Run S A := fun s =>
  let '(a, s') := f s in ([s'], Normal a, s').

Definition ends {S A} (r : outcome A) : Run S A := fun s => ([], r, s).

Definition observe {S A} (f : S -> A) : Run S A := fun s => ([], Normal (f s), s).

(** [rwp C m Q s]: every state the run of [m] from [s] passes through satisfies
    [C], and it ends with [Q]. *)
Definition rwp {S A} (C : S -> Prop) (m : Run S A) (Q : outcome A -> S -> Prop) (s : S) : Prop :=
  let '(t, r, s') := m s in Forall C t /\ Q r s'.

Section rwp_rules.
Context {S : Type} (C : S -> Prop).

Lemma rwp_ret {A} (a : A) (Q : outcome A -> S -> Prop) s : Q (Normal a) s -> rwp C (mret a) Q s.
Proof. intros HQ. split; [constructor|done]. Qed.

Lemma rwp_ends {A} (r : outcome A) (Q : outcome A -> S -> Prop) s : Q r s -> rwp C (ends r) Q s.
Proof. intros HQ. split; [constructor|done]. Qed.

Lemma rwp_observe {A} (f : S -> A) (Q : outcome A -> S -> Prop) s :
  Q (Normal (f s)) s -> rwp C (observe f) Q s.
Proof. intros HQ. split; [constructor|done]. Qed.

Lemma rwp_act {A} (f : S -> A * S) (Q : outcome A -> S -> Prop) s :
  C (f s).2 -> Q (Normal (f s).1) (f s).2 -> rwp C (act f) Q s.
Proof. unfold rwp, act. destruct (f s) as [a s']. intros HC HQ. split; [by repeat constructor|done]. Qed.

Lemma rwp_bind {A B} (m : Run S A) (k : A -> Run S B) Q s :
  rwp C m (fun r s' => match r with
                       | Normal a => rwp C (k a) Q s'
                       | _ => Q (stop r) s'
                       end) s ->
  rwp C (a ← m; k a) Q s.
Proof.
  unfold rwp, mbind, run_bind. destruct (m s) as [[t [a| | | |]] s']; try done.
  destruct (k a s') as [[t' r] s'']. intros (Ht & Ht' & HQ). split; [|done].
  by apply Forall_app_2.
Qed.

Lemma rwp_mono {A} (m : Run S A) (Q Q' : outcome A -> S -> Prop) s :
  rwp C m Q s -> (forall r s', Q r s' -> Q' r s') -> rwp C m Q' s.
Proof. unfold rwp. destruct (m s) as [[t r] s']. intros [Ht HQ] HQQ. auto. Qed.

Lemma rwp_bind_act {A B} (f : S -> A * S) (k : A -> Run S B) Q s :
  C (f s).2 -> rwp C (k (f s).1) Q (f s).2 -> rwp C (a ← act f; k a) Q s.
Proof. intros HC Hk. by apply rwp_bind, rwp_act. Qed.

End rwp_rules.
