(* ===== verification/PmemObj.v ===== *)
(** * libpmemobj as the examples call it

    The library is not part of the repository: [PmemObj] names the calls, and
    [PmemObjLaws] states what its manual promises of them, in terms of a view of
    the world: the pool files, the open pools, the mutexes held.  A pool holds
    typed objects; it knows its root, which objects have stores that no flush
    has made durable, and, inside a transaction, the snapshots taken by [TX_ADD]
    and the objects allocated.  A crash loses the process; what the recovery at
    the next open leaves of a pool is [recovers]: snapshots put back,
    allocations undone, and nothing known of an object with unflushed stores.

    The states of a [Run] are the points where a crash can strike.  [MemPmem] is a small library with this behaviour, to run programs on. *)

From S2P Require Import Prelude Runs.

Local Open Scope Z_scope.

(** ** The view of a pool *)

(** [OID_NULL] *)
Definition OID_NULL : Z := 0.

Record txlog (O : Type) := mkTx { snapshots : gmap Z O; allocated : gset Z }.
Arguments mkTx {O}.
Arguments snapshots {O}.
Arguments allocated {O}.

Record pool (O : Type) := mkPool {
  objs : gmap Z O; root_oid : option Z; dirty : gset Z; tx : option (txlog O)
}.
Arguments mkPool {O}.
Arguments objs {O}.
Arguments root_oid {O}.
Arguments dirty {O}.
Arguments tx {O}.

Record pview (O : Type) := mkPview {
  pools : gmap bytes (pool O); handles : gmap Z bytes; held : gset Z
}.
Arguments mkPview {O}.
Arguments pools {O}.
Arguments handles {O}.
Arguments held {O}.

Section views.
Context {O : Type}.
Implicit Types (p : pool O) (v : pview O).

Definition empty_pool : pool O := mkPool ∅ None ∅ None.

(** The pool a handle stands for. *)
Definition at_pool v (h : Z) (path : bytes) p : Prop :=
  handles v !! h = Some path /\ pools v !! path = Some p.

Definition set_pool (path : bytes) p v : pview O :=
  mkPview (<[path := p]> (pools v)) (handles v) (held v).

Definition store p (o : Z) (c : O) : pool O :=
  mkPool (<[o := c]> (objs p)) (root_oid p) ({[o]} ∪ dirty p) (tx p).

Definition flush p (o : Z) : pool O :=
  mkPool (objs p) (root_oid p) (dirty p ∖ {[o]}) (tx p).

Definition begin_tx p : pool O :=
  mkPool (objs p) (root_oid p) (dirty p) (Some (mkTx ∅ ∅)).

(** an object allocated in the transaction, durable with it *)
Definition tx_alloc p (o : Z) (c : O) : pool O :=
  match tx p with
  | None => p
  | Some l => mkPool (<[o := c]> (objs p)) (root_oid p) (dirty p)
                (Some (mkTx (snapshots l) ({[o]} ∪ allocated l)))
  end.

(** What the transaction protects. *)
Definition logged p : gset Z :=
  match tx p with None => ∅ | Some l => dom (snapshots l) ∪ allocated l end.

(** the first snapshot of an object counts, and none of its own objects *)
Definition snapshot p (o : Z) : pool O :=
  match tx p, objs p !! o with
  | Some l, Some c =>
      if decide (o ∈ logged p) then p
      else mkPool (objs p) (root_oid p) (dirty p)
             (Some (mkTx (<[o := c]> (snapshots l)) (allocated l)))
  | _, _ => p
  end.

Definition commit p : pool O :=
  mkPool (objs p) (root_oid p) (dirty p ∖ logged p) None.

Definition rollback p : pool O :=
  match tx p with
  | None => p
  | Some l => mkPool (snapshots l ∪ filter (fun kv => kv.1 ∉ allocated l) (objs p)) (root_oid p)
                (dirty p ∖ logged p) None
  end.

(** A root created in a pool that has none. *)
Definition create_root p (o : Z) (c : O) : pool O :=
  mkPool (<[o := c]> (objs p)) (Some o) (dirty p) (tx p).

(** An object allocated outside a transaction, its contents not yet durable. *)
Definition alloc_raw p (o : Z) (c : O) : pool O :=
  mkPool (<[o := c]> (objs p)) (root_oid p) ({[o]} ∪ dirty p) (tx p).

Definition free p (o : Z) : pool O :=
  mkPool (delete o (objs p)) (root_oid p) (dirty p ∖ {[o]}) (tx p).

(** [p'] is what recovery makes of a pool that a crash met as [p]. *)
Definition recovers p p' : Prop :=
  let q := rollback p in
  root_oid p' = root_oid q /\ dirty p' = ∅ /\ tx p' = None /\
  forall o, o ∉ dirty q -> objs p' !! o = objs q !! o.

End views.

(** ** The calls

    A [PMEMobjpool*] is a [Z].  [POBJ_ROOT], [TX_ZNEW] and [pmemobj_alloc] name a
    struct by its size; here it is named by the zeroed object of its type.
    [pmemobj_alloc] hands the new object to a constructor.  Calls on objects
    name the pool, which in C the identifier contains. *)
Class PmemObj (W O : Type) := {
  errno : W -> Z;
  strerror : Z -> bytes;
  pmemobj_open : bytes -> bytes -> W -> option Z * W;
  (** path, layout, size, mode *)
  pmemobj_create : bytes -> bytes -> Z -> Z -> W -> option Z * W;
  pmemobj_close : Z -> W -> W;
  pmemobj_check : bytes -> bytes -> W -> Z * W;
  pmemobj_root : Z -> O -> W -> Z * W;
  (** the return value and the identifier of the object *)
  pmemobj_alloc : Z -> O -> (Z -> W -> Z * W) -> W -> Z * Z * W;
  pmemobj_free : Z -> Z -> W -> W;
  (** loads and stores through [D_RO] and [D_RW] *)
  D_RO : Z -> Z -> W -> option O;
  D_RW : Z -> Z -> O -> W -> W;
  pmemobj_persist : Z -> Z -> W -> W;
  pmemobj_mutex_lock : Z -> Z -> W -> Z * W;
  pmemobj_mutex_unlock : Z -> Z -> W -> Z * W;
  (** [false], [None]: the transaction is aborted *)
  tx_begin : Z -> W -> bool * W;
  tx_znew : Z -> O -> W -> option Z * W;
  tx_add : Z -> Z -> W -> bool * W;
  tx_commit : Z -> W -> W;
  (** a crash of the machine and the recovery at the next open *)
  crash : W -> W -> Prop
}.

(** [same_type z c]: [c] is an object of the type whose zeroed object is [z]. *)
Class PmemObjLaws (W O : Type) `{PmemObj W O} (same_type : O -> O -> Prop)
    (vw : W -> pview O) : Prop := {
  open_ok path layout w h w' :
    pmemobj_open path layout w = (Some h, w') ->
    handles (vw w) !! h = None /\ is_Some (pools (vw w) !! path) /\
    vw w' = mkPview (pools (vw w)) (<[h := path]> (handles (vw w))) (held (vw w));
  open_fails path layout w w' : pmemobj_open path layout w = (None, w') -> vw w' = vw w;
  (** a new pool is empty; an existing file is not overwritten *)
  create_ok path layout size mode w h w' :
    pmemobj_create path layout size mode w = (Some h, w') ->
    handles (vw w) !! h = None /\ pools (vw w) !! path = None /\
    vw w' = mkPview (<[path := empty_pool]> (pools (vw w))) (<[h := path]> (handles (vw w)))
              (held (vw w));
  create_fails path layout size mode w w' :
    pmemobj_create path layout size mode w = (None, w') -> vw w' = vw w;
  close_ok h w : vw (pmemobj_close h w) = mkPview (pools (vw w)) (delete h (handles (vw w))) (held (vw w));
  check_ok path layout w : vw (snd (pmemobj_check path layout w)) = vw w;
  (** the root is created zeroed, at once durable, and then stays *)
  root_ok h z w path p o w' :
    at_pool (vw w) h path p -> pmemobj_root h z w = (o, w') -> o <> OID_NULL ->
    (root_oid p = Some o /\ vw w' = vw w) \/
    (root_oid p = None /\ objs p !! o = None /\ (o ∉ dirty p) /\
     vw w' = set_pool path (create_root p o z) (vw w));
  root_fails h z w path p w' :
    at_pool (vw w) h path p -> pmemobj_root h z w = (OID_NULL, w') -> vw w' = vw w;
  alloc_ok h z ctor w path p o w' :
    at_pool (vw w) h path p -> pmemobj_alloc h z ctor w = (0, o, w') ->
    exists c w1, o <> OID_NULL /\ objs p !! o = None /\ (o ∉ dirty p) /\ same_type z c /\
      vw w1 = set_pool path (alloc_raw p o c) (vw w) /\ ctor o w1 = (0, w');
  alloc_fails h z ctor w path p r o w' :
    at_pool (vw w) h path p -> pmemobj_alloc h z ctor w = (r, o, w') -> r <> 0 -> vw w' = vw w;
  free_null h w : vw (pmemobj_free h OID_NULL w) = vw w;
  free_ok h o w path p c :
    at_pool (vw w) h path p -> o <> OID_NULL -> objs p !! o = Some c -> root_oid p <> Some o ->
    vw (pmemobj_free h o w) = set_pool path (free p o) (vw w);
  load_ok h o w path p : at_pool (vw w) h path p -> D_RO h o w = objs p !! o;
  store_ok h o c c' w path p :
    at_pool (vw w) h path p -> objs p !! o = Some c' -> same_type c c' ->
    vw (D_RW h o c w) = set_pool path (store p o c) (vw w);
  persist_ok h o w path p :
    at_pool (vw w) h path p -> vw (pmemobj_persist h o w) = set_pool path (flush p o) (vw w);
  lock_ok h o w :
    o ∉ held (vw w) ->
    vw (snd (pmemobj_mutex_lock h o w)) = mkPview (pools (vw w)) (handles (vw w)) ({[o]} ∪ held (vw w));
  unlock_ok h o w :
    o ∈ held (vw w) ->
    vw (snd (pmemobj_mutex_unlock h o w)) = mkPview (pools (vw w)) (handles (vw w)) (held (vw w) ∖ {[o]});
  begin_ok h w path p :
    at_pool (vw w) h path p -> tx p = None ->
    vw (snd (tx_begin h w)) = if fst (tx_begin h w) then set_pool path (begin_tx p) (vw w) else vw w;
  (** a call that fails in a transaction aborts it *)
  znew_ok h z w path p o w' :
    at_pool (vw w) h path p -> is_Some (tx p) -> tx_znew h z w = (Some o, w') ->
    o <> OID_NULL /\ objs p !! o = None /\ (o ∉ dirty p) /\ (o ∉ logged p) /\
    vw w' = set_pool path (tx_alloc p o z) (vw w);
  znew_aborts h z w path p w' :
    at_pool (vw w) h path p -> is_Some (tx p) -> tx_znew h z w = (None, w') ->
    vw w' = set_pool path (rollback p) (vw w);
  add_ok h o w path p :
    at_pool (vw w) h path p -> is_Some (tx p) -> is_Some (objs p !! o) ->
    vw (snd (tx_add h o w)) =
    set_pool path (if fst (tx_add h o w) then snapshot p o else rollback p) (vw w);
  commit_ok h w path p :
    at_pool (vw w) h path p -> is_Some (tx p) ->
    vw (tx_commit h w) = set_pool path (commit p) (vw w);
  crash_recovers w w' :
    crash w w' ->
    handles (vw w') = ∅ /\ held (vw w') = ∅ /\
    forall path, match pools (vw w) !! path, pools (vw w') !! path with
                 | Some p, Some p' => recovers p p'
                 | None, None => True
                 | _, _ => False
                 end
}.

(** ** Programs over the library *)

(** The world and what has been printed. *)
Record St (W : Type) := mkSt { world : W; stdout : bytes }.
Arguments mkSt {W}.
Arguments world {W}.
Arguments stdout {W}.

Definition printf {W} (text : bytes) : Run (St W) unit :=
  act (fun s => (tt, mkSt (world s) (stdout s ++ text))).

Definition call {W A} (f : W -> A * W) : Run (St W) A :=
  act (fun s => let '(a, w) := f (world s) in (a, mkSt w (stdout s))).

Definition call_ {W} (f : W -> W) : Run (St W) unit := call (fun w => (tt, f w)).

Definition exit_ {W A} (code : Z) : Run (St W) A := ends (Exited code).

Section programs.
Context {W O : Type} `{PmemObj W O}.

(** A load from an object that is not there has no defined behaviour. *)
Definition load (h o : Z) : Run (St W) O :=
  c ← observe (fun s => D_RO h o (world s));
  ends (defined c).

Definition TX_ZNEW (h : Z) (z : O) : Run (St W) Z :=
  r ← call (tx_znew h z);
  match r with Some o => mret o | None => ends (Thrown []) end.

Definition TX_ADD (h o : Z) : Run (St W) unit :=
  r ← call (tx_add h o);
  if (r : bool) then mret tt else ends (Thrown []).

(** An abort leaves the body by [longjmp]. *)
Definition catch_abort {A} (m : Run (St W) A) : Run (St W) bool := fun s =>
  match m s with
  | (t, Normal _, s') => (t, Normal true, s')
  | (t, Thrown _, s') => (t, Normal false, s')
  | (t, r, s') => (t, stop r, s')
  end.

(** [TX_BEGIN { body } TX_ONCOMMIT { } TX_ONABORT { } TX_END] *)
Definition TX (h : Z) (body oncommit onabort : Run (St W) unit) : Run (St W) unit :=
  ok ← call (tx_begin h);
  if (ok : bool) then
    committed ← catch_abort (_ ← body; call_ (tx_commit h));
    if (committed : bool) then oncommit else onabort
  else onabort.

Lemma rwp_catch_abort {A} C (m : Run (St W) A) Q s :
  rwp C m (fun r s' => match r with
                       | Normal _ => Q (Normal true) s'
                       | Thrown _ => Q (Normal false) s'
                       | _ => Q (stop r) s'
                       end) s ->
  rwp C (catch_abort m) Q s.
Proof. unfold rwp, catch_abort. by destruct (m s) as [[t [a| | | |]] s']. Qed.

End programs.

(** ** Transactions on views *)
Section transactions.
Context {O : Type}.
Implicit Types p : pool O.

(** Nothing to flush and no transaction: what loads see is what is stored. *)
Definition clean p : Prop := dirty p = ∅ /\ tx p = None.

Lemma rollback_clean p : clean p -> rollback p = p.
Proof. intros [_ Ht]. unfold rollback. by rewrite Ht. Qed.

Lemma rollback_begin p : clean p -> rollback (begin_tx p) = p.
Proof.
  destruct p as [m r d t]. intros [Hd Ht]. cbn in Hd, Ht. subst d t.
  unfold rollback, begin_tx, logged. cbn.
  f_equal. rewrite (left_id_L ∅ (∪)). apply map_filter_id. set_solver.
Qed.

(** Log before writing: a store to a protected object changes nothing that
    recovery restores. *)
Lemma rollback_store p o c : o ∈ logged p -> rollback (store p o c) = rollback p.
Proof.
  unfold rollback, store, logged. cbn. destruct (tx p) as [[sn al]|]; cbn; [|set_solver].
  intros Ho. f_equal; [|set_solver].
  apply map_eq. intros k. destruct (sn !! k) as [x|] eqn:Hk.
  { by erewrite !lookup_union_Some_l. }
  rewrite !lookup_union_r by done. destruct (decide (k = o)) as [->|Hne].
  - apply elem_of_union in Ho as [Ho%elem_of_dom|Ho]; [by rewrite Hk in Ho; destruct Ho|].
    rewrite !map_lookup_filter_None_2; [done| |]; right; intros y _; set_solver.
  - rewrite map_filter_insert. case_decide.
    + by rewrite lookup_insert_ne.
    + rewrite !map_lookup_filter, lookup_delete_ne by done. done.
Qed.

Lemma rollback_snapshot p o : o ∉ dirty p -> rollback (snapshot p o) = rollback p.
Proof.
  intros Hd. unfold snapshot. destruct (tx p) as [[sn al]|] eqn:Ht; [|done].
  destruct (objs p !! o) as [c|] eqn:Ho; [|done]. case_decide as Hl; [done|].
  unfold logged in Hl. rewrite Ht in Hl. cbn in Hl.
  unfold rollback, logged. rewrite Ht. cbn. f_equal.
  - apply map_eq. intros k. destruct (decide (k = o)) as [->|Hne].
    + erewrite lookup_union_Some_l by apply lookup_insert_eq. symmetry.
      rewrite lookup_union_r by (apply not_elem_of_dom; set_solver).
      apply map_lookup_filter_Some_2; [done|]. cbn. set_solver.
    + destruct (sn !! k) as [x|] eqn:Hk.
      * erewrite !lookup_union_Some_l; [done|done|by rewrite lookup_insert_ne].
      * rewrite !lookup_union_r; [done|done|by rewrite lookup_insert_ne].
  - set_solver.
Qed.

Lemma rollback_tx_alloc p o c :
  objs p !! o = None -> o ∉ dirty p -> rollback (tx_alloc p o c) = rollback p.
Proof.
  intros Ho Hd. unfold tx_alloc. destruct (tx p) as [[sn al]|] eqn:Ht; [|done].
  unfold rollback, logged. rewrite Ht. cbn. f_equal; [|set_solver].
  f_equal. apply map_eq. intros k. rewrite !map_lookup_filter.
  destruct (decide (k = o)) as [->|Hne].
  - rewrite lookup_insert_eq, Ho. cbn. by rewrite option_guard_False by set_solver.
  - rewrite lookup_insert_ne by done. destruct (objs p !! k); cbn; [|done].
    case_guard as H1; case_guard as H2; cbn in *; set_solver.
Qed.

(** A pool whose roll-back is clean recovers to it. *)
Lemma recovers_rollback p p' : dirty (rollback p) = ∅ -> recovers p p' -> p' = rollback p.
Proof.
  intros Hd (Hr & Hd' & Ht & Ho). rewrite Hd in Ho.
  assert (Htx : tx (rollback p) = None) by (unfold rollback; by destruct (tx p) eqn:E).
  destruct p' as [m r d t], (rollback p) as [m1 r1 d1 t1]. cbn in *. subst.
  f_equal. apply map_eq. intros o. apply Ho. set_solver.
Qed.

Lemma recovers_clean p p' : clean p -> recovers p p' -> p' = p.
Proof.
  intros Hc Hr. rewrite <- (rollback_clean p Hc). apply recovers_rollback; [|done].
  rewrite (rollback_clean p Hc). apply Hc.
Qed.

(** [p] is a transaction that began at the clean pool [p0], has stored only to
    objects it protects, and would be undone by recovery. *)
Record in_tx (p0 p : pool O) : Prop := {
  tx_back : rollback p = p0;
  tx_open : is_Some (tx p);
  tx_root : root_oid p = root_oid p0;
  tx_dirty : dirty p ⊆ logged p
}.

Lemma in_tx_begin p : clean p -> in_tx p (begin_tx p).
Proof. intros Hc. split; [by apply rollback_begin|by eexists|done|]. destruct Hc as [Hd _]. set_solver. Qed.

Lemma logged_store p o c : logged (store p o c) = logged p.
Proof. done. Qed.

Lemma in_tx_store p0 p o c : in_tx p0 p -> o ∈ logged p -> in_tx p0 (store p o c).
Proof.
  intros [Hb Ht Hr Hd] Ho. split; [by rewrite rollback_store|done|done|].
  rewrite logged_store. cbn. set_solver.
Qed.

Lemma objs_snapshot p o : objs (snapshot p o) = objs p.
Proof. unfold snapshot. repeat (case_match; try done). Qed.

Lemma logged_snapshot p o : is_Some (tx p) -> is_Some (objs p !! o) -> logged (snapshot p o) = {[o]} ∪ logged p.
Proof.
  intros [l Hl] [c Hc]. unfold snapshot. rewrite Hl, Hc. case_decide; [set_solver|].
  unfold logged. rewrite Hl. cbn. set_solver.
Qed.

Lemma in_tx_snapshot p0 p o : in_tx p0 p -> is_Some (objs p !! o) -> in_tx p0 (snapshot p o).
Proof.
  intros [Hb Ht Hr Hd] Ho. pose proof (logged_snapshot p o Ht Ho) as Hl.
  assert (Hs : snapshot p o = p \/ o ∉ logged p).
  { unfold snapshot. destruct (tx p), (objs p !! o); try by left. case_decide; [by left|by right]. }
  assert (He : root_oid (snapshot p o) = root_oid p /\ dirty (snapshot p o) = dirty p /\
               is_Some (tx (snapshot p o))).
  { unfold snapshot. destruct (tx p) eqn:E, (objs p !! o); try done; rewrite ?E; try done.
    case_decide; rewrite ?E; by split_and!. }
  destruct He as (Hr' & Hd' & Ht'). split; [|done|by rewrite Hr'|].
  - destruct Hs as [->|Hn]; [done|]. rewrite rollback_snapshot; [done|]. set_solver.
  - rewrite Hl, Hd'. set_solver.
Qed.

Lemma tx_alloc_open p o c :
  is_Some (tx p) ->
  objs (tx_alloc p o c) = <[o := c]> (objs p) /\ logged (tx_alloc p o c) = {[o]} ∪ logged p.
Proof.
  intros [l Hl]. unfold tx_alloc, logged. rewrite Hl. cbn. split; [done|set_solver].
Qed.

Lemma in_tx_alloc p0 p o c :
  in_tx p0 p -> objs p !! o = None -> o ∉ dirty p -> in_tx p0 (tx_alloc p o c).
Proof.
  intros [Hb Ht Hr Hd] Ho Hn. destruct (tx_alloc_open p o c Ht) as [_ Hl].
  split; [by rewrite rollback_tx_alloc|..].
  - destruct Ht as [l Ht]. unfold tx_alloc. rewrite Ht. by eexists.
  - unfold tx_alloc. by destruct (tx p).
  - rewrite Hl. unfold tx_alloc. destruct (tx p); cbn; set_solver.
Qed.

Lemma in_tx_commit p0 p : in_tx p0 p -> clean (commit p).
Proof. intros [_ _ _ Hd]. split; [|done]. cbn. set_solver. Qed.

End transactions.

(** ** A small library

    Its world is the view itself and the number of allocations it still has
    room for. *)
Module MemPmem.
Section mem.
Context {O : Type}.

Record mem := mkMem { v_ : pview O; room : nat }.

Definition new_id {A} (m : gmap Z A) (used : gset Z) : Z := fresh ({[OID_NULL]} ∪ dom m ∪ used).

Definition find (h : Z) (w : mem) : option (bytes * pool O) :=
  path ← handles (v_ w) !! h; p ← pools (v_ w) !! path; Some (path, p).

Definition update (h : Z) (f : pool O -> pool O) (w : mem) : mem :=
  match find h w with
  | Some (path, p) => mkMem (set_pool path (f p) (v_ w)) (room w)
  | None => w
  end.

Definition add_handle (path : bytes) (ps : gmap bytes (pool O)) (w : mem) : option Z * mem :=
  let h := new_id (handles (v_ w)) ∅ in
  (Some h, mkMem (mkPview ps (<[h := path]> (handles (v_ w))) (held (v_ w))) (room w)).

(** The next free identifier, while there is room. *)
Definition allocate {A} (h : Z) (w : mem) (fail : A) (k : bytes -> pool O -> Z -> nat -> A) : A :=
  match find h w, room w with
  | Some (path, p), S n => k path p (new_id (objs p) (dirty p ∪ logged p)) n
  | _, _ => fail
  end.

#[local] Instance mem_ops : PmemObj mem O := {
  errno _ := 12;
  strerror _ := b!"Cannot allocate memory";
  pmemobj_open path _ w :=
    match pools (v_ w) !! path with None => (None, w) | Some _ => add_handle path (pools (v_ w)) w end;
  pmemobj_create path _ _ _ w :=
    match pools (v_ w) !! path with
    | Some _ => (None, w)
    | None => add_handle path (<[path := empty_pool]> (pools (v_ w))) w
    end;
  pmemobj_close h w :=
    mkMem (mkPview (pools (v_ w)) (delete h (handles (v_ w))) (held (v_ w))) (room w);
  pmemobj_check path _ w := (match pools (v_ w) !! path with Some _ => 1 | None => -1 end, w);
  pmemobj_root h z w :=
    match find h w with
    | Some (_, mkPool _ (Some o) _ _) => (o, w)
    | _ => allocate h w (OID_NULL, w) (fun path p o n =>
             (o, mkMem (set_pool path (create_root p o z) (v_ w)) n))
    end;
  pmemobj_alloc h z ctor w :=
    allocate h w (-1, OID_NULL, w) (fun path p o n =>
      let '(r, w') := ctor o (mkMem (set_pool path (alloc_raw p o z) (v_ w)) n) in
      if r =? 0 then (0, o, w') else (-1, OID_NULL, w));
  pmemobj_free h o w := if o =? OID_NULL then w else update h (fun p => free p o) w;
  D_RO h o w := '(_, p) ← find h w; objs p !! o;
  D_RW h o c w := update h (fun p => store p o c) w;
  pmemobj_persist h o w := update h (fun p => flush p o) w;
  pmemobj_mutex_lock h o w :=
    (0, mkMem (mkPview (pools (v_ w)) (handles (v_ w)) ({[o]} ∪ held (v_ w))) (room w));
  pmemobj_mutex_unlock h o w :=
    (0, mkMem (mkPview (pools (v_ w)) (handles (v_ w)) (held (v_ w) ∖ {[o]})) (room w));
  tx_begin h w := (true, update h begin_tx w);
  tx_znew h z w :=
    allocate h w (None, update h rollback w) (fun path p o n =>
      (Some o, mkMem (set_pool path (tx_alloc p o z) (v_ w)) n));
  tx_add h o w := (true, update h (fun p => snapshot p o) w);
  tx_commit h w := update h commit w;
  crash w w' :=
    w' = mkMem (mkPview ((fun p => mkPool (objs (rollback p)) (root_oid p) ∅ None) <$> pools (v_ w)) ∅ ∅)
           (room w)
}.

Lemma find_at w h path p : at_pool (v_ w) h path p -> find h w = Some (path, p).
Proof. intros [Hh Hp]. unfold find. rewrite Hh. cbn. by rewrite Hp. Qed.

Lemma update_at w h path p f :
  at_pool (v_ w) h path p -> v_ (update h f w) = set_pool path (f p) (v_ w).
Proof. intros Ha. unfold update. by rewrite (find_at w h path p). Qed.

Lemma new_id_fresh {A} (m : gmap Z A) used :
  new_id m used <> OID_NULL /\ m !! new_id m used = None /\ new_id m used ∉ used.
Proof.
  pose proof (is_fresh ({[OID_NULL]} ∪ dom m ∪ used)) as Hf. fold (new_id m used) in Hf.
  split; [set_solver|]. split; [apply not_elem_of_dom|]; set_solver.
Qed.

Lemma recovered_pool (p : pool O) : recovers p (mkPool (objs (rollback p)) (root_oid p) ∅ None).
Proof. repeat split; cbn. unfold rollback. by destruct (tx p). Qed.

Context (same_type : O -> O -> Prop) (same_refl : forall c, same_type c c).

#[local] Ltac at_ :=
  match goal with
  | Ha : at_pool (v_ ?w) ?h ?path ?p |- _ =>
      pose proof (find_at w h path p Ha) as Hfind; unfold allocate in *;
      rewrite ?Hfind in *; cbn -[at_pool] in *
  end.

#[local] Instance mem_laws : PmemObjLaws mem O same_type v_.
Proof.
  split; cbn -[at_pool].
  - intros path layout w h w'. destruct (pools (v_ w) !! path) eqn:E; [|done].
    intros [= <- <-]. split; [apply new_id_fresh|done].
  - intros path layout w w'. destruct (pools (v_ w) !! path) eqn:E; [done|]. by intros [= <-].
  - intros path layout size mode w h w'. destruct (pools (v_ w) !! path) eqn:E; [done|].
    intros [= <- <-]. split; [apply new_id_fresh|done].
  - intros path layout size mode w w'. destruct (pools (v_ w) !! path) eqn:E; [|done]. by intros [= <-].
  - done.
  - done.
  - intros h z w path p o w' Ha. at_. destruct p as [m [r|] d t]; [intros [= <- <-]; by left|].
    destruct (room w); [by intros [= <- <-]|]. intros [= <- <-] Hne. right.
    destruct (new_id_fresh m (d ∪ logged (mkPool m None d t))) as (_ & Hn & Hd). set_solver.
  - intros h z w path p w' Ha. at_. destruct p as [m [r|] d t]; [by intros [= _ <-]|].
    destruct (room w); [by intros [= <-]|]. intros [= H0 _].
    by destruct (new_id_fresh m (d ∪ logged (mkPool m None d t))) as (? & _).
  - intros h z ctor w path p o w' Ha. at_. destruct (room w) as [|n]; [done|].
    destruct (new_id_fresh (objs p) (dirty p ∪ logged p)) as (H0 & Hn & Hd).
    destruct (ctor _ _) as [r w1] eqn:E. destruct (Z.eqb_spec r 0) as [->|]; [|done].
    intros [= <- <-]. eexists z, (mkMem (set_pool path (alloc_raw p _ z) (v_ w)) n).
    repeat (split; [set_solver|]). done.
  - intros h z ctor w path p r o w' Ha. at_. destruct (room w) as [|n]; [by intros [= _ _ <-]|].
    destruct (ctor _ _) as [r' w1]. destruct (r' =? 0); [by intros [= <- _ _]|by intros [= _ _ <-]].
  - done.
  - intros h o w path p c Ha Ho Hc Hr. destruct (Z.eqb_spec o OID_NULL); [done|].
    by apply (update_at _ _ _ _ (fun p => free p o)).
  - intros h o w path p Ha. by at_.
  - intros h o c c' w path p Ha _ _. by apply (update_at _ _ _ _ (fun p => store p o c)).
  - intros h o w path p Ha. by apply (update_at _ _ _ _ (fun p => flush p o)).
  - done.
  - done.
  - intros. by apply update_at.
  - intros h z w path p o w' Ha Ht. at_. destruct (room w) as [|n]; [done|]. intros [= <- <-].
    destruct (new_id_fresh (objs p) (dirty p ∪ logged p)) as (H0 & Hn & Hd). set_solver.
  - intros h z w path p w' Ha Ht. at_. destruct (room w) as [|n]; [|done]. intros [= <-].
    by apply update_at.
  - intros h o w path p Ha _ _. by apply (update_at _ _ _ _ (fun p => snapshot p o)).
  - intros. by apply update_at.
  - intros w w' ->. cbn. split; [done|]. split; [done|]. intros path. rewrite lookup_fmap.
    destruct (pools (v_ w) !! path); [apply recovered_pool|done].
Qed.

End mem.
End MemPmem.
