(* ===== verification/PmemLogic.v ===== *)
(** * Reasoning about programs on libpmemobj

    Rules for the calls of [PmemObj] against [PmemObjLaws], for a condition on
    crash points that depends on the view of the world only. *)

From S2P Require Import Prelude Runs PmemObj.

Local Open Scope Z_scope.

Section rules.
Context {W O : Type} {Ops : PmemObj W O} (same_type : O -> O -> Prop) (vw : W -> pview O)
  {Laws : PmemObjLaws W O same_type vw}.

(** A condition on the view as a condition on the state. *)
Definition on_view (C : pview O -> Prop) (s : St W) : Prop := C (vw (world s)).

Context (C : pview O -> Prop).

Lemma rwp_printf text Q (s : St W) :
  C (vw (world s)) -> Q (Normal tt) (mkSt (world s) (stdout s ++ text)) ->
  rwp (on_view C) (printf text) Q s.
Proof. intros HC HQ. by apply rwp_act. Qed.

Lemma rwp_call {A} (f : W -> A * W) Q (s : St W) :
  C (vw (f (world s)).2) -> Q (Normal (f (world s)).1) (mkSt (f (world s)).2 (stdout s)) ->
  rwp (on_view C) (call f) Q s.
Proof.
  intros HC HQ. apply rwp_act; unfold on_view; by destruct (f (world s)) as [a w].
Qed.

Lemma rwp_call_eq {A} (f : W -> A * W) Q (s : St W) :
  (forall a w', f (world s) = (a, w') -> C (vw w') /\ Q (Normal a) (mkSt w' (stdout s))) ->
  rwp (on_view C) (call f) Q s.
Proof.
  intros Hf. destruct (f (world s)) as [a w'] eqn:E. destruct (Hf a w' eq_refl) as [HC HQ].
  apply rwp_call; by rewrite E.
Qed.

(** ** One open pool *)
Section one_pool.
Context (v0 : pview O) (h : Z) (path : bytes) (Hh : handles v0 !! h = Some path).

(** The state is [v0] with the pool [p] behind the handle [h]. *)
Definition here (p : pool O) (s : St W) : Prop := vw (world s) = set_pool path p v0.

Lemma here_at p s : here p s -> at_pool (vw (world s)) h path p.
Proof. intros ->. split; [done|]. apply lookup_insert_eq. Qed.

Lemma set_pool_set p p' : set_pool path p' (set_pool path p v0) = set_pool path p' v0.
Proof. unfold set_pool. cbn. by rewrite insert_insert_eq. Qed.

Lemma rwp_load p o c Q s :
  here p s -> objs p !! o = Some c -> Q (Normal c) s -> rwp (on_view C) (load h o) Q s.
Proof.
  intros Hs Ho HQ. apply rwp_bind, rwp_observe, rwp_ends.
  rewrite (load_ok h o (world s) path p (here_at p s Hs)), Ho. done.
Qed.

(** ** Inside a transaction *)
Section transaction.
Context (p0 : pool O) (Hp0 : clean p0).

(** A crash before the commit recovers [p0]. *)
Hypothesis C_back : forall p, rollback p = p0 -> C (set_pool path p v0).

Lemma C_tx p s : here p s -> in_tx p0 p -> C (vw (world s)).
Proof. intros Hs Hp. rewrite Hs. by apply C_back, Hp. Qed.

Lemma rwp_store p o c c' Q s :
  here p s -> in_tx p0 p -> o ∈ logged p -> objs p !! o = Some c' -> same_type c c' ->
  (forall s', here (store p o c) s' -> in_tx p0 (store p o c) -> stdout s' = stdout s -> Q (Normal tt) s') ->
  rwp (on_view C) (call_ (D_RW h o c)) Q s.
Proof.
  intros Hs Hp Hl Ho Ht HQ.
  pose proof (store_ok h o c c' (world s) path p (here_at p s Hs) Ho Ht) as Hv.
  rewrite Hs, set_pool_set in Hv. pose proof (in_tx_store p0 p o c Hp Hl) as Hp'.
  apply rwp_call; cbn; [rewrite Hv; by apply C_back, Hp'|]. by apply HQ.
Qed.

Lemma rwp_ZNEW p z Q s :
  here p s -> in_tx p0 p ->
  (forall o s', o <> OID_NULL -> objs p !! o = None -> in_tx p0 (tx_alloc p o z) ->
     here (tx_alloc p o z) s' -> stdout s' = stdout s -> Q (Normal o) s') ->
  (forall s', here p0 s' -> stdout s' = stdout s -> Q (Thrown []) s') ->
  rwp (on_view C) (TX_ZNEW h z) Q s.
Proof.
  intros Hs Hp HQ HA. pose proof (here_at p s Hs) as Ha. apply rwp_bind, rwp_call_eq.
  intros [o|] w' E; cbn.
  - destruct (znew_ok h z (world s) path p o w' Ha (tx_open _ _ Hp) E) as (H0 & Hn & Hd & _ & Hv).
    rewrite Hs, set_pool_set in Hv. pose proof (in_tx_alloc p0 p o z Hp Hn Hd) as Hp'.
    split; [rewrite Hv; by apply C_back, Hp'|]. apply rwp_ret. by apply HQ.
  - pose proof (znew_aborts h z (world s) path p w' Ha (tx_open _ _ Hp) E) as Hv.
    rewrite Hs, set_pool_set, (tx_back _ _ Hp) in Hv.
    split; [rewrite Hv; by apply C_back, rollback_clean|]. apply rwp_ends. by apply HA.
Qed.

Lemma rwp_ADD p o Q s :
  here p s -> in_tx p0 p -> is_Some (objs p !! o) ->
  (forall s', in_tx p0 (snapshot p o) -> here (snapshot p o) s' -> stdout s' = stdout s -> Q (Normal tt) s') ->
  (forall s', here p0 s' -> stdout s' = stdout s -> Q (Thrown []) s') ->
  rwp (on_view C) (TX_ADD h o) Q s.
Proof.
  intros Hs Hp Ho HQ HA. pose proof (here_at p s Hs) as Ha. apply rwp_bind, rwp_call_eq.
  intros r w' E. pose proof (add_ok h o (world s) path p Ha (tx_open _ _ Hp) Ho) as Hv.
  rewrite E, Hs, set_pool_set in Hv. cbn in Hv. pose proof (in_tx_snapshot p0 p o Hp Ho) as Hp'.
  destruct r; cbn.
  - split; [rewrite Hv; by apply C_back, Hp'|]. apply rwp_ret. by apply HQ.
  - rewrite (tx_back _ _ Hp) in Hv.
    split; [rewrite Hv; by apply C_back, rollback_clean|]. apply rwp_ends. by apply HA.
Qed.

(** A transaction either commits what its body did or leaves the pool as it
    was. *)
Lemma rwp_TX body oncommit onabort Q s (post : pool O -> Prop) :
  here p0 s ->
  (forall p, in_tx p0 p -> post p -> C (set_pool path (commit p) v0)) ->
  (forall s1, here (begin_tx p0) s1 -> stdout s1 = stdout s ->
     rwp (on_view C) body (fun r s' => match r with
       | Normal _ => exists p, in_tx p0 p /\ post p /\ here p s' /\ stdout s' = stdout s
       | Thrown _ => here p0 s' /\ stdout s' = stdout s
       | _ => False
       end) s1) ->
  (forall p s', in_tx p0 p -> post p -> here (commit p) s' -> stdout s' = stdout s ->
     rwp (on_view C) oncommit Q s') ->
  (forall s', here p0 s' -> stdout s' = stdout s -> rwp (on_view C) onabort Q s') ->
  rwp (on_view C) (TX h body oncommit onabort) Q s.
Proof.
  intros Hs HC Hbody Hcommit Habort. apply rwp_bind, rwp_call_eq. intros ok w' E.
  pose proof (begin_ok h (world s) path p0 (here_at p0 s Hs) (proj2 Hp0)) as Hv.
  rewrite E in Hv. cbn in Hv. destruct ok; rewrite Hs in Hv.
  2: { split; [rewrite Hv; by apply C_back, rollback_clean|]. by apply Habort. }
  rewrite set_pool_set in Hv.
  split; [rewrite Hv; by apply C_back, in_tx_begin|].
  apply rwp_bind, rwp_catch_abort, rwp_bind.
  eapply rwp_mono; [by apply Hbody|]. intros r s1. destruct r; try done.
  - intros (p & Hp & Hpost & Hs1 & Ho).
    pose proof (commit_ok h (world s1) path p (here_at p s1 Hs1) (tx_open _ _ Hp)) as Hv1.
    rewrite Hs1, set_pool_set in Hv1. apply rwp_call; cbn; [rewrite Hv1; by apply HC|].
    by apply (Hcommit p).
  - intros [Hs1 Ho]. by apply Habort.
Qed.

End transaction.
End one_pool.
End rules.
