(* ===== verification/PoolExamples.v ===== *)
(** * The examples on pools and objects (example/*.c, all but linked_list.c)

    Each program opens the pool it is given, or creates it, does its work,
    closes the pool and has it checked.  The first and the last part are the
    same text in every file: [pool_path], [pool_open], [pool_close]. *)

From S2P Require Import Prelude CLib Runs PmemObj PmemLogic.

Local Open Scope Z_scope.

Definition LAYOUT : bytes := b!"linkedlist".

Definition POOL_SIZE : Z := 1024 * 1024 * 1024.

Section pool.
Context {W O : Type} `{PmemObj W O}.

(** [argv] without its last, null pointer *)
Definition pool_path (argv : list bytes) : Run (St W) bytes :=
  match argv with
  | [] => ends Undefined
  | [prog] => _ ← printf (b!"Usage: " ++ prog ++ b!" poolfile" ++ [10]); exit_ 1
  | _ :: path :: _ => mret path
  end.

Definition pool_open (path : bytes) : Run (St W) Z :=
  pop ← call (pmemobj_open path LAYOUT);
  match pop with
  | None =>
      pop ← call (pmemobj_create path LAYOUT POOL_SIZE 511);
      match pop with
      | None =>
          msg ← observe (fun s => strerror (errno (world s)));
          _ ← printf (b!"Error: failed to create a pool at " ++ path ++ b!" (" ++ format_llu POOL_SIZE
                      ++ b!"): " ++ msg ++ [10]);
          exit_ 1
      | Some pop =>
          _ ← printf (b!"Pool " ++ path ++ b!" is created with size " ++ format_llu POOL_SIZE
                      ++ b!"." ++ [10]);
          mret pop
      end
  | Some pop => _ ← printf (b!"Pool " ++ path ++ b!" is opened." ++ [10]); mret pop
  end.

Definition pool_close (path : bytes) (pop : Z) : Run (St W) Z :=
  _ ← call_ (pmemobj_close pop);
  _ ← printf (b!"Pool " ++ path ++ b!" is closed." ++ [10]);
  ret ← call (pmemobj_check path LAYOUT);
  if ret =? 1 then _ ← printf (b!"Pool " ++ path ++ b!" is consistent." ++ [10]); mret 0
  else if ret =? 0 then _ ← printf (b!"Error: pool is not consistent." ++ [10]); exit_ 1
  else
    msg ← observe (fun s => strerror (errno (world s)));
    _ ← printf (b!"Error: pmemobj_check failed: " ++ msg ++ [10]);
    exit_ 1.

End pool.

(** ** create_pool.c, declare_toid.c *)
Module CreatePool.
Definition main {W O} `{PmemObj W O} (argv : list bytes) : Run (St W) Z :=
  path ← pool_path argv;
  pop ← pool_open path;
  _ ← printf (b!"My code does nothing yet..." ++ [10]);
  pool_close path pop.
End CreatePool.

(** [struct list_head] and [struct list_elem] of the four files that declare
    them with the same members; a TOID or a PMEMoid is an identifier. *)
Inductive obj := list_head (val next : Z) | list_elem (val next : Z).

Definition zero_head : obj := list_head 0 OID_NULL.

Definition zero_elem : obj := list_elem 0 OID_NULL.

(** the layout tells the two types apart *)
Definition same_type (a b : obj) : Prop :=
  match a, b with
  | list_head _ _, list_head _ _ | list_elem _ _, list_elem _ _ => True
  | _, _ => False
  end.

Module DeclareToid.
Definition main {W} `{PmemObj W obj} (argv : list bytes) : Run (St W) Z :=
  path ← pool_path argv;
  pop ← pool_open path;
  _ ← printf (b!"My code does nothing yet..." ++ [10]);
  pool_close path pop.
End DeclareToid.

(** ** alloc_root_object.c *)
Module AllocRootObject.
Definition main {W} `{PmemObj W obj} (argv : list bytes) : Run (St W) Z :=
  path ← pool_path argv;
  pop ← pool_open path;
  root ← call (pmemobj_root pop zero_head);
  _ ← (if negb (root =? OID_NULL)
       then printf (b!"A root object is created with type " ++ [34] ++ b!"struct list_head" ++ [34] ++ b!"." ++ [10])
       else printf (b!"Error: failed to create a root object." ++ [10]));
  _ ← call_ (pmemobj_free pop root);
  _ ← printf (b!"The root object is freed." ++ [10]);
  pool_close path pop.
End AllocRootObject.

(** ** alloc_by_pmemoid.c *)
Module AllocByPmemoid.
Section alloc.
Context {W} `{PmemObj W obj}.

Definition elem_constructor (pop ptr : Z) (w : W) : Z * W :=
  let w := D_RW pop ptr zero_elem w in
  let w := pmemobj_persist pop ptr w in
  (0, w).

Definition main (argv : list bytes) : Run (St W) Z :=
  path ← pool_path argv;
  pop ← pool_open path;
  '(ret, elem) ← call (pmemobj_alloc pop zero_elem (elem_constructor pop));
  _ ← ends (assert_ (ret =? 0));
  _ ← call_ (pmemobj_free pop elem);
  pool_close path pop.

End alloc.
End AllocByPmemoid.

(** ** alloc_by_toid.c *)
Module AllocByToid.
Section alloc.
Context {W} `{PmemObj W obj}.

Definition elem_constructor (pop ptr : Z) (w : W) : Z * W :=
  let w := D_RW pop ptr zero_elem w in
  let w := pmemobj_persist pop ptr w in
  (0, w).

Definition main (argv : list bytes) : Run (St W) Z :=
  path ← pool_path argv;
  pop ← pool_open path;
  root ← call (pmemobj_root pop zero_head);
  _ ← (if negb (root =? OID_NULL)
       then printf (b!"A root object is created with type " ++ [34] ++ b!"struct list_head" ++ [34] ++ b!"." ++ [10])
       else printf (b!"Error: failed to create a root object." ++ [10]));
  '(_, elem) ← call (pmemobj_alloc pop zero_elem (elem_constructor pop));
  _ ← (if negb (elem =? OID_NULL)
       then printf (b!"A new object is created with type " ++ [34] ++ b!"struct list_elem" ++ [34] ++ b!"." ++ [10])
       else printf (b!"Error: failed to create a new object." ++ [10]));
  _ ← call_ (pmemobj_free pop elem);
  _ ← printf (b!"The new object is freed." ++ [10]);
  _ ← call_ (pmemobj_free pop root);
  _ ← printf (b!"The root object is freed." ++ [10]);
  pool_close path pop.

End alloc.
End AllocByToid.

(** ** Opening and closing *)
Section open_close.
Context {W O : Type} {Ops : PmemObj W O} {same : O -> O -> Prop} {vw : W -> pview O}
  {Laws : PmemObjLaws W O same vw}.
Context (C : pview O -> Prop) (C_pools : forall v v', pools v = pools v' -> C v -> C v').

(** The process of [v] with the pool at [path] open behind [pop]. *)
Definition opened (v : pview O) (path : bytes) (pop : Z) : pview O :=
  mkPview (pools v) (<[pop := path]> (handles v)) (held v).

Lemma rwp_pool_open path Q (s : St W) :
  let v := vw (world s) in
  C v -> (pools v !! path = None -> C (set_pool path empty_pool v)) ->
  (forall pop p s' text, handles v !! pop = None ->
     (pools v !! path = Some p \/ (pools v !! path = None /\ p = empty_pool)) ->
     here vw (opened v path pop) path p s' -> stdout s' = stdout s ++ text -> Q (Normal pop) s') ->
  (forall s', vw (world s') = v -> Q (Exited 1) s') ->
  rwp (on_view vw C) (pool_open path) Q s.
Proof.
  intros v HC HC' HQ HE. unfold pool_open. apply rwp_bind, rwp_call_eq. intros [pop|] w' E.
  - destruct (open_ok path LAYOUT (world s) pop w' E) as (Hn & [p Hp] & Hv).
    assert (HC1 : C (vw w')) by (rewrite Hv; by apply (C_pools v)).
    split; [done|]. apply rwp_bind, rwp_printf; [done|]. apply rwp_ret.
    eapply HQ; [done|by left| |reflexivity]. unfold here. cbn. rewrite Hv. unfold set_pool, opened. cbn.
    fold v. by rewrite (insert_id (pools v) path p Hp).
  - pose proof (open_fails path LAYOUT (world s) w' E) as Hv.
    split; [by rewrite Hv|]. apply rwp_bind, rwp_call_eq. cbn [world]. intros [pop|] w2 E2.
    + destruct (create_ok _ _ _ _ _ _ _ E2) as (Hn & Hp & Hv2). rewrite Hv in Hn, Hp, Hv2.
      assert (HC2 : C (vw w2)).
      { rewrite Hv2. eapply C_pools; [|by apply HC']. done. }
      split; [done|]. apply rwp_bind, rwp_printf; [done|]. apply rwp_ret.
      eapply HQ; [done|by right| |reflexivity]. unfold here. cbn. by rewrite Hv2.
    + pose proof (create_fails _ _ _ _ _ _ E2) as Hv2. rewrite Hv in Hv2.
      split; [by rewrite Hv2|]. apply rwp_bind, rwp_observe, rwp_bind, rwp_printf; [cbn; by rewrite Hv2|].
      apply rwp_ends. by apply HE.
Qed.

Lemma rwp_pool_close v path pop p Q (s : St W) :
  handles v !! pop = None -> here vw (opened v path pop) path p s ->
  C (set_pool path p v) ->
  (forall s' text r, vw (world s') = set_pool path p v -> stdout s' = stdout s ++ text ->
     r = Normal 0 \/ r = Exited 1 -> Q r s') ->
  rwp (on_view vw C) (pool_close path pop) Q s.
Proof.
  intros Hn Hs HC HQ. unfold pool_close.
  assert (Hc : vw (pmemobj_close pop (world s)) = set_pool path p v).
  { rewrite close_ok, Hs. unfold set_pool, opened. cbn. by rewrite delete_insert_id. }
  apply rwp_bind, rwp_call; cbn [fst snd]; [by rewrite Hc|].
  apply rwp_bind, rwp_printf; cbn [world]; [by rewrite Hc|].
  apply rwp_bind, rwp_call_eq. cbn [world stdout]. intros ret w' E.
  pose proof (check_ok path LAYOUT (pmemobj_close pop (world s))) as Hv. rewrite E, Hc in Hv. cbn in Hv.
  split; [by rewrite Hv|].
  destruct (ret =? 1); [|destruct (ret =? 0); [|apply rwp_bind, rwp_observe]];
    apply rwp_bind, rwp_printf; cbn [world]; try (by rewrite Hv); [apply rwp_ret|apply rwp_ends..];
    (eapply HQ; [done|cbn [stdout]; rewrite <- !app_assoc; reflexivity|auto]).
Qed.

End open_close.

(** ** Properties *)
Section properties.
Context {W : Type} {Ops : PmemObj W obj} {vw : W -> pview obj} {Laws : PmemObjLaws W obj same_type vw}.

(** The pools of [v], the one at [path] replaced by [p']; [p] is what the
    program finds there. *)
Definition found (v : pview obj) (path : bytes) (p : pool obj) : Prop :=
  pools v !! path = Some p \/ (pools v !! path = None /\ p = empty_pool).

Definition pools_at (v : pview obj) (path : bytes) (P : pool obj -> pool obj -> Prop) (v' : pview obj) : Prop :=
  pools v' = pools v \/
  exists p p', found v path p /\ P p p' /\ pools v' = <[path := p']> (pools v).

Lemma pools_at_pools v path P v1 v2 : pools v1 = pools v2 -> pools_at v path P v1 -> pools_at v path P v2.
Proof. unfold pools_at. by intros ->. Qed.

(** One more element, zeroed and durable. *)
Definition with_zero_elem (p : pool obj) (o : Z) : pool obj :=
  mkPool (<[o := zero_elem]> (objs p)) (root_oid p) (dirty p) (tx p).

Lemma elem_constructor_makes pop w path p o c :
  at_pool (vw w) pop path (alloc_raw p o c) -> o ∉ dirty p -> same_type zero_elem c ->
  let '(r, w') := AllocByPmemoid.elem_constructor pop o w in
  r = 0 /\ vw w' = set_pool path (with_zero_elem p o) (vw w).
Proof.
  intros Ha Hd Ht. cbn. split; [done|].
  pose proof (store_ok pop o zero_elem c w path _ Ha (lookup_insert_eq _ _ _) Ht) as Hv.
  assert (Ha2 : at_pool (vw (D_RW pop o zero_elem w)) pop path (store (alloc_raw p o c) o zero_elem)).
  { rewrite Hv. split; [apply Ha|apply lookup_insert_eq]. }
  rewrite (persist_ok pop o _ path _ Ha2), Hv. unfold set_pool. cbn. rewrite insert_insert_eq.
  do 2 f_equal. unfold flush, store, alloc_raw, with_zero_elem. cbn. rewrite insert_insert_eq.
  f_equal. set_solver.
Qed.

Lemma free_with_zero_elem p o : objs p !! o = None -> o ∉ dirty p -> free (with_zero_elem p o) o = p.
Proof.
  intros Ho Hd. destruct p as [m r d t]. unfold free, with_zero_elem. cbn in *.
  f_equal; [by apply delete_insert_id|set_solver].
Qed.

Lemma rwp_alloc (C : pview obj -> Prop) v path pop p Q (s : St W) :
  handles v !! pop = Some path -> here vw v path p s -> C (set_pool path p v) ->
  (forall o, objs p !! o = None -> C (set_pool path (with_zero_elem p o) v)) ->
  (forall o s', o <> OID_NULL -> objs p !! o = None -> (o ∉ dirty p) ->
     here vw v path (with_zero_elem p o) s' -> Q (Normal (0, o)) s') ->
  (forall r o s', r <> 0 -> here vw v path p s' -> Q (Normal (r, o)) s') ->
  rwp (on_view vw C) (call (pmemobj_alloc pop zero_elem (AllocByPmemoid.elem_constructor pop))) Q s.
Proof.
  intros Hh Hs HC HC' HQ HF. pose proof (here_at vw v pop path Hh p s Hs) as Ha.
  apply rwp_call_eq. intros [r o] w' E. destruct (Z.eq_dec r 0) as [->|Hr].
  - destruct (alloc_ok _ _ _ _ _ _ _ _ Ha E) as (c & w1 & Hnull & Hnone & Hdirty & Hty & Hv1 & Hct).
    rewrite Hs, set_pool_set in Hv1.
    assert (Ha1 : at_pool (vw w1) pop path (alloc_raw p o c))
      by (rewrite Hv1; split; [done|apply lookup_insert_eq]).
    pose proof (elem_constructor_makes pop w1 path p o c Ha1 Hdirty Hty) as Hm. rewrite Hct in Hm.
    destruct Hm as [_ Hm]. rewrite Hv1, set_pool_set in Hm.
    split; [rewrite Hm; auto|]. by apply HQ.
  - pose proof (alloc_fails _ _ _ _ _ _ _ _ _ Ha E Hr) as Hv. rewrite Hs in Hv.
    split; [by rewrite Hv|]. by apply HF.
Qed.

(** Create_pool and declare_toid keep the pools.  In every state on the way
    and at the end the pools are those found, with an empty one at the path if
    there was none; the programs return 0 or exit with 1, and close what they
    opened. *)
Theorem create_pool_keeps_pools prog path rest (s : St W) :
  let v := vw (world s) in
  let kept := pools_at v path (fun p p' => p' = p) in
  let leaves_pools m := rwp (on_view vw kept) m
    (fun r s' => (r = Normal 0 \/ r = Exited 1) /\ kept (vw (world s')) /\
                 handles (vw (world s')) = handles v) s in
  leaves_pools (CreatePool.main (prog :: path :: rest)) /\
  leaves_pools (DeclareToid.main (prog :: path :: rest)).
Proof.
  intros v kept leaves_pools. change (DeclareToid.main (prog :: path :: rest))
    with (CreatePool.main (prog :: path :: rest)).
  cut (leaves_pools (CreatePool.main (prog :: path :: rest))); [auto|].
  unfold leaves_pools, CreatePool.main. cbn [pool_path].
  assert (Hkept : forall p, found v path p -> kept (set_pool path p v)) by (right; eauto).
  pose proof (pools_at_pools v path (fun p p' => p' = p)) as Hpools. fold kept in Hpools.
  apply rwp_bind, rwp_ret, rwp_bind, rwp_pool_open.
  { intros v1 v2 H. by apply Hpools. } { by left. } { intros Hn. apply Hkept. by right. }
  2: { intros s' Hv. split; [by right|]. rewrite Hv. split; [by left|done]. }
  intros pop p s1 text Hn Hf Hs1 _. specialize (Hkept p Hf).
  assert (Hk : kept (vw (world s1))) by (rewrite Hs1; by eapply Hpools).
  apply rwp_bind, rwp_printf; [done|].
  eapply rwp_pool_close; [done|exact Hs1|done|].
  intros s' _ r Hv _ Hr. rewrite Hv. by split_and!; [destruct Hr; auto|..].
Qed.

(** *** How the run of alloc_by_pmemoid ends *)

(** What [pmemobj_alloc] returns once the pool is open; [None]: it could not be
    opened nor created. *)
Definition alloc_status (path : bytes) (s : St W) : option Z :=
  match pool_open path s with
  | (_, Normal pop, s1) =>
      Some (pmemobj_alloc pop zero_elem (AllocByPmemoid.elem_constructor pop) (world s1)).1.1
  | _ => None
  end.

(** The outcome after a call is that of the rest. *)
Lemma act_outcome {S A B} (g : S -> A * S) (k : A -> Run S B) s :
  ((a ← act g; k a) s).1.2 = (k (g s).1 (g s).2).1.2.
Proof using. unfold mbind, run_bind, act. destruct (g s) as [a s1]. cbn [fst snd]. by destruct (k a s1) as [[t r] s2]. Qed.

Lemma call_outcome {A B} (g : W -> A * W) (k : A -> Run (St W) B) s :
  ((a ← call g; k a) s).1.2 = (k (g (world s)).1 (mkSt (g (world s)).2 (stdout s))).1.2.
Proof using. unfold call. rewrite act_outcome. by destruct (g (world s)) as [a w]. Qed.

Lemma printf_outcome {B} text (k : unit -> Run (St W) B) s :
  ((a ← printf text; k a) s).1.2 = (k tt (mkSt (world s) (stdout s ++ text))).1.2.
Proof using. unfold printf. by rewrite act_outcome. Qed.

Lemma pool_open_outcome path (s : St W) :
  (pool_open path s).1.2 = Exited 1 \/ exists pop, (pool_open path s).1.2 = Normal pop.
Proof using.
  unfold pool_open. rewrite call_outcome. destruct (pmemobj_open _ _ _) as [[pop|] w1]; cbn [fst snd].
  { right. exists pop. by rewrite printf_outcome. }
  rewrite call_outcome. destruct (pmemobj_create _ _ _ _ _) as [[pop|] w2]; cbn [fst snd]; [right; exists pop|left];
    [by rewrite printf_outcome|done].
Qed.

Lemma pool_close_outcome path pop (s : St W) :
  (pool_close path pop s).1.2 = Normal 0 \/ (pool_close path pop s).1.2 = Exited 1.
Proof using.
  unfold pool_close, call_. rewrite call_outcome, printf_outcome, call_outcome.
  destruct (pmemobj_check _ _ _) as [ret w1]. cbn [fst snd].
  destruct (ret =? 1); [left; by rewrite printf_outcome|]. destruct (ret =? 0); by right.
Qed.

Lemma alloc_by_pmemoid_outcome prog path rest (s : St W) :
  let r := (AllocByPmemoid.main (prog :: path :: rest) s).1.2 in
  match alloc_status path s with
  | None => r = Exited 1
  | Some ret => if ret =? 0 then r = Normal 0 \/ r = Exited 1 else r = Aborted
  end.
Proof using.
  cbv zeta. unfold alloc_status.
  set (work := fun pop : Z => '(ret, elem) ← call (pmemobj_alloc pop zero_elem (AllocByPmemoid.elem_constructor pop));
    _ ← ends (assert_ (ret =? 0)); _ ← call_ (pmemobj_free pop elem); pool_close path pop).
  assert (E : forall pop s1, let ret := (pmemobj_alloc pop zero_elem (AllocByPmemoid.elem_constructor pop) (world s1)).1.1 in
    if ret =? 0 then (work pop s1).1.2 = Normal 0 \/ (work pop s1).1.2 = Exited 1 else (work pop s1).1.2 = Aborted).
  { intros pop s1. unfold work. rewrite call_outcome. destruct (pmemobj_alloc _ _ _ _) as [[ret elem] w2]. cbn [fst snd].
    unfold assert_. destruct (ret =? 0); [|done].
    pose proof (pool_close_outcome path pop (mkSt (pmemobj_free pop elem w2) (stdout s1))) as Hc.
    assert (Ek : forall k : unit -> Run (St W) Z, ((a ← ends (Normal tt); k a) (mkSt w2 (stdout s1))).1.2 = (k tt (mkSt w2 (stdout s1))).1.2).
    { intros k. unfold mbind, run_bind, ends. by destruct (k tt _) as [[t r] s2]. }
    rewrite Ek. unfold call_. rewrite call_outcome. exact Hc. }
  change ((AllocByPmemoid.main (prog :: path :: rest) s).1.2) with ((path ← mret path; pop ← pool_open path; work pop) s).1.2.
  pose proof (pool_open_outcome path s) as Ho. unfold mbind, run_bind. cbn [mret run_ret].
  destruct (pool_open path s) as [[t [pop| | | |]] s1]; cbn [fst snd] in Ho; try (by destruct Ho as [[= ->]|[? Ho]]).
  specialize (E pop s1). cbv zeta in E. by destruct (work pop s1) as [[t1 r1] s2].
Qed.

Lemma alloc_by_pmemoid_states prog path rest (s : St W) :
  let v := vw (world s) in
  let kept := pools_at v path (fun p p' => p' = p) in
  let one_more := pools_at v path (fun p p' => p' = p \/ exists o, objs p !! o = None /\ p' = with_zero_elem p o) in
  (forall p, found v path p -> forall o, root_oid p = Some o -> is_Some (objs p !! o)) ->
  rwp (on_view vw one_more) (AllocByPmemoid.main (prog :: path :: rest))
    (fun r s' => (r <> Aborted -> handles (vw (world s')) = handles v) /\ kept (vw (world s'))) s.
Proof.
  intros v kept one_more Hroot. unfold AllocByPmemoid.main. cbn [pool_path].
  assert (Hkept : forall p, found v path p -> kept (set_pool path p v)) by (right; eauto).
  assert (Hone : forall v', kept v' -> one_more v').
  { intros v' [?|(p & p' & Hf & -> & Hp)]; [by left|]. right. exists p, p. auto. }
  assert (Hpools : forall v1 v2, pools v1 = pools v2 -> one_more v1 -> one_more v2) by apply pools_at_pools.
  apply rwp_bind, rwp_ret, rwp_bind, rwp_pool_open; [done|by left| | |].
  { intros Hn. apply Hone, Hkept. by right. }
  2: { intros s' Hv. rewrite Hv. split; [done|by left]. }
  intros pop p s1 text Hn Hf Hs1 _. pose proof (Hkept p Hf) as Hk.
  assert (Hh : handles (opened v path pop) !! pop = Some path) by apply lookup_insert_eq.
  assert (HC : forall v', pools v' = pools v -> one_more (set_pool path p v')).
  { intros v' Hv'. eapply Hpools; [|apply Hone, Hk]. unfold set_pool. cbn. by rewrite Hv'. }
  apply rwp_bind, (rwp_alloc one_more (opened v path pop) path pop p); [done|done|by apply HC|..].
  - intros o Ho. right. exists p, (with_zero_elem p o). eauto 6.
  - intros o s2 Hnull Ho Hd Hs2. apply rwp_bind, rwp_ends. cbn [assert_ Z.eqb].
    assert (Hr : root_oid (with_zero_elem p o) <> Some o).
    { cbn. intros Hr. destruct (Hroot p Hf o Hr) as [x Hx]. congruence. }
    pose proof (free_ok pop o (world s2) path (with_zero_elem p o) zero_elem
      (here_at vw _ pop path Hh _ s2 Hs2) Hnull (lookup_insert_eq _ _ _) Hr) as Hv.
    rewrite Hs2, set_pool_set, (free_with_zero_elem p o Ho Hd) in Hv.
    apply rwp_bind, rwp_call; cbn [fst snd]; [rewrite Hv; by apply HC|].
    eapply rwp_pool_close; [done|exact Hv|by apply HC|].
    intros s' _ r Hv' _ Hr'. rewrite Hv'. by split.
  - intros r o s2 Hr Hs2. apply rwp_bind, rwp_ends. rewrite (proj2 (Z.eqb_neq r 0) Hr). cbn.
    split; [done|]. rewrite Hs2. right. exists p, p. auto.
Qed.

(** C33: alloc_by_pmemoid leaves no object behind.  If the root object of the pool
    at the path, when it has one, is among its objects, then in every state on the
    way the pool is as it was found, or has one zeroed and durable element more,
    and when the program ends it is as it was.  The program exits with 1 when the
    pool can neither be opened nor created; its assertion fails exactly when the
    allocation does; and else it has closed the pool and returns 0, or exits with 1
    after a check that did not succeed. *)
Theorem alloc_by_pmemoid_leaves_nothing prog path rest (s : St W) :
  let v := vw (world s) in
  let kept := pools_at v path (fun p p' => p' = p) in
  let one_more := pools_at v path (fun p p' => p' = p \/ exists o, objs p !! o = None /\ p' = with_zero_elem p o) in
  (forall p, found v path p -> forall o, root_oid p = Some o -> is_Some (objs p !! o)) ->
  rwp (on_view vw one_more) (AllocByPmemoid.main (prog :: path :: rest))
    (fun r s' => kept (vw (world s')) /\
       match alloc_status path s with
       | None => r = Exited 1 /\ handles (vw (world s')) = handles v
       | Some ret =>
           if ret =? 0 then (r = Normal 0 \/ r = Exited 1) /\ handles (vw (world s')) = handles v
           else r = Aborted
       end) s.
Proof.
  intros v kept one_more Hroot. pose proof (alloc_by_pmemoid_states prog path rest s Hroot) as Hst.
  pose proof (alloc_by_pmemoid_outcome prog path rest s) as Ho. cbv zeta in Ho. unfold rwp in *.
  destruct (AllocByPmemoid.main _ s) as [[t r] s']. destruct Hst as (Ht & Hh & Hk). cbn [fst snd] in Ho.
  split; [done|]. split; [done|]. destruct (alloc_status path s) as [ret|]; [destruct (ret =? 0)|].
  - split; [done|]. apply Hh. by destruct Ho as [-> | ->].
  - done.
  - split; [done|]. apply Hh. by rewrite Ho.
Qed.

End properties.

(** ** Witnesses *)
Definition empty_world : St MemPmem.mem := mkSt (MemPmem.mkMem (mkPview (O := obj) ∅ ∅ ∅) 3) [].

Lemma same_type_refl c : same_type c c.
Proof. by destruct c. Qed.

Lemma create_pool_keeps_pools_witness :
  let run := CreatePool.main (H := MemPmem.mem_ops) [b!"create_pool"; b!"/mnt/p"] empty_world in
  run.1.2 = Normal 0 /\ pools (MemPmem.v_ (world run.2)) !! b!"/mnt/p" = Some empty_pool /\
  handles (MemPmem.v_ (world run.2)) = ∅.
Proof.
  pose proof (create_pool_keeps_pools (Ops := MemPmem.mem_ops)
    (Laws := MemPmem.mem_laws same_type same_type_refl) b!"create_pool" b!"/mnt/p" [] empty_world) as [H _].
  unfold rwp in H. revert H.
  assert (E : exists t s', CreatePool.main (H := MemPmem.mem_ops) [b!"create_pool"; b!"/mnt/p"] empty_world
                = (t, Normal 0, s') /\ pools (MemPmem.v_ (world s')) !! b!"/mnt/p" = Some empty_pool).
  { do 2 eexists. split; vm_compute; reflexivity. }
  destruct E as (t & s' & E & Hp). rewrite E. intros (_ & _ & _ & Hh). by split_and!.
Defined.

Lemma alloc_by_pmemoid_leaves_nothing_witness :
  let run := AllocByPmemoid.main (H := MemPmem.mem_ops) [b!"alloc"; b!"/mnt/p"] empty_world in
  run.1.2 = Normal 0 /\
  pools_at (MemPmem.v_ (world empty_world)) b!"/mnt/p" (fun p p' => p' = p) (MemPmem.v_ (world run.2)).
Proof.
  pose proof (alloc_by_pmemoid_leaves_nothing (Ops := MemPmem.mem_ops)
    (Laws := MemPmem.mem_laws same_type same_type_refl) b!"alloc" b!"/mnt/p" [] empty_world) as H.
  unfold rwp in H. revert H.
  assert (E : exists t s', AllocByPmemoid.main (H := MemPmem.mem_ops) [b!"alloc"; b!"/mnt/p"] empty_world
                = (t, Normal 0, s')) by (do 2 eexists; vm_compute; reflexivity).
  destruct E as (t & s' & E). rewrite E. intros H. split; [done|]. apply H.
  intros p [Hp|[_ ->]]; done.
Defined.

(** alloc_by_toid reports an object freed, and ends with 0, when it could not
    allocate one. *)
Lemma alloc_by_toid_hides_failure :
  let run := AllocByToid.main (H := MemPmem.mem_ops) [b!"alloc"; b!"/mnt/p"]
               (mkSt (MemPmem.mkMem (mkPview ∅ ∅ ∅) 0) []) in
  run.1.2 = Normal 0 /\
  exists before after, stdout run.2 =
    before ++ b!"Error: failed to create a new object." ++ [10] ++ b!"The new object is freed." ++ [10] ++ after.
Proof.
  split; [vm_compute; reflexivity|].
  eexists (b!"Pool /mnt/p is created with size 1073741824." ++ [10] ++ b!"Error: failed to create a root object." ++ [10]),
    (b!"The root object is freed." ++ [10] ++ b!"Pool /mnt/p is closed." ++ [10] ++ b!"Pool /mnt/p is consistent." ++ [10]).
  vm_compute. reflexivity.
Qed.
