(* ===== verification/LinkedList.v ===== *)
(** * The persistent linked list (example/linked_list.c)

    [main] opens the pool, appends an element to the list it holds in one
    transaction, prints the list and closes the pool. *)

From S2P Require Import Prelude CLib Runs PmemObj PmemLogic PoolExamples.

Local Open Scope Z_scope.

Module LinkedList.

(** the mutex in [struct list_head] is volatile state, held or not *)
Inductive obj :=
  | list_head (num_elements head tail : Z)
  | list_elem (val next : Z).

Definition zero_head : obj := list_head 0 OID_NULL OID_NULL.

Definition zero_elem : obj := list_elem 0 OID_NULL.

Definition same_type (a b : obj) : Prop :=
  match a, b with
  | list_head _ _ _, list_head _ _ _ | list_elem _ _, list_elem _ _ => True
  | _, _ => False
  end.

Section list.
Context {W : Type} `{PmemObj W obj}.

(** [D_RO(root)] and [D_RO(elem)]: the members of the struct *)
Definition get_head (pop o : Z) : Run (St W) (Z * Z * Z) :=
  c ← load pop o;
  match c with list_head n hd tl => mret (n, hd, tl) | _ => ends Undefined end.

Definition get_elem (pop o : Z) : Run (St W) (Z * Z) :=
  c ← load pop o;
  match c with list_elem v nx => mret (v, nx) | _ => ends Undefined end.

Definition put (pop o : Z) (c : obj) : Run (St W) unit := call_ (D_RW pop o c).

(** The body of the transaction. *)
Definition append_body (pop root : Z) : Run (St W) unit :=
  '(_, _, tail) ← get_head pop root;
  node ← TX_ZNEW pop zero_elem;
  '(_, nx) ← get_elem pop node;
  _ ← put pop node (list_elem 100 nx);
  _ ← TX_ADD pop root;
  _ ← (if negb (tail =? OID_NULL) then
         _ ← TX_ADD pop tail;
         '(v, _) ← get_elem pop tail;
         put pop tail (list_elem v node)
       else
         '(n, _, tl) ← get_head pop root;
         put pop root (list_head n node tl));
  '(n, hd, _) ← get_head pop root;
  _ ← put pop root (list_head n hd node);
  '(n, hd, tl) ← get_head pop root;
  n ← ends (int_result (n + 1));
  put pop root (list_head n hd tl).

Definition append (pop root : Z) : Run (St W) unit :=
  TX pop (append_body pop root)
    (printf (b!"A new object is appended to the linked list!" ++ [10]))
    (printf (b!"Error: failed to append a new object to the linked list." ++ [10])).

(** the loop that prints the elements, at most [fuel] of them *)
Fixpoint scan (fuel : nat) (pop tmp : Z) : Run (St W) unit :=
  if tmp =? OID_NULL then mret tt
  else match fuel with
       | O => ends Undefined
       | S fuel' =>
           '(val, _) ← get_elem pop tmp;
           _ ← printf (format_d val ++ b!" ");
           '(_, next) ← get_elem pop tmp;
           scan fuel' pop next
       end.

(** From the root on, with the pool open. *)
Definition list_part (fuel : nat) (path : bytes) (pop : Z) : Run (St W) Z :=
  root ← call (pmemobj_root pop zero_head);
  _ ← ends (assert_ (negb (root =? OID_NULL)));
  _ ← call (pmemobj_mutex_lock pop root);
  _ ← append pop root;
  _ ← call (pmemobj_mutex_unlock pop root);
  '(_, tmp, _) ← get_head pop root;
  _ ← printf b!"linked list: ";
  _ ← scan fuel pop tmp;
  _ ← printf [10];
  pool_close path pop.

Definition main (fuel : nat) (argv : list bytes) : Run (St W) Z :=
  path ← pool_path argv;
  pop ← pool_open path;
  list_part fuel path pop.

End list.

(** ** The list a pool holds *)

(** [chain m o ns vs]: from [o] on, the elements [ns] hold the values [vs]. *)
Fixpoint chain (m : gmap Z obj) (o : Z) (ns vs : list Z) : Prop :=
  match ns, vs with
  | [], [] => o = OID_NULL
  | n :: ns', v :: vs' =>
      o = n /\ n <> OID_NULL /\ exists nx, m !! n = Some (list_elem v nx) /\ chain m nx ns' vs'
  | _, _ => False
  end.

(** The objects of the pool are the root and the elements of the list, and
    nothing is under way. *)
Definition holds (p : pool obj) (vs : list Z) : Prop :=
  clean p /\
  match root_oid p with
  | None => objs p = ∅ /\ vs = []
  | Some r => r <> OID_NULL /\ exists hd ns,
      objs p !! r = Some (list_head (zlen vs) hd (default OID_NULL (last ns))) /\
      chain (objs p) hd ns vs /\ NoDup ns /\ dom (objs p) = {[r]} ∪ list_to_set ns
  end.

Lemma chain_length m o ns vs : chain m o ns vs -> length ns = length vs.
Proof.
  revert o vs; induction ns as [|n ns IH]; intros o [|v vs]; cbn; try done.
  intros (_ & _ & nx & _ & Hc). f_equal. by eapply IH.
Qed.

Lemma chain_frame m m' o ns vs :
  (forall n, n ∈ ns -> m' !! n = m !! n) -> chain m o ns vs -> chain m' o ns vs.
Proof.
  revert o vs; induction ns as [|n ns IH]; intros o [|v vs] Hm; cbn; try done.
  intros (-> & Hn & nx & Ho & Hc). split; [done|]. split; [done|]. exists nx.
  split; [rewrite Hm; [done|by left]|]. apply IH; [|done]. intros k Hk. apply Hm. by right.
Qed.

Lemma chain_elem m o ns vs n : chain m o ns vs -> n ∈ ns -> n <> OID_NULL /\ exists v nx, m !! n = Some (list_elem v nx).
Proof.
  revert o vs; induction ns as [|k ns IH]; intros o [|v vs]; cbn; try done; [by intros _ ?%elem_of_nil|].
  intros (-> & Hk & nx & Ho & Hc) [->|Hn]%elem_of_cons; [eauto|]. by eapply IH.
Qed.

(** Linking a new element behind the last one. *)
Lemma chain_append m m' o ns t vs v nx node w :
  chain m o (ns ++ [t]) vs -> NoDup (ns ++ [t]) -> node <> OID_NULL ->
  (forall n, n ∈ ns -> m' !! n = m !! n) -> m !! t = Some (list_elem v nx) ->
  m' !! t = Some (list_elem v node) -> m' !! node = Some (list_elem w OID_NULL) ->
  chain m' o ((ns ++ [t]) ++ [node]) (vs ++ [w]).
Proof.
  intros Hc Hnd Hnode Hm Ht Ht' Hn'. revert o vs Hc.
  induction ns as [|n ns IH]; intros o [|x vs]; cbn [app chain]; try done.
  - intros (-> & Ho & nx' & Hm' & Hc). rewrite Ht in Hm'. injection Hm' as <- <-.
    destruct vs; [|done]. cbn. split_and!; [done..|]. exists node.
    split; [done|]. split_and!; [done..|]. by exists OID_NULL.
  - intros (-> & Ho & nx' & Hm' & Hc). split_and!; [done..|]. exists nx'.
    split; [rewrite Hm; [done|by left]|]. inversion Hnd; subst.
    apply IH; [done| |done]. intros k Hk. apply Hm. by right.
Qed.

(** The two ways an append links the new element. *)
Lemma holds_first p r node :
  clean p -> root_oid p = Some r -> r <> OID_NULL -> node <> OID_NULL -> r <> node ->
  objs p !! r = Some (list_head 1 node node) -> objs p !! node = Some (list_elem 100 OID_NULL) ->
  dom (objs p) = {[r]} ∪ {[node]} -> holds p [100].
Proof.
  intros Hc Hr Hr0 Hn0 Hne Ho Hn Hd. split; [done|]. rewrite Hr. split; [done|].
  exists node, [node]. split; [done|]. split; [|split; [apply NoDup_singleton|set_solver]].
  cbn. split_and!; [done..|]. by exists OID_NULL.
Qed.

Lemma holds_next (m : gmap Z obj) p r hd ns t vs v nx node :
  clean p -> root_oid p = Some r -> r <> OID_NULL -> node <> OID_NULL -> r <> t ->
  (r ∉ ns) -> m !! node = None ->
  chain m hd (ns ++ [t]) vs -> NoDup (ns ++ [t]) -> m !! t = Some (list_elem v nx) ->
  dom m = {[r]} ∪ list_to_set (ns ++ [t]) ->
  objs p = <[r := list_head (zlen vs + 1) hd node]> (<[t := list_elem v node]> (<[node := list_elem 100 OID_NULL]> m)) ->
  holds p (vs ++ [100]).
Proof.
  intros Hc Hr Hr0 Hn0 Hrt Hrns Hm Hch Hnd Ht Hd Ho. split; [done|]. rewrite Hr. split; [done|].
  assert (Hnode : node <> r /\ (node ∉ ns) /\ node <> t).
  { apply not_elem_of_dom in Hm. rewrite Hd in Hm. clear -Hm. set_solver. }
  destruct Hnode as (Hnr & Hnns & Hnt). pose proof (proj1 (NoDup_app _ _) Hnd) as (_ & Hdisj & _).
  exists hd, ((ns ++ [t]) ++ [node]). rewrite last_snoc, zlen_app. cbn [default]. split_and!.
  - rewrite Ho. apply lookup_insert_eq.
  - eapply chain_append; [done|done|done| |done|..].
    + intros n Hn. rewrite Ho. specialize (Hdisj n Hn). rewrite list_elem_of_singleton in Hdisj.
      rewrite !lookup_insert_ne by congruence. done.
    + rewrite Ho, lookup_insert_ne by done. apply lookup_insert_eq.
    + rewrite Ho, !lookup_insert_ne by congruence. apply lookup_insert_eq.
  - apply NoDup_app. split; [done|]. split; [|apply NoDup_singleton].
    intros x Hx Hx'. apply list_elem_of_singleton in Hx' as ->. apply elem_of_app in Hx as [Hx|Hx]; [done|].
    by apply list_elem_of_singleton in Hx.
  - rewrite Ho, !dom_insert_L, Hd, !list_to_set_app_L. clear. set_solver.
Qed.

(** ** The transaction *)
Section proofs.
Context {W : Type} {Ops : PmemObj W obj} {vw : W -> pview obj} {Laws : PmemObjLaws W obj same_type vw}.
Context (C : pview obj -> Prop) (v0 : pview obj) (pop : Z) (path : bytes)
  (Hh : handles v0 !! pop = Some path).

Abbreviation here_ := (here vw v0 path).
Abbreviation rwp_ := (rwp (on_view vw C)).

Lemma rwp_get_head p o n hd tl Q s :
  here_ p s -> objs p !! o = Some (list_head n hd tl) -> Q (Normal (n, hd, tl)) s -> rwp_ (get_head pop o) Q s.
Proof.
  intros Hs Ho HQ. apply rwp_bind. eapply (rwp_load same_type); [done..|]. by apply rwp_ret.
Qed.

Lemma rwp_get_elem p o v nx Q s :
  here_ p s -> objs p !! o = Some (list_elem v nx) -> Q (Normal (v, nx)) s -> rwp_ (get_elem pop o) Q s.
Proof.
  intros Hs Ho HQ. apply rwp_bind. eapply (rwp_load same_type); [done..|]. by apply rwp_ret.
Qed.

Context (p0 : pool obj) (r : Z) (vs : list Z).
Context (Hp0 : holds p0 vs) (Hroot : root_oid p0 = Some r) (Hvs : zlen vs + 1 < 2 ^ 31).
Hypothesis C_back : forall p, rollback p = p0 -> C (set_pool path p v0).

(** How the body may end. *)
Definition body_post (out : bytes) (res : outcome unit) (s' : St W) : Prop :=
  match res with
  | Normal _ => exists p, in_tx p0 p /\ holds (commit p) (vs ++ [100]) /\ here_ p s' /\ stdout s' = out
  | Thrown _ => here_ p0 s' /\ stdout s' = out
  | _ => False
  end.

(** The last three steps: tail, count, and the end of the transaction. *)
Lemma finish_append p s n hd tl node out :
  here_ p s -> in_tx p0 p -> r ∈ logged p -> objs p !! r = Some (list_head n hd tl) ->
  stdout s = out -> 0 <= n -> n + 1 < 2 ^ 31 ->
  (forall q, in_tx p0 q -> objs q = <[r := list_head (n + 1) hd node]> (objs p) ->
     holds (commit q) (vs ++ [100])) ->
  rwp_ ('(n, hd, _) ← get_head pop r;
       _ ← put pop r (list_head n hd node);
       '(n, hd, tl) ← get_head pop r;
       n ← ends (int_result (n + 1));
       put pop r (list_head n hd tl)) (body_post out) s.
Proof.
  intros Hs Hp Hl Ho Hout Hn Hn' Hend.
  apply rwp_bind. eapply rwp_get_head; [done..|].
  apply rwp_bind. eapply (rwp_store same_type vw C v0 pop path Hh p0 C_back); [done..|]. intros s1 Hs1 Hp1 Ho1.
  apply rwp_bind. eapply rwp_get_head; [done|apply lookup_insert_eq|].
  apply rwp_bind, rwp_ends. rewrite int_result_ok by lia.
  eapply (rwp_store same_type vw C v0 pop path Hh p0 C_back); [done|done|done|apply lookup_insert_eq|done|].
  intros s2 Hs2 Hp2 Ho2. eexists. split; [done|]. split; [|split; [done|congruence]].
  apply Hend; [done|]. cbn. apply insert_insert_eq.
Qed.

(** From the snapshot of the root on, for an empty list. *)
Lemma link_first p s node out :
  here_ p s -> in_tx p0 p -> r ∈ logged p -> stdout s = out -> r <> OID_NULL -> node <> OID_NULL ->
  r <> node -> vs = [] -> objs p !! r = Some (list_head 0 OID_NULL OID_NULL) ->
  objs p !! node = Some (list_elem 100 OID_NULL) -> dom (objs p) = {[r]} ∪ {[node]} ->
  rwp_ (_ ← ('(n, _, tl) ← get_head pop r; put pop r (list_head n node tl));
        '(n, hd, _) ← get_head pop r;
        _ ← put pop r (list_head n hd node);
        '(n, hd, tl) ← get_head pop r;
        n ← ends (int_result (n + 1));
        put pop r (list_head n hd tl)) (body_post out) s.
Proof.
  intros Hs Hp Hl Hout Hr0 Hn0 Hne Hvs0 Ho Hn Hd.
  apply rwp_bind, rwp_bind. eapply rwp_get_head; [done..|].
  eapply (rwp_store same_type vw C v0 pop path Hh p0 C_back); [done..|]. intros s1 Hs1 Hp1 Ho1.
  eapply (finish_append (store p r (list_head 0 node OID_NULL))); [done|done|done|apply lookup_insert_eq| |done|done|].
  { congruence. }
  intros q Hq Hqo. rewrite Hvs0. apply (holds_first (commit q) r node); cbn.
  - by eapply in_tx_commit.
  - by rewrite (tx_root _ _ Hq).
  - done.
  - done.
  - done.
  - rewrite Hqo. apply lookup_insert_eq.
  - rewrite Hqo. cbn. by rewrite !lookup_insert_ne by done.
  - rewrite Hqo. cbn. rewrite !dom_insert_L, Hd. clear. set_solver.
Qed.

(** The same behind a last element [t]. *)
Lemma link_next p s node hd ns t v nx out :
  here_ p s -> in_tx p0 p -> r ∈ logged p -> stdout s = out -> r <> OID_NULL -> node <> OID_NULL ->
  objs p0 !! r = Some (list_head (zlen vs) hd t) -> objs p0 !! t = Some (list_elem v nx) ->
  chain (objs p0) hd (ns ++ [t]) vs -> NoDup (ns ++ [t]) -> dom (objs p0) = {[r]} ∪ list_to_set (ns ++ [t]) ->
  objs p0 !! node = None -> objs p = <[node := list_elem 100 OID_NULL]> (objs p0) ->
  rwp_ (_ ← (_ ← TX_ADD pop t; '(v, _) ← get_elem pop t; put pop t (list_elem v node));
        '(n, hd, _) ← get_head pop r;
        _ ← put pop r (list_head n hd node);
        '(n, hd, tl) ← get_head pop r;
        n ← ends (int_result (n + 1));
        put pop r (list_head n hd tl)) (body_post out) s.
Proof.
  intros Hs Hp Hl Hout Hr0 Hn0 Hr Ht Hch Hnd Hd Hnode Ho.
  assert (Hrt : r <> t) by congruence. assert (Hnr : node <> r) by congruence.
  assert (Hnt : node <> t) by congruence.
  assert (Hpt : objs p !! t = Some (list_elem v nx)) by (rewrite Ho, lookup_insert_ne; done).
  apply rwp_bind, rwp_bind.
  eapply (rwp_ADD same_type vw C v0 pop path Hh p0 (proj1 Hp0) C_back); [done|done|by eexists| |].
  2: { intros s1 Hs1 Ho1. split; [done|congruence]. }
  intros s1 Hp1 Hs1 Ho1.
  assert (Hlog : logged (snapshot p t) = {[t]} ∪ logged p)
    by (apply logged_snapshot; [apply Hp|by eexists]).
  apply rwp_bind. eapply rwp_get_elem; [done|by rewrite objs_snapshot|].
  eapply (rwp_store same_type vw C v0 pop path Hh p0 C_back);
    [done|done|rewrite Hlog; set_solver|by rewrite objs_snapshot|done|].
  intros s2 Hs2 Hp2 Ho2.
  eapply (finish_append (store (snapshot p t) t (list_elem v node))); [done|done| | | | | |].
  - rewrite logged_store, Hlog. set_solver.
  - cbn. rewrite objs_snapshot, lookup_insert_ne, Ho, lookup_insert_ne by done. done.
  - congruence.
  - apply zlen_nonneg.
  - done.
  - intros q Hq Hqo. eapply (holds_next (objs p0) (commit q) r hd ns t vs v nx node); try done.
    + by eapply in_tx_commit.
    + cbn. by rewrite (tx_root _ _ Hq).
    + intros Hrn. destruct (chain_elem _ _ _ _ r Hch) as (_ & x & y & E); [|congruence].
      apply elem_of_app. by left.
    + cbn. rewrite Hqo. cbn. by rewrite objs_snapshot, Ho.
Qed.

Lemma append_body_ok s :
  here_ (begin_tx p0) s -> rwp_ (append_body pop r) (body_post (stdout s)) s.
Proof.
  intros Hs. pose proof Hp0 as [Hc Hlist]. rewrite Hroot in Hlist.
  destruct Hlist as (Hr0 & hd & ns & Hhead & Hch & Hnd & Hdom). unfold append_body.
  apply rwp_bind. eapply rwp_get_head; [done|exact Hhead|].
  apply rwp_bind. eapply (rwp_ZNEW same_type vw C v0 pop path Hh p0 Hc C_back); [done|by apply in_tx_begin| |].
  2: { by intros s1 Hs1 Ho1. }
  intros node s1 Hn0 Hnone Hp1 Hs1 Ho1. cbn in Hnone.
  destruct (tx_alloc_open (begin_tx p0) node zero_elem) as [Eo El]; [by eexists|]. cbn [objs begin_tx] in Eo.
  set (p1 := tx_alloc (begin_tx p0) node zero_elem) in *.
  apply rwp_bind. eapply (rwp_get_elem p1); [done|rewrite Eo; apply lookup_insert_eq|].
  apply rwp_bind. eapply (rwp_store same_type vw C v0 pop path Hh p0 C_back p1);
    [done|done|rewrite El; clear; set_solver|rewrite Eo; apply lookup_insert_eq|done|].
  intros s2 Hs2 Hp2 Ho2. set (p2 := store p1 node (list_elem 100 OID_NULL)) in *.
  assert (Eo2 : objs p2 = <[node := list_elem 100 OID_NULL]> (objs p0))
    by (change (<[node := list_elem 100 OID_NULL]> (objs p1) = <[node := list_elem 100 OID_NULL]> (objs p0));
        rewrite Eo; apply insert_insert_eq).
  assert (Hrn : r <> node) by congruence.
  assert (Hr2 : is_Some (objs p2 !! r)) by (rewrite Eo2, lookup_insert_ne by done; by eexists).
  apply rwp_bind. eapply (rwp_ADD same_type vw C v0 pop path Hh p0 Hc C_back); [done|done|done| |].
  2: { intros s3 Hs3 Ho3. split; [done|congruence]. }
  intros s3 Hp3 Hs3 Ho3. pose proof (objs_snapshot p2 r) as Eo3. rewrite Eo2 in Eo3.
  pose proof (logged_snapshot p2 r (tx_open _ _ Hp2) Hr2) as El3.
  assert (Hl3 : r ∈ logged (snapshot p2 r)) by (rewrite El3; clear; set_solver).
  assert (Hout : stdout s3 = stdout s) by congruence.
  destruct ns as [|t ns _] using rev_ind.
  - destruct vs as [|] eqn:Ev; [|done]. cbn in Hch. subst hd. cbn [last default Z.eqb negb OID_NULL].
    apply (link_first (snapshot p2 r) s3 node); try done.
    + rewrite Eo3, lookup_insert_ne by done. exact Hhead.
    + rewrite Eo3. apply lookup_insert_eq.
    + rewrite Eo3, dom_insert_L, Hdom. clear. set_solver.
  - rewrite last_snoc in *. change (default OID_NULL (Some t)) with t in *.
    destruct (chain_elem _ _ _ _ t Hch) as (Ht0 & v & nx & Ht); [apply elem_of_app; right; by left|].
    rewrite (proj2 (Z.eqb_neq t OID_NULL) Ht0). cbn [negb].
    by apply (link_next (snapshot p2 r) s3 node hd ns t v nx).
Qed.

(** What the two continuations print. *)
Definition committed_text : bytes := b!"A new object is appended to the linked list!" ++ [10].
Definition aborted_text : bytes := b!"Error: failed to append a new object to the linked list." ++ [10].

Definition appended (vs vs' : list Z) (text : bytes) : Prop :=
  (vs' = vs ++ [100] /\ text = committed_text) \/ (vs' = vs /\ text = aborted_text).

Lemma append_ok s :
  here_ p0 s -> (forall p, holds p (vs ++ [100]) -> C (set_pool path p v0)) ->
  rwp_ (append pop r) (fun res s' => res = Normal tt /\ exists vs' p' text,
    appended vs vs' text /\ holds p' vs' /\ root_oid p' = Some r /\ here_ p' s' /\
    C (set_pool path p' v0) /\ stdout s' = stdout s ++ text) s.
Proof.
  intros Hs HC. pose proof (proj1 Hp0) as Hc.
  assert (HC0 : C (set_pool path p0 v0)) by by apply C_back, rollback_clean.
  eapply (rwp_TX same_type vw C v0 pop path Hh p0 Hc C_back _ _ _ _ _ (fun p => holds (commit p) (vs ++ [100])));
    [done|auto| | |].
  - intros s1 Hs1 Ho1. eapply rwp_mono; [by apply append_body_ok|]. rewrite Ho1.
    by intros [] s2.
  - intros p s1 Hp Hpost Hs1 Ho1. apply rwp_printf; [rewrite Hs1; auto|]. split; [done|].
    exists (vs ++ [100]), (commit p), committed_text. cbn. rewrite (tx_root _ _ Hp), Ho1.
    split_and!; [by left|done|done|done|auto|done].
  - intros s1 Hs1 Ho1. apply rwp_printf; [by rewrite Hs1|]. split; [done|].
    exists vs, p0, aborted_text. cbn. rewrite Ho1. split_and!; [by right|done..].
Qed.

End proofs.

(** ** The scan *)
Definition print_values (vs : list Z) : bytes := concat (map (fun v => format_d v ++ b!" ") vs).

Lemma scan_ok {W} {Ops : PmemObj W obj} {vw : W -> pview obj} {Laws : PmemObjLaws W obj same_type vw}
    C v0 pop path p fuel : forall ns o vs s,
  handles v0 !! pop = Some path -> here vw v0 path p s -> C (set_pool path p v0) ->
  chain (objs p) o ns vs -> (length vs <= fuel)%nat ->
  rwp (on_view vw C) (scan fuel pop o)
    (fun res s' => res = Normal tt /\ world s' = world s /\ stdout s' = stdout s ++ print_values vs) s.
Proof.
  induction fuel as [|fuel IH]; intros [|n ns] o [|v vs] s Hh Hs HC Hch Hf; cbn [chain length] in *; try done;
    try lia; cbn [scan].
  1,2: subst o; apply rwp_ret; split; [done|]; by rewrite app_nil_r.
  destruct Hch as (-> & Hn & nx & Hnx & Hch). rewrite (proj2 (Z.eqb_neq n OID_NULL) Hn).
  apply rwp_bind. eapply rwp_get_elem; [done..|]. apply rwp_bind, rwp_printf; [by rewrite Hs|].
  apply rwp_bind. eapply rwp_get_elem; [done|done|done|].
  eapply rwp_mono; [apply (IH ns nx vs); [done|done|done|done|lia]|].
  cbn. intros res s' (-> & Hw & Ho). split; [done|]. split; [done|]. rewrite Ho.
  unfold print_values. cbn. by rewrite <- !app_assoc.
Qed.

(** ** The program *)

(** The list at a path, empty where there is no pool. *)
Definition list_at (v : pview obj) (path : bytes) (vs : list Z) : Prop :=
  match pools v !! path with Some p => holds p vs | None => vs = [] end.

Definition grown (vs vs' : list Z) : Prop := vs' = vs \/ vs' = vs ++ [100].

(** Recovery would find the list as it was or with the new element. *)
Definition recoverable (path : bytes) (vs : list Z) (v : pview obj) : Prop :=
  exists vs', grown vs vs' /\
  match pools v !! path with Some p => holds (rollback p) vs' | None => vs' = [] end.

Lemma recoverable_here v path p vs vs' :
  grown vs vs' -> holds (rollback p) vs' -> recoverable path vs (set_pool path p v).
Proof. intros Hg Hp. exists vs'. split; [done|]. cbn. by rewrite lookup_insert_eq. Qed.

Lemma recoverable_holds v path p vs vs' :
  grown vs vs' -> holds p vs' -> recoverable path vs (set_pool path p v).
Proof. intros Hg Hp. eapply recoverable_here; [done|]. rewrite rollback_clean; [done|apply Hp]. Qed.

Lemma empty_holds : holds empty_pool [].
Proof. by repeat split. Qed.

(** The root is there, or made in an empty pool. *)
Lemma root_holds p o vs :
  holds p vs -> root_oid p = None -> o <> OID_NULL -> holds (create_root p o zero_head) vs.
Proof.
  intros [[Hd Ht] Hp] Hr Ho. rewrite Hr in Hp. destruct Hp as [Hm ->].
  split; [done|]. cbn. split; [done|]. exists OID_NULL, []. rewrite Hm. cbn.
  split; [apply lookup_insert_eq|]. split; [done|]. split; [constructor|]. set_solver.
Qed.

(** What the program finds at a path. *)
Definition found_at (v : pview obj) (path : bytes) (p : pool obj) : Prop :=
  pools v !! path = Some p \/ (pools v !! path = None /\ p = empty_pool).

Section main.
Context {W : Type} {Ops : PmemObj W obj} {vw : W -> pview obj} {Laws : PmemObjLaws W obj same_type vw}.

Lemma recoverable_crash path vs w w' :
  recoverable path vs (vw w) -> crash w w' -> exists vs', grown vs vs' /\ list_at (vw w') path vs'.
Proof.
  intros (vs' & Hg & Hp) Hc. destruct (crash_recovers w w' Hc) as (_ & _ & Hall).
  specialize (Hall path). exists vs'. split; [done|]. unfold list_at.
  destruct (pools (vw w) !! path) as [p|], (pools (vw w') !! path) as [p'|]; try done.
  rewrite (recovers_rollback p p'); [done| |done]. apply Hp.
Qed.

(** How the program may end, having found [vs] at [path] of [v] and printed
    [out] before. *)
Definition main_post (v : pview obj) (path : bytes) (vs : list Z) (out : bytes)
    (res : outcome Z) (s' : St W) : Prop :=
  match res with
  | Normal ret => ret = 0 /\ handles (vw (world s')) = handles v /\ held (vw (world s')) = held v /\
      exists vs' before text after, appended vs vs' text /\ list_at (vw (world s')) path vs' /\
        stdout s' = out ++ before ++ text ++ b!"linked list: " ++ print_values vs' ++ [10] ++ after
  | Exited code => code = 1 /\ held (vw (world s')) = held v /\ exists vs', grown vs vs' /\ list_at (vw (world s')) path vs'
  | Aborted => list_at (vw (world s')) path vs
  | _ => False
  end.

Lemma rwp_root v0 pop path p vs Q (s : St W) :
  handles v0 !! pop = Some path -> here vw v0 path p s -> holds p vs ->
  (forall s', here vw v0 path p s' -> Q (Normal OID_NULL) s') ->
  (forall r p' s', r <> OID_NULL -> holds p' vs -> root_oid p' = Some r -> here vw v0 path p' s' ->
     stdout s' = stdout s -> Q (Normal r) s') ->
  rwp (on_view vw (recoverable path vs)) (call (pmemobj_root pop zero_head)) Q s.
Proof.
  intros Hh Hs Hp HF HQ. pose proof (here_at vw v0 pop path Hh p s Hs) as Ha.
  assert (HC : forall p, holds p vs -> recoverable path vs (set_pool path p v0)).
  { intros q Hq. eapply recoverable_holds; [by left|done]. }
  apply rwp_call_eq. intros o w' E. destruct (Z.eq_dec o OID_NULL) as [->|Ho].
  { pose proof (root_fails _ _ _ _ _ _ Ha E) as Hv. rewrite Hs in Hv.
    split; [rewrite Hv; auto|]. by apply HF. }
  destruct (root_ok _ _ _ _ _ _ _ Ha E Ho) as [[Hr Hv]|(Hr & _ & _ & Hv)].
  - rewrite Hs in Hv. split; [rewrite Hv; auto|]. by apply (HQ o p).
  - rewrite Hs, set_pool_set in Hv. pose proof (root_holds p o vs Hp Hr Ho) as Hp'.
    split; [rewrite Hv; auto|]. by apply (HQ o (create_root p o zero_head)).
Qed.

(** Printing the list and closing the pool. *)
Lemma report_ok v path pop p r vs vs' text before fuel out (s : St W) :
  handles v !! pop = None -> here vw (opened v path pop) path p s -> holds p vs' ->
  root_oid p = Some r -> appended vs vs' text -> (length vs' <= fuel)%nat ->
  stdout s = out ++ before ++ text ->
  rwp (on_view vw (recoverable path vs))
    ('(_, tmp, _) ← get_head pop r;
     _ ← printf b!"linked list: ";
     _ ← scan fuel pop tmp;
     _ ← printf [10];
     pool_close path pop) (main_post v path vs out) s.
Proof.
  intros Hn Hs Hp Hr Hap Hf Hout.
  assert (Hg : grown vs vs') by (destruct Hap as [[-> _]|[-> _]]; [by right|by left]).
  pose proof (recoverable_holds (opened v path pop) path p vs vs' Hg Hp) as HC.
  pose proof (recoverable_holds v path p vs vs' Hg Hp) as HC'.
  assert (Hh : handles (opened v path pop) !! pop = Some path) by apply lookup_insert_eq.
  pose proof Hp as [Hc Hl]. rewrite Hr in Hl. destruct Hl as (Hr0 & hd & ns & Hhead & Hch & _).
  apply rwp_bind. eapply rwp_get_head; [done..|]. apply rwp_bind, rwp_printf; [by rewrite Hs|].
  apply rwp_bind. eapply rwp_mono; [by eapply scan_ok|].
  cbn [world stdout]. intros res s1 (-> & Hw1 & Ho1).
  assert (Hs1 : here vw (opened v path pop) path p s1) by (unfold here; by rewrite Hw1).
  apply rwp_bind, rwp_printf; [by rewrite Hs1|]. eapply rwp_pool_close; [done|exact Hs1|done|].
  intros s2 after res Hv Ho2 Hres. cbn [stdout] in Ho2.
  assert (Hat : list_at (vw (world s2)) path vs').
  { rewrite Hv. unfold list_at. cbn. by rewrite lookup_insert_eq. }
  destruct Hres as [->| ->]; cbn.
  2: { split; [done|]. rewrite Hv. split; [done|]. rewrite Hv in Hat. by exists vs'. }
  rewrite Hv. split_and!; [done..|]. rewrite Hv in Hat. exists vs', before, text, after.
  split_and!; [done..|]. rewrite Ho2, Ho1, Hout, <- !app_assoc. done.
Qed.

Lemma list_part_ok v path pop p vs before fuel out (s : St W) :
  handles v !! pop = None -> held v = ∅ -> here vw (opened v path pop) path p s -> holds p vs ->
  zlen vs + 1 < 2 ^ 31 -> (length vs < fuel)%nat -> stdout s = out ++ before ->
  rwp (on_view vw (recoverable path vs)) (list_part fuel path pop) (main_post v path vs out) s.
Proof.
  intros Hn Hhold Hs Hp Hlen Hf Hout. unfold list_part.
  assert (Hh : handles (opened v path pop) !! pop = Some path) by apply lookup_insert_eq.
  apply rwp_bind. eapply (rwp_root (opened v path pop)); [done..| |].
  { intros s1 Hs1. apply rwp_bind, rwp_ends. cbn. rewrite Hs1. unfold list_at. cbn.
    by rewrite lookup_insert_eq. }
  intros r p1 s1 Hr0 Hp1 Hr Hs1 Ho1. apply rwp_bind, rwp_ends.
  rewrite (proj2 (Z.eqb_neq r OID_NULL) Hr0). cbn [negb assert_].
  set (v1 := mkPview (pools v) (<[pop := path]> (handles v)) {[r]}).
  assert (HC : forall u q vs', grown vs vs' -> holds q vs' -> recoverable path vs (set_pool path q u))
    by (intros; by eapply recoverable_holds).
  pose proof (lock_ok pop r (world s1)) as Hlk. rewrite Hs1 in Hlk. cbn in Hlk. rewrite Hhold in Hlk.
  specialize (Hlk (not_elem_of_empty r)). rewrite union_empty_r_L in Hlk.
  apply rwp_bind, rwp_call; [rewrite Hlk; apply (HC v1 p1 vs); [by left|done]|].
  apply rwp_bind. eapply rwp_mono.
  { apply (append_ok (recoverable path vs) v1 pop path Hh p1 r vs Hp1 Hr Hlen); [|exact Hlk|].
    - intros q Hq. eapply recoverable_here; [by left|by rewrite Hq].
    - intros q Hq. apply (HC v1 q (vs ++ [100])); [by right|done]. }
  intros res s2 (-> & vs' & p2 & text & Hap & Hp2 & Hr2 & Hs2 & _ & Ho2). cbn [stdout] in Ho2.
  assert (Hg : grown vs vs') by (destruct Hap as [[-> _]|[-> _]]; [by right|by left]).
  pose proof (unlock_ok pop r (world s2)) as Hul. rewrite Hs2 in Hul. cbn in Hul.
  specialize (Hul (proj2 (elem_of_singleton r r) eq_refl)). rewrite difference_diag_L in Hul.
  assert (Hul' : vw (pmemobj_mutex_unlock pop r (world s2)).2 = set_pool path p2 (opened v path pop)).
  { rewrite Hul. unfold set_pool, opened. cbn. by rewrite Hhold. }
  apply rwp_bind, rwp_call; [rewrite Hul'; by apply (HC _ p2 vs')|].
  eapply (report_ok v path pop p2 r vs vs' text before); [done|exact Hul'|done..| |].
  - destruct Hap as [[-> _]|[-> _]]; [|lia]. rewrite length_app. cbn. lia.
  - cbn. by rewrite Ho2, Ho1, Hout, <- app_assoc.
Qed.

Lemma main_ok prog path rest vs fuel (s : St W) :
  list_at (vw (world s)) path vs -> held (vw (world s)) = ∅ ->
  zlen vs + 1 < 2 ^ 31 -> (length vs < fuel)%nat ->
  rwp (on_view vw (recoverable path vs)) (main fuel (prog :: path :: rest))
    (main_post (vw (world s)) path vs (stdout s)) s.
Proof.
  intros Hat Hhold Hlen Hf. unfold main. cbn [pool_path]. apply rwp_bind, rwp_ret, rwp_bind.
  set (v := vw (world s)) in *. unfold list_at in Hat.
  assert (Hrec : recoverable path vs v).
  { exists vs. split; [by left|]. destruct (pools v !! path); [|done]. rewrite rollback_clean; [done|apply Hat]. }
  assert (Hfound : forall p, found_at v path p -> holds p vs).
  { intros p [Hp|[Hp ->]]; rewrite Hp in Hat; [done|]. subst. apply empty_holds. }
  apply (rwp_pool_open (recoverable path vs)).
  - intros v1 v2 Hpools (vs' & Hg & Hm). exists vs'. by rewrite <- Hpools.
  - done.
  - intros Hnone. eapply recoverable_holds; [by left|]. apply Hfound. by right.
  - intros pop p s1 before Hn Hf1 Hs1 Ho1. eapply list_part_ok; try done. by apply Hfound.
  - intros s1 Hv. cbn. rewrite Hv. split_and!; [done..|]. exists vs. split; [by left|done].
Qed.

(** ** Properties *)

(** C3: the linked list is crash-consistent.  On any library that keeps its
    promises, with the list [vs] at the path (or no pool, and [vs] empty), the
    program does nothing undefined and ends.  Wherever a crash strikes, recovery
    finds [vs] or [vs] with the new element 100, with the count, the tail and the
    set of objects to match.  When the program returns, it returns 0, the list
    is the new one or, after an aborted transaction, the old one, what it
    printed says which and shows the list, and the lock and the pool are
    released; otherwise it exits with 1, or the assertion on the root fails,
    and the list is intact. *)
Theorem linked_list_crash_safe prog path rest vs fuel (s : St W) :
  list_at (vw (world s)) path vs -> held (vw (world s)) = ∅ ->
  zlen vs + 1 < 2 ^ 31 -> (length vs < fuel)%nat ->
  rwp (fun s1 => forall w', crash (world s1) w' -> exists vs', grown vs vs' /\ list_at (vw w') path vs')
    (main fuel (prog :: path :: rest))
    (fun res s' => match res with
       | Normal ret => ret = 0 /\ handles (vw (world s')) = handles (vw (world s)) /\ held (vw (world s')) = ∅ /\
           exists vs' before text after, appended vs vs' text /\ list_at (vw (world s')) path vs' /\
             stdout s' = stdout s ++ before ++ text ++ b!"linked list: " ++ print_values vs' ++ [10] ++ after
       | Exited code => code = 1 /\ exists vs', grown vs vs' /\ list_at (vw (world s')) path vs'
       | Aborted => list_at (vw (world s')) path vs
       | _ => False
       end) s.
Proof.
  intros Hat Hhold Hlen Hf. pose proof (main_ok prog path rest vs fuel s Hat Hhold Hlen Hf) as H.
  unfold rwp in *. destruct (main fuel (prog :: path :: rest) s) as [[t res] s'].
  destruct H as [Ht Hpost]. split.
  - eapply Forall_impl; [exact Ht|]. intros s1 Hs1 w'. by apply recoverable_crash.
  - unfold main_post in Hpost. rewrite <- Hhold. destruct res; try done. by destruct Hpost as (-> & _ & Hl).
Qed.

(** Runs of the program, each ended by return or exit, or cut off by a crash
    in any of its states and recovered. *)
Inductive runs (fuel : nat) (path : bytes) (w : W) : nat -> W -> Prop :=
  | runs_none : runs fuel path w 0 w
  | runs_ended n w1 prog rest out t res s' :
      runs fuel path w n w1 -> main fuel (prog :: path :: rest) (mkSt w1 out) = (t, res, s') ->
      (res = Normal 0 \/ res = Exited 1) -> runs fuel path w (S n) (world s')
  | runs_crashed n w1 prog rest out t res s' s w2 :
      runs fuel path w n w1 -> main fuel (prog :: path :: rest) (mkSt w1 out) = (t, res, s') ->
      s ∈ t -> crash (world s) w2 -> runs fuel path w (S n) w2.

(** C10: over any number of runs and crashes nothing is lost and nothing comes
    twice.  From a list of [m] elements 100, [n] runs of the program, each ended
    or cut off by a crash and recovered, leave a list of between [m] and [m + n]
    elements 100. *)
Theorem linked_list_history fuel path w n w' m :
  runs fuel path w n w' -> held (vw w) = ∅ -> list_at (vw w) path (replicate m 100) ->
  Z.of_nat (m + n) < 2 ^ 31 -> (m + n <= fuel)%nat ->
  exists m', (m <= m' <= m + n)%nat /\ held (vw w') = ∅ /\ list_at (vw w') path (replicate m' 100).
Proof.
  intros Hr Hhold Hat. induction Hr as [|n w1 prog rest out t res s' _ IH E Hres|n w1 prog rest out t res s' s w2 _ IH E Hst Hc];
    intros Hlen Hf; [by exists m; split; [lia|]| |].
  all: destruct IH as (m' & Hm' & Hhold1 & Hat1); [lia..|].
  all: assert (Hok : zlen (replicate m' 100) + 1 < 2 ^ 31) by (unfold zlen; rewrite length_replicate; lia).
  all: assert (Hf' : (length (replicate m' 100%Z) < fuel)%nat) by (rewrite length_replicate; lia).
  all: pose proof (main_ok prog path rest _ fuel (mkSt w1 out) Hat1 Hhold1 Hok Hf') as Hmain.
  all: unfold rwp in Hmain; rewrite E in Hmain; destruct Hmain as [Ht Hpost].
  all: assert (Hgrown : forall vs', grown (replicate m' 100) vs' ->
         exists k, vs' = replicate k 100 /\ (m <= k <= m + S n)%nat).
  1,3: intros vs' [->| ->]; [exists m'; split; [done|lia]|exists (S m'); split; [by rewrite <- replicate_cons_app|lia]].
  - assert (Hend : held (vw (world s')) = ∅ /\ exists vs', grown (replicate m' 100) vs' /\ list_at (vw (world s')) path vs').
    { destruct Hres as [-> | ->]; cbn in Hpost.
      - destruct Hpost as (_ & _ & Hh & vs' & _ & text & _ & Hap & Hl & _). split; [congruence|].
        exists vs'. split; [|done]. destruct Hap as [[-> _]|[-> _]]; [by right|by left].
      - destruct Hpost as (_ & Hh & Hl). split; [congruence|done]. }
    destruct Hend as (Hh & vs' & Hg & Hl). destruct (Hgrown vs' Hg) as (k & -> & Hk). by exists k.
  - rewrite Forall_forall in Ht. specialize (Ht s Hst).
    destruct (recoverable_crash path _ _ w2 Ht Hc) as (vs' & Hg & Hl).
    destruct (Hgrown vs' Hg) as (k & -> & Hk). exists k. split; [done|].
    split; [|done]. by apply (crash_recovers (world s) w2).
Qed.

End main.
(** ** Witnesses *)
Lemma list_type_refl c : same_type c c.
Proof. by destruct c. Qed.

Definition no_pool : St MemPmem.mem := mkSt (MemPmem.mkMem (mkPview (O := obj) ∅ ∅ ∅) 9) [].

Definition run (s : St (MemPmem.mem (O := obj))) := main (H := MemPmem.mem_ops) 4 [b!"linked_list"; b!"/mnt/l"] s.

(** The second of two runs. *)
Lemma linked_list_crash_safe_witness :
  let s := mkSt (world (run no_pool).2) [] in
  (run s).1.2 = Normal 0 /\
  list_at (MemPmem.v_ (world s)) b!"/mnt/l" [100] /\
  stdout (run s).2 = b!"Pool /mnt/l is opened." ++ [10] ++ committed_text ++ b!"linked list: 100 100 " ++ [10]
    ++ b!"Pool /mnt/l is closed." ++ [10] ++ b!"Pool /mnt/l is consistent." ++ [10] /\
  Forall (fun s1 => forall w', crash (PmemObj := MemPmem.mem_ops) (world s1) w' ->
            exists vs', grown [100] vs' /\ list_at (MemPmem.v_ w') b!"/mnt/l" vs') (run s).1.1.
Proof.
  intros s. split; [vm_compute; reflexivity|].
  assert (Hl : list_at (MemPmem.v_ (world s)) b!"/mnt/l" [100]).
  { unfold list_at. assert (Hp : pools (MemPmem.v_ (world s)) !! b!"/mnt/l" =
      Some (mkPool {[1 := list_head 1 2 2; 2 := list_elem 100 0]} (Some 1) ∅ None))
      by (vm_compute; reflexivity).
    rewrite Hp. apply (holds_first _ 1 2);
      [split; reflexivity|reflexivity|discriminate|discriminate|discriminate|vm_compute; reflexivity..]. }
  split; [done|]. split; [vm_compute; reflexivity|].
  pose proof (linked_list_crash_safe (Ops := MemPmem.mem_ops) (Laws := MemPmem.mem_laws same_type list_type_refl)
    b!"linked_list" b!"/mnt/l" [] [100] 4 s Hl) as H.
  unfold rwp in H. fold (run s) in H. destruct (run s) as [[t res] s']. apply H; [by vm_compute|done|cbn; lia].
Defined.

Lemma linked_list_history_witness :
  exists w', runs (Ops := MemPmem.mem_ops) 4 b!"/mnt/l" (world no_pool) 2 w' /\
    exists m', (0 <= m' <= 2)%nat /\ list_at (MemPmem.v_ w') b!"/mnt/l" (replicate m' 100).
Proof.
  assert (E : exists t s' s, run (mkSt (world (run no_pool).2) []) = (s :: t, Normal 0, s'))
    by (do 3 eexists; vm_compute; reflexivity).
  destruct E as (t & s' & s & E).
  assert (Hr : runs (Ops := MemPmem.mem_ops) 4 b!"/mnt/l" (world no_pool) 2
    (MemPmem.mkMem (mkPview ((fun p => mkPool (objs (rollback p)) (root_oid p) ∅ None) <$> pools (MemPmem.v_ (world s))) ∅ ∅)
       (MemPmem.room (world s)))).
  { eapply (runs_crashed _ _ _ 1 (world (run no_pool).2) b!"linked_list" [] [] (s :: t) (Normal 0) s' s);
      [|exact E|by left|reflexivity].
    destruct (run no_pool) as [[t0 res0] s0] eqn:E0.
    eapply (runs_ended _ _ _ 0 (world no_pool) b!"linked_list" [] [] t0 res0 s0); [constructor|exact E0|].
    left. change (res0 = Normal 0). replace res0 with ((run no_pool).1.2) by (by rewrite E0).
    vm_compute. reflexivity. }
  eexists. split; [exact Hr|].
  destruct (linked_list_history (Ops := MemPmem.mem_ops) (Laws := MemPmem.mem_laws same_type list_type_refl)
    4 b!"/mnt/l" _ 2 _ 0 Hr) as (m' & Hm & _ & Hl);
    [vm_compute; reflexivity|vm_compute; reflexivity|lia|lia|]. exists m'. split; [exact Hm|exact Hl].
Defined.

End LinkedList.
