(* ===== verification/Port.v ===== *)
(** * The wrappers of pthreads (bench/port/port_posix.cc, port_posix.h, util/mutexlock.h)

    [Pthread] is the part of pthreads the sources call, seen by one thread;
    [PthreadLaws] is what POSIX says of the mutexes the thread holds.  A program
    is a [Run] over the world and what was written to stderr. *)

From S2P Require Import Prelude Runs.

Local Open Scope Z_scope.

(** A mutex, a condition variable and a once-control are known by address. *)
Class Pthread (W : Type) := {
  error_text : Z -> bytes;
  pthread_mutex_init : Z -> W -> Z * W;
  pthread_mutex_destroy : Z -> W -> Z * W;
  pthread_mutex_lock : Z -> W -> Z * W;
  pthread_mutex_unlock : Z -> W -> Z * W;
  pthread_cond_init : Z -> W -> Z * W;
  pthread_cond_destroy : Z -> W -> Z * W;
  (** condition variable, mutex *)
  pthread_cond_wait : Z -> Z -> W -> Z * W;
  pthread_cond_signal : Z -> W -> Z * W;
  pthread_cond_broadcast : Z -> W -> Z * W;
  pthread_once : Z -> (W -> W) -> W -> Z * W
}.

(** [held w]: the mutexes the calling thread holds. *)
Class PthreadLaws (W : Type) `{Pthread W} (held : W -> gset Z) : Prop := {
  lock_ok mu w w' : pthread_mutex_lock mu w = (0, w') -> (mu ∉ held w) /\ held w' = {[mu]} ∪ held w;
  lock_error mu w r w' : pthread_mutex_lock mu w = (r, w') -> r <> 0 -> held w' = held w;
  unlock_ok mu w : mu ∈ held w ->
    exists w', pthread_mutex_unlock mu w = (0, w') /\ held w' = held w ∖ {[mu]};
  (** waiting gives the mutex up and takes it again *)
  wait_ok cv mu w r w' : mu ∈ held w -> pthread_cond_wait cv mu w = (r, w') -> held w' = held w;
  signal_ok cv w : held (pthread_cond_signal cv w).2 = held w;
  broadcast_ok cv w : held (pthread_cond_broadcast cv w).2 = held w
}.

Record Pst (W : Type) := mkPst { os_ : W; stderr : bytes }.
Arguments mkPst {W}.
Arguments os_ {W}.
Arguments stderr {W}.

Section port.
Context {W : Type} `{Pthread W}.

Definition pcall {A} (f : W -> A * W) : Run (Pst W) A :=
  act (fun s => let '(a, w) := f (os_ s) in (a, mkPst w (stderr s))).

Definition fprintf (text : bytes) : Run (Pst W) unit :=
  act (fun s => (tt, mkPst (os_ s) (stderr s ++ text))).

(** ** PthreadCall *)
Definition PthreadCall (label : bytes) (result : Z) : Run (Pst W) unit :=
  if negb (result =? 0) then
    _ ← fprintf (b!"pthread " ++ label ++ b!": " ++ error_text result ++ [10]);
    ends Aborted
  else mret tt.

(** ** Mutex *)
Definition Mutex_new (mu : Z) : Run (Pst W) unit :=
  r ← pcall (pthread_mutex_init mu); PthreadCall b!"init mutex" r.

Definition Mutex_delete (mu : Z) : Run (Pst W) unit :=
  r ← pcall (pthread_mutex_destroy mu); PthreadCall b!"destroy mutex" r.

Definition Lock (mu : Z) : Run (Pst W) unit :=
  r ← pcall (pthread_mutex_lock mu); PthreadCall b!"lock" r.

Definition Unlock (mu : Z) : Run (Pst W) unit :=
  r ← pcall (pthread_mutex_unlock mu); PthreadCall b!"unlock" r.

Definition AssertHeld (mu : Z) : Run (Pst W) unit := mret tt.

(** ** CondVar *)
Record CondVar := mkCondVar { cv_ : Z; mu_ : Z }.

Definition CondVar_new (cv mu : Z) : Run (Pst W) CondVar :=
  r ← pcall (pthread_cond_init cv);
  _ ← PthreadCall b!"init cv" r;
  mret (mkCondVar cv mu).

Definition CondVar_delete (c : CondVar) : Run (Pst W) unit :=
  r ← pcall (pthread_cond_destroy (cv_ c)); PthreadCall b!"destroy cv" r.

Definition Wait (c : CondVar) : Run (Pst W) unit :=
  r ← pcall (pthread_cond_wait (cv_ c) (mu_ c)); PthreadCall b!"wait" r.

Definition Signal (c : CondVar) : Run (Pst W) unit :=
  r ← pcall (pthread_cond_signal (cv_ c)); PthreadCall b!"signal" r.

Definition SignalAll (c : CondVar) : Run (Pst W) unit :=
  r ← pcall (pthread_cond_broadcast (cv_ c)); PthreadCall b!"broadcast" r.

Definition InitOnce (once : Z) (initializer : W -> W) : Run (Pst W) unit :=
  r ← pcall (pthread_once once initializer); PthreadCall b!"once" r.

(** ** MutexLock

    Leaving a scope by return or by an exception runs the destructor; [abort]
    and [exit] do not unwind. *)
Definition finally {A} (body : Run (Pst W) A) (destructor : Run (Pst W) unit) : Run (Pst W) A := fun s =>
  match body s with
  | (t, Normal a, s') => let '(t', r, s'') := (_ ← destructor; mret a) s' in (t ++ t', r, s'')
  | (t, Thrown what, s') => let '(t', r, s'') := (_ ← destructor; ends (Thrown what)) s' in (t ++ t', r, s'')
  | (t, r, s') => (t, r, s')
  end.

Definition MutexLock {A} (mu : Z) (scope : Run (Pst W) A) : Run (Pst W) A :=
  _ ← Lock mu; finally scope (Unlock mu).

End port.

(** ** The optional libraries, absent from this build *)
Definition Snappy_Compress (input : bytes) (length : Z) (output : bytes) : bool * bytes := (false, output).

Definition Snappy_GetUncompressedLength (input : bytes) (length result : Z) : bool * Z := (false, result).

Definition Snappy_Uncompress (input : bytes) (length : Z) (output : bytes) : bool * bytes := (false, output).

Definition GetHeapProfile : bool := false.

Definition AcceleratedCRC32C (crc : Z) (buf : bytes) (size : Z) : Z := 0.

(** ** Lemmas *)
Section lemmas.
Context {W : Type} {Ops : Pthread W} {held : W -> gset Z} {Laws : PthreadLaws W held}.

(** What [PthreadCall] reports. *)
Definition complaint (label : bytes) (r : Z) : bytes := b!"pthread " ++ label ++ b!": " ++ error_text r ++ [10].

(** Every wrapper is one call, and an abort with its label unless the call
    returns 0. *)
Lemma wrapper_cases (f : W -> Z * W) label s :
  (r ← pcall f; PthreadCall label r) s =
  let '(r, w) := f (os_ s) in
  let s1 := mkPst w (stderr s) in
  if r =? 0 then ([s1], Normal tt, s1)
  else let s2 := mkPst w (stderr s ++ complaint label r) in ([s1; s2], Aborted, s2).
Proof.
  unfold pcall, act, mbind at 1, run_bind. destruct (f (os_ s)) as [r w]. unfold PthreadCall.
  by destruct (r =? 0).
Qed.

Lemma Lock_cases mu s :
  (exists w, Lock mu s = ([mkPst w (stderr s)], Normal tt, mkPst w (stderr s)) /\
     (mu ∉ held (os_ s)) /\ held w = {[mu]} ∪ held (os_ s)) \/
  (exists t e s', e <> 0 /\ Lock mu s = (t, Aborted, s') /\
     stderr s' = stderr s ++ complaint b!"lock" e /\ held (os_ s') = held (os_ s)).
Proof.
  unfold Lock. rewrite wrapper_cases. destruct (pthread_mutex_lock mu (os_ s)) as [r w] eqn:E.
  destruct (Z.eqb_spec r 0) as [->|Hr].
  - left. destruct (lock_ok mu _ w E). by exists w.
  - right. do 2 eexists. exists (mkPst w (stderr s ++ complaint b!"lock" r)).
    pose proof (lock_error mu _ r w E Hr). by split_and!.
Qed.

Lemma Unlock_ok mu s :
  mu ∈ held (os_ s) ->
  exists w, Unlock mu s = ([mkPst w (stderr s)], Normal tt, mkPst w (stderr s)) /\ held w = held (os_ s) ∖ {[mu]}.
Proof.
  intros Hm. unfold Unlock. rewrite wrapper_cases. destruct (unlock_ok mu (os_ s) Hm) as (w & -> & Hw).
  by exists w.
Qed.

(** A wait leaves the held mutexes as they were. *)
Lemma Wait_held c s :
  mu_ c ∈ held (os_ s) ->
  rwp (fun s' => held (os_ s') = held (os_ s)) (Wait c) (fun _ s' => held (os_ s') = held (os_ s)) s.
Proof.
  intros Hm. unfold rwp, Wait. rewrite wrapper_cases.
  destruct (pthread_cond_wait (cv_ c) (mu_ c) (os_ s)) as [r w] eqn:E.
  pose proof (wait_ok _ _ _ _ _ Hm E). by destruct (r =? 0); repeat constructor.
Qed.

(** ** Properties *)

(** C18: a [MutexLock] holds its mutex exactly for its scope.  For any scope that
    leaves the set of held mutexes as it finds it (waits on condition variables
    included), either the lock fails and the program aborts with the message for
    it, or the scope runs with the mutex held in each of its states, and when it
    ends, by return or by an exception, with that outcome, the mutex is free
    again and what the thread holds is as before. *)
Theorem MutexLock_scope {A} mu (scope : Run (Pst W) A) s :
  (forall s1, held (os_ s1) = {[mu]} ∪ held (os_ s) ->
     rwp (fun s' => held (os_ s') = held (os_ s1)) scope (fun _ s' => held (os_ s') = held (os_ s1)) s1) ->
  let '(t, r, s') := MutexLock mu scope s in
  (r = Aborted /\ held (os_ s') = held (os_ s) /\
   exists e, e <> 0 /\ stderr s' = stderr s ++ complaint b!"lock" e) \/
  ((mu ∉ held (os_ s)) /\ exists s1 t1 s2, scope s1 = (t1, r, s2) /\
     Forall (fun q => mu ∈ held (os_ q)) (s1 :: t1) /\
     match r with
     | Normal _ | Thrown _ => held (os_ s') = held (os_ s) /\ stderr s' = stderr s2
     | _ => s' = s2
     end).
Proof.
  intros Hscope. unfold MutexLock, mbind, run_bind.
  destruct (Lock_cases mu s) as [(w & -> & Hm & Hw)|(t & e & s' & He & -> & Herr & Hh)]; [|left; eauto].
  set (s1 := mkPst w (stderr s)). specialize (Hscope s1 Hw). unfold finally, rwp in *.
  assert (Hin : forall q, held (os_ q) = held (os_ s1) -> mu ∈ held (os_ q)).
  { intros q ->. unfold s1. cbn. rewrite Hw. set_solver. }
  destruct (scope s1) as [[t1 r] s2] eqn:E. destruct Hscope as [Ht1 Hs2].
  assert (HF : Forall (fun q => mu ∈ held (os_ q)) (s1 :: t1)).
  { constructor; [by apply Hin|]. eapply Forall_impl; [exact Ht1|]. by intros q Hq%Hin. }
  destruct (Unlock_ok mu s2 (Hin s2 Hs2)) as (w2 & Hu & Hw2).
  assert (Hback : held w2 = held (os_ s)).
  { rewrite Hw2, Hs2. unfold s1. cbn. rewrite Hw. clear -Hm. set_solver. }
  destruct r; unfold mbind, run_bind; rewrite ?Hu; right; (split; [done|]); exists s1, t1, s2;
    (split; [exact E|]); (split; [exact HF|]); auto.
Qed.

End lemmas.

(** ** A thread on its own *)
Module MemPthread.

#[local] Instance ops : Pthread (gset Z) := {
  error_text e := if e =? 35 then b!"Resource deadlock avoided" else b!"Operation not permitted";
  pthread_mutex_init _ w := (0, w);
  pthread_mutex_destroy _ w := (0, w);
  pthread_mutex_lock mu w := if decide (mu ∈ w) then (35, w) else (0, {[mu]} ∪ w);
  pthread_mutex_unlock mu w := if decide (mu ∈ w) then (0, w ∖ {[mu]}) else (1, w);
  pthread_cond_init _ w := (0, w);
  pthread_cond_destroy _ w := (0, w);
  pthread_cond_wait _ _ w := (0, w);
  pthread_cond_signal _ w := (0, w);
  pthread_cond_broadcast _ w := (0, w);
  pthread_once _ f w := (0, f w)
}.

#[local] Instance laws : PthreadLaws (gset Z) (fun w => w).
Proof.
  split; cbn; try done.
  - intros mu w w'. case_decide; [done|]. by intros [= <-].
  - intros mu w r w'. case_decide; [by intros [= _ <-]|by intros [= <- _]].
  - intros mu w Hm. rewrite decide_True by done. eauto.
  - by intros cv mu w r w' _ [= _ <-].
Qed.

End MemPthread.

(** A scope that waits and then throws. *)
Definition waiting_scope : Run (Pst (gset Z)) unit :=
  _ ← Wait (H := MemPthread.ops) (mkCondVar 8 7); ends (Thrown b!"no").

Lemma MutexLock_scope_witness :
  exists t s', MutexLock (H := MemPthread.ops) 7 waiting_scope (mkPst {[5]} []) = (t, Thrown b!"no", s') /\
    os_ s' = {[5]}.
Proof.
  pose proof (MutexLock_scope (Ops := MemPthread.ops) (Laws := MemPthread.laws) 7 waiting_scope (mkPst {[5]} []))
    as H.
  assert (E : exists t s', MutexLock (H := MemPthread.ops) 7 waiting_scope (mkPst {[5]} []) = (t, Thrown b!"no", s'))
    by (do 2 eexists; vm_compute; reflexivity).
  destruct E as (t & s' & E). rewrite E in H. exists t, s'. split; [done|].
  destruct H as [[H _]|[_ (s1 & t1 & s2 & _ & _ & H & _)]]; [|done|exact H].
  intros s1 Hs1. unfold waiting_scope. apply rwp_bind.
  eapply rwp_mono; [apply (Wait_held (Ops := MemPthread.ops) (Laws := MemPthread.laws) (mkCondVar 8 7) s1)|].
  - cbn. rewrite Hs1. set_solver.
  - by intros [] s2 Hs2.
Defined.

(** ** The platform (port_posix.h) *)
Module Platform.

Inductive system := Apple | Solaris | FreeBSD | OpenBSD | NetBSD | DragonFlyBSD | HPUX | Android (api : Z) | OtherOS.

(** What the compiler and the system's headers define; [little] is the byte
    order the machine has. *)
Record platform := mkPlatform {
  os : system;
  darwin_macros : bool;  (* __DARWIN_LITTLE_ENDIAN and __DARWIN_BYTE_ORDER *)
  little : bool
}.

(** [_BYTE_ORDER == _LITTLE_ENDIAN] and the like, of the headers *)
Definition headers_say_little (p : platform) : bool := little p.

(** The [#if] chain; [None]: the macro is not defined there. *)
Definition PLATFORM_IS_LITTLE_ENDIAN (p : platform) : option bool :=
  match os p with
  | Apple => if darwin_macros p then Some (headers_say_little p) else None
  | Solaris => Some (if little p (* _LITTLE_ENDIAN *) then true else false)
  | FreeBSD | OpenBSD | NetBSD | DragonFlyBSD => Some (headers_say_little p)
  | HPUX => Some false
  | Android _ => Some (headers_say_little p)
  | OtherOS => None
  end.

(** [static const bool kLittleEndian], after the [#ifndef] that defines what is
    missing by [__BYTE_ORDER == __LITTLE_ENDIAN] *)
Definition kLittleEndian (p : platform) : bool :=
  match PLATFORM_IS_LITTLE_ENDIAN p with Some b => b | None => headers_say_little p end.

(** [#define fdatasync fsync] *)
Definition fdatasync_is_fsync (p : platform) : bool :=
  match os p with
  | Apple | FreeBSD | OpenBSD | DragonFlyBSD => true
  | Android api => api <? 9
  | _ => false
  end.

(** The constant is the byte order, HP-UX being big-endian. *)
Lemma kLittleEndian_right p : (os p = HPUX -> little p = false) -> kLittleEndian p = little p.
Proof. destruct p as [[] [] []]; unfold kLittleEndian; cbn; intros H; try done; by rewrite H. Qed.

End Platform.
