(* ===== verification/Threads.v ===== *)
(** * Threads and the default environment (end of bench/util/env_posix.cc)

    [StartThread] hands a block with a function and its argument to a new
    thread, which calls the function and deletes the block.  [Env::Default]
    creates the environment by [pthread_once].  [EnvPosixTestHelper] sets the
    limits the environment is created with. *)

From S2P Require Import Prelude PosixOS PosixFile Env PosixEnv.

Local Open Scope Z_scope.

(** ** StartThread *)
Module StartThread.

(** Where a started thread is in [StartThreadWrapper]: about to call the user's
    function, about to delete its block, ended. *)
Inductive pc := Start (p : Z) | Ran (p : Z) | Gone.

#[export] Instance pc_eq_dec : EqDecision pc.
Proof. solve_decision. Defined.

(** A function and its argument; calls still to be made by the program, blocks
    of type [StartThreadState], threads, calls made of user functions. *)
Record state := mkState {
  requests : list (Z * Z); blocks : gmap Z (Z * Z); threads : list pc; calls : list (Z * Z)
}.

(** [new] returned [p], and [pthread_create] the value [result]. *)
Definition StartThread (function arg p result : Z) (s : state) : outcome state :=
  let blocks' := <[p := (function, arg)]> (blocks s) in
  if negb (result =? 0) then Aborted
  else Normal (mkState (tail (requests s)) blocks' (threads s ++ [Start p]) (calls s)).

(** the two actions of the new thread [t]; a block that is gone is undefined *)
Definition StartThreadWrapper (t : nat) (s : state) : outcome state :=
  match threads s !! t with
  | Some (Start p) =>
      '(function, arg) ← defined (blocks s !! p);
      Normal (mkState (requests s) (blocks s) (<[t := Ran p]> (threads s)) (calls s ++ [(function, arg)]))
  | Some (Ran p) =>
      _ ← defined (blocks s !! p);
      Normal (mkState (requests s) (delete p (blocks s)) (<[t := Gone]> (threads s)) (calls s))
  | _ => Normal s
  end.

Definition init (reqs : list (Z * Z)) : state := mkState reqs ∅ [] [].

Inductive step (s : state) : outcome state -> Prop :=
  | step_start function arg rest p o :
      requests s = (function, arg) :: rest -> blocks s !! p = None ->
      StartThread function arg p 0 s = o -> step s o
  | step_thread t x o :
      threads s !! t = Some x -> x <> Gone -> StartThreadWrapper t s = o -> step s o.

Inductive reachable (reqs : list (Z * Z)) : state -> Prop :=
  | reach_init : reachable reqs (init reqs)
  | reach_step s s' : reachable reqs s -> step s (Normal s') -> reachable reqs s'.

(** *** The invariant *)
Definition block_of (x : pc) : option Z := match x with Start p | Ran p => Some p | Gone => None end.

Definition pending (b : gmap Z (Z * Z)) (x : pc) : option (Z * Z) :=
  match x with Start p => b !! p | _ => None end.

Record inv (reqs : list (Z * Z)) (s : state) : Prop := {
  inv_calls : calls s ++ omap (pending (blocks s)) (threads s) ++ requests s ≡ₚ reqs;
  inv_nodup : NoDup (omap block_of (threads s));
  inv_dom : dom (blocks s) = list_to_set (omap block_of (threads s))
}.

Lemma omap_pending_ext b b' (l : list pc) :
  (forall p, p ∈ omap block_of l -> b' !! p = b !! p) -> omap (pending b') l = omap (pending b) l.
Proof.
  induction l as [|x l IH]; intros Hb; [done|]. cbn.
  rewrite IH by (intros p Hp; apply Hb; cbn; destruct (block_of x); [by right|done]).
  destruct x as [p|p|]; cbn; try done. rewrite Hb; [done|by left].
Qed.

Lemma lookup_split (l : list pc) t x :
  l !! t = Some x -> exists l1 l2, l = l1 ++ x :: l2 /\ forall y, <[t := y]> l = l1 ++ y :: l2.
Proof.
  intros Ht. exists (take t l), (drop (S t) l). split; [by rewrite take_drop_middle|].
  intros y. apply insert_take_drop. by apply lookup_lt_Some in Ht.
Qed.

Lemma start_inv_step reqs s o : inv reqs s -> step s o -> exists s', o = Normal s' /\ inv reqs s'.
Proof.
  intros [Hc Hn Hd] Hs. destruct Hs as [f a rest p o Hreq Hp <-|t x o Ht Hx <-].
  - eexists. split; [reflexivity|]. cbn.
    assert (Hnew : p ∉ omap block_of (threads s)).
    { apply not_elem_of_dom in Hp. rewrite Hd in Hp. set_solver. }
    split; cbn.
    + rewrite omap_app. cbn. rewrite lookup_insert_eq.
      rewrite (omap_pending_ext (blocks s)) by (intros q Hq; apply lookup_insert_ne; set_solver).
      rewrite <- Hc, Hreq. cbn. by rewrite <- app_assoc.
    + rewrite omap_app. cbn. apply NoDup_app. split; [done|]. split; [set_solver|apply NoDup_singleton].
    + rewrite omap_app, dom_insert_L, list_to_set_app_L, Hd. cbn. set_solver.
  - destruct (lookup_split _ t x Ht) as (l1 & l2 & El & Eins). unfold StartThreadWrapper. rewrite Ht.
    rewrite El, omap_app in Hc. rewrite El, omap_app in Hn. rewrite El, omap_app in Hd.
    destruct x as [p|p|]; [..|done]; cbn in Hc, Hn, Hd.
    all: assert (Hp : p ∈ dom (blocks s)) by (rewrite Hd; set_solver).
    all: apply elem_of_dom in Hp as [[f a] Hp]; rewrite Hp; cbn.
    all: eexists; (split; [reflexivity|]); split; cbn; rewrite Eins, omap_app; cbn.
    + rewrite <- Hc, Hp, <- !app_assoc. cbn. apply Permutation_app_head.
      by rewrite !Permutation_middle.
    + done.
    + done.
    + apply NoDup_app in Hn as (_ & Hn1 & Hn2). apply NoDup_cons in Hn2 as [Hn2 _].
      rewrite (omap_pending_ext (blocks s) _ l1), (omap_pending_ext (blocks s) _ l2); [exact Hc| |];
        intros q Hq; apply lookup_delete_ne; intros ->; [done|]. apply (Hn1 q Hq). by left.
    + apply NoDup_app in Hn as (H1 & H2 & H3). apply NoDup_app.
      apply NoDup_cons in H3 as [H3 H4]. split_and!; [done| |done]. set_solver.
    + apply NoDup_app in Hn as (H1 & H2 & H3). apply NoDup_cons in H3 as [H3 H4].
      rewrite dom_delete_L, Hd. rewrite !list_to_set_app_L. cbn. set_solver.
Qed.

Lemma start_inv reqs s : reachable reqs s -> inv reqs s.
Proof.
  induction 1 as [|s s' _ IH Hs].
  - split; cbn; [done|constructor|set_solver].
  - destruct (start_inv_step reqs s (Normal s') IH Hs) as (s1 & [= ->] & Hi). done.
Qed.

(** Nothing left to start and every thread ended. *)
Definition finished (s : state) : Prop := requests s = [] /\ Forall (fun x => x = Gone) (threads s).

(** C15: every thread started calls its function once, and nothing is leaked or
    used after it is freed.  Under every interleaving, from the start on: no
    action reads a block that is gone; while not all is done some action is
    possible; and in the end the calls of user functions are exactly those that
    were asked for, each with its argument, and every block is deleted. *)
Theorem started_threads_run reqs s :
  reachable reqs s ->
  (forall o, step s o -> exists s', o = Normal s') /\
  (finished s \/ exists s', step s (Normal s')) /\
  (finished s -> calls s ≡ₚ reqs /\ blocks s = ∅).
Proof.
  intros Hr%start_inv. split; [|split].
  - intros o Ho. destruct (start_inv_step reqs s o Hr Ho) as (s' & -> & _). by exists s'.
  - destruct (decide (Forall (fun x => x = Gone) (threads s))) as [Hg|Hg].
    + destruct (requests s) as [|[f a] rest] eqn:E; [by left|]. right. eexists.
      eapply (step_start s f a rest (fresh (dom (blocks s)))); [done| |reflexivity].
      apply not_elem_of_dom, is_fresh.
    + right. apply not_Forall_Exists in Hg; [|apply _]. apply Exists_exists in Hg as (x & Hx & Hne).
      apply list_elem_of_lookup in Hx as [t Ht].
      destruct (start_inv_step reqs s (StartThreadWrapper t s) Hr) as (s' & E & _); [by eapply step_thread|].
      exists s'. by eapply step_thread.
  - intros [Hq Hg]. destruct Hr as [Hc _ Hd].
    assert (He : omap block_of (threads s) = [] /\ omap (pending (blocks s)) (threads s) = []).
    { clear -Hg. induction Hg as [|x l -> _ [IH1 IH2]]; [done|]. by rewrite <- IH1, <- IH2 at 1. }
    destruct He as [He1 He2]. rewrite He1 in Hd. rewrite He2, Hq in Hc. cbn in Hc. rewrite app_nil_r in Hc.
    split; [done|]. by apply dom_empty_inv_L.
Qed.

Lemma started_threads_run_witness :
  let s := mkState [] ∅ [Gone; Gone] [(2, 20); (1, 10)] in
  reachable [(1, 10); (2, 20)] s /\ calls s ≡ₚ [(1, 10); (2, 20)] /\ blocks s = ∅.
Proof.
  intros s. assert (Hr : reachable [(1, 10); (2, 20)] s).
  { eapply (reach_step _ (mkState [] {[7 := (1, 10)]} [Ran 7; Gone] [(2, 20); (1, 10)]));
      [|by eapply (step_thread _ 0)].
    eapply (reach_step _ (mkState [] {[7 := (1, 10)]} [Start 7; Gone] [(2, 20)])); [|by eapply (step_thread _ 0)].
    eapply (reach_step _ (mkState [] (<[8 := (2, 20)]> {[7 := (1, 10)]}) [Start 7; Ran 8] [(2, 20)]));
      [|by eapply (step_thread _ 1)].
    eapply (reach_step _ (mkState [] (<[8 := (2, 20)]> {[7 := (1, 10)]}) [Start 7; Start 8] []));
      [|by eapply (step_thread _ 1)].
    eapply (reach_step _ (mkState [(2, 20)] {[7 := (1, 10)]} [Start 7] [])); [|by eapply (step_start _ 2 20 [] 8)].
    eapply (reach_step _ (init [(1, 10); (2, 20)])); [constructor|by eapply (step_start _ 1 10 _ 7)]. }
  split; [done|]. apply (started_threads_run _ _ Hr). split; [done|by repeat constructor].
Defined.

End StartThread.

(** ** Env::Default *)
Module DefaultEnv.

(** Where a thread in [Env::Default] is: before [pthread_once]; in
    [InitDefaultEnv], before [new PosixEnv], before the assignment, and before
    the return to [pthread_once]; before the return; returned. *)
Inductive pc := Call | Init | Assign (e : Z) | Leave | Return | Returned (e : option Z).

Inductive once_t := PTHREAD_ONCE_INIT | InProgress | Complete.

(** [created] counts the environments made; each is known by its number. *)
Record state := mkState { once : once_t; default_env : option Z; created : Z; threads : list pc }.

Definition init (k : nat) : state := mkState PTHREAD_ONCE_INIT None 0 (replicate k Call).

Definition goto (i : nat) (p : pc) (s : state) : list pc := <[i := p]> (threads s).

(** the next action of thread [i]: [None] when it has returned or waits for the
    thread that initializes *)
Definition step (i : nat) (s : state) : option state :=
  match threads s !! i with
  | Some Call =>
      match once s with
      | PTHREAD_ONCE_INIT => Some (mkState InProgress (default_env s) (created s) (goto i Init s))
      | InProgress => None
      | Complete => Some (mkState Complete (default_env s) (created s) (goto i Return s))
      end
  | Some Init => Some (mkState (once s) (default_env s) (created s + 1) (goto i (Assign (created s)) s))
  | Some (Assign e) => Some (mkState (once s) (Some e) (created s) (goto i Leave s))
  | Some Leave => Some (mkState Complete (default_env s) (created s) (goto i Return s))
  | Some Return => Some (mkState (once s) (default_env s) (created s) (goto i (Returned (default_env s)) s))
  | _ => None
  end.

(** [path k n s]: [s] is reached by [n] actions of [k] threads. *)
Inductive path (k : nat) : nat -> state -> Prop :=
  | path_init : path k 0 (init k)
  | path_step n s i s' : path k n s -> step i s = Some s' -> path k (S n) s'.

(** How far the initializing thread is. *)
Definition in_init (p : pc) (e : option Z) (c : Z) : Prop :=
  match p with
  | Init => e = None /\ c = 0
  | Assign x => x = 0 /\ e = None /\ c = 1
  | Leave => e = Some 0 /\ c = 1
  | _ => False
  end.

Definition inv (s : state) : Prop :=
  match once s with
  | PTHREAD_ONCE_INIT => default_env s = None /\ created s = 0 /\ Forall (fun p => p = Call) (threads s)
  | InProgress => exists i p, threads s !! i = Some p /\ in_init p (default_env s) (created s) /\
      forall j q, j <> i -> threads s !! j = Some q -> q = Call
  | Complete => default_env s = Some 0 /\ created s = 1 /\
      Forall (fun p => p = Call \/ p = Return \/ p = Returned (Some 0)) (threads s)
  end.

Lemma once_inv_step i s s' : inv s -> step i s = Some s' -> inv s'.
Proof.
  unfold inv, step. destruct (threads s !! i) as [p|] eqn:Hi; [|done].
  destruct (once s) eqn:Ho.
  - intros (Hd & Hc & Hf). rewrite Forall_lookup in Hf. rewrite (Hf i p Hi). intros [= <-]. cbn.
    exists i, Init. unfold goto. split; [eapply list_lookup_insert_eq, lookup_lt_Some, Hi|].
    split; [done|]. intros j q Hj. rewrite list_lookup_insert_ne by done. apply Hf.
  - intros (i0 & p0 & Hi0 & Hp0 & Hrest). destruct (decide (i = i0)) as [->|Hne].
    2: { by rewrite (Hrest i p Hne Hi). }
    rewrite Hi0 in Hi. injection Hi as <-.
    assert (Hget : forall x, goto i0 x s !! i0 = Some x)
      by (intros x; eapply list_lookup_insert_eq, lookup_lt_Some, Hi0).
    assert (Hoth : forall x j q, j <> i0 -> goto i0 x s !! j = Some q -> q = Call).
    { intros x j q Hj. unfold goto. rewrite list_lookup_insert_ne by done. by apply Hrest. }
    destruct p0; cbn in Hp0; try done.
    + destruct Hp0 as [Hd Hc]. intros [= <-]. cbn. rewrite Hc. exists i0, (Assign 0).
      split; [apply Hget|]. split; [done|apply Hoth].
    + destruct Hp0 as (-> & Hd & Hc). intros [= <-]. cbn. rewrite Hc. exists i0, Leave.
      split; [apply Hget|]. split; [done|apply Hoth].
    + destruct Hp0 as [Hd Hc]. intros [= <-]. cbn. split_and!; [done..|].
      apply Forall_lookup. intros j q Hj. destruct (decide (j = i0)) as [->|Hne].
      * rewrite Hget in Hj. injection Hj as <-. auto.
      * left. by apply (Hoth Return j).
  - intros (Hd & Hc & Hf). rewrite Forall_lookup in Hf.
    destruct (Hf i p Hi) as [->|[->| ->]]; intros [= <-]; cbn; rewrite ?Ho; (split_and!; [done..|]);
      apply Forall_insert; rewrite ?Forall_lookup, ?Hd; auto.
Qed.

Lemma path_inv k n s : path k n s -> inv s.
Proof.
  induction 1 as [|n s i s' _ IH Hs]; [|by eapply once_inv_step].
  split_and!; [done..|]. by apply Forall_replicate.
Qed.

(** Actions a thread has still to take. *)
Definition rank (p : pc) : nat :=
  match p with Call => 5 | Init => 4 | Assign _ => 3 | Leave => 2 | Return => 1 | Returned _ => 0 end.

Definition work (l : list pc) : nat := sum_list (map rank l).

Lemma work_insert l i p q :
  l !! i = Some p -> (work (<[i := q]> l) + rank p = work l + rank q)%nat.
Proof.
  revert i; induction l as [|x l IH]; intros [|i] Hi; [done..| |].
  - injection Hi as ->. unfold work. cbn. lia.
  - specialize (IH i Hi). change (<[S i := q]> (x :: l)) with (x :: <[i := q]> l).
    unfold work in *. cbn [map sum_list sum_list_with] in *. unfold sum_list in *. cbn in *. lia.
Qed.

Lemma step_work i s s' : step i s = Some s' -> (work (threads s') < work (threads s))%nat.
Proof.
  unfold step, goto. destruct (threads s !! i) as [p|] eqn:Hi; [|done].
  destruct p; [destruct (once s)|..]; intros [= <-]; cbn [threads];
    match goal with |- (work (<[i := ?q]> _) < _)%nat => pose proof (work_insert _ i _ q Hi) as Hw end;
    cbn [rank] in Hw; lia.
Qed.

Lemma path_work k n s : path k n s -> (n + work (threads s) <= 5 * k)%nat.
Proof.
  induction 1 as [|n s i s' _ IH Hs].
  - unfold work, init. cbn [threads]. clear. induction k as [|k IH]; [done|]. cbn in *. lia.
  - apply step_work in Hs. lia.
Qed.

(** A thread that has not returned can act, or waits for one that can. *)
Lemma inv_progress s :
  inv s -> Forall (fun p => exists e, p = Returned e) (threads s) \/ exists i s', step i s = Some s'.
Proof.
  intros Hinv. destruct (decide (Exists (fun p => (0 < rank p)%nat) (threads s))) as [He|He].
  2: { left. apply not_Exists_Forall in He; [|apply _]. eapply Forall_impl; [exact He|].
       intros [] Hp; cbn in Hp; try lia. by eexists. }
  right. apply Exists_exists in He as (p & Hp & Hrank). apply list_elem_of_lookup in Hp as [i Hi].
  unfold inv in Hinv. destruct (once s) eqn:Ho.
  - destruct Hinv as (_ & _ & Hf). rewrite Forall_lookup in Hf. exists i. unfold step.
    rewrite Hi, (Hf i p Hi), Ho. by eexists.
  - destruct Hinv as (i0 & p0 & Hi0 & Hp0 & _). exists i0. unfold step. rewrite Hi0.
    destruct p0; try done; by eexists.
  - destruct Hinv as (_ & _ & Hf). rewrite Forall_lookup in Hf. exists i. unfold step. rewrite Hi, Ho.
    destruct (Hf i p Hi) as [->|[->| ->]]; [by eexists..|]. cbn in Hrank. lia.
Qed.

(** C14: one environment for all.  Under every interleaving of [k] threads that
    call [Env::Default], at most one environment is created, every call that has
    returned has returned it, never a null pointer, and no call waits for ever:
    while some call has not returned an action is possible, and after at most
    [5 k] actions all have returned. *)
Theorem default_env_once k n s :
  path k n s ->
  created s <= 1 /\
  (forall i e, threads s !! i = Some (Returned e) -> e = Some 0 /\ default_env s = Some 0 /\ created s = 1) /\
  (Forall (fun p => exists e, p = Returned e) (threads s) \/ exists i s', step i s = Some s') /\
  (n <= 5 * k)%nat.
Proof.
  intros Hp. pose proof (path_inv k n s Hp) as Hinv. pose proof (path_work k n s Hp).
  split; [|split; [|split; [by apply inv_progress|lia]]].
  - unfold inv in Hinv. destruct (once s); [lia| |lia].
    destruct Hinv as (i & p & _ & Hi & _). destruct p; cbn in Hi; lia.
  - intros i e Hi. unfold inv in Hinv. destruct (once s).
    + destruct Hinv as (_ & _ & Hf). rewrite Forall_lookup in Hf. by specialize (Hf _ _ Hi).
    + destruct Hinv as (i0 & p & Hi0 & Hp0 & Hrest). destruct (decide (i = i0)) as [->|Hne].
      * rewrite Hi0 in Hi. injection Hi as ->. done.
      * by specialize (Hrest i _ Hne Hi).
    + destruct Hinv as (Hd & Hc & Hf). rewrite Forall_lookup in Hf.
      destruct (Hf _ _ Hi) as [?|[?|[= ->]]]; done.
Qed.

(** Two threads, the second arriving while the first initializes. *)
Lemma default_env_once_witness :
  exists s, path 2 7 s /\ threads s = [Returned (Some 0); Returned (Some 0)] /\ created s <= 1.
Proof.
  eexists. assert (Hp : path 2 7 (mkState Complete (Some 0) 1 [Returned (Some 0); Returned (Some 0)])).
  { repeat (eapply path_step; [|first [apply (eq_refl : step 1 (mkState Complete (Some 0) 1 [Returned (Some 0); Return]) = _)
        | apply (eq_refl : step 0 (mkState Complete (Some 0) 1 [Return; Return]) = _)
        | apply (eq_refl : step 1 (mkState Complete (Some 0) 1 [Return; Call]) = _)
        | apply (eq_refl : step 0 (mkState InProgress (Some 0) 1 [Leave; Call]) = _)
        | apply (eq_refl : step 0 (mkState InProgress None 1 [Assign 0; Call]) = _)
        | apply (eq_refl : step 0 (mkState InProgress None 0 [Init; Call]) = _)
        | apply (eq_refl : step 0 (init 2) = _)]]). constructor. }
  split; [exact Hp|]. split; [done|]. apply (default_env_once 2 7 _ Hp).
Defined.

End DefaultEnv.

(** ** EnvPosixTestHelper *)
Module TestHelper.

(** The static variables of the file; the environment over a system of which
    only the limits matter. *)
Record statics := mkStatics {
  open_read_only_file_limit : Z; mmap_limit : Z; default_env : option (PosixEnv unit)
}.

Definition initial : statics := mkStatics (-1) (-1) None.

(** The build with NDEBUG, as the benchmark's, leaves assertions out. *)
Section helper.
Variable ndebug : bool.

Definition assert_no_env (s : statics) : outcome unit :=
  if ndebug then Normal tt
  else assert_ (match default_env s with None => true | Some _ => false end).

Definition SetReadOnlyFDLimit (limit : Z) (s : statics) : outcome statics :=
  _ ← assert_no_env s;
  Normal (mkStatics limit (mmap_limit s) (default_env s)).

Definition SetReadOnlyMMapLimit (limit : Z) (s : statics) : outcome statics :=
  _ ← assert_no_env s;
  Normal (mkStatics (open_read_only_file_limit s) limit (default_env s)).

(** [default_env = new PosixEnv]: the limits are stored back *)
Definition InitDefaultEnv (rlim : rlimit) (s : statics) : statics :=
  mkStatics (fst (MaxOpenFiles (open_read_only_file_limit s) rlim)) (fst (MaxMmaps (mmap_limit s)))
    (Some (env_new (mmap_limit s) (open_read_only_file_limit s) rlim tt)).

(** [Env::Default()] in one thread *)
Definition Default (rlim : rlimit) (s : statics) : option (PosixEnv unit) * statics :=
  let s := match default_env s with None => InitDefaultEnv rlim s | Some _ => s end in
  (default_env s, s).

(** What a test gets: the limits it sets before the first [Default] are those
    of the environment; setting one later fails the assertion, or, without
    assertions, leaves the environment as it is. *)
Lemma helper_limits fd mm rlim :
  0 <= fd -> 0 <= mm ->
  exists s, (s ← SetReadOnlyFDLimit fd initial; SetReadOnlyMMapLimit mm s) = Normal s /\
    let '(e, s') := Default rlim s in
    (fd_limit_ <$> e = Some fd /\ mmap_limit_ <$> e = Some mm) /\
    Default rlim s' = (e, s') /\
    (forall n, if ndebug
       then (t ← SetReadOnlyFDLimit n s'; Normal (default_env t)) = Normal e /\
            (t ← SetReadOnlyMMapLimit n s'; Normal (default_env t)) = Normal e
       else SetReadOnlyFDLimit n s' = Aborted /\ SetReadOnlyMMapLimit n s' = Aborted).
Proof.
  intros Hfd Hmm. exists (mkStatics fd mm None).
  unfold SetReadOnlyFDLimit, SetReadOnlyMMapLimit, assert_no_env. split; [by destruct ndebug|].
  unfold Default, InitDefaultEnv, env_new, MaxMmaps, MaxOpenFiles.
  cbn [default_env open_read_only_file_limit mmap_limit fst snd].
  rewrite (proj2 (Z.leb_le 0 fd) Hfd), (proj2 (Z.leb_le 0 mm) Hmm).
  split_and!; [reflexivity..|]. intros n. by destruct ndebug.
Qed.

End helper.
End TestHelper.
