(* ===== verification/AtomicPointer.v ===== *)
(** * AtomicPointer (bench/port/atomic_pointer.h, gcc on x86)

    The class is plain loads and stores around [MemoryBarrier], which on x86 is
    an empty assembly statement: it holds back the compiler and leaves the rest
    to the processor.  Code is a list of memory accesses; the compiler may
    exchange neighbours that do not depend on each other, but moves nothing
    across a barrier; the processor runs the threads with a store buffer each
    (x86-TSO). *)

From S2P Require Import Prelude.

Local Open Scope Z_scope.

(** ** Code *)

(** a load of a location into a register, a store, a compiler barrier *)
Inductive instr := Load (r : nat) (l : Z) | Store (l v : Z) | Barrier.

Definition MemoryBarrier : list instr := [Barrier].

Section AtomicPointer.
(** the address of the member [rep_] *)
Variable rep_ : Z.

Definition NoBarrier_Load (result : nat) : list instr := [Load result rep_].

Definition NoBarrier_Store (v : Z) : list instr := [Store rep_ v].

Definition Acquire_Load (result : nat) : list instr := [Load result rep_] ++ MemoryBarrier.

Definition Release_Store (v : Z) : list instr := MemoryBarrier ++ [Store rep_ v].

End AtomicPointer.

(** ** The compiler *)
Definition independent (a b : instr) : bool :=
  match a, b with
  | Barrier, _ | _, Barrier => false
  | Load r l, Load r' l' => negb (r =? r')%nat
  | Load _ l, Store l' _ | Store l' _, Load _ l => negb (l =? l')
  | Store l _, Store l' _ => negb (l =? l')
  end.

Inductive reorder : list instr -> list instr -> Prop :=
  | reorder_swap c1 a b c2 : independent a b = true -> reorder (c1 ++ a :: b :: c2) (c1 ++ b :: a :: c2).

Definition compiled : list instr -> list instr -> Prop := rtc reorder.

(** ** The processor *)
Record thread := mkThread { code : list instr; buffer : list (Z * Z); regs : gmap nat Z }.

Record state := mkState { mem : gmap Z Z; threads : list thread }.

(** memory is zero at first *)
Definition contents (m : gmap Z Z) (l : Z) : Z := default 0 (m !! l).

(** the newest store to [l] in the buffer, or the memory *)
Definition visible (m : gmap Z Z) (b : list (Z * Z)) (l : Z) : Z :=
  fold_left (fun x '(l', v) => if l' =? l then v else x) b (contents m l).

Definition set_thread (i : nat) (t : thread) (m : gmap Z Z) (s : state) : state :=
  mkState m (<[i := t]> (threads s)).

Inductive step (s : state) : state -> Prop :=
  | step_load i r l c b g :
      threads s !! i = Some (mkThread (Load r l :: c) b g) ->
      step s (set_thread i (mkThread c b (<[r := visible (mem s) b l]> g)) (mem s) s)
  | step_store i l v c b g :
      threads s !! i = Some (mkThread (Store l v :: c) b g) ->
      step s (set_thread i (mkThread c (b ++ [(l, v)]) g) (mem s) s)
  | step_barrier i c b g :
      threads s !! i = Some (mkThread (Barrier :: c) b g) ->
      step s (set_thread i (mkThread c b g) (mem s) s)
  (* the oldest store leaves the buffer *)
  | step_flush i c l v b g :
      threads s !! i = Some (mkThread c ((l, v) :: b) g) ->
      step s (set_thread i (mkThread c b g) (<[l := v]> (mem s)) s).

(** Both threads from the start of their code, all buffers and registers empty. *)
Definition start (c0 c1 : list instr) : state := mkState ∅ [mkThread c0 [] ∅; mkThread c1 [] ∅].

(** ** Lemmas on the compiler *)
Lemma reorder_perm c c' : reorder c c' -> c ≡ₚ c'.
Proof. intros [c1 a b c2 _]. apply Permutation_app_head, perm_swap. Qed.

Lemma compiled_perm c c' : compiled c c' -> c ≡ₚ c'.
Proof. induction 1 as [|c c1 c2 Hr _ IH]; [done|]. rewrite <- IH. by apply reorder_perm. Qed.

Lemma reorder_barrier c1 c2 c :
  reorder (c1 ++ Barrier :: c2) c ->
  exists c1' c2', c = c1' ++ Barrier :: c2' /\ compiled c1 c1' /\ compiled c2 c2'.
Proof.
  intros H. inversion H as [d1 a b d2 Hi E]. subst c.
  apply app_eq_inv in E as [(k & -> & E)|(k & -> & E)].
  - destruct k as [|x k]; cbn in E; injection E as <- E; [by destruct b|]. subst c2.
    exists c1, (k ++ b :: a :: d2). rewrite <- app_assoc. split; [done|]. split; [done|].
    by apply rtc_once, reorder_swap.
  - destruct k as [|x [|y k]]; cbn in E; [by injection E as ->; destruct b|by injection E as -> ->; destruct x|].
    injection E as <- <- ->. exists (d1 ++ b :: a :: k), c2. rewrite <- app_assoc. split; [done|].
    split; [|done]. by apply rtc_once, reorder_swap.
Qed.

Lemma compiled_barrier c1 c2 c :
  compiled (c1 ++ Barrier :: c2) c ->
  exists c1' c2', c = c1' ++ Barrier :: c2' /\ compiled c1 c1' /\ compiled c2 c2'.
Proof.
  intros H. remember (c1 ++ Barrier :: c2) as d eqn:E. revert c1 c2 E.
  induction H as [d|d d' d'' Hr _ IH]; intros c1 c2 ->; [by exists c1, c2|].
  apply reorder_barrier in Hr as (c1' & c2' & -> & H1 & H2).
  destruct (IH c1' c2' eq_refl) as (c1'' & c2'' & -> & H1' & H2'). exists c1'', c2''.
  split; [done|]. split; by etrans.
Qed.

Lemma compiled_singleton a c : compiled [a] c -> c = [a].
Proof. intros H%compiled_perm. symmetry in H. by apply Permutation_singleton_r in H. Qed.

(** ** Passing a message *)
Section message.
Context (flag : Z) (ws : list (Z * Z)) (ls : list (nat * Z)).
Context (Hflag : flag ∉ ws.*1) (Hws : NoDup ws.*1) (Hls : 0%nat ∉ ls.*1) (Hregs : NoDup ls.*1).

(** One thread writes the message and then sets the flag. *)
Definition writer : list instr := map (fun '(l, v) => Store l v) ws ++ Release_Store flag 1.

(** The other reads the flag and then the message. *)
Definition reader : list instr := Acquire_Load flag 0 ++ map (fun '(r, l) => Load r l) ls.

(** The value of the message at a location. *)
Definition written (l : Z) : Z := contents (list_to_map ws) l.

Lemma map_perm {A} (f : A -> instr) (l : list A) c :
  map f l ≡ₚ c -> exists l', c = map f l' /\ l ≡ₚ l'.
Proof. intros H. symmetry in H. apply Permutation_map_inv in H as (l' & -> & H). eauto. Qed.

Lemma compiled_writer c :
  compiled writer c -> exists ws', ws' ≡ₚ ws /\ c = map (fun '(l, v) => Store l v) ws' ++ Barrier :: [Store flag 1].
Proof.
  intros (c1 & c2 & -> & H1 & ->%compiled_singleton)%compiled_barrier.
  apply compiled_perm, map_perm in H1 as (ws' & -> & H). by exists ws'.
Qed.

Lemma compiled_reader c :
  compiled reader c -> exists ls', ls' ≡ₚ ls /\ c = Load 0 flag :: Barrier :: map (fun '(r, l) => Load r l) ls'.
Proof.
  intros (c1 & c2 & -> & ->%compiled_singleton & H)%(compiled_barrier [Load 0 flag]).
  apply compiled_perm, map_perm in H as (ls' & -> & H). by exists ls'.
Qed.

(** The state, for the compiled [ws'] and [ls']: the stores done, buffered and
    to come are those of the writer, in order; once the reader has seen the
    flag, all are done, and it has read the message as far as it got. *)
Section invariant.
Context (ws' : list (Z * Z)) (ls' : list (nat * Z)) (Ews : ws' ≡ₚ ws) (Els : ls' ≡ₚ ls) (Hloc : flag ∉ ls.*2).

Definition stores : list (Z * Z) := ws' ++ [(flag, 1)].

Definition loads (l : list (nat * Z)) : list instr := map (fun '(r, l) => Load r l) l.

Definition store_of (i : instr) : option (Z * Z) := match i with Store l v => Some (l, v) | _ => None end.

Definition no_load (i : instr) : Prop := match i with Load _ _ => False | _ => True end.

Definition reader_inv (past : list (Z * Z)) (c : list instr) (g : gmap nat Z) : Prop :=
  (c = Load 0 flag :: Barrier :: loads ls' /\ g !! 0%nat = None) \/
  exists k1 k2, ls' = k1 ++ k2 /\ (c = loads k2 \/ (c = Barrier :: loads k2 /\ k1 = [])) /\
    (g !! 0%nat = Some 1 -> past = stores /\ Forall (fun '(r, l) => g !! r = Some (written l)) k1).

Inductive inv : state -> Prop :=
  | inv_intro past buf c0 g0 c1 g1 :
      stores = past ++ buf ++ omap store_of c0 -> Forall no_load c0 -> reader_inv past c1 g1 ->
      inv (mkState (list_to_map past) [mkThread c0 buf g0; mkThread c1 [] g1]).

Lemma NoDup_stores : NoDup stores.*1.
Proof.
  unfold stores. rewrite fmap_app. apply NoDup_app. rewrite Ews. split; [done|]. split; [|apply NoDup_singleton].
  intros x Hx Hf. apply list_elem_of_singleton in Hf as ->. by rewrite Ews in Hx.
Qed.

Lemma contents_flag past buf rest :
  stores = past ++ buf ++ rest -> contents (list_to_map past) flag = 1 -> past = stores.
Proof.
  intros E Hc. destruct (decide (flag ∈ past.*1)) as [Hin|Hin].
  2: { unfold contents in Hc. rewrite not_elem_of_list_to_map_1 in Hc by done. done. }
  destruct (buf ++ rest) as [|x l _] eqn:El using rev_ind; [by rewrite app_nil_r in E|].
  rewrite app_assoc in E. unfold stores in E. apply app_inj_tail in E as [E <-].
  destruct Hflag. rewrite <- Ews, E, fmap_app. apply elem_of_app. by left.
Qed.

Lemma contents_written l : l <> flag -> contents (list_to_map stores) l = written l.
Proof.
  intros Hl. unfold written, contents, stores.
  rewrite list_to_map_snoc by by rewrite Ews. rewrite lookup_insert_ne by done.
  assert (E : (list_to_map ws' : gmap Z Z) = list_to_map ws) by (apply list_to_map_proper; [by rewrite Ews|done]).
  by rewrite E.
Qed.

Lemma inv_start : inv (start (map (fun '(l, v) => Store l v) ws' ++ Barrier :: [Store flag 1])
                             (Load 0 flag :: Barrier :: loads ls')).
Proof.
  apply (inv_intro [] []).
  - cbn. rewrite omap_app. cbn. unfold stores. f_equal. clear. induction ws' as [|[l v] k IH]; [done|].
    cbn. by rewrite <- IH.
  - apply Forall_app. split; [|by repeat constructor]. clear. induction ws' as [|[l v] k IH]; by constructor.
  - by left.
Qed.

(** More of the stores are done. *)
Lemma reader_inv_more past x c g :
  (past <> stores) -> reader_inv past c g -> reader_inv (past ++ [x]) c g.
Proof.
  intros Hne [H|(k1 & k2 & E & Hc & Hg)]; [by left|]. right. exists k1, k2. split; [done|].
  split; [done|]. intros H. by destruct (Hg H) as [-> _].
Qed.

(** The reader loads. *)
Lemma reader_inv_load past buf rest r l c g :
  stores = past ++ buf ++ rest -> reader_inv past (Load r l :: c) g ->
  reader_inv past c (<[r := contents (list_to_map past) l]> g).
Proof.
  intros E [[[= -> -> ->] Hg]|(k1 & k2 & El & [Hc|[Hc _]] & Hg)]; [..|done].
  - right. exists [], ls'. split; [done|]. split; [by right|]. rewrite lookup_insert_eq. intros [= H].
    split; [by eapply contents_flag|constructor].
  - destruct k2 as [|[r' l'] k2]; [done|]. cbn in Hc. injection Hc as -> -> ->.
    right. exists (k1 ++ [(r', l')]), k2. rewrite <- app_assoc. split; [done|]. split; [by left|].
    assert (Hin : (r', l') ∈ ls) by (rewrite <- Els, El; set_solver).
    assert (Hr0 : r' <> 0%nat).
    { intros ->. apply Hls. apply list_elem_of_fmap. by exists (0%nat, l'). }
    assert (Hl : l' <> flag).
    { intros ->. apply Hloc. apply list_elem_of_fmap. by exists (r', flag). }
    rewrite lookup_insert_ne by done. intros H. destruct (Hg H) as [Hp Hk]. split; [done|].
    apply Forall_app. split; [|constructor; [|constructor]].
    + assert (Hnd : NoDup (k1.*1 ++ r' :: k2.*1)).
      { assert (Hnd : NoDup ls'.*1) by by rewrite Els. rewrite El, fmap_app in Hnd. exact Hnd. }
      apply NoDup_app in Hnd as (_ & Hnd & _). rewrite Forall_forall in Hk |- *.
      intros [r l] Hrl. rewrite lookup_insert_ne; [by apply (Hk (r, l))|].
      intros ->. apply (Hnd r); [apply list_elem_of_fmap; by exists (r, l)|by left].
    + rewrite lookup_insert_eq, Hp. f_equal. by apply contents_written.
Qed.

Lemma tso_inv_step s s' : inv s -> step s s' -> inv s'.
Proof.
  intros [past buf c0 g0 c1 g1 E Hn Hr] Hs.
  inversion Hs as [[|[|i]] r l c b g Ht|[|[|i]] l v c b g Ht|[|[|i]] c b g Ht|[|[|i]] c l v b g Ht]; subst;
    cbn in Ht; simplify_eq; unfold set_thread; cbn [mem threads insert list_insert].
  - by inversion Hn.
  - apply (inv_intro past buf); [done|done|]. by eapply reader_inv_load.
  - inversion Hn; subst. apply (inv_intro past (b ++ [(l, v)])); [|done|done].
    rewrite E. cbn. by rewrite <- app_assoc.
  - destruct Hr as [[? _]|(k1 & k2 & _ & [Hc|[Hc _]] & _)]; [done|by destruct k2 as [|[]]|done].
  - inversion Hn; subst. by apply (inv_intro past b).
  - apply (inv_intro past buf); [done..|].
    destruct Hr as [[? _]|(k1 & k2 & El & [Hc|[[= Hc] ->]] & Hg)]; [done|by destruct k2 as [|[]]|].
    right. exists [], k2. auto.
  - assert (Hne : past <> stores).
    { rewrite E. intros H%(f_equal length). rewrite !length_app in H. cbn in H. lia. }
    rewrite <- list_to_map_snoc.
    2: { pose proof NoDup_stores as Hnd. rewrite E, !fmap_app in Hnd. apply NoDup_app in Hnd as (_ & Hnd & _).
         intros Hin. apply (Hnd l Hin). by left. }
    apply (inv_intro (past ++ [(l, v)]) b); [|done|by apply reader_inv_more].
    rewrite E. by rewrite <- !app_assoc.
Qed.

End invariant.
End message.

(** ** Properties *)

(** A message passed through an [AtomicPointer] arrives.  One thread stores
    a message, at any number of locations, and then sets the flag with
    [Release_Store]; another reads the flag with [Acquire_Load] and then the
    message.  However the compiler reorders the two threads, and however the
    processor runs them with its store buffers: if the reader has seen the flag,
    every value of the message it has read is the one that was written. *)
Theorem message_passing flag ws ls c0 c1 s g :
  (flag ∉ ws.*1) -> NoDup ws.*1 -> (0%nat ∉ ls.*1) -> NoDup ls.*1 -> (flag ∉ ls.*2) ->
  compiled (writer flag ws) c0 -> compiled (reader flag ls) c1 ->
  rtc step (start c0 c1) s -> threads s !! 1%nat = Some (mkThread [] [] g) ->
  g !! 0%nat = Some 1 -> Forall (fun '(r, l) => g !! r = Some (written ws l)) ls.
Proof.
  intros Hf Hw H0 Hr Hl Hc0 Hc1 Hs Ht Hg.
  destruct (compiled_writer flag ws c0 Hc0) as (ws' & Ew & ->).
  destruct (compiled_reader flag ls c1 Hc1) as (ls' & Ew' & ->).
  assert (Hinv : inv flag ws ws' ls' s).
  { remember (start _ _) as s0 eqn:E. assert (H : inv flag ws ws' ls' s0) by (rewrite E; apply inv_start).
    clear -H Hs Hf Hw H0 Hr Hl Ew Ew'. induction Hs as [|s s1 s2 H1 _ IH]; [done|]. apply IH. by eapply tso_inv_step. }
  destruct Hinv as [past buf c0 g0 c1 g1 _ _ Hrd]. cbn in Ht. injection Ht as -> ->.
  destruct Hrd as [[? _]|(k1 & k2 & El & [Hc|[? _]] & Hk)]; [done| |done].
  destruct k2 as [|[] k2]; [|done]. rewrite app_nil_r in El. subst k1.
  destruct (Hk Hg) as [_ HF]. by rewrite <- Ew'.
Qed.

#[local] Ltac run s i := eapply rtc_l; [eapply (s _ i); reflexivity|]; cbn [set_thread threads mem insert list_insert app].

Lemma message_passing_witness :
  exists s g, rtc step (start (writer 100 [(1, 42)]) (reader 100 [(1%nat, 1)])) s /\
    threads s !! 1%nat = Some (mkThread [] [] g) /\ g !! 0%nat = Some 1 /\
    Forall (fun '(r, l) => g !! r = Some (written [(1, 42)] l)) [(1%nat, 1)].
Proof.
  eexists _, _.
  assert (Hrun : rtc step (start (writer 100 [(1, 42)]) (reader 100 [(1%nat, 1)]))
    (mkState (<[100 := 1]> (<[1 := 42]> ∅)) [mkThread [] [] ∅; mkThread [] [] (<[1%nat := 42]> (<[0%nat := 1]> ∅))])).
  { run step_store 0%nat. run step_barrier 0%nat. run step_store 0%nat. run step_flush 0%nat.
    run step_flush 0%nat. run step_load 1%nat. run step_barrier 1%nat. run step_load 1%nat.
    apply rtc_refl. }
  split; [exact Hrun|]. split; [reflexivity|]. split; [reflexivity|].
  eapply (message_passing 100 [(1, 42)] [(1%nat, 1)]);
    [set_solver|apply NoDup_singleton|set_solver|apply NoDup_singleton|set_solver|apply rtc_refl|apply rtc_refl
    |exact Hrun|reflexivity|reflexivity].
Defined.

(** Without the barrier the compiler may set the flag first, and the reader
    sees the flag without the message. *)
Lemma no_barrier_no_message :
  exists c0 s g, compiled ([Store 1 42] ++ NoBarrier_Store 100 1) c0 /\
    rtc step (start c0 (reader 100 [(1%nat, 1)])) s /\
    threads s !! 1%nat = Some (mkThread [] [] g) /\ g !! 0%nat = Some 1 /\ g !! 1%nat = Some 0.
Proof.
  exists [Store 100 1; Store 1 42], (mkState (<[100 := 1]> ∅)
    [mkThread [Store 1 42] [] ∅; mkThread [] [] (<[1%nat := 0]> (<[0%nat := 1]> ∅))]),
    (<[1%nat := 0]> (<[0%nat := 1]> ∅)).
  split; [apply rtc_once, (reorder_swap []); reflexivity|].
  split; [|split; [reflexivity|split; reflexivity]].
  run step_store 0%nat. run step_flush 0%nat. run step_load 1%nat. run step_barrier 1%nat.
  run step_load 1%nat. apply rtc_refl.
Qed.
