(* ===== verification/WeakMemory.v ===== *)
(** * AtomicPointer on the other platforms (bench/port/atomic_pointer.h)

    The preprocessor picks one of four classes and, for the first, one of the
    definitions of [MemoryBarrier].  This file holds the choice, the accesses
    and fences each class consists of, and a machine on which the compiler and
    the processor may perform the accesses of a thread in any order that its
    dependencies, fences, acquire loads and release stores leave open.  The
    definition for gcc and Sun Studio on x86 constrains the compiler only, and
    runs on the machine of [AtomicPointer]. *)

From stdpp Require Import strings.
From S2P Require Import Prelude AtomicPointer.

Local Open Scope Z_scope.

(** ** The preprocessor *)
Inductive family := X86 | ARM | ARM64 | PPC | MIPS.

(** What a definition of [MemoryBarrier] is. *)
Inductive barrier :=
  | CompilerBarrier        (* asm volatile("" : : : "memory") *)
  | WindowsMemoryBarrier   (* the macro of windows.h *)
  | OSMemoryBarrier
  | KernelMemoryBarrier    (* the function at 0xffff0fa0 *)
  | DmbSy
  | PpcSync
  | MipsSync.

Inductive class := WithBarrier (b : barrier) | StdAtomic | Sparc | Ia64.

#[export] Instance family_eq_dec : EqDecision family.
Proof. solve_decision. Defined.

#[export] Instance barrier_eq_dec : EqDecision barrier.
Proof. solve_decision. Defined.

#[export] Instance class_eq_dec : EqDecision class.
Proof. solve_decision. Defined.

Section preprocessor.
(** [defined(X)] *)
Variable defined : string -> bool.
Local Open Scope string_scope.

Definition arch : option family :=
  if defined "_M_X64" || defined "__x86_64__" then Some X86
  else if defined "_M_IX86" || defined "__i386__" || defined "__i386" then Some X86
  else if defined "__ARMEL__" then Some ARM
  else if defined "__aarch64__" then Some ARM64
  else if defined "__ppc__" || defined "__powerpc__" || defined "__powerpc64__" then Some PPC
  else if defined "__mips__" then Some MIPS
  else None.

Definition is_arch (a : family) : bool := bool_decide (arch = Some a).

(** the definition of [MemoryBarrier] that is compiled, if any *)
Definition memory_barrier : option barrier :=
  if defined "OS_WIN" && defined "COMPILER_MSVC" && is_arch X86 then Some WindowsMemoryBarrier
  else if defined "__APPLE__" then Some OSMemoryBarrier
  else if is_arch X86 && defined "__GNUC__" then Some CompilerBarrier
  else if is_arch X86 && defined "__SUNPRO_CC" then Some CompilerBarrier
  else if is_arch ARM && defined "__linux__" then Some KernelMemoryBarrier
  else if is_arch ARM64 then Some DmbSy
  else if is_arch PPC && defined "__GNUC__" then Some PpcSync
  else if is_arch MIPS && defined "__GNUC__" then Some MipsSync
  else None.

(** the class that is compiled; [None]: [#error] *)
Definition atomic_pointer : option class :=
  match memory_barrier with
  | Some b => Some (WithBarrier b)
  | None =>
      if defined "LEVELDB_ATOMIC_PRESENT" then Some StdAtomic
      else if defined "__sparcv9" && defined "__GNUC__" then Some Sparc
      else if defined "__ia64" && defined "__GNUC__" then Some Ia64
      else None
  end.

End preprocessor.

(** ** Code *)

(** A load of a location into a register and a store, with acquire and release
    semantics or without; a fence that orders loads before it with loads and
    with stores after it, and stores before it with loads and with stores; a
    fence for the compiler alone. *)
Inductive access :=
  | Ld (acquire : bool) (r : nat) (l : Z)
  | St (release : bool) (l v : Z)
  | Fence (LoadLoad LoadStore StoreLoad StoreStore : bool)
  | CompilerFence.

(** All but the empty [asm] are documented as full barriers. *)
Definition MemoryBarrier_ (b : barrier) : list access :=
  match b with
  | CompilerBarrier => [CompilerFence]
  | _ => [Fence true true true true]
  end.

(** The methods of a class [AtomicPointer], over its member [rep_]. *)
Record pointer_class := mkPointer {
  pointer_Acquire_Load : nat -> list access; pointer_Release_Store : Z -> list access;
  pointer_NoBarrier_Load : nat -> list access; pointer_NoBarrier_Store : Z -> list access
}.

Section AtomicPointer.
Variable rep_ : Z.

(** built on [MemoryBarrier] *)
Definition barrier_class (b : barrier) : pointer_class := {|
  pointer_Acquire_Load result := [Ld false result rep_] ++ MemoryBarrier_ b;
  pointer_Release_Store v := MemoryBarrier_ b ++ [St false rep_ v];
  pointer_NoBarrier_Load result := [Ld false result rep_];
  pointer_NoBarrier_Store v := [St false rep_ v]
|}.

(** built on [std::atomic<void*>] *)
Definition std_atomic_class : pointer_class := {|
  pointer_Acquire_Load result := [Ld true result rep_];
  pointer_Release_Store v := [St true rep_ v];
  pointer_NoBarrier_Load result := [Ld false result rep_];
  pointer_NoBarrier_Store v := [St false rep_ v]
|}.

(** [membar #LoadLoad|#LoadStore] and [membar #LoadStore|#StoreStore] *)
Definition sparc_class : pointer_class := {|
  pointer_Acquire_Load val := [Ld false val rep_; Fence true true false false];
  pointer_Release_Store v := [Fence false true false true; St false rep_ v];
  pointer_NoBarrier_Load val := [Ld false val rep_];
  pointer_NoBarrier_Store v := [St false rep_ v]
|}.

(** [ld8.acq] and [st8.rel] *)
Definition ia64_class : pointer_class := {|
  pointer_Acquire_Load val := [Ld true val rep_];
  pointer_Release_Store v := [St true rep_ v];
  pointer_NoBarrier_Load val := [Ld false val rep_];
  pointer_NoBarrier_Store v := [St false rep_ v]
|}.

Definition pointer (c : class) : pointer_class :=
  match c with
  | WithBarrier b => barrier_class b
  | StdAtomic => std_atomic_class
  | Sparc => sparc_class
  | Ia64 => ia64_class
  end.

Definition Acquire_Load_ (c : class) (result : nat) : list access := pointer_Acquire_Load (pointer c) result.

Definition Release_Store_ (c : class) (v : Z) : list access := pointer_Release_Store (pointer c) v.

End AtomicPointer.

(** ** The machine *)

(** [a] is to be performed before a later [b], fences aside. *)
Definition before_ (a b : access) : bool :=
  match a, b with
  | Ld acq r l, Ld _ r' l' => acq || (r =? r')%nat || (l =? l')
  | Ld acq _ l, St rel l' _ => acq || rel || (l =? l')
  | St _ l _, Ld _ _ l' => l =? l'
  | St _ l _, St rel l' _ => rel || (l =? l')
  | _, _ => false
  end.

(** A fence with loads or stores pending before it holds [b] back. *)
Definition fenced (loads stores : bool) (f b : access) : bool :=
  match f, b with
  | Fence ll _ sl _, Ld _ _ _ => (loads && ll) || (stores && sl)
  | Fence _ ls _ ss, St _ _ _ => (loads && ls) || (stores && ss)
  | _, _ => false
  end.

(** May [b] be performed while [pre] is pending before it? *)
Fixpoint ready_from (loads stores : bool) (pre : list access) (b : access) : bool :=
  match pre with
  | [] => true
  | a :: pre' =>
      negb (before_ a b) && negb (fenced loads stores a b) &&
      match a with
      | Ld _ _ _ => ready_from true stores pre' b
      | St _ _ _ => ready_from loads true pre' b
      | _ => ready_from loads stores pre' b
      end
  end.

Definition ready : list access -> access -> bool := ready_from false false.

Record wstate := mkW { w_mem : gmap Z Z; w_threads : list (list access * gmap nat Z) }.

Definition wset (i : nat) (c : list access) (g : gmap nat Z) (m : gmap Z Z) (s : wstate) : wstate :=
  mkW m (<[i := (c, g)]> (w_threads s)).

(** A thread performs an access that is ready. *)
Inductive wstep (s : wstate) : wstate -> Prop :=
  | wstep_load i pre a r l post g :
      w_threads s !! i = Some (pre ++ Ld a r l :: post, g) -> ready pre (Ld a r l) = true ->
      wstep s (wset i (pre ++ post) (<[r := contents (w_mem s) l]> g) (w_mem s) s)
  | wstep_store i pre a l v post g :
      w_threads s !! i = Some (pre ++ St a l v :: post, g) -> ready pre (St a l v) = true ->
      wstep s (wset i (pre ++ post) g (<[l := v]> (w_mem s)) s).

Definition wstart (c0 c1 : list access) : wstate := mkW ∅ [(c0, ∅); (c1, ∅)].

Definition is_fence (a : access) : Prop :=
  match a with Fence _ _ _ _ | CompilerFence => True | _ => False end.

(** ** Passing a message *)
Definition message_writer (c : class) (flag : Z) (ws : list (Z * Z)) : list access :=
  map (fun '(l, v) => St false l v) ws ++ Release_Store_ flag c 1.

Definition message_reader (c : class) (flag : Z) (ls : list (nat * Z)) : list access :=
  Acquire_Load_ flag c 0 ++ map (fun '(r, l) => Ld false r l) ls.

(** The code on the machine of [AtomicPointer]. *)
Definition plain (a : access) : instr :=
  match a with Ld _ r l => Load r l | St _ l v => Store l v | _ => Barrier end.

(** The reader can end with the registers [g]. *)
Definition observes (c : class) (flag : Z) (ws : list (Z * Z)) (ls : list (nat * Z)) (g : gmap nat Z) : Prop :=
  match c with
  | WithBarrier CompilerBarrier =>
      exists c0 c1 s, compiled (map plain (message_writer c flag ws)) c0 /\
        compiled (map plain (message_reader c flag ls)) c1 /\
        rtc step (start c0 c1) s /\ threads s !! 1%nat = Some (mkThread [] [] g)
  | _ =>
      exists s c1, rtc wstep (wstart (message_writer c flag ws) (message_reader c flag ls)) s /\
        w_threads s !! 1%nat = Some (c1, g) /\ Forall is_fence c1
  end.

(** ** Lemmas *)
Definition sts (ws : list (Z * Z)) : list access := map (fun '(l, v) => St false l v) ws.

Definition lds (ls : list (nat * Z)) : list access := map (fun '(r, l) => Ld false r l) ls.

(** Taking a load out of loads takes it out of their list. *)
Lemma lds_split pre x post ls :
  pre ++ x :: post = lds ls ->
  exists k1 r l k2, ls = k1 ++ (r, l) :: k2 /\ pre = lds k1 /\ post = lds k2 /\ x = Ld false r l.
Proof.
  revert pre; induction ls as [|[r l] ls IH]; intros [|y pre] E; cbn in E; try done.
  - injection E as -> ->. by exists [], r, l, ls.
  - injection E as -> E. destruct (IH _ E) as (k1 & r' & l' & k2 & -> & -> & -> & ->).
    by exists ((r, l) :: k1), r', l', k2.
Qed.

Lemma fence_split fs c pre x post :
  Forall is_fence fs -> ~ is_fence x -> pre ++ x :: post = fs ++ c ->
  exists pre', pre = fs ++ pre' /\ pre' ++ x :: post = c.
Proof.
  intros Hf Hx. revert pre. induction Hf as [|f fs Hf _ IH]; intros pre E; [by exists pre|].
  destruct pre as [|y pre]; cbn in E; [by injection E as -> _|]. injection E as -> E.
  destruct (IH pre E) as (pre' & -> & E'). by exists pre'.
Qed.

(** Taking an access out of the writer's code: a store of the message, or the
    last one. *)
Lemma sts_split fs y pre x post k :
  Forall is_fence fs -> ~ is_fence x -> pre ++ x :: post = sts k ++ fs ++ [y] ->
  (exists k1 l v k2, k = k1 ++ (l, v) :: k2 /\ pre = sts k1 /\ post = sts k2 ++ fs ++ [y] /\ x = St false l v) \/
  (pre = sts k ++ fs /\ x = y /\ post = []).
Proof.
  intros Hf Hx. revert pre; induction k as [|[l v] k IH]; intros pre E.
  - destruct (fence_split fs [y] pre x post Hf Hx E) as ([|z pre'] & -> & E'); cbn in E'.
    + injection E' as -> ->. right. by rewrite app_nil_r.
    + injection E' as _ E'. by destruct pre'.
  - destruct pre as [|z pre]; cbn in E.
    + injection E as -> ->. left. by exists [], l, v, k.
    + injection E as -> E. destruct (IH pre E) as [(k1 & l' & v' & k2 & -> & -> & -> & ->)|(-> & -> & ->)].
      * left. by exists ((l, v) :: k1), l', v', k2.
      * by right.
Qed.

(** Whether pending stores are followed by something that holds [b] back. *)
Lemma ready_sts lo st ws c b :
  ready_from lo st (sts ws ++ c) b = true -> ready_from lo (st || negb (bool_decide (ws = []))) c b = true.
Proof.
  revert st; induction ws as [|[l v] ws IH]; intros st.
  { rewrite bool_decide_true by done. cbn. by rewrite orb_false_r. }
  cbn [sts map app ready_from]. intros [_ H]%andb_prop. specialize (IH _ H).
  rewrite bool_decide_false by done. cbn [negb orb] in *. by rewrite orb_true_r.
Qed.

Section passing.
Context (flag : Z) (ws : list (Z * Z)) (ls : list (nat * Z)).
Context (Hflag : flag ∉ ws.*1) (Hws : NoDup ws.*1) (Hls : 0%nat ∉ ls.*1) (Hregs : NoDup ls.*1) (Hloc : flag ∉ ls.*2).

(** What the two operations consist of: fences and one access. *)
Context (acq rel : bool) (fw fr : list access) (Hfw : Forall is_fence fw) (Hfr : Forall is_fence fr).
(** The store waits for every store before it, and every load for the load. *)
Context (Hrel : forall k, ready (sts k ++ fw) (St rel flag 1) = true -> k = []).
Context (Hacq : forall k r l, ready (Ld acq 0 flag :: fr ++ lds k) (Ld false r l) = false).

Definition stored (m : gmap Z Z) (k : list (Z * Z)) : Prop :=
  forall l, l <> flag -> (l ∉ k.*1) -> contents m l = written ws l.

Inductive writer_inv (m : gmap Z Z) : list access -> Prop :=
  | writer_storing k : k ⊆ ws -> NoDup k.*1 -> stored m k -> contents m flag = 0 ->
      writer_inv m (sts k ++ fw ++ [St rel flag 1])
  | writer_done : stored m [] -> writer_inv m fw.

Inductive reader_inv (c0 : list access) (g : gmap nat Z) : list access -> Prop :=
  | reader_waiting : g !! 0%nat = None -> reader_inv c0 g (Ld acq 0 flag :: fr ++ lds ls)
  | reader_reading k : k ⊆ ls -> NoDup k.*1 ->
      (g !! 0%nat = Some 1 -> c0 = fw /\ forall r l, (r, l) ∈ ls -> (r, l) ∉ k -> g !! r = Some (written ws l)) ->
      reader_inv c0 g (fr ++ lds k).

Inductive winv : wstate -> Prop :=
  | winv_intro m c0 g0 c1 g1 : writer_inv m c0 -> reader_inv c0 g1 c1 -> winv (mkW m [(c0, g0); (c1, g1)]).

Lemma winv_start : winv (wstart (sts ws ++ fw ++ [St rel flag 1]) (Ld acq 0 flag :: fr ++ lds ls)).
Proof using Hws.
  constructor; [|by constructor]. constructor; [done|done| |done].
  intros l _ Hl. unfold written, contents. by rewrite lookup_empty, not_elem_of_list_to_map_1.
Qed.

(** The writer stores. *)
Lemma contents_insert (m : gmap Z Z) l v l' : contents (<[l := v]> m) l' = if decide (l = l') then v else contents m l'.
Proof. unfold contents. case_decide; [subst; by rewrite lookup_insert_eq|by rewrite lookup_insert_ne]. Qed.

Lemma writer_store m pre a l v post :
  writer_inv m (pre ++ St a l v :: post) -> ready pre (St a l v) = true ->
  writer_inv (<[l := v]> m) (pre ++ post) /\ pre ++ St a l v :: post <> fw.
Proof using All.
  intros Hw Hr. assert (Hnf : forall c, c = pre ++ St a l v :: post -> c <> fw).
  { intros c -> E. rewrite <- E in Hfw. by apply Forall_app in Hfw as [_ [? _]%Forall_cons]. }
  split; [|by apply Hnf]. remember (pre ++ St a l v :: post) as c eqn:Ec. destruct Hw as [k Hk Hnd Hst H0|Hst].
  2: { by destruct (Hnf fw). }
  symmetry in Ec. apply sts_split in Ec as [(k1 & l' & v' & k2 & -> & -> & -> & [= -> -> ->])|(-> & [= -> -> ->] & ->)];
    [| |done|by intros []].
  - assert (Hin : (l', v') ∈ ws) by (apply Hk; set_solver).
    assert (Hl : l' <> flag).
    { intros ->. apply Hflag, list_elem_of_fmap. by exists (flag, v'). }
    rewrite fmap_app in Hnd. cbn in Hnd. apply NoDup_app in Hnd as (Hn1 & Hn2 & [Hn3 Hn4]%NoDup_cons).
    rewrite app_assoc. unfold sts. rewrite <- map_app. apply writer_storing.
    + intros x Hx. apply Hk. set_solver.
    + rewrite fmap_app. apply NoDup_app. split; [done|]. split; [|done]. intros x Hx Hx'. apply (Hn2 x Hx). by right.
    + intros x Hxf Hx. rewrite contents_insert. case_decide as Hd.
      * subst x. unfold written, contents. by rewrite (elem_of_list_to_map_1 _ _ _ Hws Hin).
      * apply Hst; [done|]. rewrite fmap_app in *. cbn. set_solver.
    + rewrite contents_insert. by rewrite decide_False.
  - assert (k = []) as -> by by apply Hrel. cbn. rewrite app_nil_r. apply writer_done.
    intros x Hx _. rewrite contents_insert, decide_False by done. apply Hst; set_solver.
Qed.

Lemma reg_location r l l' : (r, l) ∈ ls -> (r, l') ∈ ls -> l = l'.
Proof using Hregs.
  intros H1%(elem_of_list_to_map_1 (M := gmap nat) _ _ _ Hregs) H2%(elem_of_list_to_map_1 (M := gmap nat) _ _ _ Hregs). congruence.
Qed.

(** The reader loads. *)
Lemma reader_load m c0 g pre a r l post :
  writer_inv m c0 -> reader_inv c0 g (pre ++ Ld a r l :: post) -> ready pre (Ld a r l) = true ->
  reader_inv c0 (<[r := contents m l]> g) (pre ++ post).
Proof using All.
  intros Hw Hrd Hr. remember (pre ++ Ld a r l :: post) as c eqn:Ec. symmetry in Ec.
  destruct Hrd as [Hg|k Hk Hnd Hg].
  - destruct pre as [|y pre]; cbn in Ec.
    + injection Ec as -> -> -> ->. cbn. apply reader_reading; [done|done|]. rewrite lookup_insert_eq.
      intros [= H1]. split; [|by intros]. destruct Hw as [k _ _ _ H0|]; [lia|done].
    + injection Ec as -> Ec. apply fence_split in Ec as (pre' & -> & Ec); [|done|by intros []].
      apply lds_split in Ec as (k1 & r' & l' & k2 & -> & -> & -> & [= -> -> ->]). by rewrite Hacq in Hr.
  - apply fence_split in Ec as (pre' & -> & Ec); [|done|by intros []].
    apply lds_split in Ec as (k1 & r' & l' & k2 & -> & -> & -> & [= -> -> ->]).
    assert (Hin : (r', l') ∈ ls) by (apply Hk; set_solver).
    assert (Hr0 : r' <> 0%nat) by (intros ->; apply Hls, list_elem_of_fmap; by exists (0%nat, l')).
    assert (Hl : l' <> flag) by (intros ->; apply Hloc, list_elem_of_fmap; by exists (r', flag)).
    rewrite fmap_app in Hnd. cbn in Hnd. apply NoDup_app in Hnd as (Hn1 & Hn2 & [Hn3 Hn4]%NoDup_cons).
    rewrite <- app_assoc. unfold lds. rewrite <- map_app. apply reader_reading.
    + intros x Hx. apply Hk. set_solver.
    + rewrite fmap_app. apply NoDup_app. split; [done|]. split; [|done]. intros x Hx Hx'. apply (Hn2 x Hx). by right.
    + rewrite lookup_insert_ne by done. intros H1. destruct (Hg H1) as [-> Hrest]. split; [done|].
      intros x lx Hx Hxk. destruct (decide (x = r')) as [->|Hne].
      * rewrite (reg_location r' lx l' Hx Hin), lookup_insert_eq. f_equal.
        inversion Hw as [k _ _ _ _ E|Hst E]; [|apply Hst; set_solver].
        exfalso. rewrite <- E in Hfw. rewrite !Forall_app in Hfw. by destruct Hfw as (_ & _ & [? _]%Forall_cons).
      * rewrite lookup_insert_ne by done. apply Hrest; [done|]. rewrite elem_of_app, elem_of_cons in *. naive_solver.
Qed.

Lemma writer_no_load m pre a r l post : ~ writer_inv m (pre ++ Ld a r l :: post).
Proof using Hfw.
  intros Hw. remember (pre ++ Ld a r l :: post) as c eqn:Ec. symmetry in Ec. destruct Hw as [k _ _ _ _|_].
  - apply sts_split in Ec as [(? & ? & ? & ? & _ & _ & _ & ?)|(_ & ? & _)]; try done. by intros [].
  - rewrite <- Ec in Hfw. by apply Forall_app in Hfw as [_ [? _]%Forall_cons].
Qed.

Lemma reader_no_store c0 g pre a l v post : ~ reader_inv c0 g (pre ++ St a l v :: post).
Proof using Hfr.
  intros Hr. remember (pre ++ St a l v :: post) as c eqn:Ec. symmetry in Ec.
  assert (Hno : forall k pre, pre ++ St a l v :: post <> fr ++ lds k).
  { intros k p E. apply fence_split in E as (pre' & -> & E); [|done|by intros []].
    by apply lds_split in E as (? & ? & ? & ? & _ & _ & _ & ?). }
  destruct Hr; [|by eapply Hno]. destruct pre as [|y pre]; [done|]. injection Ec as _ Ec. by eapply Hno.
Qed.

Lemma winv_step s s' : winv s -> wstep s s' -> winv s'.
Proof using All.
  intros [m c0 g0 c1 g1 Hw Hr] Hs.
  inversion Hs as [[|[|i]] pre a r l post g Ht Hrd|[|[|i]] pre a l v post g Ht Hrd]; subst;
    cbn in Ht; simplify_eq; unfold wset; cbn [w_mem w_threads insert list_insert].
  - by destruct (writer_no_load _ _ _ _ _ _ Hw).
  - constructor; [done|]. by eapply (reader_load m c0).
  - apply writer_store in Hw as [Hw Hne]; [|done]. constructor; [done|].
    inversion Hr as [Hg E|k Hk Hnd Hg E]; [by constructor|]. apply reader_reading; [done|done|].
    intros H1. by destruct (Hg H1) as [? _].
  - by destruct (reader_no_store _ _ _ _ _ _ _ Hr).
Qed.

Lemma winv_steps s s' : rtc wstep s s' -> winv s -> winv s'.
Proof using All.
  induction 1 as [|s0 s1 s2 H1 _ IH]; intros Hinv; [done|]. apply IH. by apply (winv_step s0).
Qed.

Lemma weak_message s c1 g :
  rtc wstep (wstart (sts ws ++ fw ++ [St rel flag 1]) (Ld acq 0 flag :: fr ++ lds ls)) s ->
  w_threads s !! 1%nat = Some (c1, g) -> Forall is_fence c1 -> g !! 0%nat = Some 1 ->
  Forall (fun '(r, l) => g !! r = Some (written ws l)) ls.
Proof using All.
  intros Hs Ht Hf Hg. pose proof (winv_steps _ _ Hs winv_start) as Hinv.
  destruct Hinv as [m c0 g0 c1' g1 _ Hr]. cbn in Ht. injection Ht as -> ->.
  destruct Hr as [_|k _ _ Hk]; [by inversion Hf|]. destruct (Hk Hg) as [_ Hall].
  apply Forall_forall. intros [r l] Hin. apply Hall; [done|].
  apply Forall_app in Hf as [_ Hf]. destruct k as [|[]]; [by apply not_elem_of_nil|by inversion Hf].
Qed.

End passing.

(** ** The classes *)

(** Only on an x86 does the barrier constrain the compiler alone. *)
Lemma compiler_barrier_x86 defined :
  memory_barrier defined = Some CompilerBarrier -> arch defined = Some X86.
Proof.
  unfold memory_barrier, is_arch.
  destruct (bool_decide (arch defined = Some X86)) eqn:E; [by apply bool_decide_eq_true in E|].
  rewrite andb_false_r. cbn. by repeat case_match.
Qed.

(** Each class, as fences around one access. *)
Definition acquires (c : class) : bool := match c with StdAtomic | Ia64 => true | _ => false end.

Definition fences_after_load (c : class) : list access :=
  match c with
  | WithBarrier b => MemoryBarrier_ b | Sparc => [Fence true true false false] | _ => []
  end.

Definition fences_before_store (c : class) : list access :=
  match c with
  | WithBarrier b => MemoryBarrier_ b | Sparc => [Fence false true false true] | _ => []
  end.

Lemma Acquire_Load_eq c flag r :
  Acquire_Load_ flag c r = Ld (acquires c) r flag :: fences_after_load c.
Proof. by destruct c. Qed.

Lemma Release_Store_eq c flag v :
  Release_Store_ flag c v = fences_before_store c ++ [St (acquires c) flag v].
Proof. by destruct c. Qed.

Lemma fences_are_fences c : Forall is_fence (fences_after_load c) /\ Forall is_fence (fences_before_store c).
Proof. destruct c as [[]| | |]; by repeat constructor. Qed.

Lemma release_waits c flag k :
  c <> WithBarrier CompilerBarrier ->
  ready (sts k ++ fences_before_store c) (St (acquires c) flag 1) = true -> k = [].
Proof.
  intros Hc Hr. destruct (acquires c) eqn:Ea.
  - destruct k as [|[l v] k]; [done|]. by cbn in Hr.
  - apply ready_sts in Hr. destruct k as [|x k]; [done|]. rewrite bool_decide_false in Hr by done.
    destruct c as [[]| | |]; done.
Qed.

Lemma loads_wait c flag k r l :
  c <> WithBarrier CompilerBarrier ->
  ready (Ld (acquires c) 0 flag :: fences_after_load c ++ lds k) (Ld false r l) = false.
Proof.
  intros Hc. unfold ready. cbn [ready_from before_].
  destruct c as [[]| | |]; try done; cbn; by rewrite ?andb_false_r.
Qed.

(** The code of gcc on x86 is that of [AtomicPointer]. *)
Lemma plain_writer flag ws :
  map plain (message_writer (WithBarrier CompilerBarrier) flag ws) = writer flag ws.
Proof.
  unfold message_writer, writer. rewrite map_app, map_map. cbn. f_equal. apply map_ext. by intros [].
Qed.

Lemma plain_reader flag ls :
  map plain (message_reader (WithBarrier CompilerBarrier) flag ls) = reader flag ls.
Proof. unfold message_reader, reader. cbn. rewrite map_map. do 2 f_equal. apply map_ext. by intros []. Qed.

(** ** Properties *)

(** C12: a message passed through an [AtomicPointer] arrives on every platform
    the header supports.  Whatever macros are defined, the preprocessor stops
    with [#error] or chooses a class, and for every class: one thread stores a
    message, at any number of locations, and then sets the flag with
    [Release_Store]; another reads the flag with [Acquire_Load] and then the
    message; however the compiler and the processor reorder what the fences,
    acquire loads and release stores leave open, or, for the barrier that is
    empty on x86, however the compiler reorders and the processor buffers
    stores: if the reader has seen the flag, every value of the message it has
    read is the one that was written.  The empty barrier is only chosen for
    x86. *)
Theorem message_passing_everywhere defined c flag ws ls g
  (Hc : atomic_pointer defined = Some c)
  (Hflag : flag ∉ ws.*1) (Hws : NoDup ws.*1) (Hls : 0%nat ∉ ls.*1) (Hregs : NoDup ls.*1)
  (Hloc : flag ∉ ls.*2) (Hobs : observes c flag ws ls g) (Hseen : g !! 0%nat = Some 1) :
  Forall (fun '(r, l) => g !! r = Some (written ws l)) ls /\
  (c = WithBarrier CompilerBarrier -> arch defined = Some X86).
Proof.
  split.
  2: { intros ->. apply compiler_barrier_x86. unfold atomic_pointer in Hc. repeat case_match; congruence. }
  destruct (decide (c = WithBarrier CompilerBarrier)) as [->|Hne].
  - destruct Hobs as (c0 & c1 & s & H0 & H1 & Hs & Ht). rewrite plain_writer in H0. rewrite plain_reader in H1.
    by eapply message_passing.
  - assert (Hw : exists s c1, rtc wstep (wstart (message_writer c flag ws) (message_reader c flag ls)) s /\
      w_threads s !! 1%nat = Some (c1, g) /\ Forall is_fence c1) by (destruct c as [[]| | |]; done).
    destruct Hw as (s & c1 & Hs & Ht & Hf). unfold message_writer, message_reader in Hs.
    rewrite Release_Store_eq, Acquire_Load_eq in Hs. destruct (fences_are_fences c) as [Hf1 Hf2].
    eapply weak_message; [done..|exact Hf2|exact Hf1| | |exact Hs|exact Ht|done|done].
    + intros k. by apply release_waits.
    + intros k r l. by apply loads_wait.
Qed.

#[local] Ltac perform s i p := eapply rtc_l; [eapply (s _ i p); reflexivity|]; cbn [wset w_threads w_mem insert list_insert app].

Lemma message_passing_everywhere_witness :
  exists g, atomic_pointer (String.eqb "__aarch64__") = Some (WithBarrier DmbSy) /\
    observes (WithBarrier DmbSy) 100 [(1, 42)] [(1%nat, 1)] g /\
    Forall (fun '(r, l) => g !! r = Some (written [(1, 42)] l)) [(1%nat, 1)].
Proof.
  assert (Hobs : observes (WithBarrier DmbSy) 100 [(1, 42)] [(1%nat, 1)] (<[1%nat := 42]> (<[0%nat := 1]> ∅))).
  { eexists (mkW (<[100 := 1]> (<[1 := 42]> ∅)) [([Fence true true true true], ∅);
      ([Fence true true true true], <[1%nat := 42]> (<[0%nat := 1]> ∅))]), [Fence true true true true].
    split; [|split; [reflexivity|by repeat constructor]].
    perform wstep_store 0%nat (@nil access). perform wstep_store 0%nat [Fence true true true true].
    perform wstep_load 1%nat (@nil access). perform wstep_load 1%nat [Fence true true true true]. apply rtc_refl. }
  eexists. split; [reflexivity|]. split; [exact Hobs|].
  apply (message_passing_everywhere (String.eqb "__aarch64__") (WithBarrier DmbSy) 100 [(1, 42)] [(1%nat, 1)]);
    [reflexivity|set_solver|apply NoDup_singleton|set_solver|apply NoDup_singleton|set_solver|exact Hobs|reflexivity].
Defined.

(** The machine tells the barriers apart: with a store that is not a release,
    and also with a barrier that constrains only the compiler, the reader can
    see the flag without the message. *)
Lemma weak_store_not_enough :
  exists s, rtc wstep (wstart ([St false 1 42] ++ pointer_NoBarrier_Store (pointer 100 (WithBarrier DmbSy)) 1)
      (message_reader (WithBarrier DmbSy) 100 [(1%nat, 1)])) s /\
    w_threads s !! 1%nat = Some ([Fence true true true true], <[1%nat := 0]> (<[0%nat := 1]> ∅)).
Proof.
  eexists. split.
  - perform wstep_store 0%nat [St false 1 42]. perform wstep_load 1%nat (@nil access).
    perform wstep_load 1%nat [Fence true true true true]. apply rtc_refl.
  - reflexivity.
Qed.

Lemma compiler_barrier_not_enough :
  exists s, rtc wstep (wstart (message_writer (WithBarrier CompilerBarrier) 100 [(1, 42)])
      (message_reader (WithBarrier CompilerBarrier) 100 [(1%nat, 1)])) s /\
    w_threads s !! 1%nat = Some ([CompilerFence], <[1%nat := 0]> (<[0%nat := 1]> ∅)).
Proof.
  eexists. split.
  - perform wstep_store 0%nat [St false 1 42; CompilerFence]. perform wstep_load 1%nat (@nil access).
    perform wstep_load 1%nat [CompilerFence]. apply rtc_refl.
  - reflexivity.
Qed.
