(* ===== verification/RunThreads.v ===== *)
(** * RunBenchmark with several threads (bench/bench.cc, RunBenchmark, ThreadBody)

    The barrier of [Barrier] and the workloads of [Workload] run together: the
    main thread makes a [ThreadState] for each worker as it starts it, a worker
    that has passed the barrier runs its workload one round at a time, and goes
    on to the second half of the barrier when the workload has returned.  A turn
    of a thread is an action on the barrier, or a part of a workload with at
    most one call of the store, so that schedules of turns cover every behaviour
    of a store whose calls are atomic.  The first part of the file holds the
    machine, the second what every run of it satisfies whatever the workload
    does: no turn of a workload before all threads are ready, none missing when
    the main thread reports, no deadlock, and a bound on the number of actions
    beside the waits that end without a signal. *)

From Stdlib Require Import SpecFloat.
From S2P Require Import Prelude CLib Random Pmkv Double Histogram Stats TestUtil Workload.
From S2P Require Import WorkloadLogic FillThreads WhileWriting ReadWriteThreads Barrier.

Local Open Scope Z_scope.
Import Benchmark.

(** ** Workloads as loops *)

(** What a member function does before its loop, in round [i], and after it. *)
Record workload (S A : Type) := mkWorkload {
  before : Prog S A; rounds : nat; body : Z -> A -> Prog S A; after : A -> Prog S unit
}.
Arguments mkWorkload {S A}.
Arguments before {S A}.
Arguments rounds {S A}.
Arguments body {S A}.
Arguments after {S A}.

Definition run_workload {S A} (m : workload S A) : Prog S unit :=
  a ← before m; a ← for_loop (rounds m) 0 (body m) a; after m a.

Section methods.
Context {W kv : Type} `{PmkvOps W kv}.
Context (f : Flags) (clock junk : nat -> Z) (bm : Benchmark kv).

Definition write_workload (seq : bool) (tid : Z) : workload (pstate W) Z := mkWorkload
  (_ ← (if negb (num_ bm =? FLAGS_num f)
        then modify (set_stats (Stats.AddMessage
               (snprintf 100 (b!"(" ++ format_d (num_ bm) ++ b!" ops)"))))
        else mret tt);
   _ ← AllocateKey junk bm; mret 0)
  (Z.to_nat (num_ bm)) (write_body f clock bm tid seq)
  (fun bytes => on_stats (Stats.AddBytes bytes)).

Definition read_workload (seq : bool) (tid : Z) : workload (pstate W) (Z * Z) := mkWorkload
  (_ ← AllocateKey junk bm; mret (0, 0))
  (Z.to_nat (reads_ bm)) (read_body f clock bm tid seq)
  (fun '(bytes, found) =>
     _ ← on_stats (Stats.AddBytes bytes);
     modify (set_stats (Stats.AddMessage (snprintf 100
       (b!"(" ++ format_d found ++ b!" of " ++ format_d (reads_ bm) ++ b!" found)"))))).

Definition delete_workload (seq : bool) (tid : Z) : workload (pstate W) unit := mkWorkload
  (_ ← AllocateKey junk bm; mret tt)
  (Z.to_nat (num_ bm)) (delete_body f clock bm tid seq)
  (fun _ => mret tt).

Lemma prog_bind_cong {S A B} (m : Prog S A) (k k' : A -> Prog S B) s :
  (forall a s, k a s = k' a s) -> (a ← m; k a) s = (a ← m; k' a) s.
Proof. intros Hk. unfold mbind, prog_bind. destruct (m s) as [[a s']| | | |]; auto. Qed.

Lemma prog_bind_assoc {S A B C} (m : Prog S A) (k : A -> Prog S B) (l : B -> Prog S C) s :
  (b ← (a ← m; k a); l b) s = (a ← m; b ← k a; l b) s.
Proof. unfold mbind, prog_bind. by destruct (m s) as [[a s']| | | |]. Qed.

Lemma prog_bind_ret {S A} (m : Prog S A) s : (a ← m; mret a) s = m s.
Proof. unfold mbind, prog_bind. by destruct (m s) as [[a s']| | | |]. Qed.

(** The loops are those of the member functions. *)
Lemma run_write seq tid s : run_workload (write_workload seq tid) s = DoWrite f clock junk bm tid seq s.
Proof.
  unfold run_workload, DoWrite, write_workload. cbn [before rounds body after]. rewrite prog_bind_assoc.
  apply prog_bind_cong. intros [] s1. rewrite prog_bind_assoc. by apply prog_bind_cong.
Qed.

Lemma run_read seq missing tid s :
  run_workload (read_workload seq tid) s = DoRead f clock junk bm tid seq missing s.
Proof.
  unfold run_workload, DoRead, read_workload. cbn [before rounds body after]. rewrite prog_bind_assoc.
  by apply prog_bind_cong.
Qed.

Lemma run_delete seq tid s : run_workload (delete_workload seq tid) s = DoDelete f clock junk bm tid seq s.
Proof.
  unfold run_workload, DoDelete, delete_workload. cbn [before rounds body after]. rewrite prog_bind_assoc.
  apply prog_bind_cong. intros [] s1.
  change ((a ← for_loop (Z.to_nat (num_ bm)) 0 (delete_body f clock bm tid seq) tt; mret tt) s1 =
    for_loop (Z.to_nat (num_ bm)) 0 (delete_body f clock bm tid seq) tt s1).
  rewrite <- (prog_bind_ret (for_loop _ _ _ _)). by apply prog_bind_cong; intros [].
Qed.

End methods.

(** ** The machine *)

(** Where a worker is in its workload. *)
Inductive phase (A : Type) := NotStarted | Looping (i : nat) (a : A) | Finished.
Arguments NotStarted {A}.
Arguments Looping {A}.
Arguments Finished {A}.

(** [ThreadState] and the local variables of the workload. *)
Record thread (A : Type) := mkThread { th_phase : phase A; th_own : own }.
Arguments mkThread {A}.
Arguments th_phase {A}.
Arguments th_own {A}.

Record tstate (W A : Type) := mkT {
  x_bar : Barrier.state; x_world : W; x_ticks : nat; x_threads : list (thread A)
}.
Arguments mkT {W A}.
Arguments x_bar {W A}.
Arguments x_world {W A}.
Arguments x_ticks {W A}.
Arguments x_threads {W A}.

(** What a schedule may choose: the next turn of a thread, or the end of its
    wait without a signal. *)
Inductive choice := Act (t : Barrier.who) | Spurious (t : Barrier.who).

Definition no_writer (i : nat) : bool := false.

Section machine.
Context {W A : Type} (clock : nat -> Z) (junk_stats : Stats.Stats).
Context (M : nat -> workload (pstate W) A) (n : nat).

(** [new ThreadState(i)] at clock reading [now]; the key comes later. *)
Definition new_thread (i : nat) (now : Z) : thread A :=
  mkThread NotStarted (mkOwn (Random.new (1000 + Z.of_nat i)) (Stats.new now junk_stats) []).

Definition set_bar (b : Barrier.state) (g : tstate W A) : tstate W A :=
  mkT b (x_world g) (x_ticks g) (x_threads g).

(** A turn of the main thread. *)
Definition main_turn (g : tstate W A) : option (tstate W A) :=
  b ← Barrier.step_main n (x_bar g);
  match Barrier.main (x_bar g) with
  | Barrier.MSpawn k =>
      if (k <? n)%nat
      then Some (mkT b (x_world g) (S (x_ticks g)) (x_threads g ++ [new_thread k (clock (x_ticks g))]))
      else Some (set_bar b g)
  | _ => Some (set_bar b g)
  end.

Definition on_thread (g : tstate W A) (o : own) : pstate W :=
  mkState (x_world g) (x_ticks g) (o_rand o) (o_stats o) (o_key o).

Definition put_thread (i : nat) (p : phase A) (s : pstate W) (g : tstate W A) : tstate W A :=
  mkT (x_bar g) (world s) (ticks s) (<[i := mkThread p (own_of s)]> (x_threads g)).

(** [thread->stats.Start()] and the workload up to its loop *)
Definition thread_start (i : nat) : Prog (pstate W) A :=
  now ← NowMicros clock; _ ← modify (set_stats (Stats.Start now)); before (M i).

(** the workload after its loop and [thread->stats.Stop()] *)
Definition thread_end (i : nat) (a : A) : Prog (pstate W) unit :=
  _ ← after (M i) a; stats_Stop clock.

(** A turn of the workload of worker [i]; [None] when it has returned. *)
Definition workload_turn (i : nat) (t : thread A) (g : tstate W A) : option (outcome (tstate W A)) :=
  match th_phase t with
  | NotStarted =>
      Some ('(a, s) ← thread_start i (on_thread g (th_own t)); Normal (put_thread i (Looping 0 a) s g))
  | Looping k a =>
      Some (if (k <? rounds (M i))%nat then
              '(a, s) ← body (M i) (Z.of_nat k) a (on_thread g (th_own t));
              Normal (put_thread i (Looping (S k) a) s g)
            else
              '(_, s) ← thread_end i a (on_thread g (th_own t));
              Normal (put_thread i Finished s g))
  | Finished => None
  end.

Definition worker_turn (i : nat) (g : tstate W A) : option (outcome (tstate W A)) :=
  let on_barrier := (fun b => Normal (set_bar b g)) <$> Barrier.step_worker n no_writer i (x_bar g) in
  match Barrier.workers (x_bar g) !! i, x_threads g !! i with
  | Some Barrier.WRun, Some t =>
      match workload_turn i t g with Some o => Some o | None => on_barrier end
  | _, _ => on_barrier
  end.

(** [None]: the thread is blocked, or gone. *)
Definition turn (c : choice) (g : tstate W A) : option (outcome (tstate W A)) :=
  match c with
  | Act Barrier.Main => Normal <$> main_turn g
  | Act (Barrier.Worker i) => worker_turn i g
  | Spurious Barrier.Main =>
      Some (Normal (set_bar (Barrier.set_main (Barrier.wake_main (Barrier.main (x_bar g))) (x_bar g)) g))
  | Spurious (Barrier.Worker i) =>
      p ← Barrier.workers (x_bar g) !! i;
      Some (Normal (set_bar (Barrier.set_worker i (Barrier.wake p) (x_bar g)) g))
  end.

(** A schedule; an outcome that is not normal ends the process. *)
Fixpoint turns (sched : list choice) (g : tstate W A) : option (outcome (tstate W A)) :=
  match sched with
  | [] => Some (Normal g)
  | c :: sched' =>
      o ← turn c g;
      match o with Normal g' => turns sched' g' | _ => Some o end
  end.

Definition t_init (w : W) (ticks : nat) : tstate W A := mkT (Barrier.init n) w ticks [].

(** A scheduler: the first thread that can take a turn. *)
Definition all_threads : list Barrier.who := Barrier.Main :: map Barrier.Worker (seq 0 n).

Fixpoint first_turn (l : list Barrier.who) (g : tstate W A) : option (Barrier.who * outcome (tstate W A)) :=
  match l with
  | [] => None
  | t :: l' => match turn (Act t) g with Some o => Some (t, o) | None => first_turn l' g end
  end.

(** Run until nobody can take a turn; the schedule and the outcome. *)
Fixpoint run_first (fuel : nat) (g : tstate W A) : list choice * outcome (tstate W A) :=
  match fuel with
  | O => ([], Normal g)
  | S fuel' =>
      match first_turn all_threads g with
      | None => ([], Normal g)
      | Some (t, Normal g') => let '(l, o) := run_first fuel' g' in (Act t :: l, o)
      | Some (t, o) => ([Act t], o)
      end
  end.

End machine.

(** ** What a turn does to the barrier *)

(** Past the workload.  Without a background writer nobody is at [WPoll]. *)
Definition past (p : Barrier.wpc) : bool :=
  match p with Barrier.WPoll => true | _ => Barrier.ran p end.

(** A step that may move worker [i] (nobody for [None]) past its workload and
    wakes or creates others. *)
Definition moved (i : option nat) (s s' : Barrier.state) : Prop :=
  forall j q', Barrier.workers s' !! j = Some q' -> exists q, Barrier.workers s !! j = Some q /\
    (Barrier.passed q' = false -> Barrier.passed q = false) /\
    (past q' = true -> past q = true \/ (i = Some j /\ q = Barrier.WRun)).

(** How many workers have been started. *)
Definition spawned (n : nat) (m : Barrier.mpc) : nat :=
  match m with Barrier.MSpawn k => k | _ => n end.

Lemma past_wake p : past (Barrier.wake p) = past p.
Proof. by destruct p. Qed.

Lemma moved_wake i s s' :
  Barrier.workers s' = map Barrier.wake (Barrier.workers s) -> moved i s s'.
Proof.
  intros Hs j q'. rewrite Hs. intros (q & -> & Hq)%list_lookup_fmap_Some.
  exists q. rewrite Barrier.passed_wake, past_wake. auto.
Qed.

Lemma moved_same i s s' : Barrier.workers s' = Barrier.workers s -> moved i s s'.
Proof. intros E j q'. rewrite E. eauto. Qed.

(** Worker [i] goes from [p] to [p'], and the others may be woken. *)
Lemma moved_to i s s' p p' :
  Barrier.workers s !! i = Some p ->
  Barrier.workers s' = <[i := p']> (Barrier.workers s) \/
  Barrier.workers s' = <[i := p']> (map Barrier.wake (Barrier.workers s)) ->
  (Barrier.passed p' = false -> Barrier.passed p = false) ->
  (past p' = true -> past p = true \/ p = Barrier.WRun) ->
  moved (Some i) s s'.
Proof.
  intros Hp Hs H1 H2 j q' Hq. destruct (decide (j = i)) as [->|Hj].
  - assert (q' = p') as ->.
    { destruct Hs as [E|E]; rewrite E in Hq; apply list_lookup_insert_Some in Hq as [(_ & -> & _)|[? _]]; done. }
    exists p. split; [done|]. split; [done|]. intros Hr. destruct (H2 Hr); auto.
  - destruct Hs as [E|E]; rewrite E, list_lookup_insert_ne in Hq by done.
    + exists q'. auto.
    + destruct (moved_wake (Some i) s (Barrier.SignalAll s) eq_refl j q' Hq) as (q & ? & ? & ?).
      exists q. auto.
Qed.

Lemma step_worker_moved n i s s' :
  Barrier.step_worker n no_writer i s = Some s' ->
  moved (Some i) s s' /\ spawned n (Barrier.main s') = spawned n (Barrier.main s).
Proof.
  unfold Barrier.step_worker. destruct (Barrier.workers s !! i) as [p|] eqn:Hp; [|done].
  assert (Hwake : spawned n (Barrier.wake_main (Barrier.main s)) = spawned n (Barrier.main s))
    by (by destruct (Barrier.main s)).
  destruct p; cbn [no_writer]; try done;
    try (intros (s1 & [_ ->]%Barrier.lock_inv & ->)%fmap_Some); try case_match; try intros [= <-];
    (split; [eapply moved_to; [exact Hp|cbn; auto|..]; cbn; solve [auto | done]|done]).
Qed.

Lemma step_main_moved n s s' :
  Barrier.inv n no_writer s -> Barrier.step_main n s = Some s' ->
  moved None s s' /\
  spawned n (Barrier.main s') =
    (spawned n (Barrier.main s) +
     match Barrier.main s with Barrier.MSpawn k => if (k <? n)%nat then 1 else 0 | _ => 0 end)%nat.
Proof.
  intros Hinv. unfold Barrier.step_main.
  destruct (Barrier.main s) as [k| | | | | | | |] eqn:Em; try done;
    try (intros (s1 & [_ ->]%Barrier.lock_inv & ->)%fmap_Some; split; [by apply moved_same|cbn; lia]).
  - pose proof (Barrier.inv_spawn_le _ _ _ Hinv k Em). destruct (Nat.ltb_spec k n); intros [= <-];
      (split; [|cbn; lia]); [|by apply moved_same].
    intros j q' Hq. cbn [Barrier.set_main Barrier.set_worker Barrier.workers] in Hq.
    apply list_lookup_insert_Some in Hq as [(-> & <- & Hlt)|[? Hq]]; [|eauto].
    destruct (lookup_lt_is_Some_2 _ _ Hlt) as [q Hq]. exists q. split; [done|].
    assert (q = Barrier.WNew) as ->; [|by auto].
    apply (Barrier.inv_spawn _ _ _ Hinv j q Hq). by rewrite Em.
  - case_match; intros [= <-]; (split; [|cbn; lia]); [by apply moved_same|by apply moved_wake].
  - case_match; intros [= <-]; (split; [|cbn; lia]); by apply moved_same.
Qed.

(** The turns of a schedule that are actions, and the waits it ends without a
    signal. *)
Definition acts_in (sched : list choice) : nat :=
  sum_list_with (fun c => match c with Act _ => 1%nat | Spurious _ => 0%nat end) sched.

Definition wakes_in (sched : list choice) : nat :=
  sum_list_with (fun c => match c with Act _ => 0%nat | Spurious _ => 1%nat end) sched.

Lemma acts_cons c sched : acts_in (c :: sched) = (acts_in [c] + acts_in sched)%nat.
Proof. by destruct c. Qed.

Lemma wakes_cons c sched : wakes_in (c :: sched) = (wakes_in [c] + wakes_in sched)%nat.
Proof. by destruct c. Qed.

(** ** What holds whatever the workload does *)
Section control.
Context {W A : Type} (clock : nat -> Z) (junk_stats : Stats.Stats).
Context (M : nat -> workload (pstate W) A) (n : nat).
Implicit Types (g : tstate W A) (th : thread A).

(** A worker in front of the barrier has not started its workload, and one
    past the workload has finished it. *)
Definition phase_ok (p : Barrier.wpc) (ph : phase A) : Prop :=
  (Barrier.passed p = false -> ph = NotStarted) /\ (past p = true -> ph = Finished).

Record cinv g : Prop := {
  c_bar : Barrier.reachable n no_writer (x_bar g);
  c_len : length (x_threads g) = spawned n (Barrier.main (x_bar g));
  c_phase i p th : Barrier.workers (x_bar g) !! i = Some p -> x_threads g !! i = Some th ->
    phase_ok p (th_phase th)
}.

(** The three kinds of turns. *)
Inductive turn_kind g : choice -> outcome (tstate W A) -> Prop :=
  | turn_barrier c i b :
      Barrier.step n no_writer (x_bar g) b -> moved i (x_bar g) b ->
      spawned n (Barrier.main b) = spawned n (Barrier.main (x_bar g)) ->
      (forall t th, i = Some t -> Barrier.workers (x_bar g) !! t = Some Barrier.WRun ->
         x_threads g !! t = Some th -> th_phase th = Finished) ->
      (acts_in [c] + Barrier.potential n b <= Barrier.potential n (x_bar g) + 2 * wakes_in [c])%nat ->
      turn_kind g c (Normal (set_bar b g))
  | turn_spawn k b :
      Barrier.main (x_bar g) = Barrier.MSpawn k -> (k < n)%nat ->
      Barrier.step n no_writer (x_bar g) b -> moved None (x_bar g) b ->
      spawned n (Barrier.main b) = S k ->
      (Barrier.potential n b < Barrier.potential n (x_bar g))%nat ->
      turn_kind g (Act Barrier.Main)
        (Normal (mkT b (x_world g) (S (x_ticks g))
           (x_threads g ++ [new_thread junk_stats k (clock (x_ticks g))])))
  | turn_work i th o :
      Barrier.workers (x_bar g) !! i = Some Barrier.WRun -> x_threads g !! i = Some th ->
      workload_turn clock M i th g = Some o ->
      turn_kind g (Act (Barrier.Worker i)) o.

Lemma main_turn_kind g g' :
  cinv g -> main_turn clock junk_stats n g = Some g' -> turn_kind g (Act Barrier.Main) (Normal g').
Proof.
  intros Hc. unfold main_turn. intros (b & Hb & Hg)%bind_Some.
  pose proof (Barrier.reachable_inv _ _ _ (c_bar _ Hc)) as Hinv.
  destruct (step_main_moved n _ _ Hinv Hb) as [Hmov Hsp].
  pose proof (Barrier.main_lowers n no_writer _ _ Hinv Hb) as Hpot.
  assert (Hst : Barrier.step n no_writer (x_bar g) b) by (by constructor; constructor).
  assert (Hbar : spawned n (Barrier.main b) = spawned n (Barrier.main (x_bar g)) ->
                 turn_kind g (Act Barrier.Main) (Normal (set_bar b g))).
  { intros E. apply turn_barrier with (i := None); try done. cbn [acts_in wakes_in sum_list_with]. lia. }
  destruct (Barrier.main (x_bar g)) as [k| | | | | | | |] eqn:Em; simplify_eq;
    try (apply Hbar; cbn in Hsp |- *; lia).
  destruct (Nat.ltb_spec k n) as [Hk|Hk]; simplify_eq.
  - apply turn_spawn; try done. cbn in Hsp. lia.
  - apply Hbar. cbn in Hsp |- *. lia.
Qed.

Lemma worker_turn_kind g i o :
  cinv g -> worker_turn clock M n i g = Some o -> turn_kind g (Act (Barrier.Worker i)) o.
Proof.
  intros Hc. unfold worker_turn.
  assert (Hbar : (forall th, Barrier.workers (x_bar g) !! i = Some Barrier.WRun ->
            x_threads g !! i = Some th -> th_phase th = Finished) ->
     (fun b => Normal (set_bar b g)) <$> Barrier.step_worker n no_writer i (x_bar g) = Some o ->
     turn_kind g (Act (Barrier.Worker i)) o).
  { intros Hfin (b & Hb & ->)%fmap_Some. destruct (step_worker_moved n i _ _ Hb) as [Hmov Hsp].
    pose proof (Barrier.reachable_inv _ _ _ (c_bar _ Hc)) as Hinv.
    apply turn_barrier with (i := Some i); [| |done| |].
    - by constructor; econstructor.
    - done.
    - intros t th [= <-]. auto.
    - pose proof (Barrier.worker_lowers n no_writer _ i _ (fun _ => eq_refl) Hinv Hb). cbn [acts_in wakes_in sum_list_with]. lia. }
  destruct (Barrier.workers (x_bar g) !! i) as [[]|] eqn:Ew; try (apply Hbar; by intros).
  destruct (x_threads g !! i) as [th|] eqn:Et; [|apply Hbar; by intros].
  destruct (workload_turn clock M i th g) as [o'|] eqn:Eo.
  - intros [= <-]. by apply turn_work with th.
  - apply Hbar. intros ? _ [= <-]. unfold workload_turn in Eo. by destruct (th_phase th).
Qed.

Lemma turn_cases c g o : cinv g -> turn clock junk_stats M n c g = Some o -> turn_kind g c o.
Proof.
  intros Hc. destruct c as [[|i]|[|i]]; cbn [turn].
  - intros (g' & Hg & ->)%fmap_Some. by apply main_turn_kind.
  - by apply worker_turn_kind.
  - intros [= <-]. apply turn_barrier with (i := None); [by constructor|by apply moved_same| |done|].
    + by destruct (Barrier.main (x_bar g)).
    + pose proof (Barrier.spurious_main_rank n (x_bar g)). cbn [acts_in wakes_in sum_list_with]. lia.
  - intros (p & Hp & Ho)%bind_Some. simplify_eq.
    apply turn_barrier with (i := None); [by econstructor| |done|done|].
    2: { pose proof (Barrier.spurious_worker_rank n (x_bar g) i p Hp). cbn [acts_in wakes_in sum_list_with]. lia. }
    intros j q' Hq. cbn [Barrier.set_worker Barrier.workers] in Hq.
    apply list_lookup_insert_Some in Hq as [(-> & <- & _)|[? Hq]]; [|eauto].
    exists p. rewrite Barrier.passed_wake, past_wake. auto.
Qed.

Lemma cinv_init w ticks : cinv (t_init n w ticks).
Proof. split; [constructor|done|]. cbn. by intros. Qed.

(** The turns of a workload of [r] rounds that are still to come. *)
Definition turns_left (r : nat) (p : phase A) : nat :=
  match p with NotStarted => r + 2 | Looping k _ => r - k + 1 | Finished => 0 end.

Lemma workload_turn_inv r i th g o :
  workload_turn clock M i th g = Some o -> (rounds (M i) <= r)%nat ->
  match o with
  | Normal g' => exists p s, g' = put_thread i p s g /\ (turns_left r p < turns_left r (th_phase th))%nat
  | _ => True
  end.
Proof.
  unfold workload_turn. intros Ho Hr. revert Ho. destruct (th_phase th) as [|k a|]; try done.
  - intros [= <-]. destruct (thread_start _ _ _ _) as [[a s]| | | |]; try done.
    exists (Looping 0 a), s. cbn. split; [done|lia].
  - intros [= <-]. destruct (Nat.ltb_spec k (rounds (M i))).
    + destruct (body _ _ _ _) as [[a' s]| | | |]; try done. exists (Looping (S k) a'), s. cbn. split; [done|lia].
    + destruct (thread_end _ _ _ _ _) as [[a' s]| | | |]; try done. exists Finished, s. cbn. split; [done|lia].
Qed.

Lemma turn_cinv c g g' : cinv g -> turn clock junk_stats M n c g = Some (Normal g') -> cinv g'.
Proof.
  intros Hc Ht. pose proof Hc as [H1 H2 H3]. apply turn_cases in Ht; [|done].
  remember (Normal g') as o eqn:Eo. destruct Ht as [c i b Hst Hm Hsp Hfin _|k b Em Hk Hst Hm Hsp _|i th o Hw Ht Ho].
  - injection Eo as <-. split; cbn [set_bar x_bar x_threads]; [by econstructor|congruence|].
    intros j q' th' (q & Hq & Hpass & Hpast)%Hm Hth. destruct (H3 j q th' Hq Hth) as [H4 H5]. split; [auto|].
    intros [?|[-> ->]]%Hpast; eauto.
  - injection Eo as <-. split; cbn [x_bar x_threads]; [by econstructor| |].
    + rewrite length_app, H2, Em, Hsp. cbn. lia.
    + intros j q' th' (q & Hq & Hpass & Hpast)%Hm Hth. apply lookup_snoc_Some in Hth as [[_ Hth]|[-> <-]].
      * destruct (H3 j q th' Hq Hth) as [H4 H5]. split; [auto|]. intros [?|[? _]]%Hpast; [auto|done].
      * cbn [new_thread th_phase]. split; [done|]. intros [Hp|[? _]]%Hpast; [|done].
        assert (q = Barrier.WNew) as ->; [|done].
        pose proof (Barrier.reachable_inv _ _ _ H1) as Hinv.
        apply (Barrier.inv_spawn _ _ _ Hinv _ _ Hq). rewrite Em, H2, Em. done.
  - apply (workload_turn_inv (rounds (M i))) in Ho; [|done]. subst o. destruct Ho as (p & s & -> & _).
    split; cbn [put_thread x_bar x_threads]; [done|by rewrite length_insert|].
    intros j q th' Hq Hth. destruct (decide (j = i)) as [->|Hj].
    + rewrite Hw in Hq. injection Hq as <-. split; done.
    + rewrite list_lookup_insert_ne in Hth by done. eauto.
Qed.

Lemma turns_cinv sched : forall g g',
  cinv g -> turns clock junk_stats M n sched g = Some (Normal g') -> cinv g'.
Proof.
  induction sched as [|c sched IH]; intros g g' Hc; cbn [turns]; [by intros [= <-]|].
  intros (o & Ho & Hs)%bind_Some. destruct o as [g1| | | |]; simplify_eq. eapply IH; [|exact Hs].
  by eapply turn_cinv.
Qed.

(** *** No deadlock *)
Definition t_final g : Prop :=
  Barrier.main (x_bar g) = Barrier.MReport /\
  Forall (fun p => p = Barrier.WExit) (Barrier.workers (x_bar g)).

Lemma turn_progress g :
  cinv g -> t_final g \/
  exists t, t ∈ all_threads n /\ is_Some (turn clock junk_stats M n (Act t) g).
Proof.
  intros Hc. pose proof (Barrier.reachable_inv _ _ _ (c_bar _ Hc)) as Hinv.
  destruct (Barrier.progress n no_writer _ Hinv) as [Hf|(s' & Hact)]; [by left|]. right.
  remember (x_bar g) as b eqn:Eb. destruct Hact as [b s' Hm|i b s' Hw]; subst b.
  - exists Barrier.Main. split; [apply list_elem_of_In; by left|]. cbn [turn]. unfold main_turn.
    rewrite Hm. cbn. repeat case_match; eauto.
  - exists (Barrier.Worker i). split.
    + unfold all_threads. apply elem_of_cons. right. apply list_elem_of_fmap. exists i. split; [done|].
      apply elem_of_seq. rewrite <- (Barrier.inv_len _ _ _ Hinv). unfold Barrier.step_worker in Hw.
      destruct (Barrier.workers (x_bar g) !! i) eqn:E; [|done]. apply lookup_lt_Some in E. lia.
    + cbn [turn]. unfold worker_turn. rewrite Hw. cbn. repeat case_match; eauto.
Qed.

Lemma t_final_threads g i th : cinv g -> t_final g -> x_threads g !! i = Some th -> th_phase th = Finished.
Proof.
  intros [H1 H2 H3] [Hm Hf] Hth. pose proof (lookup_lt_Some _ _ _ Hth) as Hlt. rewrite H2, Hm in Hlt.
  pose proof (Barrier.inv_len _ _ _ (Barrier.reachable_inv _ _ _ H1)) as Hl.
  destruct (lookup_lt_is_Some_2 (Barrier.workers (x_bar g)) i) as [p Hp]; [cbn in Hlt; lia|].
  rewrite Forall_lookup in Hf. pose proof (Hf _ _ Hp) as ->. by apply (H3 i _ th Hp Hth).
Qed.

(** *** Termination *)
Context (r : nat) (Hr : forall i, (rounds (M i) <= r)%nat).

Definition t_potential g : nat :=
  Barrier.potential n (x_bar g) + sum_list_with (fun th => turns_left r (th_phase th)) (x_threads g) +
  (n - length (x_threads g)) * (r + 2).

Lemma sum_insert {B} (h : B -> nat) l i x y :
  l !! i = Some x -> (sum_list_with h (<[i := y]> l) + h x = sum_list_with h l + h y)%nat.
Proof.
  revert i; induction l as [|z l IH]; intros [|i] Hi; simplify_eq/=; [lia|]. specialize (IH i Hi). lia.
Qed.

(** An action lowers it, and a wake-up raises it by at most two. *)
Lemma turn_rank c g g' :
  cinv g -> turn clock junk_stats M n c g = Some (Normal g') ->
  (acts_in [c] + t_potential g' <= t_potential g + 2 * wakes_in [c])%nat.
Proof using Hr.
  intros Hc Ht. pose proof Hc as [_ H2 _]. apply turn_cases in Ht; [|done]. unfold t_potential.
  remember (Normal g') as o eqn:Eo.
  destruct Ht as [c i b _ _ _ _ Hp|k b Em Hk _ _ Hsp Hp|i th o Hw Hth Ho].
  - injection Eo as <-. cbn [set_bar x_bar x_threads]. lia.
  - change (acts_in [_]) with 1%nat. injection Eo as <-. rewrite Em in H2. cbn in H2. cbn [x_bar x_threads].
    rewrite sum_list_with_app, length_app, H2. cbn [new_thread th_phase turns_left sum_list_with length].
    replace (n - k)%nat with (S (n - (k + 1))) by lia. cbn [Nat.mul]. lia.
  - apply (workload_turn_inv r) in Ho; [|done]. subst o. destruct Ho as (p & s & -> & Hlt).
    change (acts_in [_]) with 1%nat. cbn [put_thread x_bar x_threads]. rewrite length_insert.
    pose proof (sum_insert (fun th => turns_left r (th_phase th)) _ _ _ (mkThread p (own_of s)) Hth) as E.
    cbn [th_phase] in E. lia.
Qed.

Lemma turn_lowers t g g' :
  cinv g -> turn clock junk_stats M n (Act t) g = Some (Normal g') -> (t_potential g' < t_potential g)%nat.
Proof using Hr. intros Hc Ht. pose proof (turn_rank _ _ _ Hc Ht) as H. cbn [acts_in wakes_in sum_list_with] in H. lia. Qed.

Lemma t_potential_init w ticks : (t_potential (t_init n w ticks) <= 17 * n + 14 + n * (r + 2))%nat.
Proof.
  unfold t_potential. cbn [t_init x_bar x_threads sum_list_with length].
  pose proof (Barrier.potential_init n). lia.
Qed.

(** A schedule has no more actions than the potential and its wake-ups allow. *)
Lemma turns_bounded l : forall g g',
  cinv g -> turns clock junk_stats M n l g = Some (Normal g') ->
  (acts_in l + t_potential g' <= t_potential g + 2 * wakes_in l)%nat.
Proof using Hr.
  induction l as [|c l IH]; intros g g' Hc; cbn [turns]; [intros [= <-]; cbn; lia|].
  intros (o1 & Ho & Hs)%bind_Some. destruct o1 as [g1| | | |]; simplify_eq. rewrite acts_cons, wakes_cons.
  pose proof (turn_rank c g g1 Hc Ho). specialize (IH g1 g' (turn_cinv _ _ _ Hc Ho) Hs). lia.
Qed.

(** *** The scheduler runs to the end. *)
Lemma first_turn_some l g : forall t o,
  first_turn clock junk_stats M n l g = Some (t, o) -> turn clock junk_stats M n (Act t) g = Some o.
Proof. induction l as [|x l IH]; intros t o; cbn [first_turn]; [done|]. case_match; naive_solver. Qed.

Lemma first_turn_none l g :
  first_turn clock junk_stats M n l g = None ->
  forall t, t ∈ l -> ~ is_Some (turn clock junk_stats M n (Act t) g).
Proof.
  induction l as [|x l IH]; cbn [first_turn]; intros Hn t Ht [o Ho]; [by apply elem_of_nil in Ht|].
  case_match; [done|]. apply elem_of_cons in Ht as [->|Ht]; [congruence|]. by eapply IH.
Qed.

Lemma run_first_ends fuel : forall g,
  cinv g -> (t_potential g < fuel)%nat ->
  let '(l, o) := run_first clock junk_stats M n fuel g in
  turns clock junk_stats M n l g = Some o /\
  match o with Normal g' => cinv g' /\ t_final g' | _ => True end.
Proof using Hr.
  induction fuel as [|fuel IH]; intros g Hc Hf; [lia|]. cbn [run_first].
  destruct (first_turn _ _ _ _ _ g) as [[t o]|] eqn:E.
  - apply first_turn_some in E. destruct o as [g1| | | |]; try (cbn [turns]; rewrite E; done).
    pose proof (turn_lowers t g g1 Hc E). pose proof (turn_cinv _ _ _ Hc E) as Hc1.
    specialize (IH g1 Hc1 ltac:(lia)). destruct (run_first _ _ _ _ fuel g1) as [l o].
    destruct IH as [H1 H2]. cbn [turns]. rewrite E. done.
  - split; [done|]. split; [done|]. destruct (turn_progress g Hc) as [|(t & Ht & Hsome)]; [done|].
    by destruct (first_turn_none _ _ E t Ht).
Qed.

End control.

(** ** What holds of the threads and the store *)
Section spec.
Context {W A : Type} (clock : nat -> Z) (junk_stats : Stats.Stats).
Context (M : nat -> workload (pstate W) A) (n : nat).
Implicit Types (g : tstate W A) (th : thread A).

(** [local t i a o]: thread [t] is in its loop and has done [i] rounds;
    [fin t o]: it has finished; [store c w]: what the store holds when each
    thread [t] has done [c t] rounds.  [E] are the exceptions that may occur. *)
Context (E : bytes -> Prop) (local : nat -> nat -> A -> own -> Prop) (fin : nat -> own -> Prop)
  (store : (nat -> nat) -> W -> Prop).

(** What each part of the workload of a thread has to keep. *)
Record workload_spec : Prop := {
  sp_ext c c' w : (forall t, (t < n)%nat -> c t = c' t) -> store c w -> store c' w;
  sp_start t o c w k : (t < n)%nat -> o_rand o = Random.new (1000 + Z.of_nat t) -> store c w ->
    wp E (thread_start clock M t) (fun a s => local t 0 a (own_of s) /\ world s = w)
      (mkState w k (o_rand o) (o_stats o) (o_key o));
  sp_round t i a o c w k : (t < n)%nat -> (i < rounds (M t))%nat -> local t i a o -> store c w -> c t = i ->
    wp E (body (M t) (Z.of_nat i) a) (fun a' s => local t (S i) a' (own_of s) /\ store (bump c t) (world s))
      (mkState w k (o_rand o) (o_stats o) (o_key o));
  sp_end t a o c w k : (t < n)%nat -> local t (rounds (M t)) a o -> store c w ->
    wp E (thread_end clock M t a) (fun _ s => fin t (own_of s) /\ world s = w)
      (mkState w k (o_rand o) (o_stats o) (o_key o))
}.

Definition thread_inv (t : nat) th : Prop :=
  match th_phase th with
  | NotStarted => o_rand (th_own th) = Random.new (1000 + Z.of_nat t)
  | Looping i a => (i <= rounds (M t))%nat /\ local t i a (th_own th)
  | Finished => fin t (th_own th)
  end.

Definition phase_rounds (t : nat) (p : phase A) : nat :=
  match p with NotStarted => 0 | Looping i _ => i | Finished => rounds (M t) end.

(** The rounds thread [t] has done. *)
Definition rounds_of g (t : nat) : nat :=
  match x_threads g !! t with Some th => phase_rounds t (th_phase th) | None => 0 end.

Record sinv g : Prop := {
  s_threads t th : x_threads g !! t = Some th -> thread_inv t th;
  s_store : store (rounds_of g) (x_world g)
}.

Context (Hspec : workload_spec).

(** A thread takes a turn of its workload. *)
Lemma sinv_put g t th p s :
  sinv g -> (t < n)%nat -> x_threads g !! t = Some th -> thread_inv t (mkThread p (own_of s)) ->
  (forall c, (forall t', (t' < n)%nat -> c t' = if decide (t' = t) then phase_rounds t p else rounds_of g t') ->
     store c (world s)) ->
  sinv (put_thread t p s g).
Proof.
  intros [H1 H2] Ht Hth Hp Hc. pose proof (lookup_lt_Some _ _ _ Hth) as Hlt.
  split; cbn [put_thread x_threads x_world].
  - intros t' th' Hth'. apply list_lookup_insert_Some in Hth' as [(-> & <- & _)|[? ?]]; auto.
  - apply Hc. intros t' _. unfold rounds_of. cbn [put_thread x_threads]. case_decide as Hd.
    + subst. by rewrite list_lookup_insert_eq.
    + by rewrite list_lookup_insert_ne.
Qed.

Definition normal_or (Q : tstate W A -> Prop) (o : outcome (tstate W A)) : Prop :=
  match o with Normal g' => Q g' | Thrown e => E e | _ => False end.

Lemma normal_or_wp {B} (m : Prog (pstate W) B) Q s (k : B -> pstate W -> tstate W A) (R : tstate W A -> Prop) :
  wp E m Q s -> (forall b s', Q b s' -> R (k b s')) -> normal_or R ('(b, s') ← m s; Normal (k b s')).
Proof. unfold wp. intros Hw HR. destruct (m s) as [[b s']| | | |]; try done. by apply HR. Qed.

Lemma workload_turn_sinv g i th o :
  (i < n)%nat -> x_threads g !! i = Some th -> sinv g -> workload_turn clock M i th g = Some o ->
  normal_or sinv o.
Proof using Hspec.
  intros Hi Hth Hs. pose proof Hs as [H1 H2]. pose proof (H1 i th Hth) as Hti. unfold thread_inv in Hti.
  assert (Hsame : forall p, phase_rounds i p = phase_rounds i (th_phase th) ->
    forall c, (forall t', (t' < n)%nat -> c t' = if decide (t' = i) then phase_rounds i p else rounds_of g t') ->
      store c (x_world g)).
  { intros p Hp c Hc. apply (sp_ext Hspec (rounds_of g)); [|done]. intros t Ht. rewrite Hc by done.
    case_decide; [subst|done]. unfold rounds_of. by rewrite Hth. }
  unfold workload_turn. destruct (th_phase th) as [|k a|] eqn:Eph; [..|done]; intros [= <-].
  - eapply normal_or_wp; [by apply (sp_start Hspec i (th_own th) (rounds_of g))|].
    intros a s [Ha Hw]. apply sinv_put with th; [done..| |]; [split; [cbn; lia|done]|].
    intros c Hc. rewrite Hw. by apply (Hsame (Looping 0 a)).
  - destruct Hti as [Hk Hl]. destruct (Nat.ltb_spec k (rounds (M i))).
    + eapply normal_or_wp; [apply (sp_round Hspec i k a (th_own th) (rounds_of g)); try done|].
      { unfold rounds_of. by rewrite Hth, Eph. }
      intros a' s [Ha Hw]. apply sinv_put with th; [done..| |]; [split; [cbn; lia|done]|].
      intros c Hc. apply (sp_ext Hspec (bump (rounds_of g) i)); [|done]. intros t Ht. rewrite Hc by done.
      unfold bump. case_decide; [subst|done]. unfold rounds_of. by rewrite Hth, Eph.
    + assert (k = rounds (M i)) as -> by lia.
      eapply normal_or_wp; [by apply (sp_end Hspec i a (th_own th) (rounds_of g))|].
      intros _ s [Ha Hw]. apply sinv_put with th; [done..|].
      intros c Hc. rewrite Hw. by apply (Hsame Finished).
Qed.

Lemma turn_sinv g c o :
  cinv n g -> sinv g -> turn clock junk_stats M n c g = Some o -> normal_or sinv o.
Proof using Hspec.
  intros Hc Hs Ht. pose proof Hs as [H1 H2]. pose proof Hc as [Hb Hl _].
  apply turn_cases in Ht; [|done]. destruct Ht as [c i b _ _ _ _ _|k b Em Hk _ _ _ _|i th o Hw Hth Ho].
  - by split.
  - rewrite Em in Hl. cbn in Hl. split; cbn [x_threads x_world].
    + intros t th [[_ Hth]|[-> <-]]%lookup_snoc_Some; [by apply H1|]. by rewrite Hl.
    + apply (sp_ext Hspec (rounds_of g)); [|done]. intros t Ht. unfold rounds_of. cbn [x_threads].
      destruct (decide (t < k)%nat); [rewrite lookup_app_l by lia; done|].
      rewrite (lookup_ge_None_2 (x_threads g)) by lia. rewrite lookup_app_r by lia.
      destruct (t - length (x_threads g))%nat; done.
  - pose proof (lookup_lt_Some _ _ _ Hw) as Hi. pose proof (Barrier.reachable_inv _ _ _ Hb) as Hinv.
    rewrite (Barrier.inv_len _ _ _ Hinv) in Hi. by eapply workload_turn_sinv.
Qed.

Lemma turns_sinv sched : forall g o,
  cinv n g -> sinv g -> turns clock junk_stats M n sched g = Some o ->
  normal_or (fun g' => cinv n g' /\ sinv g') o.
Proof using Hspec.
  induction sched as [|c sched IH]; intros g o Hc Hs; cbn [turns]; [by intros [= <-]|].
  intros (o1 & Ho & Ht)%bind_Some. pose proof (turn_sinv g c o1 Hc Hs Ho) as Hs1.
  destruct o1 as [g1| | | |]; cbn [normal_or] in Hs1; simplify_eq; try done.
  apply (IH g1); [|done|done]. by eapply turn_cinv.
Qed.

Lemma sinv_init w ticks : store (fun _ => O) w -> sinv (t_init n w ticks).
Proof. intros Hw. split; cbn; [by intros|done]. Qed.

(** Every run: an exception of [E], or a state in which the threads and the
    store are as the specification says; when the main thread reports, every
    thread has finished all its rounds. *)
Lemma threads_run w ticks sched o :
  store (fun _ => O) w -> turns clock junk_stats M n sched (t_init n w ticks) = Some o ->
  normal_or (fun g => cinv n g /\ sinv g /\
    (Barrier.main (x_bar g) = Barrier.MReport ->
       length (x_threads g) = n /\ Forall (fun th => th_phase th = Finished) (x_threads g) /\
       (forall t th, x_threads g !! t = Some th -> fin t (th_own th)) /\
       store (fun t => rounds (M t)) (x_world g))) o.
Proof using Hspec.
  intros Hw Ht. pose proof (turns_sinv sched _ o (cinv_init n w ticks) (sinv_init w ticks Hw) Ht) as Hs.
  destruct o as [g| | | |]; cbn [normal_or] in *; try done. destruct Hs as [Hc Hs].
  split; [done|]. split; [done|]. intros Hm. pose proof Hc as [Hb Hl _]. pose proof Hs as [H1 H2].
  assert (Hf : t_final g).
  { split; [done|]. apply Forall_lookup. intros i p. by apply (Barrier.inv_report _ _ _ (Barrier.reachable_inv _ _ _ Hb)). }
  assert (Hall : forall t th, x_threads g !! t = Some th -> th_phase th = Finished).
  { intros t th. by apply (t_final_threads n g t th Hc Hf). }
  rewrite Hm in Hl. cbn in Hl. split_and!; [done|by apply Forall_lookup| |].
  - intros t th Hth. specialize (H1 t th Hth). unfold thread_inv in H1. by rewrite (Hall t th Hth) in H1.
  - apply (sp_ext Hspec (rounds_of g)); [|done]. intros t Ht'. unfold rounds_of.
    destruct (lookup_lt_is_Some_2 (x_threads g) t ltac:(lia)) as [th Hth]. by rewrite Hth, (Hall t th Hth).
Qed.

End spec.
