(* ===== verification/ThreadRuns.v ===== *)
(** * The workloads under RunBenchmark (bench/bench.cc)

    [RunBenchmark] with [n] threads as a relation between the state of [Run]
    and the outcomes its schedules have, and what [fillseq], the reads and
    [deleteseq] leave in the store and report when [n] threads run them. *)

From Stdlib Require Import SpecFloat.
From S2P Require Import Prelude CLib Random Pmkv Double Histogram Stats TestUtil Workload.
From S2P Require Import WorkloadLogic Fill Mixed FillThreads WhileWriting ReadWriteThreads Barrier.
From S2P Require Import CommandLine MachineInfo Run RunThreads.

Local Open Scope Z_scope.
Import Benchmark.

(** ** ReadRandomWriteRandom as a loop *)
Section mixed.
Context {W kv : Type} `{PmkvOps W kv}.
Context (f : Flags) (clock junk : nat -> Z) (bm : Benchmark kv).

Definition rw_workload : workload (pstate W) rwstate := mkWorkload
  (g ← lift (RandomGenerator.new (FLAGS_value_size f)); _ ← AllocateKey junk bm;
   mret (mkRw g [] 0 0 0 0 0 0))
  (Z.to_nat (readwrites_ bm)) (fun _ => rw_body f clock bm)
  (fun a => _ ← on_stats (Stats.AddBytes (rw_bytes a));
            modify (set_stats (Stats.AddMessage (rw_message bm a)))).

Lemma rw_loop_for k : forall i a s,
  0 <= i -> Z.max i (readwrites_ bm) = i + Z.of_nat k -> readwrites_ bm < 2 ^ 31 -> i < 2 ^ 31 ->
  rw_loop f clock (S k) bm (duration_at bm i) a s = for_loop k i (fun _ => rw_body f clock bm) a s.
Proof.
  induction k as [|k IH]; intros i a s Hi Hk Hb1 Hb2; rewrite rw_loop_S by lia.
  - rewrite (proj2 (Z.ltb_lt (readwrites_ bm) (i + 1))) by lia. done.
  - rewrite (proj2 (Z.ltb_ge (readwrites_ bm) (i + 1))) by lia. cbn [for_loop].
    apply prog_bind_cong. intros a' s'. apply IH; lia.
Qed.

Lemma run_rw s :
  readwrites_ bm < 2 ^ 31 -> run_workload rw_workload s = ReadRandomWriteRandom f clock junk bm s.
Proof.
  intros Hb. unfold run_workload, ReadRandomWriteRandom, rw_workload. cbn [before rounds body after].
  rewrite prog_bind_assoc. apply prog_bind_cong. intros g s1. rewrite prog_bind_assoc.
  apply prog_bind_cong. intros [] s2. unfold mbind, prog_bind. cbn [mret prog_ret].
  change (Duration.new FLAGS_duration (readwrites_ bm) 0 0) with (duration_at bm 0).
  rewrite rw_loop_for by lia. done.
Qed.

End mixed.

(** ** ReadWhileWriting *)

(** A workload as one of two kinds that run side by side. *)
Definition left_workload {S A} B (m : workload S A) : workload S (A + B) := mkWorkload
  (a ← before m; mret (inl a)) (rounds m)
  (fun i x => match x with inl a => a ← body m i a; mret (inl a) | inr _ => lift Undefined end)
  (fun x => match x with inl a => after m a | inr _ => lift Undefined end).

Definition right_workload {S B} A (m : workload S B) : workload S (A + B) := mkWorkload
  (b ← before m; mret (inr b)) (rounds m)
  (fun i x => match x with inr b => b ← body m i b; mret (inr b) | inl _ => lift Undefined end)
  (fun x => match x with inr b => after m b | inl _ => lift Undefined end).

Section while_writing.
Context {W kv : Type} `{PmkvOps W kv}.
Context (f : Flags) (clock junk : nat -> Z) (bm : Benchmark kv).

(** [BGWriter] that puts [puts] times.  Its rounds are in turn a look at the
    counters and a put; the last look, which ends the loop, is part of the end
    of the workload.  What the looks see is the matter of [looks_right]. *)
Definition writer_workload (puts : nat) : workload (pstate W) (RandomGenerator.RandomGenerator * Z) := mkWorkload
  (gen ← lift (RandomGenerator.new (FLAGS_value_size f));
   _ ← modify (set_stats Stats.SetExcludeFromMerge); _ ← AllocateKey junk bm; mret (gen, 0))
  (2 * puts) (fun i a => if Z.even i then mret a else bg_body f bm kWrite i a)
  (fun a => on_stats (Stats.AddBytes (snd a))).

Lemma writer_loop k : forall i a s,
  Z.even i = true ->
  for_loop (2 * k) i (body (writer_workload k)) a s = for_loop k (i / 2) (bg_body f bm kWrite) a s.
Proof.
  induction k as [|k IH]; intros i a s Hi; [done|].
  replace (2 * S k)%nat with (S (S (2 * k))) by lia. cbn [for_loop writer_workload body].
  unfold mbind, prog_bind at 1. rewrite Hi. cbn [mret prog_ret outcome_bind].
  rewrite Z.even_add, Hi. cbn [Bool.eqb Z.even].
  change (bg_body f bm kWrite (i + 1)) with (bg_body f bm kWrite (i / 2)).
  apply prog_bind_cong. intros a' s'. specialize (IH (i + 1 + 1) a' s').
  replace ((i + 1 + 1) / 2) with (i / 2 + 1) in IH by (rewrite <- Z.div_add by lia; f_equal; lia).
  apply IH. by rewrite !Z.even_add, Hi.
Qed.

Lemma run_writer puts s : run_workload (writer_workload puts) s = BGWriter f junk bm kWrite puts s.
Proof.
  unfold run_workload, BGWriter. cbn [writer_workload before after rounds].
  rewrite prog_bind_assoc. apply prog_bind_cong. intros g s1. rewrite prog_bind_assoc.
  apply prog_bind_cong. intros [] s2. rewrite prog_bind_assoc. apply prog_bind_cong. intros [] s3.
  unfold mbind, prog_bind at 1. cbn [mret prog_ret outcome_bind]. unfold mbind, prog_bind.
  rewrite (writer_loop puts 0) by done. change (0 / 2) with 0.
  destruct (for_loop _ _ _ _ _) as [[[g' b] s4]| | | |]; done.
Qed.

(** [ReadWhileWriting]: the writer in thread 0, and [ReadRandom] in the others *)
Definition rww_workload (puts : nat) (t : nat)
  : workload (pstate W) (RandomGenerator.RandomGenerator * Z + Z * Z) :=
  match t with
  | O => left_workload _ (writer_workload puts)
  | S _ => right_workload _ (read_workload f clock junk bm false (Z.of_nat t))
  end.

(** A look at the counters finds the mutex free and, exactly at the last one,
    [num_done + 1 >= num_initialized]. *)
Definition looks_right {A} (puts : nat) (g : tstate W A) (c : choice) : bool :=
  match c, Barrier.workers (x_bar g) !! 0%nat, x_threads g !! 0%nat with
  | Act (Barrier.Worker O), Some Barrier.WRun, Some t =>
      match th_phase t with
      | Looping k _ =>
          if Nat.even k then
            bool_decide (Barrier.mu (x_bar g) = None) &&
            eqb (Barrier.num_initialized (x_bar g) <=? Barrier.num_done (x_bar g) + 1)%nat (k =? 2 * puts)%nat
          else true
      | _ => true
      end
  | _, _, _ => true
  end.

End while_writing.

(** ** RunBenchmark *)
Section run_benchmark.
Context {W kv : Type} `{PmkvOps W kv}.
Context (f : Flags) (clock junk : nat -> Z) (junk_stats : Stats.Stats).

Definition bad_array_new_length : bytes := b!"std::bad_array_new_length".

(** [arg[i].thread->stats.Report(name)] for every thread *)
Definition reports {A} (name : bytes) (l : list (thread A)) : list line :=
  map (fun th => Reported (fst (Stats.Report (FLAGS_histogram f) name (o_stats (th_own th))))) l.

Definition report_all {A} (name : bytes) (s : rstate W kv) (g : tstate W A) : rstate W kv :=
  mkRun (x_world g) (x_ticks g) (r_kv s) (r_out s ++ reports name (x_threads g)).

(** The outcomes of [RunBenchmark(n, name, method)]: of [new ThreadArg[n]] for
    a negative [n], and else of the schedules after which the main thread
    reports or the process has ended. *)
Inductive RunBenchmarkN {A} (M : nat -> workload (pstate W) A) (n : Z) (name : bytes) (s : rstate W kv)
  : outcome (unit * rstate W kv) -> Prop :=
  | run_bad_length : n < 0 -> RunBenchmarkN M n name s (Thrown bad_array_new_length)
  | run_reported sched g :
      0 <= n ->
      turns clock junk_stats M (Z.to_nat n) sched (t_init (Z.to_nat n) (r_world s) (r_ticks s)) =
        Some (Normal g) ->
      Barrier.main (x_bar g) = Barrier.MReport ->
      RunBenchmarkN M n name s (Normal (tt, report_all name s g))
  | run_ended sched o :
      0 <= n ->
      turns clock junk_stats M (Z.to_nat n) sched (t_init (Z.to_nat n) (r_world s) (r_ticks s)) = Some o ->
      (forall g, o <> Normal g) ->
      RunBenchmarkN M n name s (g ← o; Normal (tt, report_all name s g)).

(** Every look of the writer in a schedule is right. *)
Fixpoint all_looks {A} (M : nat -> workload (pstate W) A) (puts n : nat) (sched : list choice) (g : tstate W A)
  : bool :=
  match sched with
  | [] => true
  | c :: sched' =>
      looks_right puts g c &&
      match turn clock junk_stats M n c g with Some (Normal g') => all_looks M puts n sched' g' | _ => true end
  end.

(** The outcomes of [RunBenchmark] with [ReadWhileWriting]: of the schedules in
    which the writer puts until it sees the others done. *)
Inductive RunReadWhileWriting (bm : Benchmark kv) (n : Z) (name : bytes) (s : rstate W kv)
  : outcome (unit * rstate W kv) -> Prop :=
  | rww_bad_length : n < 0 -> RunReadWhileWriting bm n name s (Thrown bad_array_new_length)
  | rww_reported puts sched g (M := rww_workload f clock junk bm puts)
      (start := t_init (Z.to_nat n) (r_world s) (r_ticks s)) :
      0 <= n -> all_looks M puts (Z.to_nat n) sched start = true ->
      turns clock junk_stats M (Z.to_nat n) sched start = Some (Normal g) ->
      Barrier.main (x_bar g) = Barrier.MReport ->
      RunReadWhileWriting bm n name s (Normal (tt, report_all name s g))
  | rww_ended puts sched o (M := rww_workload f clock junk bm puts)
      (start := t_init (Z.to_nat n) (r_world s) (r_ticks s)) :
      0 <= n -> all_looks M puts (Z.to_nat n) sched start = true ->
      turns clock junk_stats M (Z.to_nat n) sched start = Some o ->
      (forall g, o <> Normal g) ->
      RunReadWhileWriting bm n name s (g ← o; Normal (tt, report_all name s g)).

Lemma rww_schedules bm n name s o :
  RunReadWhileWriting bm n name s o ->
  exists puts, RunBenchmarkN (rww_workload f clock junk bm puts) n name s o.
Proof.
  intros [Hn|puts sched g M start Hn _ Ht Hm|puts sched o' M start Hn _ Ht Ho].
  - exists 0%nat. by constructor.
  - exists puts. by econstructor.
  - exists puts. by econstructor.
Qed.

(** The workload of a method, in thread [t]. *)
Definition RunBenchmark_outcome (n : Z) (name : bytes) (m : Method) (h : kv) (s : rstate W kv)
  : outcome (unit * rstate W kv) -> Prop :=
  let bm := Benchmark.new f h in
  match m with
  | MWriteSeq => RunBenchmarkN (fun t => write_workload f clock junk bm true (Z.of_nat t)) n name s
  | MWriteRandom => RunBenchmarkN (fun t => write_workload f clock junk bm false (Z.of_nat t)) n name s
  | MReadSeq => RunBenchmarkN (fun t => read_workload f clock junk bm true (Z.of_nat t)) n name s
  | MReadRandom | MReadMissing =>
      RunBenchmarkN (fun t => read_workload f clock junk bm false (Z.of_nat t)) n name s
  | MDeleteSeq => RunBenchmarkN (fun t => delete_workload f clock junk bm true (Z.of_nat t)) n name s
  | MDeleteRandom => RunBenchmarkN (fun t => delete_workload f clock junk bm false (Z.of_nat t)) n name s
  | MReadRandomWriteRandom => RunBenchmarkN (fun _ => rw_workload f clock junk bm) n name s
  | MReadWhileWriting => RunReadWhileWriting bm n name s
  end.

(** A scheduler that always picks the first thread that can go on. *)
Definition first_fuel (n r : nat) : nat := 17 * n + 15 + n * (r + 2).

Definition run_threads_first {A} (M : nat -> workload (pstate W) A) (n : Z) (name : bytes) : Prog (rstate W kv) unit :=
  fun s =>
    if n <? 0 then Thrown bad_array_new_length
    else
      let k := Z.to_nat n in
      g ← snd (run_first clock junk_stats M k (first_fuel k (rounds (M O)))
                 (t_init k (r_world s) (r_ticks s)));
      Normal (tt, report_all name s g).

Lemma run_threads_first_outcome {A} (M : nat -> workload (pstate W) A) n name s :
  (forall t, rounds (M t) = rounds (M O)) ->
  RunBenchmarkN M n name s (run_threads_first M n name s).
Proof.
  intros Hr. unfold run_threads_first. destruct (Z.ltb_spec n 0); [by constructor|]. cbv zeta.
  set (g0 := t_init _ _ _).
  pose proof (run_first_ends clock junk_stats M (Z.to_nat n) (rounds (M O))
    (fun t => Nat.eq_le_incl _ _ (Hr t)) (first_fuel (Z.to_nat n) (rounds (M O))) g0 (cinv_init _ _ _)) as Hend.
  destruct (run_first _ _ _ _ _ g0) as [sched o] eqn:E.
  destruct Hend as [Ht Ho].
  { pose proof (t_potential_init (A := A) (Z.to_nat n) (rounds (M O)) (r_world s) (r_ticks s)).
    unfold first_fuel, g0. lia. }
  cbn [snd]. destruct o as [g| | | |]; [|by apply (run_ended _ _ _ _ sched)..].
  destruct Ho as [_ [Hm _]]. by apply (run_reported _ _ _ _ sched).
Qed.

End run_benchmark.

(** ** The specifications of the workloads *)
Section specs.
Context {W kv : Type} {Ops : PmkvOps W kv} {contents : W -> kv -> option (gmap bytes bytes)}
  {Contract : PmkvContract W kv contents}.
Context (f : Flags) (clock junk : nat -> Z) (bm : Benchmark kv) (n : nat).
Hypothesis Hcfg : forall t, (t < n)%nat -> config_ok f bm (Z.of_nat t).

(** Thread [t] in its loop after [i] rounds: the key buffer, the generator as
    [i] keys leave it, and [i] operations counted since [Start]. *)
Definition in_loop (seq : bool) (t i : nat) (o : own) : Prop :=
  exists (s0 : pstate W) now st,
    rand s0 = Random.new (1000 + Z.of_nat t) /\ stats s0 = Stats.Start now st /\
    forall w k, progress bm (Z.of_nat t) s0 seq (Z.of_nat i) (mkState w k (o_rand o) (o_stats o) (o_key o)).

Lemma in_loop_step seq t i o (w : W) k (s' : pstate W) :
  (t < n)%nat -> (Z.of_nat i < Z.max (num_ bm) (reads_ bm)) -> in_loop seq t i o ->
  after_op f bm (mkState w k (o_rand o) (o_stats o) (o_key o)) s'
    (fst (next_key bm (Z.of_nat t) seq (Z.of_nat i) (o_rand o)))
    (snd (next_key bm (Z.of_nat t) seq (Z.of_nat i) (o_rand o))) ->
  in_loop seq t (S i) (own_of s').
Proof using Hcfg.
  intros Ht Hi (s0 & now & st & Hr & Hst & Hp) Ha. exists s0, now, st. split; [done|]. split; [done|].
  intros w' k'. assert (Hp' : progress bm (Z.of_nat t) s0 seq (Z.of_nat i + 1) s').
  { eapply (progress_step f bm (Z.of_nat t) (Hcfg t Ht)); [lia|by rewrite Hst|apply (Hp w k)|exact Ha]. }
  replace (Z.of_nat (S i)) with (Z.of_nat i + 1) by lia. destruct Hp' as [[H1 H2] H3 H4]. by split; [split|..].
Qed.

(** [stats.Start()] and [AllocateKey], the start of every workload. *)
Lemma in_loop_start seq t o w k now :
  (t < n)%nat -> o_rand o = Random.new (1000 + Z.of_nat t) ->
  in_loop seq t 0 (own_of (set_key (new_block junk (key_size_ bm))
    (set_stats (Stats.Start now) (mkState (W := W) w k (o_rand o) (o_stats o) (o_key o))))).
Proof using Hcfg.
  intros Ht Hr. set (s0 := set_stats _ _). exists s0, now, (o_stats o). split; [done|]. split; [done|].
  intros w' k'. pose proof (progress_start f junk bm (Z.of_nat t) (Hcfg t Ht) s0 seq now (o_stats o) eq_refl) as Hp.
  destruct Hp as [[H1 H2] H3 H4]; [cbn; rewrite Hr; apply Random.new_ok|]. by split; [split|..].
Qed.

Lemma in_loop_end seq t i o :
  in_loop seq t i o -> Stats.done_ (o_stats o) = Z.of_nat i /\ Stats.bytes_ (o_stats o) = 0 /\
    Stats.message_ (o_stats o) = [] .
Proof.
  intros (s0 & now & st & _ & Hst & Hp).
  assert (exists w : W, True) as [w _] by (exists (world s0); done).
  destruct (Hp w 0%nat) as [_ _ [_ H1 H2 H3]]. rewrite Hst in *. cbn in *. split_and!; [lia|done..].
Qed.

(** *** fillseq, fillrandom, overwrite *)

(** The numbers of the keys the threads have used when [t] has done [c t]
    rounds: each thread draws its own, from its own seed. *)
Definition used (seq : bool) (c : nat -> nat) (z : Z) : Prop :=
  exists t, (t < n)%nat /\ z ∈ fst (drawn bm (Z.of_nat t) seq (c t) (Random.new (1000 + Z.of_nat t))).

Lemma used_ext seq c c' : (forall t, (t < n)%nat -> c t = c' t) -> forall z, used seq c z <-> used seq c' z.
Proof. intros Hc z. split; intros (t & Ht & Hz); exists t; (split; [done|]); specialize (Hc t Ht); congruence. Qed.

(** The keys of [S i] rounds. *)
Lemma in_loop_drawn seq t i o :
  in_loop seq t i o ->
  fst (drawn bm (Z.of_nat t) seq (S i) (Random.new (1000 + Z.of_nat t))) =
    fst (drawn bm (Z.of_nat t) seq i (Random.new (1000 + Z.of_nat t))) ++
    [fst (next_key bm (Z.of_nat t) seq (Z.of_nat i) (o_rand o))].
Proof.
  intros (s0 & now & st & Hr & _ & Hp). rewrite drawn_S. cbn [fst].
  destruct (Hp (world s0) O) as [_ Hd _]. cbn [rand] in Hd. rewrite Nat2Z.id in Hd. by rewrite Hd, Hr.
Qed.

Lemma used_step seq c t o :
  (t < n)%nat -> in_loop seq t (c t) o -> forall z,
  used seq (bump c t) z <-> used seq c z \/ z = fst (next_key bm (Z.of_nat t) seq (Z.of_nat (c t)) (o_rand o)).
Proof.
  intros Ht Hl z. pose proof (in_loop_drawn _ _ _ _ Hl) as Hd. unfold used, bump. split.
  - intros (t' & Ht' & Hz). case_decide as E; [subst|left; by exists t'].
    rewrite Hd, elem_of_app, list_elem_of_singleton in Hz. destruct Hz; [left; by exists t|by right].
  - intros [(t' & Ht' & Hz)| ->].
    + exists t'. split; [done|]. case_decide as E; [subst|done]. rewrite Hd. apply elem_of_app. by left.
    + exists t. split; [done|]. rewrite decide_True, Hd by done. apply elem_of_app. right. by apply list_elem_of_singleton.
Qed.

Context (m0 : gmap bytes bytes).

Definition fill_store (seq : bool) (c : nat -> nat) (w : W) : Prop :=
  exists m, contents w (kv_ bm) = Some m /\ holds (key_size_ bm) (xs bm) (used seq c) m0 m.

Lemma holds_ext ks v (P P' : Z -> Prop) m m' :
  (forall z, P z <-> P' z) -> holds ks v P m m' -> holds ks v P' m m'.
Proof.
  intros HP [H1 H2]. split; [intros z Hz; by apply H1, HP|].
  intros k Hk. apply H2. intros z Hz. by apply Hk, HP.
Qed.

Definition wrote_all (t : nat) (o : own) : Prop :=
  Stats.done_ (o_stats o) = num_ bm /\
  Stats.bytes_ (o_stats o) = num_ bm * (value_size_ bm + key_size_ bm) /\ Stats.message_ (o_stats o) = [].

Lemma fill_spec seq :
  workload_spec clock (fun t => write_workload f clock junk bm seq (Z.of_nat t)) n
    (put_error bm (contents := contents))
    (fun t i a o => in_loop seq t i o /\ a = Z.of_nat i * (value_size_ bm + key_size_ bm))
    wrote_all (fill_store seq).
Proof using Hcfg Contract.
  split.
  - intros c c' w Hc (m & Hm & Hh). exists m. split; [done|]. eapply holds_ext; [by apply used_ext|exact Hh].
  - intros t o c w k Ht Hr _. unfold thread_start, write_workload. cbn [before].
    rewrite (ok_flags _ _ _ (Hcfg t Ht)), Z.eqb_refl. cbn [negb]. apply wp_bind. unfold wp at 1, NowMicros.
    apply wp_bind, wp_modify, wp_bind, wp_ret, wp_bind. unfold wp at 1.
    rewrite (AllocateKey_eq f junk bm _ (Hcfg t Ht)). apply wp_ret. split; [|done]. split; [|done].
    by apply (in_loop_start seq t o w (S k)).
  - cbn [write_workload rounds body]. intros t i a o c w k Ht Hi [Hl ->] (m & Hm & Hh) Hci. destruct (Hcfg t Ht).
    pose proof Hl as (s0 & now & st & _ & Hst & Hp).
    eapply wp_write_body; [by apply Hcfg|apply Hp|eapply progress_counting; [by apply Hcfg|apply Hp|by rewrite Hst|lia]|lia|exact Hm|].
    intros s' Ha Hm'. split; [split|].
    + eapply in_loop_step; [done|lia|exact Hl|exact Ha].
    + unfold MAX_VAL_LEN in *. rewrite i64_id; nia.
    + eexists. split; [exact Hm'|]. subst i. eapply (holds_insert _ _ (used seq c)); [done|].
      intros y. by apply (used_step seq c t o).
  - cbn [write_workload rounds after]. intros t a o c w k Ht [Hl ->] _. destruct (Hcfg t Ht).
    apply in_loop_end in Hl as (Hd & Hb & Hmsg). rewrite Z2Nat.id in * by lia.
    apply wp_bind, wp_AddBytes; [cbn [stats]; rewrite Hb; unfold MAX_VAL_LEN in *; nia|].
    split; [|done]. split; [done|]. split; [|done]. cbn. rewrite Hb. lia.
Qed.

(** *** readseq, readrandom, readmissing *)
Context (Hfit : values_fit m0).

Definition read_store (c : nat -> nat) (w : W) : Prop := contents w (kv_ bm) = Some m0.

(** What thread [t] has found after [i] rounds: the bytes and the number. *)
Definition found_by (seq : bool) (t i : nat) : Z * Z :=
  found_in (key_size_ bm) m0 (fst (drawn bm (Z.of_nat t) seq i (Random.new (1000 + Z.of_nat t)))).

Definition read_report (seq : bool) (t : nat) (o : own) : Prop :=
  let fb := found_by seq t (Z.to_nat (reads_ bm)) in
  Stats.done_ (o_stats o) = reads_ bm /\ Stats.bytes_ (o_stats o) = fst fb /\
  Stats.message_ (o_stats o) = found_message (snd fb) (reads_ bm).

Lemma found_by_bounds seq t i :
  (t < n)%nat -> Z.of_nat i <= reads_ bm -> 0 <= fst (found_by seq t i) < 2 ^ 63.
Proof using Hcfg Hfit.
  intros Ht Hi. destruct (Hcfg t Ht). unfold found_by.
  destruct (found_in_bounds (key_size_ bm) m0
    (fst (drawn bm (Z.of_nat t) seq i (Random.new (1000 + Z.of_nat t))))) as [H1 _]; [lia|done|].
  rewrite length_drawn in H1. unfold MAX_VAL_LEN in *. nia.
Qed.

Lemma read_spec seq :
  workload_spec clock (fun t => read_workload f clock junk bm seq (Z.of_nat t)) n
    (put_error bm (contents := contents))
    (fun t i a o => in_loop seq t i o /\ a = found_by seq t i)
    (read_report seq) read_store.
Proof using Hcfg Contract Hfit.
  split.
  - done.
  - intros t o c w k Ht Hr _. unfold thread_start, read_workload. cbn [before]. apply wp_bind. unfold wp at 1, NowMicros.
    apply wp_bind, wp_modify, wp_bind. unfold wp at 1.
    rewrite (AllocateKey_eq f junk bm _ (Hcfg t Ht)). apply wp_ret. split; [|done]. split; [|done].
    by apply (in_loop_start seq t o w (S k)).
  - cbn [read_workload rounds body]. intros t i [b fo] o c w k Ht Hi [Hl Ha] Hm Hci. destruct (Hcfg t Ht).
    pose proof Hl as (s0 & now & st & _ & Hst & Hp).
    eapply wp_read_body; [by apply Hcfg|apply Hp|eapply progress_counting; [by apply Hcfg|apply Hp|by rewrite Hst|lia]|lia|exact Hm|exact Hfit|].
    intros s' Haft Hw. split; [split|by unfold read_store; rewrite Hw].
    + eapply in_loop_step; [done|lia|exact Hl|exact Haft].
    + pose proof (found_by_bounds seq t (S i) Ht ltac:(lia)) as Hb. revert Hb.
      unfold found_by in *. rewrite (in_loop_drawn seq t i o Hl). unfold found_in in *.
      rewrite fold_left_app, <- Ha. cbn [fold_left rand]. destruct (m0 !! _); cbn [fst]; intros; rewrite i64_id by lia; done.
  - cbn [read_workload rounds after]. intros t [b fo] o c w k Ht [Hl Ha] Hm. pose proof (Hcfg t Ht) as [].
    apply in_loop_end in Hl as (Hd & Hb & Hmsg). rewrite Z2Nat.id in Hd by lia.
    pose proof (found_by_bounds seq t (Z.to_nat (reads_ bm)) Ht ltac:(lia)) as Hbb. rewrite <- Ha in Hbb. cbn [fst] in Hbb.
    apply wp_bind, wp_bind, wp_AddBytes; [cbn [stats]; lia|]. apply wp_modify.
    split; [|done]. unfold read_report. rewrite <- Ha. cbn [fst snd].
    unfold own_of, set_stats, Stats.Stop, Stats.AddMessage, Stats.with_bytes.
    cbn [o_stats stats Stats.done_ Stats.bytes_ Stats.message_]. rewrite Hd, Hb, Hmsg.
    split_and!; [done|lia|]. unfold Stats.AppendWithSpace, found_message. cbn [app]. by destruct (snprintf _ _).
Qed.

(** *** deleteseq, deleterandom *)

(** [m] is [m0] without the keys of the numbers in [P]. *)
Record lacks (P : Z -> Prop) (m : gmap bytes bytes) : Prop := {
  lacks_in z : P z -> m !! key_of (key_size_ bm) z = None;
  lacks_out k : (forall z, P z -> key_of (key_size_ bm) z <> k) -> m !! k = m0 !! k
}.

Lemma lacks_ext (P P' : Z -> Prop) m : (forall z, P z <-> P' z) -> lacks P m -> lacks P' m.
Proof.
  intros HP [H1 H2]. split; [intros z Hz; by apply H1, HP|].
  intros k Hk. apply H2. intros z Hz. by apply Hk, HP.
Qed.

Lemma lacks_delete (P P' : Z -> Prop) m z :
  lacks P m -> (forall y, P' y <-> P y \/ y = z) -> lacks P' (delete (key_of (key_size_ bm) z) m).
Proof.
  intros [H1 H2] HP. split.
  - intros y Hy. destruct (decide (key_of (key_size_ bm) z = key_of (key_size_ bm) y)) as [->|Hne];
      [by rewrite lookup_delete_eq|].
    rewrite lookup_delete_ne by done. apply H1. apply HP in Hy as [Hy| ->]; done.
  - intros k Hk. rewrite lookup_delete_ne by (apply Hk, HP; auto). apply H2.
    intros y Hy. apply Hk, HP. auto.
Qed.

Lemma lacks_delete_all (P : Z -> Prop) m l :
  lacks P m -> (forall z, P z <-> z ∈ l) -> m = delete_all (key_size_ bm) l m0.
Proof.
  intros [H1 H2] HP. apply map_eq. intros k.
  destruct (decide (Exists (fun z => key_of (key_size_ bm) z = k) l)) as [(z & Hz & <-)%Exists_exists|Hno].
  - rewrite H1 by (by apply HP). by rewrite delete_all_in.
  - assert (forall z, z ∈ l -> key_of (key_size_ bm) z <> k).
    { intros z Hz Hk. apply Hno, Exists_exists. eauto. }
    rewrite delete_all_notin by done. apply H2. intros z Hz. apply HP in Hz. auto.
Qed.

Definition delete_store (seq : bool) (c : nat -> nat) (w : W) : Prop :=
  exists m, contents w (kv_ bm) = Some m /\ lacks (used seq c) m.

Definition deleted_all (t : nat) (o : own) : Prop :=
  Stats.done_ (o_stats o) = num_ bm /\ Stats.message_ (o_stats o) = [].

Lemma delete_spec seq :
  workload_spec clock (fun t => delete_workload f clock junk bm seq (Z.of_nat t)) n
    (put_error bm (contents := contents)) (fun t i _ o => in_loop seq t i o) deleted_all (delete_store seq).
Proof using Hcfg Contract.
  split.
  - intros c c' w Hc (m & Hm & Hh). exists m. split; [done|]. eapply lacks_ext; [by apply used_ext|exact Hh].
  - intros t o c w k Ht Hr _. unfold thread_start, delete_workload. cbn [before].
    apply wp_bind. unfold wp at 1, NowMicros. apply wp_bind, wp_modify, wp_bind. unfold wp at 1.
    rewrite (AllocateKey_eq f junk bm _ (Hcfg t Ht)). apply wp_ret. split; [|done].
    by apply (in_loop_start seq t o w (S k)).
  - cbn [delete_workload rounds body]. intros t i [] o c w k Ht Hi Hl (m & Hm & Hh) Hci. destruct (Hcfg t Ht).
    pose proof Hl as (s0 & now & st & _ & Hst & Hp).
    eapply wp_delete_body; [by apply Hcfg|apply Hp|eapply progress_counting; [by apply Hcfg|apply Hp|by rewrite Hst|lia]|lia|exact Hm|].
    intros s' Ha Hm'. split.
    + eapply in_loop_step; [done|lia|exact Hl|exact Ha].
    + eexists. split; [exact Hm'|]. subst i. eapply (lacks_delete (used seq c)); [done|].
      intros y. by apply (used_step seq c t o).
  - cbn [delete_workload rounds after]. intros t [] o c w k Ht Hl _. destruct (Hcfg t Ht).
    apply in_loop_end in Hl as (Hd & Hb & Hmsg). rewrite Z2Nat.id in Hd by lia. by split.
Qed.

End specs.

(** From the specification of a workload to what [RunBenchmark] does. *)
Lemma RunBenchmarkN_wp {W kv A : Type} f clock junk_stats (M : nat -> workload (pstate W) A) E local fin store n name
    (s : rstate W kv) (p : Prog (rstate W kv) unit) :
  0 <= n -> workload_spec clock M (Z.to_nat n) E local fin store ->
  (forall e, E e -> run_error e) -> store (fun _ => O) (r_world s) ->
  RunBenchmarkN f clock junk_stats M n name s (p s) ->
  wp run_error p
    (fun _ s' => exists l : list (thread A), length l = Z.to_nat n /\
       (forall t th, l !! t = Some th -> fin t (th_own th)) /\
       store (fun t => rounds (M t)) (r_world s') /\ r_kv s' = r_kv s /\
       r_out s' = r_out s ++ reports f name l) s.
Proof.
  intros Hn Hspec HE Hst Hrun. unfold wp.
  destruct Hrun as [Hneg|sched g _ Ht Hm|sched o _ Ht Ho]; [lia|..].
  - pose proof (threads_run clock junk_stats M _ E local fin store Hspec _ _ sched _ Hst Ht) as H.
    cbn [normal_or] in H. destruct H as (_ & _ & H). destruct (H Hm) as (H1 & _ & H2 & H3).
    by exists (x_threads g).
  - pose proof (threads_run clock junk_stats M _ E local fin store Hspec _ _ sched _ Hst Ht) as H.
    destruct o as [g| | | |]; cbn [normal_or] in H; try done; [by destruct (Ho g)|]. cbn. by apply HE.
Qed.

(** ** Whole runs *)
Section runs.
Context {W kv : Type} {Ops : PmkvOps W kv} {contents : W -> kv -> option (gmap bytes bytes)}
  {Contract : PmkvContract W kv contents}.
Context (f : Flags) (clock junk : nat -> Z) (std_remove : bytes -> W -> W) (junk_stats : Stats.Stats)
  (threads : Z -> bytes -> Method -> kv -> Prog (rstate W kv) unit).
Hypothesis Hopen : forall path sz create w, exists h w', pmkv_open path sz create w = Normal (h, w').

(** The workload of [n] threads ends as some schedule of them does. *)
Hypothesis Hthreads : forall n name m h s, m <> MReadWhileWriting ->
  RunBenchmark_outcome f clock junk junk_stats n name m h s (threads n name m h s).

Definition num_threads : nat := Z.to_nat (FLAGS_threads f).

Hypothesis Hn : 0 <= FLAGS_threads f < 2 ^ 31.
Hypothesis Hcfg : forall (h : kv) t, (t < num_threads)%nat -> config_ok f (Benchmark.new f h) (Z.of_nat t).

Hypothesis Hnum : 0 < FLAGS_num f.

(** One line for each thread, with the same name and message. *)
Definition lines_say (name msg : bytes) (l : list line) : Prop :=
  length l = num_threads /\
  Forall (fun x => exists r, x = Reported r /\ Stats.line_name r = name /\ Stats.line_message r = msg) l.

Lemma reports_say {A} name msg (l : list (thread A)) :
  length l = num_threads ->
  (forall t th, l !! t = Some th -> Stats.message_ (o_stats (th_own th)) = msg) ->
  lines_say name msg (reports f name l).
Proof.
  intros Hl Hmsg. split; [unfold reports; by rewrite length_map|].
  apply Forall_fmap, Forall_lookup. intros t th Hth. eexists. split; [reflexivity|].
  rewrite <- (Hmsg t th Hth). unfold Stats.Report. cbn [fst Stats.line_name Stats.line_message].
  split; [done|]. by case_match.
Qed.

Lemma run_name_n name m fresh s Q :
  select name = (Some m, fresh, 0) ->
  (forall h s' pre, r_kv s' = Some h -> r_out s' = r_out s ++ pre -> Forall is_setup pre ->
     (fresh = true -> contents (r_world s') h = Some ∅) ->
     (fresh = false -> forall h0, r_kv s = Some h0 -> h = h0 /\ s' = s) ->
     wp run_error (threads (FLAGS_threads f) name m h) Q s') ->
  wp run_error (run_name f clock std_remove threads name) Q s.
Proof using Hopen Hn Contract.
  intros Hsel HQ.
  destruct (run_name_prepared (contents := contents) f clock std_remove threads Hopen name m fresh 0 s Hsel)
    as [E|(h & s' & pre & E & H1 & H2 & H3 & H4 & H5)]; [lia|..]; unfold wp; rewrite E; [by left|].
  rewrite Z.add_0_r. by apply (HQ h s' pre).
Qed.

Lemma put_error_run h e : put_error (Benchmark.new f h) (contents := contents) e -> run_error e.
Proof. intros [-> _]. by right. Qed.

(** The numbers thread [t] uses in [k] rounds, and all threads together when
    each has done [num] rounds. *)
Definition numbers_of (h : kv) (seq : bool) (k t : nat) : list Z :=
  fst (drawn (Benchmark.new f h) (Z.of_nat t) seq k (Random.new (1000 + Z.of_nat t))).

Definition all_numbers (h : kv) (sq : bool) : list Z :=
  seq 0 num_threads ≫= numbers_of h sq (Z.to_nat (FLAGS_num f)).

Lemma elem_of_all_numbers h sq z :
  z ∈ all_numbers h sq <-> exists t, (t < num_threads)%nat /\ z ∈ numbers_of h sq (Z.to_nat (FLAGS_num f)) t.
Proof.
  unfold all_numbers. rewrite list_elem_of_bind. split; intros (t & H1 & H2); exists t.
  - apply elem_of_seq in H2. split; [lia|done].
  - split; [done|]. apply elem_of_seq. lia.
Qed.

Lemma all_used h sq z :
  used (Benchmark.new f h) num_threads sq (fun _ => Z.to_nat (FLAGS_num f)) z <-> z ∈ all_numbers h sq.
Proof. by rewrite elem_of_all_numbers. Qed.

Lemma none_used (h : kv) sq z : ~ used (Benchmark.new f h) num_threads sq (fun _ => O) z.
Proof. intros (t & _ & Hz). by apply elem_of_nil in Hz. Qed.

(** A thread that makes fewer rounds uses the first of its numbers. *)
Lemma numbers_prefix h sq k k' t : (k <= k')%nat -> numbers_of h sq k t `prefix_of` numbers_of h sq k' t.
Proof.
  intros Hk. unfold numbers_of. induction Hk as [|k' Hk IH]; [done|]. rewrite drawn_S. by apply prefix_app_r.
Qed.

Definition write_method (sq : bool) : Method := if sq then MWriteSeq else MWriteRandom.

Definition read_method (sq : bool) : Method := if sq then MReadSeq else MReadRandom.

Definition delete_method (sq : bool) : Method := if sq then MDeleteSeq else MDeleteRandom.

(** A fill by [n] threads leaves what the rounds of the threads one after the
    other would. *)
Lemma fill_n name sq h m s :
  contents (r_world s) h = Some m ->
  wp run_error (threads (FLAGS_threads f) name (write_method sq) h)
    (fun _ s' => exists l, lines_say name [] l /\ r_out s' = r_out s ++ l /\ r_kv s' = r_kv s /\
       contents (r_world s') h =
         Some (write_all (FLAGS_key_size f) (xs (Benchmark.new f h)) (all_numbers h sq) m)) s.
Proof using All.
  intros Hc. eapply wp_mono.
  - eapply RunBenchmarkN_wp; [apply Hn|apply (fill_spec f clock junk (Benchmark.new f h) num_threads (Hcfg h) m sq)
      |apply put_error_run| |by destruct sq; [apply (Hthreads _ _ MWriteSeq)|apply (Hthreads _ _ MWriteRandom)]].
    exists m. split; [done|]. split; [|done]. intros z Hz. by destruct (none_used h sq z).
  - intros [] s' (l & Hl & Hfin & (m' & Hm & Hh) & Hk & Ho). exists (reports f name l).
    rewrite (holds_write_all _ _ _ _ _ _ Hh (all_used h sq)) in Hm.
    split; [|by split_and!]. apply reports_say; [done|]. intros t th Hth. by destruct (Hfin t th Hth) as (_ & _ & ?).
Qed.

Lemma found_in_none (ks : Z) (m : gmap bytes bytes) (l : list Z) :
  (forall z, z ∈ l -> m !! key_of ks z = None) -> snd (found_in ks m l) = 0.
Proof.
  induction l as [|z l IH] using rev_ind; intros Hz; [done|]. unfold found_in in *. rewrite fold_left_app.
  specialize (IH (fun y Hy => Hz y (proj2 (elem_of_app _ _ _) (or_introl Hy)))).
  destruct (fold_left _ l (0, 0)) as [b k]. cbn [fold_left snd] in *.
  by rewrite (Hz z) by (apply elem_of_app; right; by apply list_elem_of_singleton).
Qed.

(** A read by [n] threads, all of whose keys are in one state. *)
Lemma read_n name sq h m b s :
  contents (r_world s) h = Some m -> values_fit m -> reads_ (Benchmark.new f h) <= FLAGS_num f ->
  (forall z, z ∈ all_numbers h sq -> bool_decide (is_Some (m !! key_of (FLAGS_key_size f) z)) = b) ->
  let reads := reads_ (Benchmark.new f h) in
  wp run_error (threads (FLAGS_threads f) name (read_method sq) h)
    (fun _ s' => exists l, lines_say name (found_message (if b then reads else 0) reads) l /\
       r_out s' = r_out s ++ l /\ r_kv s' = r_kv s /\ contents (r_world s') h = Some m) s.
Proof using All.
  intros Hm Hfit Hr Hall reads. eapply wp_mono.
  - eapply RunBenchmarkN_wp; [apply Hn|apply (read_spec (contents := contents) f clock junk (Benchmark.new f h)
      num_threads (Hcfg h) m Hfit sq)|apply put_error_run|done
      |by destruct sq; [apply (Hthreads _ _ MReadSeq)|apply (Hthreads _ _ MReadRandom)]].
  - intros [] s' (l & Hl & Hfin & Hst & Hk & Ho). exists (reports f name l).
    split; [|by split_and!]. apply reports_say; [done|]. intros t th Hth.
    destruct (Hfin t th Hth) as (_ & _ & ->). fold reads. f_equal. unfold found_by. fold reads.
    assert (Ht : (t < num_threads)%nat) by (unfold num_threads; rewrite <- Hl; by eapply lookup_lt_Some).
    destruct (Hcfg h t Ht). fold reads in Hr. fold (numbers_of h sq (Z.to_nat reads) t).
    assert (Hin : forall z, z ∈ numbers_of h sq (Z.to_nat reads) t ->
            bool_decide (is_Some (m !! key_of (FLAGS_key_size f) z)) = b).
    { intros z Hz. apply Hall, elem_of_all_numbers. exists t. split; [done|].
      eapply elem_of_prefix; [exact Hz|]. apply numbers_prefix. lia. }
    destruct b.
    + rewrite found_in_count; [unfold numbers_of; rewrite length_drawn; subst reads; lia|].
      intros z Hz. specialize (Hin z Hz). by apply bool_decide_eq_true in Hin.
    + apply found_in_none. intros z Hz. specialize (Hin z Hz). apply bool_decide_eq_false in Hin.
      by apply eq_None_not_Some.
Qed.

Lemma delete_n name sq h m s :
  contents (r_world s) h = Some m ->
  wp run_error (threads (FLAGS_threads f) name (delete_method sq) h)
    (fun _ s' => exists l, lines_say name [] l /\ r_out s' = r_out s ++ l /\ r_kv s' = r_kv s /\
       contents (r_world s') h = Some (delete_all (FLAGS_key_size f) (all_numbers h sq) m)) s.
Proof using All.
  intros Hc. eapply wp_mono.
  - eapply RunBenchmarkN_wp; [apply Hn|apply (delete_spec f clock junk (Benchmark.new f h) num_threads (Hcfg h) m sq)
      |apply put_error_run| |by destruct sq; [apply (Hthreads _ _ MDeleteSeq)|apply (Hthreads _ _ MDeleteRandom)]].
    exists m. split; [done|]. split; [|done]. intros z Hz. by destruct (none_used h sq z).
  - intros [] s' (l & Hl & Hfin & (m' & Hm & Hh) & Hk & Ho). exists (reports f name l).
    rewrite (lacks_delete_all _ _ _ _ _ Hh (all_used h sq)) in Hm.
    split; [|by split_and!]. apply reports_say; [done|]. intros t th Hth. by destruct (Hfin t th Hth) as (_ & ?).
Qed.

(** A name that works on the open store. *)
Lemma run_name_again name m h s Q :
  select name = (Some m, false, 0) -> r_kv s = Some h ->
  wp run_error (threads (FLAGS_threads f) name m h) Q s ->
  wp run_error (run_name f clock std_remove threads name) Q s.
Proof using Hopen Hn Contract.
  intros Hsel Hk HQ. apply (run_name_n name m false); [done|]. intros h' s' pre _ _ _ _ Hsame.
  by destruct (Hsame eq_refl h Hk) as [-> ->].
Qed.

Definition fill_name (sq : bool) : bytes := if sq then b!"fillseq" else b!"fillrandom".

Definition read_name (sq : bool) : bytes := if sq then b!"readseq" else b!"readrandom".

Definition delete_name (sq : bool) : bytes := if sq then b!"deleteseq" else b!"deleterandom".

Lemma fill_read_delete_read_wp sq s :
  let reads := if FLAGS_reads f <? 0 then FLAGS_num f else FLAGS_reads f in
  reads <= FLAGS_num f -> 0 <= FLAGS_value_size f <= MAX_VAL_LEN ->
  wp run_error (run_names f clock std_remove threads [fill_name sq; read_name sq; delete_name sq; read_name sq])
    (fun _ s' => exists pre l1 l2 l3 l4, r_out s' = r_out s ++ pre ++ l1 ++ l2 ++ l3 ++ l4 /\
       Forall is_setup pre /\ lines_say (fill_name sq) [] l1 /\
       lines_say (read_name sq) (found_message reads reads) l2 /\
       lines_say (delete_name sq) [] l3 /\ lines_say (read_name sq) (found_message 0 reads) l4) s.
Proof using All.
  intros reads Hreads Hvs. cbn [run_names]. apply wp_bind.
  apply (run_name_n _ (write_method sq) true); [by destruct sq|]. intros h s1 pre Hk1 Ho1 Hpre Hc _. specialize (Hc eq_refl).
  eapply wp_mono; [by apply fill_n|]. intros [] s2 (l1 & Hl1 & Ho2 & Hk2 & Hm2). rewrite Hk1 in Hk2.
  apply wp_bind, (run_name_again _ (read_method sq) h); [by destruct sq|done|].
  eapply wp_mono; [apply (read_n _ sq h _ true s2 Hm2)|].
  { apply write_all_fit; [rewrite zlen_xs; cbn; lia|apply map_Forall_empty]. }
  { done. }
  { intros z Hz. apply bool_decide_eq_true. by rewrite write_all_in. }
  intros [] s3 (l2 & Hl2 & Ho3 & Hk3 & Hm3). rewrite Hk2 in Hk3.
  apply wp_bind, (run_name_again _ (delete_method sq) h); [by destruct sq|done|].
  eapply wp_mono; [by apply delete_n|]. intros [] s4 (l3 & Hl3 & Ho4 & Hk4 & Hm4). rewrite Hk3 in Hk4.
  rewrite delete_write_all in Hm4 by done.
  apply wp_bind, (run_name_again _ (read_method sq) h); [by destruct sq|done|].
  eapply wp_mono; [apply (read_n _ sq h _ false s4 Hm4); [apply map_Forall_empty|done|]|].
  { intros z _. apply bool_decide_eq_false. rewrite lookup_empty. by intros []. }
  intros [] s5 (l4 & Hl4 & Ho5 & _). apply wp_ret. exists pre, l1, l2, l3, l4.
  split; [by rewrite Ho5, Ho4, Ho3, Ho2, Ho1, <- !app_assoc|]. by split_and!.
Qed.

End runs.

(** ** Properties *)

(** C1: the whole program with any number of threads.  With the benchmarks
    [fillseq,readseq,deleteseq,readseq] or
    [fillrandom,readrandom,deleterandom,readrandom], [n] threads and sizes for
    which no counter overflows, given by any list of flags, [main] on a machine
    whose cpuinfo the header can show (none, or lines as in [host_ok]) and a store
    that keeps the contract of pmkv.h ends with the exception of a store that
    cannot be opened or of a [put] that was refused, or it prints the header and for each of
    the four workloads one line per thread, in whatever order the threads ran:
    every thread finds all of its keys after the fill, and none after the
    deletion.  For the random workloads this is because a thread's generator
    starts each time from the thread's number, so that the reads and deletions
    repeat the keys of the fill. *)
Theorem fill_read_delete_program {W kv : Type} {Ops : PmkvOps W kv}
  (contents : W -> kv -> option (gmap bytes bytes)) (Contract : PmkvContract W kv contents)
  machine clock junk std_remove junk_stats threads l (w : W) (sq : bool)
  (f := fold_left apply_setting l default_flags)
  (reads := if FLAGS_reads f <? 0 then FLAGS_num f else FLAGS_reads f)
  (Hl : Forall setting_ok l)
  (Hopen : forall path sz create w, exists h w', pmkv_open path sz create w = Normal (h, w'))
  (Hthreads : forall n name m (h : kv) s, m <> MReadWhileWriting ->
     RunBenchmark_outcome f clock junk junk_stats n name m h s (threads f n name m h s))
  (Hnames : FLAGS_benchmarks f =
     if sq then b!"fillseq,readseq,deleteseq,readseq" else b!"fillrandom,readrandom,deleterandom,readrandom")
  (Hn : 0 <= FLAGS_threads f < 2 ^ 31) (Hall : FLAGS_threads f * FLAGS_num f <= 2 ^ 31)
  (Hnum : 0 < FLAGS_num f < 2 ^ 31 - 200000) (Hreads : reads <= FLAGS_num f)
  (Hvalue : 0 <= FLAGS_value_size f <= MAX_VAL_LEN)
  (Hkey : 0 <= FLAGS_key_size f) (Hentry : FLAGS_key_size f + FLAGS_value_size f < 2 ^ 31)
  (Hmachine : host_ok machine) :
  match main_ machine clock std_remove threads (map print_setting l) w with
  | Normal (out, _) =>
      exists head pre l1 l2 l3 l4, PrintHeader machine f (FLAGS_num f) = Normal head /\
        out = Header head :: pre ++ l1 ++ l2 ++ l3 ++ l4 /\ Forall is_setup pre /\
        lines_say f (fill_name sq) [] l1 /\ lines_say f (read_name sq) (found_message reads reads) l2 /\
        lines_say f (delete_name sq) [] l3 /\ lines_say f (read_name sq) (found_message 0 reads) l4
  | Thrown e => e = PMKVWrapper.open_failed \/ e = PMKVWrapper.put_failed
  | _ => False
  end.
Proof.
  assert (Hcfg : forall (h : kv) t, (t < num_threads f)%nat -> config_ok f (Benchmark.new f h) (Z.of_nat t)).
  { assert (Hr0 : 0 <= reads) by (unfold reads; zcases; lia). unfold num_threads.
    intros h t Ht. split; cbn [Benchmark.new num_ reads_ value_size_ key_size_]; fold reads; try lia.
    assert ((Z.of_nat t + 1) * FLAGS_num f <= FLAGS_threads f * FLAGS_num f)
      by (apply Z.mul_le_mono_nonneg_r; lia). lia. }
  destruct (Run_printed f clock std_remove (threads f) machine (mkRun w 0 None [])) as (head & Eh & Erun);
    [done|lia|]. cbn [r_world r_ticks r_kv r_out app] in Erun.
  pose proof (fill_read_delete_read_wp (contents := contents) f clock junk std_remove junk_stats (threads f) Hopen
    Hthreads Hn Hcfg ltac:(lia) sq (mkRun w 0 None [Header head]) Hreads Hvalue) as Hwp.
  unfold main_. rewrite main_flags_printed by done. fold f. cbn [mbind outcome_bind].
  rewrite Erun, Hnames. clear Erun.
  assert (Hf : fields (if sq then b!"fillseq,readseq,deleteseq,readseq" else b!"fillrandom,readrandom,deleterandom,readrandom") =
    [fill_name sq; read_name sq; delete_name sq; read_name sq]) by (by destruct sq). rewrite Hf.
  unfold wp in Hwp. destruct (run_names _ _ _ _ _ _) as [[u s]| | | |]; try done.
  cbn [mbind outcome_bind]. destruct Hwp as (pre & l1 & l2 & l3 & l4 & H). by exists head, pre, l1, l2, l3, l4.
Qed.

(** C20: in [RunBenchmark] with any workload, under any schedule and with any
    spurious wake-ups, no thread starts its workload before all [n] threads have
    been started and have counted themselves ready, and when the main thread
    goes on to the reports every thread has finished its workload. *)
Theorem threads_wait_for_each_other {W A : Type} clock junk_stats (M : nat -> workload (pstate W) A) n
  (w : W) ticks sched g (Hrun : turns clock junk_stats M n sched (t_init n w ticks) = Some (Normal g)) :
  (forall i th, x_threads g !! i = Some th -> th_phase th <> NotStarted ->
     length (x_threads g) = n /\ Barrier.start (x_bar g) = true /\
     Forall (fun p => Barrier.initialized p = true) (Barrier.workers (x_bar g))) /\
  (Barrier.main (x_bar g) = Barrier.MReport ->
     length (x_threads g) = n /\ Forall (fun th => th_phase th = Finished) (x_threads g)).
Proof.
  apply turns_cinv in Hrun as Hc; [|apply cinv_init]. pose proof Hc as [Hb Hl Hp].
  pose proof (Barrier.reachable_inv _ _ _ Hb) as Hinv. split.
  - intros i th Hth Hph. pose proof (lookup_lt_Some _ _ _ Hth) as Hlt.
    assert (Hi : (i < length (Barrier.workers (x_bar g)))%nat).
    { rewrite (Barrier.inv_len _ _ _ Hinv). rewrite Hl in Hlt. unfold spawned in Hlt.
      destruct (Barrier.main (x_bar g)) eqn:Em; try done.
      pose proof (Barrier.inv_spawn_le _ _ _ Hinv _ Em). lia. }
    destruct (lookup_lt_is_Some_2 _ _ Hi) as [p Ep]. destruct (Hp i p th Ep Hth) as [H1 _].
    destruct (Barrier.passed p) eqn:Epass; [|by destruct Hph; auto].
    pose proof (Barrier.inv_passed _ _ _ Hinv i p Ep Epass) as Hst.
    pose proof (Barrier.inv_start _ _ _ Hinv) as Hs. rewrite Hst in Hs.
    split; [rewrite Hl; by destruct (Barrier.main (x_bar g))|]. split; [done|].
    apply Barrier.cnt_full. rewrite <- (Barrier.inv_init _ _ _ Hinv), (Barrier.inv_all _ _ _ Hinv Hst).
    by rewrite (Barrier.inv_len _ _ _ Hinv).
  - intros Hm. rewrite Hm in Hl. split; [done|]. apply Forall_lookup. intros i th Hth.
    apply (t_final_threads n g i th Hc); [|done]. split; [done|].
    apply Forall_lookup. intros j p. by apply (Barrier.inv_report _ _ _ Hinv).
Qed.

(** C7: [RunBenchmark] returns.  With [n] threads, all of [r] rounds, a schedule
    that leaves the process running has at most [17 n + 14 + n (r + 2)] actions
    and two more for each wait it ends without a signal; when no thread can act
    the main thread is at the reports, so that there is no deadlock and no lost
    wake-up, and what it then reports is an outcome of [RunBenchmark].  A schedule
    in which a thread throws, exits or does something undefined ends the process
    with that outcome.  A scheduler that picks the first thread that can go on
    brings every run to one of the outcomes. *)
Theorem run_benchmark_returns {W kv A : Type} f clock junk_stats (M : nat -> workload (pstate W) A) n r
  (s : rstate W kv) name sched o
  (Hr : forall t, rounds (M t) = r)
  (Hrun : turns clock junk_stats M n sched (t_init n (r_world s) (r_ticks s)) = Some o) :
  match o with
  | Normal g =>
      (acts_in sched <= 17 * n + 14 + n * (r + 2) + 2 * wakes_in sched)%nat /\
      ((forall t, turn clock junk_stats M n (Act t) g = None) -> Barrier.main (x_bar g) = Barrier.MReport) /\
      (Barrier.main (x_bar g) = Barrier.MReport ->
         RunBenchmarkN f clock junk_stats M (Z.of_nat n) name s (Normal (tt, report_all f name s g)))
  | Thrown _ | Exited _ | Aborted | Undefined =>
      RunBenchmarkN f clock junk_stats M (Z.of_nat n) name s (g ← o; Normal (tt, report_all f name s g))
  end /\
  RunBenchmarkN f clock junk_stats M (Z.of_nat n) name s
    (run_threads_first f clock junk_stats M (Z.of_nat n) name s).
Proof.
  assert (Hn : Z.to_nat (Z.of_nat n) = n) by lia.
  split; [|apply run_threads_first_outcome; intros t; by rewrite !Hr].
  destruct o as [g| | | |]; [|apply (run_ended _ _ _ _ _ _ _ sched); rewrite ?Hn; done || lia..]. split_and!.
  - pose proof (turns_bounded clock junk_stats M n r (fun t => Nat.eq_le_incl _ _ (Hr t)) sched _ _ (cinv_init _ _ _) Hrun).
    pose proof (t_potential_init (A := A) n r (r_world s) (r_ticks s)). lia.
  - intros Hno. apply turns_cinv in Hrun; [|apply cinv_init].
    destruct (turn_progress clock junk_stats M n g Hrun) as [[Hm _]|(t & _ & o & Ho)]; [done|].
    by rewrite Hno in Ho.
  - intros Hm. apply (run_reported _ _ _ _ _ _ _ sched); rewrite ?Hn; done || lia.
Qed.

(** Two threads on the small library of [Pmkv.MemLib], scheduled by
    [run_threads_first]. *)
Definition demo_method (f : Flags) (n : Z) (name : bytes) (m : Method) (h : bytes)
  : Prog (rstate MemLib.world bytes) unit :=
  let bm := Benchmark.new f h in
  let c := fun _ : nat => 0 in
  match m with
  | MWriteSeq => run_threads_first f c demo_stats (fun t => write_workload (H := mem_ops) f c c bm true (Z.of_nat t)) n name
  | MWriteRandom => run_threads_first f c demo_stats (fun t => write_workload (H := mem_ops) f c c bm false (Z.of_nat t)) n name
  | MReadSeq => run_threads_first f c demo_stats (fun t => read_workload (H := mem_ops) f c c bm true (Z.of_nat t)) n name
  | MReadRandom | MReadMissing =>
      run_threads_first f c demo_stats (fun t => read_workload (H := mem_ops) f c c bm false (Z.of_nat t)) n name
  | MDeleteSeq => run_threads_first f c demo_stats (fun t => delete_workload (H := mem_ops) f c c bm true (Z.of_nat t)) n name
  | MDeleteRandom => run_threads_first f c demo_stats (fun t => delete_workload (H := mem_ops) f c c bm false (Z.of_nat t)) n name
  | MReadRandomWriteRandom => run_threads_first f c demo_stats (fun _ => rw_workload (H := mem_ops) f c c bm) n name
  | MReadWhileWriting => lift Undefined
  end.

Lemma demo_method_outcome f n name m h s :
  m <> MReadWhileWriting ->
  RunBenchmark_outcome (H := mem_ops) f (fun _ => 0) (fun _ => 0) demo_stats n name m h s (demo_method f n name m h s).
Proof. intros Hm. destruct m; try done; by apply run_threads_first_outcome. Qed.

Definition demo_thread_settings : list setting :=
  [SNum 3; SBenchmarks b!"fillrandom,readrandom,deleterandom,readrandom"; SThreads 2; SValueSize 3; SDb b!"/pool"].

Definition demo_thread_flags : Flags := fold_left apply_setting demo_thread_settings default_flags.

Lemma fill_read_delete_program_witness :
  match main_ (H := mem_ops) demo_machine (fun _ => 0) (fun _ w => w) demo_method
      (map print_setting demo_thread_settings) ∅ with
  | Normal (out, _) => exists head pre l1 l2 l3 l4, out = Header head :: pre ++ l1 ++ l2 ++ l3 ++ l4 /\
      lines_say demo_thread_flags b!"readrandom" b!"(3 of 3 found)" l2 /\
      lines_say demo_thread_flags b!"readrandom" b!"(0 of 3 found)" l4
  | _ => False
  end.
Proof.
  pose proof (fill_read_delete_program MemLib.mem_store mem_contract demo_machine (fun _ => 0) (fun _ => 0)
    (fun _ w => w) demo_stats demo_method demo_thread_settings ∅ false) as H. cbv zeta in H.
  assert (Hok : Forall setting_ok demo_thread_settings).
  { repeat (apply Forall_cons_2; [cbn [setting_ok]; first [lia | reflexivity]|]). apply Forall_nil_2. }
  specialize (H Hok mem_opens (demo_method_outcome _) eq_refl
    ltac:(vm_compute; split; [discriminate|reflexivity]) ltac:(vm_compute; discriminate)
    ltac:(vm_compute; split; reflexivity) ltac:(vm_compute; discriminate)
    ltac:(vm_compute; split; discriminate) ltac:(vm_compute; discriminate) ltac:(vm_compute; reflexivity)
    demo_machine_ok).
  destruct (main_ _ _ _ _ _ _) as [[out w']| | | |] eqn:E;
    [|destruct H|destruct H|vm_compute in E; discriminate E|destruct H].
  destruct H as (head & pre & l1 & l2 & l3 & l4 & _ & H1 & _ & _ & H2 & _ & H4).
  exists head, pre, l1, l2, l3, l4. exact (conj H1 (conj H2 H4)).
Defined.

(** The machine of two threads that fill the store. *)
Definition demo_M (t : nat) : workload (pstate MemLib.world) Z :=
  write_workload (H := mem_ops) demo_flags (fun _ => 0) (fun _ => 0) demo_bm true (Z.of_nat t).

Definition demo_start : tstate MemLib.world Z := t_init 2 {[ demo_path := ∅ ]} 0.

(** The first thread that can go on, but before each of its turns the main thread
    is woken without a signal. *)
Definition demo_turns : list choice :=
  fst (run_first (fun _ => 0) demo_stats demo_M 2 100 demo_start) ≫= fun c => [Spurious Barrier.Main; c].

Definition demo_end : tstate MemLib.world Z :=
  match turns (fun _ => 0) demo_stats demo_M 2 demo_turns demo_start with
  | Some (Normal g) => g
  | _ => demo_start
  end.

Lemma demo_end_reached :
  turns (fun _ => 0) demo_stats demo_M 2 demo_turns demo_start = Some (Normal demo_end).
Proof. vm_compute. reflexivity. Qed.

Lemma threads_wait_for_each_other_witness : Forall (fun th => th_phase th = Finished) (x_threads demo_end).
Proof.
  apply (threads_wait_for_each_other (fun _ => 0) demo_stats demo_M 2 {[ demo_path := ∅ ]} 0 _ _ demo_end_reached).
  vm_compute. reflexivity.
Defined.

Lemma run_benchmark_returns_witness :
  (acts_in demo_turns <= 17 * 2 + 14 + 2 * (5 + 2) + 2 * wakes_in demo_turns)%nat /\
  exists s, RunBenchmarkN (kv := bytes) demo_flags (fun _ => 0) demo_stats demo_M 2 b!"fillseq"
    (mkRun {[ demo_path := ∅ ]} 0 None []) (Normal (tt, s)).
Proof.
  assert (Hr : forall t, rounds (demo_M t) = 5%nat) by (intros t; vm_compute; reflexivity).
  destruct (run_benchmark_returns (kv := bytes) demo_flags (fun _ => 0) demo_stats demo_M 2 5
    (mkRun {[ demo_path := ∅ ]} 0 None []) b!"fillseq" demo_turns _ Hr demo_end_reached) as [(H1 & _ & H3) _].
  split; [exact H1|]. eexists. apply H3. vm_compute. reflexivity.
Defined.
