(* ===== verification/RunSafety.v ===== *)
(** * Every run of the benchmark (bench/bench.cc, Benchmark::Run, RunBenchmark)

    The workloads on a store of unknown contents, sequential and random, by any
    number of threads, and the program, header included, with any list of names:
    it ends with its reports or with the exception of an operation the store
    refused, and nothing in it overflows or reads outside its memory. *)

From Stdlib Require Import SpecFloat.
From S2P Require Import Prelude CLib Random Pmkv Double Histogram Stats TestUtil Workload.
From S2P Require Import WorkloadLogic Fill Mixed FillThreads WhileWriting ReadWriteThreads Barrier.
From S2P Require Import CommandLine MachineInfo Run RunThreads ThreadRuns.

Local Open Scope Z_scope.
Import Benchmark.

(** ** Messages *)

(** So many of the reads found their key, and all of them when [all]. *)
Definition some_found (all : Prop) (reads : Z) (msg : bytes) : Prop :=
  exists k, 0 <= k <= reads /\ (all -> k = reads) /\ msg = found_message k reads.

Lemma some_found_mono (all all' : Prop) reads msg :
  (all' -> all) -> some_found all reads msg -> some_found all' reads msg.
Proof. intros H (k & Hk & Ha & ->). exists k. split; [done|]. split; [auto|done]. Qed.

(** The share of reads, and how many of them found their key. *)
Definition rw_report (all : Prop) (pct total : Z) (msg : bytes) : Prop :=
  let reads := reads_in pct total in
  exists k, 0 <= k <= reads /\ (all -> k = reads) /\ msg = snprintf 100
    (b!"( reads:" ++ format_llu reads ++ b!" writes:" ++ format_llu (total - reads)
     ++ b!" total:" ++ format_llu total ++ b!" found:" ++ format_llu k ++ b!")").

(** What thread [t] says when it has run the method on a store that holds the
    keys of the numbers below [L].  The readers of [readwhilewriting] are the
    threads above 0. *)
Definition says (f : Flags) (L : Z) (m : Method) (t : nat) (msg : bytes) : Prop :=
  let reads := if FLAGS_reads f <? 0 then FLAGS_num f else FLAGS_reads f in
  match m with
  | MReadSeq => some_found (Z.of_nat t * FLAGS_num f + reads <= L) reads msg
  | MReadRandom | MReadMissing => some_found (FLAGS_num f <= L) reads msg
  | MReadRandomWriteRandom => rw_report (FLAGS_num f <= L) (FLAGS_readwritepercent f) reads msg
  | MReadWhileWriting => match t with O => msg = [] | S _ => some_found (FLAGS_num f <= L) reads msg end
  | MWriteSeq | MWriteRandom | MDeleteSeq | MDeleteRandom => msg = []
  end.

(** ** The workloads on any store *)
Section specs.
Context {W kv : Type} {Ops : PmkvOps W kv} {contents : W -> kv -> option (gmap bytes bytes)}
  {Contract : PmkvContract W kv contents}.
Context (f : Flags) (clock junk : nat -> Z) (bm : Benchmark kv) (n : nat).
Hypothesis Hcfg : forall t, (t < n)%nat -> config_ok f bm (Z.of_nat t).

Context (keep : Z -> Prop).

(** The store is open, its values fit the buffer of [PMKVWrapper::get], and it
    holds the keys of the numbers in [keep]. *)
Definition usable (w : W) : Prop :=
  exists m, contents w (kv_ bm) = Some m /\ values_fit m /\ keeps keep (key_size_ bm) m.

Lemma usable_put w k v m :
  contents w (kv_ bm) = Some (<[k := v]> m) -> values_fit m -> keeps keep (key_size_ bm) m ->
  zlen v <= MAX_VAL_LEN -> usable w.
Proof.
  intros Hm Hf Hk Hv. exists (<[k := v]> m). split; [done|]. split; [by apply map_Forall_insert_2|by apply keeps_insert].
Qed.

Lemma any_write_spec seq :
  workload_spec clock (fun t => write_workload f clock junk bm seq (Z.of_nat t)) n
    (put_error bm (contents := contents))
    (fun t i a o => in_loop (W := W) bm seq t i o /\ - 2 ^ 63 <= a < 2 ^ 63)
    (fun t o => Stats.message_ (o_stats o) = []) (fun _ => usable).
Proof using Hcfg Contract.
  split.
  - done.
  - intros t o c w k Ht Hr Hu. unfold thread_start, write_workload. cbn [before].
    rewrite (ok_flags _ _ _ (Hcfg t Ht)), Z.eqb_refl. cbn [negb]. apply wp_bind. unfold wp at 1, NowMicros.
    apply wp_bind, wp_modify, wp_bind, wp_ret, wp_bind. unfold wp at 1.
    rewrite (AllocateKey_eq f junk bm _ (Hcfg t Ht)). apply wp_ret. split; [|done]. split; [|lia].
    by apply (in_loop_start f junk bm n Hcfg seq t o w (S k)).
  - cbn [write_workload rounds body]. intros t i a o c w k Ht Hi [Hl _] (m & Hm & Hf & Hk) _. destruct (Hcfg t Ht).
    pose proof Hl as (s0 & now & st & _ & Hst & Hp).
    eapply wp_write_body; [by apply Hcfg|apply Hp|eapply progress_counting; [by apply Hcfg|apply Hp|by rewrite Hst|lia]|lia|exact Hm|]. intros s' Ha Hm'. split.
    + split; [eapply (in_loop_step f bm n Hcfg); [done|lia|exact Hl|exact Ha]|apply i64_range].
    + eapply usable_put; [exact Hm'|done|done|]. rewrite zlen_xs; lia.
  - cbn [write_workload rounds after]. intros t a o c w k Ht [Hl Ha] Hu.
    apply in_loop_end in Hl as (_ & Hb & Hmsg). apply wp_bind, wp_AddBytes; [cbn [stats]; lia|]. by split.
Qed.

(** The bytes and the number found after [i] rounds. *)
Definition read_bounds (i : nat) (a : Z * Z) : Prop :=
  0 <= fst a <= Z.of_nat i * (MAX_VAL_LEN + key_size_ bm) /\ 0 <= snd a <= Z.of_nat i.

(** The numbers thread [t] draws in [i] rounds are all in [keep]. *)
Definition reads_kept (seq : bool) (t i : nat) : Prop :=
  forall z, z ∈ fst (drawn bm (Z.of_nat t) seq i (Random.new (1000 + Z.of_nat t))) -> keep z.

Definition read_count (seq : bool) (t i : nat) (a : Z * Z) : Prop := reads_kept seq t i -> snd a = Z.of_nat i.

Lemma read_count_step (seq : bool) (t i : nat) (o : own) (b b' fo : Z) (m : gmap bytes bytes) :
  in_loop (W := W) bm seq t i o -> keeps keep (key_size_ bm) m -> read_count seq t i (b, fo) ->
  read_count seq t (S i)
    (b', match m !! key_of (key_size_ bm) (fst (next_key bm (Z.of_nat t) seq (Z.of_nat i) (o_rand o))) with
         | Some _ => fo + 1
         | None => fo
         end).
Proof using.
  intros Hl Hm Hc Hall. pose proof (in_loop_drawn bm _ _ _ _ Hl) as Hd. unfold read_count, reads_kept in *.
  rewrite Hd in Hall. cbn [snd] in *.
  destruct (Hm (fst (next_key bm (Z.of_nat t) seq (Z.of_nat i) (o_rand o)))) as [v ->].
  { apply Hall, elem_of_app. right. by apply list_elem_of_singleton. }
  rewrite Hc; [lia|]. intros z Hz. apply Hall, elem_of_app. by left.
Qed.

Lemma any_read_spec seq :
  workload_spec clock (fun t => read_workload f clock junk bm seq (Z.of_nat t)) n
    (put_error bm (contents := contents))
    (fun t i a o => in_loop (W := W) bm seq t i o /\ read_bounds i a /\ read_count seq t i a)
    (fun t o => some_found (reads_kept seq t (Z.to_nat (reads_ bm))) (reads_ bm) (Stats.message_ (o_stats o)))
    (fun _ => usable).
Proof using Hcfg Contract.
  split.
  - done.
  - intros t o c w k Ht Hr Hu. unfold thread_start, read_workload. cbn [before]. apply wp_bind. unfold wp at 1, NowMicros.
    apply wp_bind, wp_modify, wp_bind. unfold wp at 1.
    rewrite (AllocateKey_eq f junk bm _ (Hcfg t Ht)). apply wp_ret. split; [|done]. split.
    + by apply (in_loop_start f junk bm n Hcfg seq t o w (S k)).
    + split; [split; cbn; lia|done].
  - cbn [read_workload rounds body]. intros t i [b fo] o c w k Ht Hi (Hl & [Hb Hfo] & Hcount) (m & Hm & Hf & Hk) _. destruct (Hcfg t Ht).
    pose proof Hl as (s0 & now & st & _ & Hst & Hp). cbn [fst snd] in *.
    eapply wp_read_body; [by apply Hcfg|apply Hp|eapply progress_counting; [by apply Hcfg|apply Hp|by rewrite Hst|lia]|lia|exact Hm|exact Hf|].
    intros s' Haft Hw. split; [split_and!|rewrite Hw; by exists m].
    + eapply (in_loop_step f bm n Hcfg); [done|lia|exact Hl|exact Haft].
    + unfold read_bounds, MAX_VAL_LEN in *. destruct (m !! _) as [v|] eqn:Ev; cbn [fst snd].
      * pose proof (map_Forall_lookup_1 _ _ _ _ Hf Ev) as Hv. cbn beta in Hv. pose proof (zlen_nonneg v).
        unfold MAX_VAL_LEN in Hv. rewrite i64_id by nia. split; nia.
      * rewrite i64_id by nia. split; nia.
    + pose proof (read_count_step seq t i o b 0 fo m Hl Hk Hcount) as Hs. cbn [rand]. by destruct (m !! _).
  - cbn [read_workload rounds after]. intros t [b fo] o c w k Ht (Hl & [Hb Hfo] & Hcount) Hu. destruct (Hcfg t Ht).
    apply in_loop_end in Hl as (_ & Hby & Hmsg). unfold read_count in Hcount. cbn [fst snd] in *.
    apply wp_bind, wp_bind, wp_AddBytes; [cbn [stats]; unfold MAX_VAL_LEN in *; nia|]. apply wp_modify. split; [|done]. exists fo. split; [lia|]. split; [intros Ha; rewrite (Hcount Ha); lia|].
    unfold own_of, set_stats, Stats.Stop, Stats.AddMessage, Stats.with_bytes.
    cbn [o_stats stats Stats.message_]. rewrite Hmsg. unfold Stats.AppendWithSpace, found_message. cbn [app].
    by destruct (snprintf _ _).
Qed.

Lemma any_delete_spec seq :
  (forall z, ~ keep z) ->
  workload_spec clock (fun t => delete_workload f clock junk bm seq (Z.of_nat t)) n
    (put_error bm (contents := contents)) (fun t i _ o => in_loop (W := W) bm seq t i o)
    (fun t o => Stats.message_ (o_stats o) = []) (fun _ => usable).
Proof using Hcfg Contract.
  intros Hno. split.
  - done.
  - intros t o c w k Ht Hr Hu. unfold thread_start, delete_workload. cbn [before].
    apply wp_bind. unfold wp at 1, NowMicros. apply wp_bind, wp_modify, wp_bind. unfold wp at 1.
    rewrite (AllocateKey_eq f junk bm _ (Hcfg t Ht)). apply wp_ret. split; [|done].
    by apply (in_loop_start f junk bm n Hcfg seq t o w (S k)).
  - cbn [delete_workload rounds body]. intros t i [] o c w k Ht Hi Hl (m & Hm & Hf & Hk) _. destruct (Hcfg t Ht).
    pose proof Hl as (s0 & now & st & _ & Hst & Hp).
    eapply wp_delete_body; [by apply Hcfg|apply Hp|eapply progress_counting; [by apply Hcfg|apply Hp|by rewrite Hst|lia]|lia|exact Hm|]. intros s' Ha Hm'. split.
    + eapply (in_loop_step f bm n Hcfg); [done|lia|exact Hl|exact Ha].
    + eexists. split; [exact Hm'|]. split; [by apply map_Forall_delete|]. intros z Hz. by destruct (Hno z).
  - cbn [delete_workload rounds after]. intros t [] o c w k Ht Hl Hu.
    apply in_loop_end in Hl as (_ & _ & Hmsg). by split.
Qed.

(** *** readwhilewriting *)
Hypothesis Hvs : FLAGS_value_size f = value_size_ bm.

Lemma thread_start_map {A B} (M : nat -> workload (pstate W) A) (M' : nat -> workload (pstate W) B) t
    (inj : A -> B) E Q s :
  before (M' t) = (a ← before (M t); mret (inj a)) ->
  wp E (thread_start clock M t) (fun a => Q (inj a)) s -> wp E (thread_start clock M' t) Q s.
Proof using.
  intros HM Hw. unfold thread_start in *. rewrite HM. revert Hw. unfold wp, mbind, prog_bind, NowMicros, modify.
  cbn [mret prog_ret outcome_bind]. by destruct (before (M t) _) as [[a s']| | | |].
Qed.

Definition writer_local (a : RandomGenerator.RandomGenerator * Z) (o : own) : Prop :=
  zlen (o_key o) = key_size_ bm /\ Random.seed_ok (o_rand o) /\
  (Stats.message_ (o_stats o) = [] /\ Stats.bytes_ (o_stats o) = 0 /\ - 2 ^ 63 <= snd a < 2 ^ 63) /\
  gen_ok (fst a) /\ MAX_VAL_LEN <= zlen (RandomGenerator.data_ (fst a)).

Definition rww_local (t i : nat) (x : RandomGenerator.RandomGenerator * Z + Z * Z) (o : own) : Prop :=
  match t, x with
  | O, inl a => writer_local a o
  | S _, inr a => in_loop (W := W) bm false t i o /\ read_bounds i a /\ read_count false t i a
  | _, _ => False
  end.

Definition rww_fin (t : nat) (o : own) : Prop :=
  match t with
  | O => Stats.message_ (o_stats o) = []
  | S _ => some_found (reads_kept false t (Z.to_nat (reads_ bm))) (reads_ bm) (Stats.message_ (o_stats o))
  end.

Lemma writer_start puts t o w k :
  (0 < n)%nat -> o_rand o = Random.new (1000 + Z.of_nat t) ->
  wp (put_error bm (contents := contents)) (thread_start clock (fun _ => writer_workload f junk bm puts) 0)
    (fun a s => writer_local a (own_of s) /\ world s = w) (mkState w k (o_rand o) (o_stats o) (o_key o)).
Proof using Hcfg Hvs.
  intros Ht Hr. pose proof (Hcfg 0%nat Ht) as Hc. destruct Hc. unfold thread_start, writer_workload, MAX_VAL_LEN in *.
  cbn [before]. apply wp_bind. unfold wp at 1, NowMicros. apply wp_bind, wp_modify, wp_bind.
  destruct (generator_new_ok (FLAGS_value_size f)) as (g & Hg & Hgok & Hdata & _); [lia|].
  eapply wp_lift; [exact Hg|]. apply wp_bind, wp_modify, wp_bind. unfold wp at 1.
  rewrite (AllocateKey_eq f junk bm _ (Hcfg 0%nat Ht)). apply wp_ret. split; [|done].
  unfold writer_local, own_of, set_key, set_stats, MAX_VAL_LEN. cbn [o_key o_rand o_stats key rand stats fst snd].
  split_and!; [unfold zlen; rewrite length_new_block; lia|rewrite Hr; apply Random.new_ok|done..|done|lia].
Qed.

Lemma writer_round i a o w k :
  (0 < n)%nat -> writer_local a o -> usable w ->
  wp (put_error bm (contents := contents)) (if Z.even i then mret a else bg_body f bm kWrite i a)
    (fun a s => writer_local a (own_of s) /\ usable (world s)) (mkState w k (o_rand o) (o_stats o) (o_key o)).
Proof using Hcfg Contract.
  intros Hn0 Ha Hu. destruct (Z.even i); [by apply wp_ret|].
  destruct Ha as (H1 & H2 & H3 & Hg & Hd). destruct Hu as (m & Hm & Hf & Hk).
  pose proof (Hcfg 0%nat Hn0) as Hc. pose proof Hc as Hc'. destruct Hc'.
  eapply (wp_bg_round f bm Hc); [by split|done|done|exact Hm|]. intros z v off r w' Hz Hv Hr Hoff Hm'.
  split; [|eapply usable_put; [exact Hm'|done|done|lia]].
  unfold writer_local, own_of. cbn [o_key o_rand o_stats key rand stats fst snd RandomGenerator.data_].
  destruct Hg as [Hg1 Hg2], H3 as (H3 & H4 & _).
  split_and!; [apply zlen_key_of; lia|done|done|done|apply i64_range..|split; cbn; lia|done].
Qed.

Lemma any_rww_spec puts :
  workload_spec clock (rww_workload f clock junk bm puts) n (put_error bm (contents := contents))
    rww_local rww_fin (fun _ => usable).
Proof using Hcfg Contract Hvs.
  pose proof (any_read_spec false) as Hread. split.
  - done.
  - intros [|t] o c w k Ht Hr Hu.
    + eapply (thread_start_map (fun _ => writer_workload f junk bm puts) _ 0 inl); [done|]. by apply (writer_start puts 0).
    + eapply (thread_start_map (fun t => read_workload f clock junk bm false (Z.of_nat t)) _ (S t) inr); [done|].
      eapply wp_mono; [by apply (sp_start _ _ _ _ _ _ _ Hread (S t) o c w k)|]. done.
  - intros [|t] i [a|a] o c w k Ht Hi Hl Hu Hc; try done.
    + cbn [rww_workload left_workload body writer_workload]. apply wp_bind.
      eapply wp_mono; [by apply writer_round|]. intros a' s' Ha. by apply wp_ret.
    + cbn [rww_workload right_workload body rounds] in *. apply wp_bind.
      eapply wp_mono; [by apply (sp_round _ _ _ _ _ _ _ Hread (S t) i a o c w k)|]. intros a' s' Ha. by apply wp_ret.
  - intros [|t] [a|a] o c w k Ht Hl Hu; try done.
    + destruct Hl as (_ & _ & (Hmsg & Hby & Ha) & _). apply wp_bind, wp_AddBytes; [cbn [stats]; lia|]. by split.
    + cbn [rww_workload right_workload rounds] in Hl. by apply (sp_end _ _ _ _ _ _ _ Hread (S t) a o c w k).
Qed.

(** *** readrandomwriterandom *)
Hypothesis Hpct : 0 <= FLAGS_readwritepercent f <= 100.
Hypothesis Hrw : 0 <= readwrites_ bm < 2 ^ 31 - 200000.

(** Another thread's operation in between. *)
Lemma rw_inv_world s0 i a (s : pstate W) w k :
  Mixed.rw_inv (contents := contents) f bm keep s0 i a s -> usable w ->
  Mixed.rw_inv (contents := contents) f bm keep s0 i a (mkState w k (rand s) (stats s) (key s)).
Proof using. intros [[H1 H2] H3 H4 H5 H6 H7 H8 H9 _] Hu. split; cbn [world stats]; done. Qed.

Definition rw_local (t i : nat) (a : rwstate) (o : own) : Prop :=
  exists s0 : pstate W, Stats.done_ (stats s0) = 0 /\
    (Stats.message_ (stats s0) = [] /\ Stats.bytes_ (stats s0) = 0) /\
    forall w k, usable w ->
      Mixed.rw_inv (contents := contents) f bm keep s0 (Z.of_nat i) a (mkState w k (o_rand o) (o_stats o) (o_key o)).

Lemma rw_local_start t o w k g :
  (t < n)%nat -> o_rand o = Random.new (1000 + Z.of_nat t) -> gen_ok g ->
  MAX_VAL_LEN <= zlen (RandomGenerator.data_ g) ->
  rw_local t 0 (mkRw g [] 0 0 0 0 0 0) (own_of (set_key (new_block junk (key_size_ bm))
    (set_stats (Stats.Start (clock k)) (mkState (W := W) w (S k) (o_rand o) (o_stats o) (o_key o))))).
Proof using Hcfg Hpct.
  intros Ht Hr Hg Hd. destruct (Hcfg t Ht).
  exists (set_stats (Stats.Start (clock k)) (mkState (W := W) w (S k) (o_rand o) (o_stats o) (o_key o))).
  split; [done|]. split; [done|]. intros w' k' Hu.
  split; cbn [get_weight put_weight reads_done writes_done found gen world stats o_rand o_stats o_key own_of]; try done.
  - split; cbn [key rand]; [|rewrite Hr; apply Random.new_ok]. unfold set_key. cbn [key].
    unfold zlen. rewrite length_new_block. lia.
  - by rewrite reads_in_0 by lia.
  - by rewrite reads_in_0 by lia.
Qed.

Lemma any_rw_spec :
  workload_spec clock (fun _ => rw_workload f clock junk bm) n
    (put_error bm (contents := contents)) rw_local
    (fun t o => rw_report (all_kept bm keep) (FLAGS_readwritepercent f) (readwrites_ bm) (Stats.message_ (o_stats o))) (fun _ => usable).
Proof using All.
  split.
  - done.
  - intros t o c w k Ht Hr Hu. pose proof (Hcfg t Ht) as Hc. destruct Hc. unfold thread_start, rw_workload. cbn [before].
    apply wp_bind. unfold wp at 1, NowMicros. apply wp_bind, wp_modify, wp_bind.
    destruct (generator_new_ok (FLAGS_value_size f)) as (g & Hg & Hgok & Hdata & _); [unfold MAX_VAL_LEN in *; lia|].
    eapply wp_lift; [exact Hg|]. apply wp_bind. unfold wp at 1. rewrite (AllocateKey_eq f junk bm _ (Hcfg t Ht)).
    apply wp_ret. split; [|done]. apply rw_local_start; [done..|]. unfold MAX_VAL_LEN. lia.
  - cbn [rw_workload rounds body]. intros t i a o c w k Ht Hi (s0 & Hd & Hm & Hinv) Hu _.
    assert (Hc0 : config_ok f bm 0) by (apply (Hcfg 0%nat); lia).
    eapply wp_mono; [apply (wp_rw_body f clock bm Hc0 Hpct Hrw keep s0 (Z.of_nat i)); [lia|done|by apply Hinv]|].
    intros a' s' Hinv'. split; [|by apply (rw_store _ _ _ _ _ _ _ Hinv')]. exists s0. split; [done|]. split; [done|].
    intros w' k' Hu'. replace (Z.of_nat (S i)) with (Z.of_nat i + 1) by lia. by apply rw_inv_world.
  - cbn [rw_workload rounds after]. intros t a o c w k Ht (s0 & Hd & Hm & Hinv) Hu.
    destruct Hm as [Hm Hby], (Hinv w k Hu) as [_ Hf _ Hrd Hwr Hwd [Hfd Hfa] _ _]. rewrite Z2Nat.id in * by lia.
    pose proof (reads_in_bounds f Hpct (readwrites_ bm) ltac:(lia)). unfold thread_end. cbn [after].
    cbn [stats] in Hf. apply wp_bind, wp_bind, wp_AddBytes; [cbn [stats]; rewrite (fin_bytes _ _ _ Hf); lia|].
    apply wp_modify. split; [|done]. exists (found a). split; [lia|]. split; [by intros Ha; rewrite (Hfa Ha)|].
    unfold own_of, set_stats, Stats.Stop, Stats.AddMessage, Stats.with_bytes. cbn [o_stats stats Stats.message_].
    rewrite (fin_message _ _ _ Hf), Hm. unfold rw_message. rewrite !u64_id by lia.
    rewrite Hrd, Hwr. unfold Stats.AppendWithSpace. cbn [app]. by destruct (snprintf _ _).
Qed.

End specs.

(** ** Whole runs *)
Section runs.
Context {W kv : Type} {Ops : PmkvOps W kv} {contents : W -> kv -> option (gmap bytes bytes)}
  {Contract : PmkvContract W kv contents}.
Context (f : Flags) (clock junk : nat -> Z) (std_remove : bytes -> W -> W) (junk_stats : Stats.Stats)
  (threads : Z -> bytes -> Method -> kv -> Prog (rstate W kv) unit) (names : list bytes).
Hypothesis Hopen : forall path sz create w, exists h w', pmkv_open path sz create w = Normal (h, w').

(** The method of each name ends as some schedule of its threads does. *)
Hypothesis Hthreads : forall n name m h s, name ∈ names -> fst (fst (select name)) = Some m ->
  RunBenchmark_outcome f clock junk junk_stats n name m h s (threads n name m h s).

Hypothesis Hn : 0 <= FLAGS_threads f < 2 ^ 31 - 1.
Hypothesis Hcfg : forall (h : kv) t, Z.of_nat t <= FLAGS_threads f -> config_ok f (Benchmark.new f h) (Z.of_nat t).
Hypothesis Hpct : 0 <= FLAGS_readwritepercent f <= 100.
Hypothesis Hreads : 0 <= (if FLAGS_reads f <? 0 then FLAGS_num f else FLAGS_reads f) < 2 ^ 31 - 200000.

(** The threads [Run] asks for. *)
Definition threads_of (m : Method) : Z :=
  match m with MReadWhileWriting => FLAGS_threads f + 1 | _ => FLAGS_threads f end.

(** A line for each thread, with the name and what the thread says on a store
    that holds the numbers below [L]. *)
Definition thread_lines (L : Z) (name : bytes) (m : Method) (l : list line) : Prop :=
  Z.of_nat (length l) = threads_of m /\
  forall t x, l !! t = Some x ->
    exists r, x = Reported r /\ Stats.line_name r = name /\ says f L m t (Stats.line_message r).

(** What a name prints: the lines of a store made ready and the reports, or,
    for a name without a method, that it is not known. *)
Definition name_lines (L : Z) (name : bytes) (l : list line) : Prop :=
  match fst (fst (select name)) with
  | Some m => exists pre reports, l = pre ++ reports /\ Forall is_setup pre /\ thread_lines L name m reports
  | None => l = match name with [] => [] | _ => [UnknownBenchmark name] end
  end.

(** The numbers of the keys a store is sure to hold after a name: a sequential
    fill by [n] threads leaves the first [n * num], a fresh store and deletions
    none, and the other workloads what they found. *)
Definition loaded_after (L : Z) (name : bytes) : Z :=
  match select name with
  | (Some MWriteSeq, _, _) => FLAGS_threads f * FLAGS_num f
  | (Some (MDeleteSeq | MDeleteRandom), _, _) | (_, true, _) => 0
  | _ => L
  end.

(** What a list of names prints, from a store that holds the numbers below [L]. *)
Fixpoint all_lines (L : Z) (l : list bytes) (ls : list (list line)) : Prop :=
  match l, ls with
  | [], [] => True
  | name :: l', x :: ls' => name_lines L name x /\ all_lines (loaded_after L name) l' ls'
  | _, _ => False
  end.

Lemma reports_thread_lines {A} L name m (l : list (thread A)) :
  Z.of_nat (length l) = threads_of m ->
  (forall t th, l !! t = Some th -> says f L m t (Stats.message_ (o_stats (th_own th)))) ->
  thread_lines L name m (reports f name l).
Proof.
  intros Hl Hmsg. split; [unfold reports; by rewrite length_map|].
  intros t x (th & -> & Hth)%list_lookup_fmap_Some. eexists. split; [reflexivity|].
  pose proof (Hmsg t th Hth) as Hm. unfold Stats.Report. cbn [fst Stats.line_name Stats.line_message].
  split; [done|]. by destruct (Stats.done_ _ <? 1).
Qed.

Definition below (L z : Z) : Prop := 0 <= z < L.

Definition ready_for (L : Z) (h : kv) (w : W) : Prop :=
  usable (contents := contents) (Benchmark.new f h) (below L) w.

Lemma ready_for_less L L' h w : L' <= L -> ready_for L h w -> ready_for L' h w.
Proof.
  intros Hle (m & Hm & Hf & Hk). exists m. split_and!; [done..|]. intros z Hz. apply Hk. unfold below in *. lia.
Qed.

Lemma threads_of_nonneg m : 0 <= threads_of m < 2 ^ 31.
Proof using Hn. destruct m; cbn; lia. Qed.

Lemma config_threads m (h : kv) t :
  (t < Z.to_nat (threads_of m))%nat -> config_ok f (Benchmark.new f h) (Z.of_nat t).
Proof using Hn Hcfg. intros Ht. apply Hcfg. destruct m; cbn in Ht; lia. Qed.

(** A workload of which the threads say what they should. *)
Lemma method_lines {A} L (M : nat -> workload (pstate W) A) local fin store name m h s :
  workload_spec clock M (Z.to_nat (threads_of m)) (put_error (Benchmark.new f h) (contents := contents)) local fin store ->
  (forall t o, (t < Z.to_nat (threads_of m))%nat -> fin t o -> says f L m t (Stats.message_ (o_stats o))) ->
  RunBenchmarkN f clock junk_stats M (threads_of m) name s (threads (threads_of m) name m h s) ->
  store (fun _ => O) (r_world s) ->
  wp run_error (threads (threads_of m) name m h)
    (fun _ s' => exists l, thread_lines L name m l /\ r_out s' = r_out s ++ l /\ r_kv s' = r_kv s /\
       store (fun t => rounds (M t)) (r_world s')) s.
Proof using Hn.
  intros Hspec Hsay Hrun Hu. pose proof (threads_of_nonneg m). eapply wp_mono.
  - eapply (RunBenchmarkN_wp _ _ _ M _ _ _ _ (threads_of m)); [lia|exact Hspec|apply put_error_run|exact Hu|exact Hrun].
  - intros [] s' (l & Hl & Hfin & Hst & Hk & Ho). exists (reports f name l). split; [|by split_and!].
    apply reports_thread_lines; [lia|]. intros t th Hth. apply Hsay; [rewrite <- Hl; by eapply lookup_lt_Some|by eapply Hfin].
Qed.

(** Sequential reads of thread [t], and random reads, on the numbers below [L]. *)
Lemma seq_kept (h : kv) L t i :
  Z.of_nat t * FLAGS_num f + Z.of_nat i <= L -> reads_kept (Benchmark.new f h) (below L) true t i.
Proof using Hcfg Hn.
  intros HL z Hz%elem_of_drawn_seq. cbn [Benchmark.new num_] in Hz. destruct (Hcfg h 0%nat ltac:(lia)).
  cbn [Benchmark.new num_] in *. unfold below. nia.
Qed.

Lemma random_kept (h : kv) L t i : FLAGS_num f <= L -> reads_kept (Benchmark.new f h) (below L) false t i.
Proof using Hcfg Hn.
  intros HL z Hz. destruct (Hcfg h 0%nat ltac:(lia)). cbn [Benchmark.new num_] in *.
  pose proof (drawn_random_range (Benchmark.new f h) _ _ _ z ltac:(cbn; lia) Hz) as Hr. cbn [Benchmark.new num_] in Hr.
  unfold below. lia.
Qed.

(** What a sequential fill leaves. *)
Lemma filled_ready h w :
  fill_store (contents := contents) (Benchmark.new f h) (Z.to_nat (FLAGS_threads f)) ∅ true
    (fun _ => Z.to_nat (FLAGS_num f)) w -> ready_for (FLAGS_threads f * FLAGS_num f) h w.
Proof using Hcfg Hn.
  intros (m & Hm & Hh). destruct (Hcfg h 0%nat ltac:(lia)). cbn [Benchmark.new num_ key_size_ value_size_] in *.
  exists m. split; [done|]. split.
  - intros k v Hv. destruct (decide (v = xs (Benchmark.new f h))) as [->|Hne].
    { rewrite zlen_xs; cbn [Benchmark.new value_size_]; lia. }
    rewrite (holds_out _ _ _ _ _ Hh k) in Hv; [by rewrite lookup_empty in Hv|].
    intros z Hz <-. destruct Hne. pose proof (holds_in _ _ _ _ _ Hh z Hz). cbn [Benchmark.new key_size_] in *. congruence.
  - intros z [Hz0 Hz]. exists (xs (Benchmark.new f h)). apply (holds_in _ _ _ _ _ Hh z). exists (Z.to_nat (z / FLAGS_num f)).
    pose proof (Z.div_lt_upper_bound z (FLAGS_num f) (FLAGS_threads f) ltac:(lia) ltac:(lia)).
    pose proof (Z.div_pos z (FLAGS_num f) ltac:(lia) ltac:(lia)).
    pose proof (Z.div_mod z (FLAGS_num f) ltac:(lia)). pose proof (Z.mod_pos_bound z (FLAGS_num f) ltac:(lia)).
    split; [lia|]. rewrite elem_of_drawn_seq. cbn [Benchmark.new num_]. nia.
Qed.

(** The workloads that leave the keys they find. *)
Definition adds (m : Method) : bool :=
  match m with MWriteSeq | MDeleteSeq | MDeleteRandom => false | _ => true end.

Lemma adding_method L name m h s :
  name ∈ names -> fst (fst (select name)) = Some m -> adds m = true -> ready_for L h (r_world s) ->
  wp run_error (threads (threads_of m) name m h)
    (fun _ s' => exists l, thread_lines L name m l /\ r_out s' = r_out s ++ l /\ r_kv s' = r_kv s /\
       ready_for L h (r_world s')) s.
Proof using All.
  intros Hin Hsel Ha Hu. pose proof (Hthreads (threads_of m) name m h s Hin Hsel) as Hrun.
  pose proof (config_threads m h) as Hc.
  destruct m; try done; cbn [RunBenchmark_outcome] in Hrun; try (apply rww_schedules in Hrun as [puts Hrun]);
    (eapply (method_lines L _ _ _ (fun _ => ready_for L h)); [| |exact Hrun|exact Hu]).
  - by apply any_write_spec.
  - done.
  - by apply any_read_spec.
  - intros t o Ht. apply some_found_mono. intros HL. apply seq_kept. rewrite Z2Nat.id by (cbn; lia). exact HL.
  - by apply any_read_spec.
  - intros t o Ht. apply some_found_mono. apply random_kept.
  - by apply any_read_spec.
  - intros t o Ht. apply some_found_mono. apply random_kept.
  - by apply any_rww_spec.
  - intros [|t] o Ht; [done|]. apply some_found_mono. apply random_kept.
  - by apply any_rw_spec.
  - intros t o Ht (k & Hk & Hall & ->). exists k. split; [done|]. split; [|done]. intros HL. apply Hall.
    intros z Hz. cbn [Benchmark.new num_] in Hz. unfold below. lia.
Qed.

Lemma deleting_method L name sq h s :
  name ∈ names -> fst (fst (select name)) = Some (delete_method sq) -> ready_for L h (r_world s) ->
  wp run_error (threads (threads_of (delete_method sq)) name (delete_method sq) h)
    (fun _ s' => exists l, thread_lines L name (delete_method sq) l /\ r_out s' = r_out s ++ l /\ r_kv s' = r_kv s /\
       ready_for 0 h (r_world s')) s.
Proof using All.
  intros Hin Hsel Hu. pose proof (config_threads (delete_method sq) h) as Hc.
  pose proof (Hthreads (threads_of (delete_method sq)) name (delete_method sq) h s Hin Hsel) as Hrun.
  eapply (method_lines L (fun t => delete_workload f clock junk (Benchmark.new f h) sq (Z.of_nat t)) _ _
    (fun _ => ready_for 0 h)).
  - apply (any_delete_spec (contents := contents) f clock junk (Benchmark.new f h) _ Hc (below 0)). unfold below. lia.
  - by destruct sq.
  - by destruct sq.
  - destruct Hu as (m & H1 & H2 & _). exists m. split_and!; [done..|]. unfold below. intros z Hz. lia.
Qed.

Lemma any_method L L' name m h s :
  name ∈ names -> fst (fst (select name)) = Some m ->
  ready_for L h (r_world s) -> (m = MWriteSeq -> contents (r_world s) h = Some ∅) ->
  L' = match m with MWriteSeq => FLAGS_threads f * FLAGS_num f | _ => if adds m then L else 0 end ->
  wp run_error (threads (threads_of m) name m h)
    (fun _ s' => exists l, thread_lines L name m l /\ r_out s' = r_out s ++ l /\ r_kv s' = r_kv s /\
       ready_for L' h (r_world s')) s.
Proof using All.
  intros Hin Hsel Hu Hempty ->. pose proof (config_threads m h) as Hc.
  destruct (adds m) eqn:Ha; [eapply wp_mono; [by apply adding_method|by destruct m]|].
  pose proof (Hthreads (threads_of m) name m h s Hin Hsel) as Hrun.
  destruct m; try done; cbn [RunBenchmark_outcome] in Hrun.
  - specialize (Hempty eq_refl). eapply wp_mono.
    + eapply (method_lines L); [by apply (fill_spec f clock junk (Benchmark.new f h) _ Hc ∅ true)| |exact Hrun|].
      * by intros t o _ (_ & _ & H).
      * exists ∅. split; [done|]. split; [|done]. intros z (t & _ & Hz). by apply elem_of_nil in Hz.
    + intros [] s' (l & H1 & H2 & H3 & H4). exists l. split_and!; [done..|]. by apply filled_ready.
  - by apply (deleting_method L name true).
  - by apply (deleting_method L name false).
Qed.

(** The store between two names. *)
Definition between (L : Z) (s : rstate W kv) : Prop := exists h, r_kv s = Some h /\ ready_for L h (r_world s).

Lemma select_cases name :
  (exists m fresh extra, select name = (Some m, fresh, extra) /\ FLAGS_threads f + extra = threads_of m /\
     (m = MWriteSeq -> fresh = true) /\ (fresh = true -> m = MWriteSeq \/ m = MWriteRandom)) \/
  select name = (None, false, 0).
Proof.
  unfold select. repeat case_bool_decide; [left..|by right];
    eexists _, _, _; (split; [reflexivity|]); cbn; (split; [lia|]); by auto.
Qed.

(** A name whose store is open, or that opens a fresh one. *)
Lemma any_name L name s :
  name ∈ names -> (between L s \/ snd (fst (select name)) = true) ->
  wp run_error (run_name f clock std_remove threads name)
    (fun _ s' => exists l, name_lines L name l /\ r_out s' = r_out s ++ l /\ between (loaded_after L name) s') s.
Proof using All.
  intros Hin Hs. unfold name_lines, loaded_after.
  destruct (select_cases name) as [(m & fresh & extra & Hsel & Hex & Hseq & Hfill)|Hsel].
  - pose proof (threads_of_nonneg m).
    destruct (run_name_prepared (contents := contents) f clock std_remove threads Hopen name m fresh extra s Hsel)
      as [E|(h & s' & pre & E & Hk & Ho & Hpre & Hfresh & Hsame)]; [lia|unfold wp; rewrite E; by left|].
    unfold wp at 1. rewrite E, Hex. rewrite Hsel in Hs |- *. cbn [fst snd] in *.
    match goal with |- match ?x with _ => _ end =>
      change x with (threads (threads_of m) name m h s') end.
    set (L0 := if fresh then 0 else L).
    assert (Hu : ready_for L0 h (r_world s')).
    { subst L0. destruct fresh.
      - exists ∅. split; [by apply Hfresh|]. split; [apply map_Forall_empty|]. intros z Hz. unfold below in Hz. lia.
      - destruct Hs as [(h0 & Hk0 & Hu)|]; [|done]. by destruct (Hsame eq_refl h0 Hk0) as [-> ->]. }
    pose proof (any_method L0 _ name m h s' Hin ltac:(by rewrite Hsel) Hu (fun E => Hfresh (Hseq E)) eq_refl) as Hwp.
    unfold wp in Hwp. destruct (threads (threads_of m) name m h s') as [[[] s2]| | | |]; try done.
    destruct Hwp as (l & Hl & Ho2 & Hk2 & Hu2). exists (pre ++ l). split.
    + exists pre, l. split_and!; [done..|]. subst L0. destruct fresh; [|done].
      destruct (Hfill eq_refl) as [-> | ->]; exact Hl.
    + rewrite Ho2, Ho, <- app_assoc. split; [done|]. exists h. rewrite Hk2. split; [done|]. subst L0.
      destruct fresh, m; try done; by destruct (Hfill eq_refl).
  - rewrite Hsel in *. cbn [fst snd] in *. destruct Hs as [(h & Hk & Hu)|]; [|done].
    unfold run_name. rewrite Hsel. destruct name as [|c name].
    + unfold wp, mbind, prog_bind, gets, mret, prog_ret. rewrite Hk. exists []. rewrite app_nil_r. split; [done|].
      split; [done|]. by exists h.
    + unfold wp, mbind, prog_bind, gets, mret, prog_ret, print, modify. cbn [r_kv]. rewrite Hk.
      exists [UnknownBenchmark (c :: name)]. split; [done|]. split; [done|]. by exists h.
Qed.

Lemma any_names l : forall L s,
  (forall x, x ∈ l -> x ∈ names) -> between L s ->
  wp run_error (run_names f clock std_remove threads l)
    (fun _ s' => exists ls, all_lines L l ls /\ r_out s' = r_out s ++ concat ls) s.
Proof using All.
  induction l as [|name l IH]; intros L s Hl Hs; cbn [run_names].
  - apply wp_ret. exists []. by rewrite app_nil_r.
  - apply wp_bind. eapply wp_mono; [apply (any_name L); [apply Hl; by left|by left]|].
    intros [] s1 (l1 & Hl1 & Ho & Hs1). eapply wp_mono; [apply IH; [intros x Hx; apply Hl; by right|exact Hs1]|].
    intros [] s2 (ls & Hls & Ho2). exists (l1 :: ls). split; [by split|]. cbn [concat]. by rewrite Ho2, Ho, <- app_assoc.
Qed.

End runs.

(** ** Properties *)

(** C4: any list of benchmarks.  The first fills a fresh store; the others are
    any names, known or not, in any order, [readwhilewriting] with its writer
    included.  With any number of threads, any schedule of them, flags in any
    order and sizes for which no counter, key number or entry size overflows, [main]
    on a machine whose cpuinfo the header can show (none, or lines as in [host_ok])
    and a store that keeps the contract of pmkv.h prints the header and for every name one line per thread that
    gives its name and what its workload counted, or that the name is not known.
    From a [fillseq] to the next deletion or fresh store every read of a random
    key finds it, in [readrandom], [readmissing], [readwhilewriting] and
    [readrandomwriterandom], and so do the sequential reads of a thread as far
    as the fill has gone.  The only other ending is the exception of a store
    that cannot be opened or of a [put] that was refused: nothing in a run, the
    header included, is undefined, fails an assertion or exits, if one grants the
    constructor of [Stats] some value for the [start_] it reads uninitialised. *)
Theorem any_benchmarks_end {W kv : Type} {Ops : PmkvOps W kv}
  (contents : W -> kv -> option (gmap bytes bytes)) (Contract : PmkvContract W kv contents)
  machine clock junk std_remove junk_stats threads l (w : W) first rest
  (f := fold_left apply_setting l default_flags)
  (reads := if FLAGS_reads f <? 0 then FLAGS_num f else FLAGS_reads f)
  (Hl : Forall setting_ok l)
  (Hopen : forall path sz create w, exists h w', pmkv_open path sz create w = Normal (h, w'))
  (Hnames : fields (FLAGS_benchmarks f) = first :: rest)
  (Hfirst : first = b!"fillseq" \/ first = b!"fillrandom")
  (Hthreads : forall n name m (h : kv) s, name ∈ first :: rest -> fst (fst (select name)) = Some m ->
     RunBenchmark_outcome f clock junk junk_stats n name m h s (threads f n name m h s))
  (Hn : 0 <= FLAGS_threads f < 2 ^ 31 - 1)
  (Hall : FLAGS_threads f * FLAGS_num f + Z.max (FLAGS_num f) reads <= 2 ^ 31)
  (Hnum : 0 < FLAGS_num f < 2 ^ 31 - 200000) (Hreads : reads < 2 ^ 31 - 200000)
  (Hvalue : 0 <= FLAGS_value_size f <= MAX_VAL_LEN)
  (Hkey : 0 <= FLAGS_key_size f) (Hentry : FLAGS_key_size f + FLAGS_value_size f < 2 ^ 31)
  (Hpct : 0 <= FLAGS_readwritepercent f <= 100) (Hmachine : host_ok machine) :
  match main_ machine clock std_remove threads (map print_setting l) w with
  | Normal (out, _) => exists head ls, PrintHeader machine f (FLAGS_num f) = Normal head /\
      out = Header head :: concat ls /\ all_lines f 0 (first :: rest) ls
  | Thrown e => e = PMKVWrapper.open_failed \/ e = PMKVWrapper.put_failed
  | _ => False
  end.
Proof.
  assert (Hr0 : 0 <= reads) by (unfold reads; zcases; lia).
  assert (Hcfg : forall (h : kv) t, Z.of_nat t <= FLAGS_threads f -> config_ok f (Benchmark.new f h) (Z.of_nat t)).
  { intros h t Ht. split; cbn [Benchmark.new num_ reads_ value_size_ key_size_]; fold reads; try lia.
    assert (Z.of_nat t * FLAGS_num f <= FLAGS_threads f * FLAGS_num f)
      by (apply Z.mul_le_mono_nonneg_r; lia). lia. }
  destruct (Run_printed f clock std_remove (threads f) machine (mkRun w 0 None [])) as (head & Eh & Erun);
    [done|lia|]. cbn [r_world r_ticks r_kv r_out app] in Erun.
  unfold main_. rewrite main_flags_printed by done. fold f. cbn [mbind outcome_bind]. rewrite Erun, Hnames. clear Erun.
  assert (Hf1 : snd (fst (select first)) = true) by (by destruct Hfirst as [-> | ->]).
  assert (Hwp : wp run_error (run_names f clock std_remove (threads f) (first :: rest))
    (fun _ s' => exists ls, all_lines f 0 (first :: rest) ls /\ r_out s' = [Header head] ++ concat ls)
    (mkRun w 0 None [Header head])).
  { cbn [run_names]. apply wp_bind. eapply wp_mono.
    - apply (any_name (contents := contents) f clock junk std_remove junk_stats (threads f) (first :: rest) Hopen
        Hthreads Hn Hcfg Hpct (conj Hr0 Hreads) 0); [by left|by right].
    - intros [] s1 (l1 & Hl1 & Ho & Hs1). eapply wp_mono;
        [apply (any_names (contents := contents) f clock junk std_remove junk_stats (threads f) (first :: rest) Hopen
           Hthreads Hn Hcfg Hpct (conj Hr0 Hreads)); [intros x Hx; by right|exact Hs1]|].
      intros [] s2 (ls & Hls & Ho2). exists (l1 :: ls). split; [by split|]. by rewrite Ho2, Ho. }
  unfold wp in Hwp. destruct (run_names _ _ _ _ _ _) as [[u s]| | | |]; try done.
  cbn [mbind outcome_bind]. destruct Hwp as (ls & H1 & H2). by exists head, ls.
Qed.

Definition demo_any_settings : list setting :=
  [SThreads 2; SNum 3; SBenchmarks b!"fillseq,overwrite,nothing,readmissing,,readrandom,deleterandom";
   SReads 4; SValueSize 3; SDb b!"/pool"].

Definition demo_any_flags : Flags := fold_left apply_setting demo_any_settings default_flags.

Definition demo_any_names : list bytes :=
  [b!"fillseq"; b!"overwrite"; b!"nothing"; b!"readmissing"; []; b!"readrandom"; b!"deleterandom"].

Lemma any_benchmarks_end_witness :
  match main_ (H := mem_ops) demo_machine (fun _ => 0) (fun _ w => w) demo_method (map print_setting demo_any_settings) ∅ with
  | Normal (out, _) => exists head ls, PrintHeader demo_machine demo_any_flags 3 = Normal head /\
      out = Header head :: concat ls /\ all_lines demo_any_flags 0 demo_any_names ls
  | _ => False
  end.
Proof.
  pose proof (any_benchmarks_end MemLib.mem_store mem_contract demo_machine (fun _ => 0) (fun _ => 0)
    (fun _ w => w) demo_stats demo_method demo_any_settings ∅ b!"fillseq" (tail demo_any_names)) as H. cbv zeta in H.
  assert (Hok : Forall setting_ok demo_any_settings).
  { repeat (apply Forall_cons_2; [cbn [setting_ok]; first [lia | reflexivity]|]). apply Forall_nil_2. }
  specialize (H Hok mem_opens ltac:(vm_compute; reflexivity) ltac:(left; reflexivity)).
  assert (Hthreads : forall (n : Z) (name : bytes) (m : Method) (h : bytes) (s : rstate MemLib.world bytes),
    name ∈ demo_any_names -> fst (fst (select name)) = Some m ->
    RunBenchmark_outcome (H := mem_ops) demo_any_flags (fun _ => 0) (fun _ => 0)
      demo_stats n name m h s (demo_method demo_any_flags n name m h s)).
  { intros n name m h s Hin Hsel. apply demo_method_outcome. intros ->. unfold demo_any_names in Hin.
    rewrite !elem_of_cons, elem_of_nil in Hin.
    destruct Hin as [->|[->|[->|[->|[->|[->|[->|[]]]]]]]]; vm_compute in Hsel; discriminate Hsel. }
  specialize (H Hthreads
    ltac:(vm_compute; split; [discriminate|reflexivity]) ltac:(vm_compute; discriminate)
    ltac:(vm_compute; split; reflexivity) ltac:(vm_compute; reflexivity)
    ltac:(vm_compute; split; discriminate) ltac:(vm_compute; discriminate) ltac:(vm_compute; reflexivity)
    ltac:(vm_compute; split; discriminate) demo_machine_ok).
  destruct (main_ _ _ _ _ _ _) as [[out w']| | | |] eqn:E;
    [exact H|destruct H|destruct H|vm_compute in E; discriminate E|destruct H].
Defined.

(** The program's own defaults are among the runs above. *)
Lemma default_run_covered :
  fields (FLAGS_benchmarks default_flags) =
    [b!"fillseq"; b!"fillrandom"; b!"overwrite"; b!"readseq"; b!"readrandom"; b!"readmissing"; b!"deleteseq";
     b!"deleterandom"; b!"readwhilewriting"; b!"readrandomwriterandom"] /\
  FLAGS_reads default_flags = -1 /\ FLAGS_threads default_flags = 1 /\ 0 < FLAGS_num default_flags <= 1000000 /\
  FLAGS_value_size default_flags <= MAX_VAL_LEN /\ FLAGS_key_size default_flags = 16 /\
  FLAGS_readwritepercent default_flags = 90.
Proof. split_and!; by vm_compute. Qed.
