(* ===== verification/WriterRuns.v ===== *)
(** * Runs of readwhilewriting (bench/bench.cc, RunBenchmark, BGWriter)

    A scheduler that lets the writer look at the counters only when the look is
    the one the relation [RunReadWhileWriting] asks for, and that it brings the
    threads to their ends: the relation has an outcome from every state.  Beside
    the rounds of the writer a run has a number of actions bounded by the number of
    threads, reads and wake-ups without a signal, however many
    puts the writer makes, and when nobody else can go on the writer sees the
    others done and leaves. *)

From Stdlib Require Import SpecFloat.
From S2P Require Import Prelude CLib Random Pmkv Double Histogram Stats TestUtil Workload.
From S2P Require Import WorkloadLogic Fill Mixed FillThreads WhileWriting ReadWriteThreads Barrier.
From S2P Require Import CommandLine Run RunThreads ThreadRuns.

Local Open Scope Z_scope.
Import Benchmark.

(** ** The scheduler *)
Section looking.
Context {W A : Type}.
Context (clock : nat -> Z) (junk_stats : Stats.Stats) (M : nat -> workload (pstate W) A) (puts n : nat).
Implicit Types g : tstate W A.

Fixpoint first_look (l : list Barrier.who) (g : tstate W A) : option (Barrier.who * outcome (tstate W A)) :=
  match l with
  | [] => None
  | t :: l' =>
      match (if looks_right puts g (Act t) then turn clock junk_stats M n (Act t) g else None) with
      | Some o => Some (t, o)
      | None => first_look l' g
      end
  end.

Fixpoint run_looking (fuel : nat) (g : tstate W A) : list choice * outcome (tstate W A) :=
  match fuel with
  | O => ([], Normal g)
  | S fuel' =>
      match first_look (all_threads n) g with
      | None => ([], Normal g)
      | Some (t, Normal g') => let '(l, o) := run_looking fuel' g' in (Act t :: l, o)
      | Some (t, o) => ([Act t], o)
      end
  end.

Lemma first_look_some l g t o :
  first_look l g = Some (t, o) ->
  looks_right puts g (Act t) = true /\ turn clock junk_stats M n (Act t) g = Some o.
Proof.
  induction l as [|x l IH]; cbn [first_look]; [done|].
  destruct (looks_right puts g (Act x)) eqn:El; [|apply IH].
  destruct (turn clock junk_stats M n (Act x) g) as [o'|] eqn:Et; [|apply IH]. intros E. by simplify_eq.
Qed.

Lemma run_looking_ok fuel : forall g l o,
  run_looking fuel g = (l, o) ->
  turns clock junk_stats M n l g = Some o /\ all_looks clock junk_stats M puts n l g = true.
Proof.
  induction fuel as [|fuel IH]; intros g l o; cbn [run_looking]; [by intros [= <- <-]|].
  destruct (first_look (all_threads n) g) as [[t [g1| | | |]]|] eqn:E; [..|by intros [= <- <-]];
    apply first_look_some in E as [Hl Ht].
  - destruct (run_looking fuel g1) as [l1 o1] eqn:E1. intros [= <- <-]. destruct (IH _ _ _ E1) as [H1 H2].
    cbn [turns all_looks]. rewrite Hl, Ht. by cbn [mbind option_bind andb].
  - intros [= <- <-]. cbn [turns all_looks]. by rewrite Hl, Ht.
  - intros [= <- <-]. cbn [turns all_looks]. by rewrite Hl, Ht.
  - intros [= <- <-]. cbn [turns all_looks]. by rewrite Hl, Ht.
  - intros [= <- <-]. cbn [turns all_looks]. by rewrite Hl, Ht.
Qed.

Lemma worker_turn_some g i :
  is_Some (Barrier.step_worker n no_writer i (x_bar g)) -> is_Some (turn clock junk_stats M n (Act (Barrier.Worker i)) g).
Proof. intros [b Hb]. cbn [turn]. unfold worker_turn. rewrite Hb. cbn. repeat case_match; eauto. Qed.

Lemma others_look g t : t <> Barrier.Worker 0 -> looks_right puts g (Act t) = true.
Proof. intros Ht. unfold looks_right. by destruct t as [|[|i]]. Qed.

Lemma worker_in g i p :
  cinv n g -> Barrier.workers (x_bar g) !! i = Some p -> Barrier.Worker i ∈ all_threads n.
Proof.
  intros Hc Hp. pose proof (Barrier.reachable_inv _ _ _ (c_bar _ _ Hc)) as Hinv. unfold all_threads.
  apply elem_of_cons. right. apply list_elem_of_fmap. exists i. split; [done|]. apply elem_of_seq.
  apply lookup_lt_Some in Hp. rewrite (Barrier.inv_len _ _ _ Hinv) in Hp. lia.
Qed.

(** The thread that holds the mutex can go on. *)
Lemma holder_turn g t :
  cinv n g -> Barrier.mu (x_bar g) = Some t -> Barrier.workers (x_bar g) !! 0%nat = Some Barrier.WRun ->
  t ∈ all_threads n /\ looks_right puts g (Act t) = true /\ is_Some (turn clock junk_stats M n (Act t) g).
Proof.
  intros Hc Hmu H0. pose proof (Barrier.reachable_inv _ _ _ (c_bar _ _ Hc)) as Hinv. destruct t as [|j].
  - split; [apply list_elem_of_In; by left|]. split; [done|].
    apply (Barrier.inv_mholder _ _ _ Hinv) in Hmu. cbn [turn]. unfold main_turn, Barrier.step_main.
    destruct (Barrier.main (x_bar g)); try done; case_match; cbn; eauto.
  - pose proof (Barrier.inv_holder_lt _ _ _ Hinv _ Hmu) as Hj. rewrite <- (Barrier.inv_len _ _ _ Hinv) in Hj.
    destruct (lookup_lt_is_Some_2 _ _ Hj) as [p Hp]. pose proof Hmu as Hh.
    apply (Barrier.inv_holder _ _ _ Hinv _ _ Hp) in Hh. split; [by eapply worker_in|]. split.
    + apply others_look. intros [= ->]. rewrite H0 in Hp. injection Hp as <-. done.
    + apply worker_turn_some. unfold Barrier.step_worker. rewrite Hp. destruct p; try done; try case_match; eauto.
Qed.

(** If the others are not done, one of them can go on. *)
Lemma another_turn g :
  cinv n g -> Barrier.mu (x_bar g) = None -> Barrier.workers (x_bar g) !! 0%nat = Some Barrier.WRun ->
  (Barrier.num_done (x_bar g) + 1 < Barrier.num_initialized (x_bar g))%nat ->
  exists t, t ∈ all_threads n /\ t <> Barrier.Worker 0 /\ is_Some (turn clock junk_stats M n (Act t) g).
Proof.
  intros Hc Hmu H0 Hlt. pose proof (Barrier.reachable_inv _ _ _ (c_bar _ _ Hc)) as Hinv.
  pose proof (Barrier.inv_passed _ _ _ Hinv _ _ H0 eq_refl) as Hst.
  assert (Hj : exists j p, j <> 0%nat /\ Barrier.workers (x_bar g) !! j = Some p /\ Barrier.finished p = false).
  { rewrite (Barrier.inv_all _ _ _ Hinv Hst), (Barrier.inv_done _ _ _ Hinv), <- (Barrier.inv_len _ _ _ Hinv) in Hlt.
    destruct (Barrier.workers (x_bar g)) as [|p0 l]; [done|]. cbn [Barrier.cnt length] in Hlt.
    assert (Hl : ~ Forall (fun p => Barrier.finished p = true) l).
    { intros Hall%Barrier.cnt_full. destruct (Barrier.finished p0); cbn in Hlt; lia. }
    apply not_Forall_Exists in Hl; [|apply _]. apply Exists_exists in Hl as (p & [j Hj]%list_elem_of_lookup & Hp).
    exists (S j), p. split; [done|]. split; [done|]. by apply not_true_is_false. }
  destruct Hj as (j & p & Hj0 & Hp & Hfin). exists (Barrier.Worker j).
  split; [by eapply worker_in|]. split; [congruence|]. apply worker_turn_some.
  assert (Hh : Barrier.holding p = false).
  { destruct (Barrier.holding p) eqn:E; [|done]. apply (Barrier.inv_holder _ _ _ Hinv _ _ Hp) in E. congruence. }
  assert (Hnew : p <> Barrier.WNew).
  { intros ->. apply (Barrier.inv_spawn _ _ _ Hinv j) in Hp as [Hp _]. specialize (Hp eq_refl).
    pose proof (Barrier.inv_start _ _ _ Hinv) as Hs. rewrite Hst in Hs. by destruct (Barrier.main (x_bar g)). }
  assert (Hwait : p <> Barrier.WWait) by (intros ->; apply (Barrier.inv_sleep _ _ _ Hinv) in Hp; congruence).
  unfold Barrier.step_worker, Barrier.lock. rewrite Hp, Hmu. destruct p; try done; cbn; eauto.
Qed.

Lemma other_turn g :
  cinv n g -> Barrier.mu (x_bar g) = None -> Barrier.workers (x_bar g) !! 0%nat = Some Barrier.WRun ->
  (Barrier.num_done (x_bar g) + 1 < Barrier.num_initialized (x_bar g))%nat ->
  exists t, t ∈ all_threads n /\ looks_right puts g (Act t) = true /\ is_Some (turn clock junk_stats M n (Act t) g).
Proof.
  intros Hc Hmu H0 Hlt. destruct (another_turn g Hc Hmu H0 Hlt) as (t & H1 & H2 & H3). exists t.
  split; [done|]. split; [by apply others_look|done].
Qed.

(** If nobody but the writer can go on, it looks at counters that tell it to
    leave. *)
Definition other_can_go (g : tstate W A) : Prop :=
  exists t, t <> Barrier.Worker 0 /\ is_Some (turn clock junk_stats M n (Act t) g).

Definition writer_leaves (g : tstate W A) : Prop :=
  is_Some (turn clock junk_stats M n (Act (Barrier.Worker 0)) g) /\
  forall th k a, Barrier.workers (x_bar g) !! 0%nat = Some Barrier.WRun -> x_threads g !! 0%nat = Some th ->
    th_phase th = Looping k a ->
    Barrier.mu (x_bar g) = None /\ (Barrier.num_initialized (x_bar g) <= Barrier.num_done (x_bar g) + 1)%nat.

Lemma others_or_writer g : cinv n g -> t_final g \/ other_can_go g \/ writer_leaves g.
Proof.
  intros Hc. destruct (turn_progress clock junk_stats M n g Hc) as [|(t & Hin & Ht)]; [by left|right].
  destruct (Barrier.who_eq_dec t (Barrier.Worker 0)) as [->|Hne]; [|left; by exists t].
  destruct (Barrier.workers (x_bar g) !! 0%nat) as [p|] eqn:H0.
  2: { right. split; [done|]. intros th k a. rewrite H0. done. }
  destruct (Barrier.wpc_eq_dec p Barrier.WRun) as [->|Hp].
  2: { right. split; [done|]. intros th k a. rewrite H0. by intros [= ->]. }
  destruct (Barrier.mu (x_bar g)) as [u|] eqn:Hmu.
  - left. exists u. destruct (holder_turn g u Hc Hmu H0) as (_ & _ & Hu). split; [|done]. intros ->.
    pose proof (Barrier.reachable_inv _ _ _ (c_bar _ _ Hc)) as Hinv.
    by apply (Barrier.inv_holder _ _ _ Hinv _ _ H0) in Hmu.
  - destruct (Nat.leb_spec (Barrier.num_initialized (x_bar g)) (Barrier.num_done (x_bar g) + 1)) as [Hle|Hlt].
    + right. by split.
    + left. destruct (another_turn g Hc Hmu H0 Hlt) as (t & _ & H2 & H3). by exists t.
Qed.

(** *** There is always a turn

    With no puts, the writer's only look is the one that ends its loop; until
    it is right, another thread can go on. *)
Definition no_rounds (g : tstate W A) : Prop :=
  forall t k a, x_threads g !! 0%nat = Some t -> th_phase t = Looping k a -> k = 0%nat.

Context (Hputs : puts = 0%nat) (Hrounds : rounds (M 0%nat) = 0%nat).

Lemma turn_no_rounds c g g' :
  cinv n g -> no_rounds g -> turn clock junk_stats M n c g = Some (Normal g') -> no_rounds g'.
Proof using Hrounds.
  intros Hc Hz Ht. apply turn_cases in Ht; [|done]. remember (Normal g') as o eqn:Eo.
  destruct Ht as [c i b _ _ _ _ _|k b _ _ _ _ _ _|i th o _ Hth Ho]; [by injection Eo as <-|injection Eo as <-|].
  - intros t j a. cbn [x_threads]. intros [[_ Ht]|[_ <-]]%lookup_snoc_Some; [by apply Hz|done].
  - subst o. unfold workload_turn in Ho. destruct (th_phase th) as [|k a|] eqn:Eph; [..|done]; injection Ho as Ho.
    + destruct (thread_start _ _ _ _) as [[a s]| | | |]; try done. injection Ho as <-.
      intros t j a'. cbn [put_thread x_threads]. intros Ht.
      apply list_lookup_insert_Some in Ht as [(_ & <- & _)|[_ Ht]]; [by intros [= <- _]|by apply Hz].
    + destruct (decide (i = 0%nat)) as [->|Hi].
      * rewrite Hrounds in Ho. cbn [Nat.ltb Nat.leb] in Ho.
        destruct (thread_end _ _ _ _ _) as [[[] s]| | | |]; try done. injection Ho as <-.
        intros t j a'. cbn [put_thread x_threads]. rewrite list_lookup_insert_eq by (by eapply lookup_lt_Some). by intros [= <-].
      * assert (Hsame : forall p s, no_rounds (put_thread i p s g)).
        { intros p s t j a'. cbn [put_thread x_threads]. rewrite list_lookup_insert_ne by done. apply Hz. }
        destruct (k <? rounds (M i))%nat.
        -- destruct (body _ _ _ _) as [[a' s]| | | |]; try done. by injection Ho as <-.
        -- destruct (thread_end _ _ _ _ _) as [[[] s]| | | |]; try done. by injection Ho as <-.
Qed.

Lemma look_progress g :
  cinv n g -> no_rounds g -> t_final g \/
  exists t, t ∈ all_threads n /\ looks_right puts g (Act t) = true /\ is_Some (turn clock junk_stats M n (Act t) g).
Proof using Hputs.
  intros Hc Hz.
  destruct (turn_progress clock junk_stats M n g Hc) as [|(t & Hin & Ht)]; [by left|right].
  destruct (looks_right puts g (Act t)) eqn:El; [by exists t|].
  destruct (Barrier.who_eq_dec t (Barrier.Worker 0)) as [->|Hne]; [|by rewrite others_look in El].
  unfold looks_right in El. destruct (Barrier.workers (x_bar g) !! 0%nat) as [[]|] eqn:H0; try done.
  destruct (x_threads g !! 0%nat) as [th|] eqn:Hth; [|done].
  destruct (th_phase th) as [|k a|] eqn:Eph; try done. pose proof (Hz th k a Hth Eph) as ->.
  destruct (Barrier.mu (x_bar g)) as [u|] eqn:Hmu.
  - exists u. by apply holder_turn.
  - rewrite Hputs in El. cbn in El. apply other_turn; [done..|]. destruct (Nat.leb_spec (Barrier.num_initialized (x_bar g))
      (Barrier.num_done (x_bar g) + 1)) as [|Hlt]; [done|exact Hlt].
Qed.

(** *** The run ends *)
Context (r : nat) (Hr : forall t, (rounds (M t) <= r)%nat).

Lemma first_look_none l g :
  first_look l g = None -> forall t, t ∈ l -> looks_right puts g (Act t) = true ->
  ~ is_Some (turn clock junk_stats M n (Act t) g).
Proof using.
  induction l as [|x l IH]; cbn [first_look]; intros Hno t Ht Hl [o Ho]; [by apply elem_of_nil in Ht|].
  apply elem_of_cons in Ht as [->|Ht]; [rewrite Hl, Ho in Hno; done|]. case_match; [done|]. by eapply IH.
Qed.

Lemma run_looking_ends fuel : forall g,
  cinv n g -> no_rounds g -> (t_potential n r g < fuel)%nat ->
  match snd (run_looking fuel g) with Normal g' => t_final g' | _ => True end.
Proof using Hputs Hrounds Hr.
  induction fuel as [|fuel IH]; intros g Hc Hz Hf; [lia|]. cbn [run_looking].
  destruct (first_look (all_threads n) g) as [[t o]|] eqn:E.
  - apply first_look_some in E as [_ E]. destruct o as [g1| | | |]; try done.
    pose proof (turn_lowers clock junk_stats M n r Hr t g g1 Hc E).
    specialize (IH g1 (turn_cinv _ _ _ _ _ _ _ Hc E) (turn_no_rounds _ _ _ Hc Hz E) ltac:(lia)).
    by destruct (run_looking fuel g1) as [l o].
  - cbn [snd]. destruct (look_progress g Hc Hz) as [|(t & Hin & Hl & Ht)]; [done|].
    by destruct (first_look_none _ _ E t Hin Hl).
Qed.

End looking.

(** ** The turns beside the writer's rounds *)
Section bounded.
Context {W A : Type}.
Context (clock : nat -> Z) (junk_stats : Stats.Stats) (M : nat -> workload (pstate W) A) (n r : nat).
Hypothesis Hr : forall t, (rounds (M (S t)) <= r)%nat.
Implicit Types g : tstate W A.

(** A round of the writer's loop: a look that lets it go on, or a put. *)
Definition writer_round (c : choice) (g : tstate W A) : bool :=
  match c, Barrier.workers (x_bar g) !! 0%nat, x_threads g !! 0%nat with
  | Act (Barrier.Worker O), Some Barrier.WRun, Some th =>
      match th_phase th with Looping k _ => (k <? rounds (M 0))%nat | _ => false end
  | _, _, _ => false
  end.

(** The actions a schedule has beside these. *)
Fixpoint other_turns (l : list choice) (g : tstate W A) : nat :=
  match l with
  | [] => 0
  | c :: l' =>
      (if writer_round c g then 0 else acts_in [c]) +
      match turn clock junk_stats M n c g with Some (Normal g') => other_turns l' g' | _ => 0 end
  end.

(** What is left of them: the start and the end of the writer, the turns of the
    others, and those of the barrier. *)
Definition writer_left (p : phase A) : nat :=
  match p with NotStarted => 2 | Looping _ _ => 1 | Finished => 0 end.

Definition left_of (l : list (thread A)) : nat :=
  match l with
  | [] => 0
  | w :: l' => writer_left (th_phase w) + sum_list_with (fun th => turns_left r (th_phase th)) l'
  end.

Definition o_potential (g : tstate W A) : nat :=
  Barrier.potential n (x_bar g) + left_of (x_threads g) + (n - length (x_threads g)) * (r + 2).

Lemma left_of_snoc l th : th_phase th = NotStarted -> (left_of (l ++ [th]) <= left_of l + (r + 2))%nat.
Proof.
  intros Hth. destruct l as [|w l]; cbn [app left_of sum_list_with]; rewrite ?Hth; [cbn; lia|].
  rewrite sum_list_with_app. cbn [sum_list_with]. rewrite Hth. cbn [turns_left]. lia.
Qed.

(** The writer's own turns. *)
Lemma writer_turn_left th g g' :
  workload_turn clock M 0 th g = Some (Normal g') ->
  exists p s, g' = put_thread 0 p s g /\
    (writer_left p + (match th_phase th with Looping k _ => if (k <? rounds (M 0))%nat then 0 else 1 | _ => 1 end) <=
       writer_left (th_phase th))%nat.
Proof.
  unfold workload_turn. destruct (th_phase th) as [|k a|]; [..|done]; intros Ho; injection Ho as Ho.
  - destruct (thread_start _ _ _ _) as [[a s]| | | |]; try done. injection Ho as <-. exists (Looping 0 a), s. cbn. split; [done|lia].
  - destruct (k <? rounds (M 0))%nat.
    + destruct (body _ _ _ _) as [[a' s]| | | |]; try done. injection Ho as <-. exists (Looping (S k) a'), s. cbn. split; [done|lia].
    + destruct (thread_end _ _ _ _ _) as [[[] s]| | | |]; try done. injection Ho as <-. exists Finished, s. cbn. split; [done|lia].
Qed.

Lemma turn_o_rank c g g' :
  cinv n g -> turn clock junk_stats M n c g = Some (Normal g') ->
  ((if writer_round c g then 0 else acts_in [c]) + o_potential g' <= o_potential g + 2 * wakes_in [c])%nat.
Proof using Hr.
  intros Hc Ht. pose proof Hc as [_ H2 _]. apply turn_cases in Ht; [|done]. unfold o_potential.
  remember (Normal g') as o eqn:Eo.
  destruct Ht as [c i b _ _ _ _ Hp|k b Em Hk _ _ Hsp Hp|i th o Hw Hth Ho].
  - injection Eo as <-. cbn [set_bar x_bar x_threads]. destruct (writer_round c g); lia.
  - change (acts_in [_]) with 1%nat. injection Eo as <-. rewrite Em in H2. cbn in H2. cbn [x_bar x_threads]. rewrite length_app, H2. cbn [length].
    pose proof (left_of_snoc (x_threads g) (new_thread junk_stats k (clock (x_ticks g))) eq_refl).
    replace (n - k)%nat with (S (n - (k + 1))) by lia. cbn [Nat.mul]. destruct (writer_round _ g); lia.
  - change (acts_in [_]) with 1%nat. subst o. destruct i as [|i].
    + destruct (writer_turn_left th g g' Ho) as (p & s & -> & Hle). cbn [put_thread x_bar x_threads].
      rewrite length_insert. unfold writer_round. rewrite Hw, Hth. destruct (x_threads g) as [|w l]; [done|].
      injection Hth as ->. cbn [list_insert left_of th_phase insert]. destruct (th_phase th); [lia| |lia].
      destruct (_ <? _)%nat; lia.
    + apply (workload_turn_inv _ _ r) in Ho; [|by apply Hr]. destruct Ho as (p & s & -> & Hlt).
      cbn [put_thread x_bar x_threads writer_round]. rewrite length_insert. destruct (x_threads g) as [|w l]; [done|].
      change (left_of (<[S i := mkThread p (own_of s)]> (w :: l))) with (writer_left (th_phase w) +
        sum_list_with (fun th => turns_left r (th_phase th)) (<[i := mkThread p (own_of s)]> l))%nat.
      cbn [left_of]. pose proof (sum_insert (fun th => turns_left r (th_phase th)) l i th
        (mkThread p (own_of s)) Hth) as E. cbn [th_phase] in E.
      cbn [length]. lia.
Qed.

Lemma other_turns_bounded l : forall g g',
  cinv n g -> turns clock junk_stats M n l g = Some (Normal g') ->
  (other_turns l g + o_potential g' <= o_potential g + 2 * wakes_in l)%nat.
Proof using Hr.
  induction l as [|c l IH]; intros g g' Hc; cbn [turns other_turns]; [intros [= <-]; lia|]. rewrite wakes_cons.
  intros (o1 & Ho & Hs)%bind_Some. rewrite Ho. destruct o1 as [g1| | | |]; simplify_eq.
  pose proof (turn_o_rank c g g1 Hc Ho). specialize (IH g1 g' (turn_cinv _ _ _ _ _ _ _ Hc Ho) Hs). lia.
Qed.

Lemma o_potential_init w ticks : (o_potential (t_init n w ticks) <= 17 * n + 14 + n * (r + 2))%nat.
Proof.
  unfold o_potential. cbn [t_init x_bar x_threads left_of length]. pose proof (Barrier.potential_init n). lia.
Qed.

End bounded.

(** ** The outcome *)
Section outcome.
Context {W kv : Type} `{PmkvOps W kv}.
Context (f : Flags) (clock junk : nat -> Z) (junk_stats : Stats.Stats).

(** [RunBenchmark(n, name, &Benchmark::ReadWhileWriting)], scheduled so that
    the writer looks when the others are done. *)
Definition run_looking_first (bm : Benchmark kv) (n : Z) (name : bytes) : Prog (rstate W kv) unit := fun s =>
  if n <? 0 then Thrown bad_array_new_length
  else
    let k := Z.to_nat n in
    g ← snd (run_looking clock junk_stats (rww_workload f clock junk bm 0) 0 k
               (first_fuel k (Z.to_nat (reads_ bm))) (t_init k (r_world s) (r_ticks s)));
    Normal (tt, report_all f name s g).

(** Every run of [readwhilewriting] can be brought to its end. *)
Lemma rww_can_end bm n name s :
  RunReadWhileWriting f clock junk junk_stats bm n name s (run_looking_first bm n name s).
Proof.
  unfold run_looking_first. destruct (Z.ltb_spec n 0); [by constructor|]. cbv zeta.
  set (M := rww_workload f clock junk bm 0). set (g0 := t_init _ _ _).
  assert (Hr : forall t, (rounds (M t) <= Z.to_nat (reads_ bm))%nat) by (intros [|t]; cbn; lia).
  pose proof (run_looking_ends clock junk_stats M 0 (Z.to_nat n) eq_refl eq_refl (Z.to_nat (reads_ bm)) Hr
    (first_fuel (Z.to_nat n) (Z.to_nat (reads_ bm))) g0 (cinv_init _ _ _) ltac:(by intros t k a)) as Hend.
  destruct (run_looking _ _ _ _ _ _ g0) as [sched o] eqn:E.
  destruct (run_looking_ok clock junk_stats M 0 (Z.to_nat n) _ _ _ _ E) as [Ht Hl]. cbn [snd] in *.
  assert (Hfuel : (t_potential (Z.to_nat n) (Z.to_nat (reads_ bm)) g0 <
    first_fuel (Z.to_nat n) (Z.to_nat (reads_ bm)))%nat).
  { pose proof (t_potential_init (A := RandomGenerator.RandomGenerator * Z + Z * Z) (Z.to_nat n)
      (Z.to_nat (reads_ bm)) (r_world s) (r_ticks s)). unfold first_fuel, g0. lia. }
  specialize (Hend Hfuel). destruct o as [g| | | |]; [|by eapply rww_ended..].
  destruct Hend as [Hm _]. by eapply rww_reported.
Qed.

End outcome.

(** ** Properties *)

(** C28: [readwhilewriting] does not run on.  Whatever the schedule, and however
    many puts the writer makes, the actions beside the rounds of its loop are at
    most [17 n + 14 + n (reads + 2)] for [n] threads, and two more for each wait
    that ends without a signal; as long as the main thread
    is not at the reports, a thread other than the writer can take a turn or the
    writer can, and then, if it is in its loop, it finds the mutex free and the
    counters telling it to leave.  So a schedule that keeps giving every thread
    its turns, with finitely many such wake-ups, comes to the reports, and from
    every state there is a schedule that ends in an outcome of the relation. *)
Theorem readwhilewriting_returns {W kv : Type} {Ops : PmkvOps W kv} f clock junk junk_stats (bm : Benchmark kv)
  (n puts : nat) sched (s : rstate W kv) name g
  (M := rww_workload f clock junk bm puts) (start := t_init n (r_world s) (r_ticks s))
  (Hrun : turns clock junk_stats M n sched start = Some (Normal g)) :
  (other_turns clock junk_stats M n sched start <=
     17 * n + 14 + n * (Z.to_nat (reads_ bm) + 2) + 2 * wakes_in sched)%nat /\
  (Barrier.main (x_bar g) = Barrier.MReport \/ other_can_go clock junk_stats M n g \/
   writer_leaves clock junk_stats M n g) /\
  RunReadWhileWriting f clock junk junk_stats bm (Z.of_nat n) name s
    (run_looking_first f clock junk junk_stats bm (Z.of_nat n) name s).
Proof.
  split; [|split].
  - pose proof (other_turns_bounded clock junk_stats M n (Z.to_nat (reads_ bm)) ltac:(intros t; cbn; lia) sched start g
      (cinv_init _ _ _) Hrun).
    pose proof (o_potential_init (A := RandomGenerator.RandomGenerator * Z + Z * Z) n (Z.to_nat (reads_ bm))
      (r_world s) (r_ticks s)) as Hinit. fold start in Hinit. lia.
  - apply turns_cinv in Hrun; [|apply cinv_init].
    destruct (others_or_writer clock junk_stats M puts n g Hrun) as [[Hm _]|[?|?]]; auto.
  - apply rww_can_end.
Qed.

(** One reader and the writer, up to the start of the threads; the main thread is
    woken once without a signal. *)
Definition demo_rww_turns : list choice :=
  map Act [Barrier.Main; Barrier.Main; Barrier.Main; Barrier.Main; Barrier.Main] ++
  [Spurious Barrier.Main; Act (Barrier.Worker 1)].

Definition demo_rww_start : tstate MemLib.world (RandomGenerator.RandomGenerator * Z + Z * Z) :=
  t_init 2 {[ demo_path := ∅ ]} 0.

Definition demo_rww_end : tstate MemLib.world (RandomGenerator.RandomGenerator * Z + Z * Z) :=
  match turns (fun _ => 0) demo_stats (rww_workload (H := mem_ops) demo_flags (fun _ => 0) (fun _ => 0) demo_bm 7) 2
    demo_rww_turns demo_rww_start with
  | Some (Normal g) => g
  | _ => demo_rww_start
  end.

Lemma readwhilewriting_returns_witness :
  other_can_go (fun _ => 0) demo_stats (rww_workload (H := mem_ops) demo_flags (fun _ => 0) (fun _ => 0) demo_bm 7) 2
    demo_rww_end.
Proof.
  assert (Hrun : turns (fun _ => 0) demo_stats (rww_workload (H := mem_ops) demo_flags (fun _ => 0) (fun _ => 0) demo_bm 7) 2
    demo_rww_turns demo_rww_start = Some (Normal demo_rww_end)) by reflexivity.
  destruct (readwhilewriting_returns (Ops := mem_ops) demo_flags (fun _ => 0) (fun _ => 0) demo_stats demo_bm 2 7
    demo_rww_turns (mkRun {[ demo_path := ∅ ]} 0 None []) b!"readwhilewriting" demo_rww_end Hrun)
    as (_ & [Hm|[Ho|Hw]] & _); [discriminate Hm|exact Ho|].
  exists (Barrier.Worker 1). split; [discriminate|]. eexists. reflexivity.
Defined.
