(* ===== verification/PmkvTests.v ===== *)
(** * The tests of an implementation (test/basic_test.cc)

    A test is a list of statements on a store: calls through the wrapper of the
    tests with what they assert.  [run_test] executes it on an implementation of
    pmkv.h; [check] says on a map what each statement needs and leaves.  The
    test file then is a consequence of the contract: whatever implementation
    keeps it passes every test. *)

From S2P Require Import Prelude CLib Pmkv.

Local Open Scope Z_scope.

(** ** Statements *)
Inductive statement :=
  | IsValid                       (* ASSERT_TRUE(kv->is_db_valid()) *)
  | CountIs (n : Z)               (* count_all(cnt) == OK, cnt == n *)
  | ExistsIs (k : bytes) (b : bool)
  | GetIs (k v : bytes)           (* get(k, &value) == OK && value == v *)
  | GetNone (k : bytes)           (* get(k, &value) == NOT_FOUND *)
  | GetNoneKeeps (k old : bytes)  (* and value == old, which it was *)
  | PutOk (k v : bytes)           (* ASSERT_TRUE(put(k, v) == OK) *)
  | Put (k v : bytes)             (* put(k, v), unchecked *)
  | Removes (k : bytes)           (* remove(k) == OK *)
  | RemoveNone (k : bytes)        (* remove(k) == NOT_FOUND *)
  | Restart.                      (* delete kv; Start(false) *)

Definition PATH : bytes := b!"/mnt/ramdisk/test".

(** ** Execution *)
Section exec.
Context {W kv : Type} `{PmkvOps W kv}.

(** The pool size of the fixture, [POOL_SIZE]. *)
Variable size_ : Z.

(** [PMKVWrapper::get], [remove] and [exists]: [true] for [status::OK] *)
Definition w_get (h : kv) (k value : bytes) (w : W) : bool * bytes :=
  let '(s, val) := pmkv_get h k w in
  if negb (s =? 0) then (false, value) else (true, val).

Definition w_remove (h : kv) (k : bytes) (w : W) : bool * W :=
  let '(s, w) := pmkv_delete h k w in (if negb (s =? 0) then false else true, w).

Definition w_exists (h : kv) (k : bytes) (w : W) : bool := negb (pmkv_exists h k w =? 0).

(** A statement: whether its assertion held, and the state after it.  A call
    on NULL is undefined. *)
Definition exec (c : statement) (s : option kv * W) : outcome (bool * (option kv * W)) :=
  let '(o, w) := s in
  match c, o with
  | IsValid, _ => Normal (match o with Some _ => true | None => false end, s)
  | Restart, _ =>
      '(o, w) ← pmkv_open PATH size_ 0 (pmkv_close o w); Normal (true, (o, w))
  | _, None => Undefined
  | CountIs n, Some h =>
      let '(st, cnt) := pmkv_count_all h w in Normal ((st =? 0) && (cnt =? n), s)
  | ExistsIs k b, Some h => Normal (eqb (w_exists h k w) b, s)
  | GetIs k v, Some h =>
      let '(ok, val) := w_get h k [] w in Normal (ok && bool_decide (val = v), s)
  | GetNone k, Some h => Normal (negb (fst (w_get h k [] w)), s)
  | GetNoneKeeps k old, Some h =>
      let '(ok, val) := w_get h k old w in Normal (negb ok && bool_decide (val = old), s)
  | PutOk k v, Some h => let '(st, w) := pmkv_put h k v w in Normal (st =? 0, (o, w))
  | Put k v, Some h => let '(_, w) := pmkv_put h k v w in Normal (true, (o, w))
  | Removes k, Some h => let '(ok, w) := w_remove h k w in Normal (ok, (o, w))
  | RemoveNone k, Some h => let '(ok, w) := w_remove h k w in Normal (negb ok, (o, w))
  end.

(** The body of a test; a failed assertion returns from it. *)
Fixpoint run_test (l : list statement) (s : option kv * W) : outcome (bool * (option kv * W)) :=
  match l with
  | [] => Normal (true, s)
  | c :: l' => '(ok, s) ← exec c s; if (ok : bool) then run_test l' s else Normal (false, s)
  end.

(** The fixture [PMKVBaseTest]: its constructor, the body, its destructor. *)
Definition run_fixture (std_remove : bytes -> W -> W) (l : list statement) (w : W) : outcome (bool * W) :=
  s ← pmkv_open PATH size_ 1 (std_remove PATH w);
  '(ok, (o, w)) ← run_test l s;
  Normal (ok, pmkv_close o w).

(** [parallel_exec]: each thread runs its statements; [sched] says whose turn
    it is.  The result says whether every assertion so far held. *)
Fixpoint run_parallel (sched : list nat) (ths : list (list statement)) (s : option kv * W)
  : outcome (bool * list (list statement) * (option kv * W)) :=
  match sched with
  | [] => Normal (true, ths, s)
  | t :: sched' =>
      match ths !! t with
      | Some (c :: l) =>
          '(ok, s) ← exec c s;
          if (ok : bool) then run_parallel sched' (<[t := l]> ths) s else Normal (false, ths, s)
      | _ => run_parallel sched' ths s
      end
  end.

End exec.

(** ** What the statements need of a map

    [None]: the assertion fails; a [put] needs fewer than [n] entries. *)
Definition check (n : nat) (c : statement) (m : gmap bytes bytes) : option (gmap bytes bytes) :=
  match c with
  | IsValid | Restart => Some m
  | CountIs k => if Z.of_nat (size m) =? k then Some m else None
  | ExistsIs k b => if eqb (bool_decide (is_Some (m !! k))) b then Some m else None
  | GetIs k v => if bool_decide (m !! k = Some v) && (zlen v <=? MAX_VAL_LEN) then Some m else None
  | GetNone k | GetNoneKeeps k _ => if bool_decide (m !! k = None) then Some m else None
  | PutOk k v | Put k v => if (size m <? n)%nat then Some (<[k := v]> m) else None
  | Removes k => if bool_decide (is_Some (m !! k)) then Some (delete k m) else None
  | RemoveNone k => if bool_decide (m !! k = None) then Some m else None
  end.

Fixpoint checks (n : nat) (l : list statement) (m : gmap bytes bytes) : option (gmap bytes bytes) :=
  match l with
  | [] => Some m
  | c :: l' => m ← check n c m; checks n l' m
  end.

(** What README.md promises beyond [PmkvContract]: a store that is closed and
    opened again has what it had, and the store has room for [n] entries. *)
Class PmkvDurable (W kv : Type) `{PmkvOps W kv} (contents : W -> kv -> option (gmap bytes bytes))
  (at_path : kv -> bytes -> Prop) (n : nat) : Prop := {
  open_at w path sz c h w' : pmkv_open path sz c w = Normal (Some h, w') -> at_path h path;
  reopen w path sz h m :
    at_path h path -> contents w h = Some m ->
    exists h' w', pmkv_open path sz 0 (pmkv_close (Some h) w) = Normal (Some h', w') /\
      contents w' h' = Some m;
  put_room w h m k v :
    contents w h = Some m -> (size m < n)%nat -> fst (pmkv_put h k v w) = 0
}.

Section sound.
Context {W kv : Type} {Ops : PmkvOps W kv} {contents : W -> kv -> option (gmap bytes bytes)}
  {Contract : PmkvContract W kv contents} {at_path : kv -> bytes -> Prop} {n : nat}
  {Durable : PmkvDurable W kv contents at_path n}.
Context (size_ : Z).

(** The store at the handle holds the map. *)
Definition has (s : option kv * W) (m : gmap bytes bytes) : Prop :=
  exists h w, s = (Some h, w) /\ at_path h PATH /\ contents w h = Some m.

Lemma get_none_status w h m k old :
  contents w h = Some m -> m !! k = None -> w_get h k old w = (false, old).
Proof using Contract.
  intros Hm Hk. unfold w_get. pose proof (get_missing w h m k Hm Hk) as Hn.
  destruct (pmkv_get h k w) as [st v]. cbn [fst] in Hn. by rewrite (proj2 (Z.eqb_neq st 0) Hn).
Qed.

Lemma put_done w h m k v :
  contents w h = Some m -> (size m < n)%nat ->
  exists w', pmkv_put h k v w = (0, w') /\ contents w' h = Some (<[k := v]> m).
Proof using Contract Durable.
  intros Hm Hr. pose proof (put_room w h m k v Hm Hr) as H0. pose proof (put_stores w h m k v Hm) as Hp.
  destruct (pmkv_put h k v w) as [st w']. cbn [fst snd] in *. exists w'. subst st.
  destruct Hp as [[_ Hp]|[? _]]; done.
Qed.

(** A statement does on a store what [check] says of the map. *)
Lemma exec_check c s m m' :
  has s m -> check n c m = Some m' -> exists s', exec size_ c s = Normal (true, s') /\ has s' m'.
Proof using Contract Durable.
  intros (h & w & -> & Hat & Hm) Hc.
  assert (Hsame : forall b, b = true -> m' = m -> exists s', Normal (b, (Some h, w)) = Normal (true, s') /\ has s' m').
  { intros b -> ->. eexists. split; [done|]. by exists h, w. }
  assert (Hnext : forall w' b m1, b = true -> m' = m1 -> contents w' h = Some m1 ->
            exists s', Normal (b, (Some h, w')) = Normal (true, s') /\ has s' m').
  { intros w' b m1 -> -> Hw. eexists. split; [done|]. by exists h, w'. }
  destruct c; cbn [check exec] in *; try (case_match eqn:E; [|discriminate Hc]); injection Hc as <-.
  - by apply Hsame.
  - rewrite (count_all_size w h m Hm), E. by apply Hsame.
  - unfold w_exists. rewrite (exists_domain w h m k Hm). apply Hsame; [|done].
    apply eqb_prop in E as <-. case_decide; [rewrite bool_decide_true by done|rewrite bool_decide_false by done]; done.
  - apply andb_prop in E as [E1 E2]. apply bool_decide_eq_true in E1. apply Z.leb_le in E2.
    unfold w_get. rewrite (get_found w h m k v) by done. cbn. apply Hsame; [|done]. by apply bool_decide_eq_true.
  - apply bool_decide_eq_true in E. rewrite (get_none_status w h m k []) by done. by apply Hsame.
  - apply bool_decide_eq_true in E. rewrite (get_none_status w h m k old) by done. apply Hsame; [|done].
    cbn. by apply bool_decide_eq_true.
  - apply Nat.ltb_lt in E. destruct (put_done w h m k v Hm E) as (w' & -> & Hw). by eapply Hnext.
  - apply Nat.ltb_lt in E. destruct (put_done w h m k v Hm E) as (w' & -> & Hw). by eapply Hnext.
  - apply bool_decide_eq_true in E. destruct (delete_found w h m k Hm E) as [H0 Hw]. unfold w_remove.
    destruct (pmkv_delete h k w) as [st w']. cbn [fst snd] in *. subst st. by eapply Hnext.
  - apply bool_decide_eq_true in E. destruct (delete_missing w h m k Hm E) as [H0 Hw]. unfold w_remove.
    destruct (pmkv_delete h k w) as [st w']. cbn [fst snd] in *. rewrite (proj2 (Z.eqb_neq st 0) H0). by eapply Hnext.
  - destruct (reopen w PATH size_ h m Hat Hm) as (h' & w' & Eo & Hw). rewrite Eo. cbn.
    eexists. split; [done|]. exists h', w'. split; [done|]. split; [by eapply open_at|done].
Qed.

Lemma run_test_checks l : forall s m m',
  has s m -> checks n l m = Some m' -> exists s', run_test size_ l s = Normal (true, s') /\ has s' m'.
Proof using Contract Durable.
  induction l as [|c l IH]; intros s m m' Hs; cbn [checks run_test].
  - intros [= <-]. eauto.
  - intros (m1 & H1 & H2)%bind_Some. destruct (exec_check c s m m1 Hs H1) as (s1 & -> & Hs1). cbn. eauto.
Qed.

End sound.

(** ** The tests on a few keys *)
Definition BasicTest : list statement := [IsValid; Put b!"key1" b!"value1"; GetIs b!"key1" b!"value1"].

Definition SimpleTest : list statement :=
  [IsValid; CountIs 0; ExistsIs b!"key1" false; GetNone b!"key1"; PutOk b!"key1" b!"value1"; CountIs 1;
   ExistsIs b!"key1" true; GetIs b!"key1" b!"value1"].

Definition BinaryKeyTest : list statement :=
  let key1 := [97; 0; 98] in
  [IsValid; CountIs 0; ExistsIs b!"a" false; PutOk b!"a" b!"should_not_change"; CountIs 1;
   ExistsIs b!"a" true; ExistsIs key1 false; PutOk key1 b!"stuff"; CountIs 2; ExistsIs b!"a" true;
   ExistsIs key1 true; GetIs key1 b!"stuff"; GetIs b!"a" b!"should_not_change"; Removes key1; CountIs 1;
   ExistsIs b!"a" true; ExistsIs key1 false; GetNone key1; GetIs b!"a" b!"should_not_change"].

Definition BinaryValueTest : list statement :=
  let value := [65; 0; 66; 0; 0; 67] in [IsValid; PutOk b!"key1" value; GetIs b!"key1" value].

Definition EmptyKeyTest : list statement :=
  [IsValid; CountIs 0; PutOk [] b!"empty"; CountIs 1; PutOk b!" " b!"single-space"; CountIs 2;
   PutOk [9; 9] b!"two-tab"; CountIs 3; ExistsIs [] true; GetIs [] b!"empty"; ExistsIs b!" " true;
   GetIs b!" " b!"single-space"; ExistsIs [9; 9] true; GetIs [9; 9] b!"two-tab"].

Definition EmptyValueTest : list statement :=
  [IsValid; CountIs 0; PutOk b!"empty" []; CountIs 1; PutOk b!"single-space" b!" "; CountIs 2;
   PutOk b!"two-tab" [9; 9]; CountIs 3; GetIs b!"empty" []; GetIs b!"single-space" b!" ";
   GetIs b!"two-tab" [9; 9]].

Definition GetClearExternalValueTest : list statement :=
  [IsValid; PutOk b!"key1" b!"cool"; GetIs b!"key1" b!"cool"; GetNoneKeeps b!"non_existent_key" b!"super"].

Definition GetHeadlessTest : list statement := [IsValid; ExistsIs b!"waldo" false; GetNone b!"waldo"].

Definition GetMultipleTest : list statement :=
  [IsValid; PutOk b!"abc" b!"A1"; PutOk b!"def" b!"B2"; PutOk b!"hij" b!"C3"; PutOk b!"jkl" b!"D4";
   PutOk b!"mno" b!"E5"; CountIs 5; ExistsIs b!"abc" true; GetIs b!"abc" b!"A1"; ExistsIs b!"def" true;
   GetIs b!"def" b!"B2"; ExistsIs b!"hij" true; GetIs b!"hij" b!"C3"; ExistsIs b!"jkl" true;
   GetIs b!"jkl" b!"D4"; ExistsIs b!"mno" true; GetIs b!"mno" b!"E5"].

Definition GetMultiple2Test : list statement :=
  [IsValid; PutOk b!"key1" b!"value1"; PutOk b!"key2" b!"value2"; PutOk b!"key3" b!"value3";
   Removes b!"key2"; PutOk b!"key3" b!"VALUE3"; CountIs 2; GetIs b!"key1" b!"value1"; GetNone b!"key2";
   GetIs b!"key3" b!"VALUE3"].

Definition GetNonexistentTest : list statement :=
  [IsValid; PutOk b!"key1" b!"value1"; ExistsIs b!"waldo" false; GetNone b!"waldo"].

Definition PutTest : list statement :=
  [IsValid; CountIs 0; PutOk b!"key1" b!"value1"; CountIs 1; GetIs b!"key1" b!"value1";
   PutOk b!"key1" b!"VALUE1"; CountIs 1; GetIs b!"key1" b!"VALUE1";
   PutOk b!"key1" b!"new_value"; CountIs 1; GetIs b!"key1" b!"new_value";
   PutOk b!"key1" b!"?"; CountIs 1; GetIs b!"key1" b!"?"].

Definition PutKeysOfDifferentSizesTest : list statement :=
  [IsValid; PutOk b!"123456789ABCDE" b!"A"; CountIs 1; GetIs b!"123456789ABCDE" b!"A";
   PutOk b!"123456789ABCDEF" b!"B"; CountIs 2; GetIs b!"123456789ABCDEF" b!"B";
   PutOk b!"12345678ABCDEFG" b!"C"; CountIs 3; GetIs b!"12345678ABCDEFG" b!"C";
   PutOk b!"123456789" b!"D"; CountIs 4; GetIs b!"123456789" b!"D";
   PutOk b!"123456789ABCDEFGHI" b!"E"; CountIs 5; GetIs b!"123456789ABCDEFGHI" b!"E"].

Definition PutValuesOfDifferentSizesTest : list statement :=
  [IsValid; PutOk b!"A" b!"123456789ABCDE"; CountIs 1; GetIs b!"A" b!"123456789ABCDE";
   PutOk b!"B" b!"123456789ABCDEF"; CountIs 2; GetIs b!"B" b!"123456789ABCDEF";
   PutOk b!"C" b!"12345678ABCDEFG"; CountIs 3; GetIs b!"C" b!"12345678ABCDEFG";
   PutOk b!"D" b!"123456789"; CountIs 4; GetIs b!"D" b!"123456789";
   PutOk b!"E" b!"123456789ABCDEFGHI"; CountIs 5; GetIs b!"E" b!"123456789ABCDEFGHI"].

Definition RemoveAllTest : list statement :=
  [IsValid; CountIs 0; PutOk b!"tmpkey" b!"tmpvalue1"; CountIs 1; Removes b!"tmpkey"; CountIs 0;
   ExistsIs b!"tmpkey" false; GetNone b!"tmpkey"].

Definition RemoveAndInsertTest : list statement :=
  [IsValid; CountIs 0; PutOk b!"tmpkey" b!"tmpvalue1"; CountIs 1; Removes b!"tmpkey"; CountIs 0;
   ExistsIs b!"tmpkey" false; GetNone b!"tmpkey"; PutOk b!"tmpkey1" b!"tmpvalue1"; CountIs 1;
   ExistsIs b!"tmpkey1" true; GetIs b!"tmpkey1" b!"tmpvalue1"; Removes b!"tmpkey1"; CountIs 0;
   ExistsIs b!"tmpkey1" false; GetNone b!"tmpkey1"].

Definition RemoveExistingTest : list statement :=
  [IsValid; CountIs 0; PutOk b!"tmpkey1" b!"tmpvalue1"; CountIs 1; PutOk b!"tmpkey2" b!"tmpvalue2"; CountIs 2;
   Removes b!"tmpkey1"; CountIs 1; RemoveNone b!"tmpkey1"; CountIs 1; ExistsIs b!"tmpkey1" false;
   GetNone b!"tmpkey1"; ExistsIs b!"tmpkey2" true; GetIs b!"tmpkey2" b!"tmpvalue2"].

Definition RemoveHeadlessTest : list statement := [IsValid; RemoveNone b!"nada"].

Definition RemoveNonexistentTest : list statement :=
  [IsValid; PutOk b!"key1" b!"value1"; RemoveNone b!"nada"; ExistsIs b!"key1" true].

Definition small_tests : list (list statement) :=
  [BasicTest; SimpleTest; BinaryKeyTest; BinaryValueTest; EmptyKeyTest; EmptyValueTest;
   GetClearExternalValueTest; GetHeadlessTest; GetMultipleTest; GetMultiple2Test; GetNonexistentTest;
   PutTest; PutKeysOfDifferentSizesTest; PutValuesOfDifferentSizesTest; RemoveAllTest;
   RemoveAndInsertTest; RemoveExistingTest; RemoveHeadlessTest; RemoveNonexistentTest].

Definition passes (n : nat) (l : list statement) : bool :=
  match checks n l ∅ with Some _ => true | None => false end.

Lemma small_tests_check : forallb (passes 8) small_tests = true.
Proof. vm_compute. reflexivity. Qed.

Lemma passes_some n l : passes n l = true -> exists m, checks n l ∅ = Some m.
Proof. unfold passes. destruct (checks n l ∅); [eauto|done]. Qed.

(** ** The tests on many keys *)

(** [std::to_string] of a number that is not negative *)
Definition to_string (i : Z) : bytes := format_llu i.
Arguments to_string : simpl never.

Definition SIZE : Z := 1024 * 1024 * 512.
Definition LARGE_SIZE : Z := 1024 * 1024 * 1024 * 2.
Definition LARGE_LIMIT : Z := 500000.

(** the numbers [first] to [first + n - 1], upwards *)
Definition numbers (first : Z) (n : nat) : list Z := map (fun i => first + Z.of_nat i) (seq 0 n).

Definition put_get (val : Z -> bytes) (i : Z) : list statement :=
  [PutOk (to_string i) (val i); GetIs (to_string i) (val i)].

Definition get_again (val : Z -> bytes) (i : Z) : list statement := [GetIs (to_string i) (val i)].

(** the two loops over [l] *)
Definition large_test (val : Z -> bytes) (l : list Z) (between : list statement) : list statement :=
  [IsValid] ++ flat_map (put_get val) l ++ between ++ flat_map (get_again val) l ++ [CountIs (zlen l)].

Definition bang (i : Z) : bytes := to_string i ++ b!"!".
Definition abc (i : Z) : bytes := b!"ABC" ++ to_string i.

Definition ascending : list Z := numbers 1 (Z.to_nat LARGE_LIMIT).

Definition LargeAscendingTest : list statement := large_test bang ascending [].
Definition LargeAscendingAfterRecoveryTest : list statement := large_test bang ascending [Restart].
Definition LargeDescendingTest : list statement := large_test abc (rev ascending) [].
Definition LargeDescendingAfterRecoveryTest : list statement := large_test abc (rev ascending) [Restart].

(** *** Loops *)
Lemma to_string_inj i j : 0 <= i < 2 ^ 64 -> 0 <= j < 2 ^ 64 -> to_string i = to_string j -> i = j.
Proof.
  intros Hi Hj E. rewrite <- (format_llu_value i), <- (format_llu_value j) by done. by f_equal.
Qed.

(** The map with the values of the numbers in [l]. *)
Definition numbered (val : Z -> bytes) (l : list Z) (m : gmap bytes bytes) : gmap bytes bytes :=
  fold_left (fun m i => <[to_string i := val i]> m) l m.

Definition small_numbers (l : list Z) : Prop := Forall (fun i => 0 <= i < 2 ^ 64) l.

Lemma checks_app n l l' m : checks n (l ++ l') m = checks n l m ≫= checks n l'.
Proof.
  revert m; induction l as [|c l IH]; intros m; cbn [app checks]; [done|].
  destruct (check n c m); cbn; [by rewrite IH|done].
Qed.

Section loops.
Context (val : Z -> bytes) (Hval : forall i, zlen (val i) <= MAX_VAL_LEN).

(** The keys of [l] are new, so each adds an entry. *)
Lemma put_gets n l : forall m,
  (size m + length l <= n)%nat -> NoDup l -> small_numbers l ->
  (forall i, i ∈ l -> m !! to_string i = None) ->
  checks n (flat_map (put_get val) l) m = Some (numbered val l m) /\
  size (numbered val l m) = (size m + length l)%nat.
Proof using Hval.
  induction l as [|i l IH]; intros m Hn Hd Hs Hnew; cbn [flat_map numbered fold_left length]; [split; [done|lia]|].
  apply NoDup_cons in Hd as [Hi Hd]. apply Forall_cons in Hs as [Hsi Hs].
  rewrite checks_app. cbn [put_get checks check mbind option_bind length] in *.
  rewrite (proj2 (Nat.ltb_lt _ _)) by lia. cbn [mbind option_bind].
  rewrite lookup_insert_eq, bool_decide_true, (proj2 (Z.leb_le _ _)) by done. cbn [andb mbind option_bind].
  assert (Hsz : size (<[to_string i := val i]> m) = S (size m)).
  { apply map_size_insert_None, Hnew. by left. }
  destruct (IH (<[to_string i := val i]> m)) as [H1 H2]; [lia|done|done| |].
  - intros j Hj. rewrite lookup_insert_ne; [apply Hnew; by right|].
    intros E. apply to_string_inj in E; [congruence|done|]. rewrite Forall_forall in Hs. auto.
  - fold (numbered val l (<[to_string i := val i]> m)) in *. rewrite H2. split; [done|lia].
Qed.

Lemma numbered_notin l m k : (forall i, i ∈ l -> to_string i <> k) -> numbered val l m !! k = m !! k.
Proof.
  revert m; induction l as [|j l IH]; intros m Hk; [done|].
  change (numbered val (j :: l) m) with (numbered val l (<[to_string j := val j]> m)).
  rewrite IH by (intros; apply Hk; by right). apply lookup_insert_ne, Hk. by left.
Qed.

Lemma numbered_in l m i :
  NoDup l -> small_numbers l -> i ∈ l -> numbered val l m !! to_string i = Some (val i).
Proof.
  revert m; induction l as [|j l IH]; intros m Hd Hs Hi; [by apply elem_of_nil in Hi|].
  apply NoDup_cons in Hd as [Hj Hd]. apply Forall_cons in Hs as [Hsj Hs].
  change (numbered val (j :: l) m) with (numbered val l (<[to_string j := val j]> m)). apply elem_of_cons in Hi as [->|Hi]; [|by apply IH].
  rewrite numbered_notin; [apply lookup_insert_eq|]. intros i Hi E.
  apply to_string_inj in E; [congruence| |done]. rewrite Forall_forall in Hs. auto.
Qed.

Lemma gets n l m :
  (forall i, i ∈ l -> m !! to_string i = Some (val i)) -> checks n (flat_map (get_again val) l) m = Some m.
Proof using Hval.
  induction l as [|i l IH]; intros Hm; [done|].
  cbn [flat_map get_again app checks check]. rewrite Hm by (by left).
  rewrite bool_decide_true, (proj2 (Z.leb_le _ _)) by done. cbn [andb mbind option_bind]. apply IH. intros j Hj. apply Hm. by right.
Qed.

(** A test of two loops passes when the store has room for its keys. *)
Lemma large_test_checks n l between :
  between = [] \/ between = [Restart] -> (length l <= n)%nat -> NoDup l -> small_numbers l ->
  exists m, checks n (large_test val l between) ∅ = Some m.
Proof using Hval.
  intros Hb Hn Hd Hs. unfold large_test. cbn [app checks check mbind option_bind].
  destruct (put_gets n l ∅) as [H1 H2]; [by rewrite map_size_empty|done|done|by intros; apply lookup_empty|].
  rewrite map_size_empty in H2. rewrite checks_app, H1. cbn [mbind option_bind].
  assert (Hbet : checks n between (numbered val l ∅) = Some (numbered val l ∅)) by by destruct Hb as [->| ->].
  rewrite checks_app, Hbet. cbn [mbind option_bind].
  rewrite checks_app, gets by (intros; by apply numbered_in). cbn [mbind option_bind checks check].
  rewrite H2. unfold zlen. rewrite Z.eqb_refl. eauto.
Qed.

End loops.

Lemma numbers_ok first n :
  0 <= first -> first + Z.of_nat n <= 2 ^ 64 ->
  NoDup (numbers first n) /\ small_numbers (numbers first n) /\ length (numbers first n) = n.
Proof.
  intros Hf Hn. unfold numbers, small_numbers. rewrite length_map, length_seq. split_and!; [|..|done].
  - apply NoDup_fmap_2; [intros x y; lia|apply NoDup_seq].
  - apply Forall_forall. intros i (j & -> & Hj%elem_of_seq)%list_elem_of_fmap. lia.
Qed.

Lemma elem_of_numbers i first n : i ∈ numbers first n <-> first <= i < first + Z.of_nat n.
Proof.
  unfold numbers. rewrite list_elem_of_fmap. split.
  - intros (j & -> & Hj%elem_of_seq). lia.
  - intros Hi. exists (Z.to_nat (i - first)). rewrite elem_of_seq. lia.
Qed.

Lemma bang_fits i : zlen (bang i) <= MAX_VAL_LEN.
Proof.
  unfold bang, to_string. rewrite zlen_app. pose proof (format_llu_length i). unfold zlen, MAX_VAL_LEN in *.
  change (length b!"!") with 1%nat. lia.
Qed.

Lemma abc_fits i : zlen (abc i) <= MAX_VAL_LEN.
Proof.
  unfold abc, to_string. rewrite zlen_app. pose proof (format_llu_length i). unfold zlen, MAX_VAL_LEN in *.
  change (length b!"ABC") with 3%nat. lia.
Qed.

Lemma large_tests_check n l :
  l ∈ [LargeAscendingTest; LargeAscendingAfterRecoveryTest; LargeDescendingTest; LargeDescendingAfterRecoveryTest] ->
  (Z.to_nat LARGE_LIMIT <= n)%nat -> exists m, checks n l ∅ = Some m.
Proof.
  intros Hl Hn. destruct (numbers_ok 1 (Z.to_nat LARGE_LIMIT)) as (Hd & Hs & Hlen);
    [lia|rewrite Z2Nat.id; unfold LARGE_LIMIT; lia|].
  fold ascending in *. revert Hn Hlen. generalize (Z.to_nat LARGE_LIMIT). intros N Hn Hlen.
  assert (Hd' : NoDup (rev ascending)) by (by rewrite <- Permutation_rev).
  assert (Hs' : small_numbers (rev ascending)) by (unfold small_numbers; by rewrite <- Permutation_rev).
  assert (Hlen' : length (rev ascending) = N) by (by rewrite length_rev).
  rewrite !elem_of_cons, elem_of_nil in Hl. destruct Hl as [->|[->|[->|[->|[]]]]];
    apply large_test_checks; first [exact bang_fits | exact abc_fits | lia | by auto | done].
Qed.

(** *** The threads of SimpleMultithreadedTest *)
Definition thread_body (thread_items thread_id : nat) : list statement :=
  let l := numbers (Z.of_nat thread_id * Z.of_nat thread_items) thread_items in
  flat_map (put_get bang) l ++ flat_map (get_again bang) l.

Definition test_threads (threads_number thread_items : nat) : list (list statement) :=
  map (thread_body thread_items) (seq 0 threads_number).

(** The key of a [put] or a [get]. *)
Definition key_of_statement (c : statement) : option bytes :=
  match c with PutOk k _ | GetIs k _ => Some k | _ => None end.

Definition uses (l : list statement) (k : bytes) : Prop := Some k ∈ map key_of_statement l.

(** The statements of a thread pass when nobody else touches their keys: a key
    is new when it is put, and read with the value it was put with. *)
Fixpoint local_ok (l : list statement) (m : gmap bytes bytes) : Prop :=
  match l with
  | [] => True
  | PutOk k v :: l' => m !! k = None /\ local_ok l' (<[k := v]> m)
  | GetIs k v :: l' => m !! k = Some v /\ zlen v <= MAX_VAL_LEN /\ local_ok l' m
  | _ :: _ => False
  end.

Lemma local_ok_agree l : forall m m',
  (forall k, uses l k -> m !! k = m' !! k) -> local_ok l m -> local_ok l m'.
Proof.
  induction l as [|c l IH]; intros m m' Hk; [done|].
  assert (Hl : forall k, uses l k -> uses (c :: l) k) by (intros k Hu; by right).
  destruct c; cbn [local_ok]; try done.
  - rewrite (Hk k) by (by left). intros (H1 & H2 & H3). split_and!; [done..|]. eapply IH; [|exact H3]. auto.
  - rewrite (Hk k) by (by left). intros (H1 & H2). split; [done|]. eapply IH; [|exact H2]. cbn.
    intros k' Hu. destruct (decide (k = k')) as [->|Hne]; [by rewrite !lookup_insert_eq|].
    rewrite !lookup_insert_ne by done. auto.
Qed.

Definition puts (l : list statement) : nat :=
  sum_list_with (fun c => match c with PutOk _ _ => 1 | _ => 0 end)%nat l.

Definition puts_left (ths : list (list statement)) : nat := sum_list_with puts ths.

Lemma puts_left_insert ths t l l' :
  ths !! t = Some l -> (puts_left (<[t := l']> ths) + puts l = puts_left ths + puts l')%nat.
Proof.
  unfold puts_left. revert t; induction ths as [|x ths IH]; intros [|t] Ht; simplify_eq/=; [lia|].
  specialize (IH t Ht). lia.
Qed.

Definition disjoint_keys (ths : list (list statement)) : Prop :=
  forall t t' l l' k, t <> t' -> ths !! t = Some l -> ths !! t' = Some l' -> uses l k -> ~ uses l' k.

Section parallel.
Context {W kv : Type} {Ops : PmkvOps W kv} {contents : W -> kv -> option (gmap bytes bytes)}
  {Contract : PmkvContract W kv contents} {at_path : kv -> bytes -> Prop} {n : nat}
  {Durable : PmkvDurable W kv contents at_path n}.
Context (size_ : Z).

Record par_inv (ths : list (list statement)) (m : gmap bytes bytes) : Prop := {
  par_local t l : ths !! t = Some l -> local_ok l m;
  par_disjoint : disjoint_keys ths;
  par_room : (size m + puts_left ths <= n)%nat
}.

(** A turn of thread [t]. *)
Lemma par_step ths m t c l :
  par_inv ths m -> ths !! t = Some (c :: l) ->
  exists m', check n c m = Some m' /\ par_inv (<[t := l]> ths) m' /\
    (size m' + puts_left (<[t := l]> ths) = size m + puts_left ths)%nat.
Proof.
  intros [Hl Hd Hr] Ht. pose proof (Hl t _ Ht) as Hc. pose proof (puts_left_insert ths t _ l Ht) as Hp.
  pose proof (lookup_lt_Some _ _ _ Ht) as Hlt.
  assert (Hd' : disjoint_keys (<[t := l]> ths)).
  { intros t1 t2 l1 l2 k Hne H1 H2 Hu1 Hu2.
    apply list_lookup_insert_Some in H1 as [(<- & <- & _)|[Hn1 H1]];
      apply list_lookup_insert_Some in H2 as [(<- & <- & _)|[Hn2 H2]].
    - done.
    - apply (Hd t t2 _ l2 k Hne Ht H2); [by right|done].
    - apply (Hd t t1 _ l1 k (not_eq_sym Hne) Ht H1); [by right|done].
    - by apply (Hd t1 t2 l1 l2 k). }
  destruct c; cbn [local_ok] in Hc; try done.
  - destruct Hc as (H1 & H2 & H3). exists m. cbn [check]. rewrite bool_decide_true, (proj2 (Z.leb_le _ _)) by done.
    assert (Hpl : puts (GetIs k v :: l) = puts l) by done. split; [done|]. split; [|lia]. split; [|done|lia].
    intros t' l' Hl'. apply list_lookup_insert_Some in Hl' as [(<- & <- & _)|[Hne Hl']]; [done|by eapply Hl].
  - destruct Hc as (H1 & H2). exists (<[k := v]> m). cbn [check].
    assert (Hpl : puts (PutOk k v :: l) = S (puts l)) by done.
    assert (Hsz : size (<[k := v]> m) = S (size m)) by (by apply map_size_insert_None).
    assert (Hle : (puts (PutOk k v :: l) <= puts_left ths)%nat).
    { unfold puts_left. apply sum_list_with_in. by eapply list_elem_of_lookup_2. }
    rewrite (proj2 (Nat.ltb_lt _ _)) by lia. split; [done|]. split; [|lia]. split; [|done|lia].
    intros t' l' Hl'. apply list_lookup_insert_Some in Hl' as [(<- & <- & _)|[Hne Hl']]; [done|].
    eapply local_ok_agree; [|by eapply Hl]. intros k' Hu. rewrite lookup_insert_ne; [done|].
    intros ->. apply (Hd t t' _ l' k' Hne Ht Hl'); [by left|done].
Qed.

(** Every assertion of every thread holds, under every schedule. *)
Lemma run_parallel_ok sched : forall ths s m,
  has (contents := contents) (at_path := at_path) s m -> par_inv ths m ->
  exists ths' s' m', run_parallel size_ sched ths s = Normal (true, ths', s') /\
    has (contents := contents) (at_path := at_path) s' m' /\ par_inv ths' m' /\
    (size m' + puts_left ths' = size m + puts_left ths)%nat /\ length ths' = length ths.
Proof using Contract Durable.
  induction sched as [|t sched IH]; intros ths s m Hs Hi; cbn [run_parallel]; [by exists ths, s, m|].
  destruct (ths !! t) as [[|c l]|] eqn:Et; [by apply IH| |by apply IH].
  destruct (par_step ths m t c l Hi Et) as (m1 & Hc & Hi1 & Hsz).
  destruct (exec_check size_ c s m m1 Hs Hc) as (s1 & -> & Hs1). cbn [mbind outcome_bind].
  destruct (IH _ s1 m1 Hs1 Hi1) as (ths' & s' & m' & H1 & H2 & H3 & H4 & H5). exists ths', s', m'.
  rewrite length_insert in H5. split_and!; [done..|lia|done].
Qed.

End parallel.

Lemma local_ok_put_gets val l tail : forall m,
  (forall i, zlen (val i) <= MAX_VAL_LEN) -> NoDup l -> small_numbers l ->
  (forall i, i ∈ l -> m !! to_string i = None) -> local_ok tail (numbered val l m) ->
  local_ok (flat_map (put_get val) l ++ tail) m.
Proof.
  induction l as [|i l IH]; intros m Hv Hd Hs Hnew Ht; [done|].
  apply NoDup_cons in Hd as [Hi Hd]. apply Forall_cons in Hs as [Hsi Hs].
  cbn [flat_map put_get app local_ok]. rewrite lookup_insert_eq.
  split; [apply Hnew; by left|]. split; [done|]. split; [done|].
  apply IH; [done|done|done| |done]. intros j Hj. rewrite lookup_insert_ne; [apply Hnew; by right|].
  intros E. apply to_string_inj in E; [congruence|done|]. unfold small_numbers in Hs. rewrite Forall_forall in Hs. auto.
Qed.

Lemma local_ok_gets val l m :
  (forall i, zlen (val i) <= MAX_VAL_LEN) -> (forall i, i ∈ l -> m !! to_string i = Some (val i)) ->
  local_ok (flat_map (get_again val) l) m.
Proof.
  intros Hv. induction l as [|i l IH]; intros Hm; [done|]. cbn [flat_map get_again app local_ok].
  split; [apply Hm; by left|]. split; [done|]. apply IH. intros j Hj. apply Hm. by right.
Qed.

Lemma uses_thread_body items t k :
  uses (thread_body items t) k ->
  exists i, Z.of_nat t * Z.of_nat items <= i < Z.of_nat t * Z.of_nat items + Z.of_nat items /\ k = to_string i.
Proof.
  unfold uses, thread_body. rewrite list_elem_of_fmap. intros (c & Hk & Hc).
  apply elem_of_app in Hc as [Hc|Hc]; apply list_elem_of_In, in_flat_map in Hc as (i & Hi%list_elem_of_In & Hc);
    apply elem_of_numbers in Hi; exists i; (split; [done|]); cbn in Hc; intuition; subst; by injection Hk.
Qed.

Lemma puts_thread_body items t : puts (thread_body items t) = items.
Proof.
  unfold thread_body, puts. rewrite sum_list_with_app.
  assert (H1 : forall l, sum_list_with (fun c => match c with PutOk _ _ => 1 | _ => 0 end)%nat (flat_map (put_get bang) l) = length l).
  { induction l as [|i l IH]; [done|]. cbn. by rewrite IH. }
  assert (H2 : forall l, sum_list_with (fun c => match c with PutOk _ _ => 1 | _ => 0 end)%nat (flat_map (get_again bang) l) = 0%nat).
  { induction l as [|i l IH]; [done|]. cbn. by rewrite IH. }
  rewrite H1, H2. unfold numbers. rewrite length_map, length_seq. lia.
Qed.

Lemma puts_test_threads threads items : puts_left (test_threads threads items) = (threads * items)%nat.
Proof.
  unfold test_threads, puts_left. generalize 0%nat. induction threads as [|k IH]; intros a; [done|].
  cbn [seq map sum_list_with]. rewrite puts_thread_body, IH. lia.
Qed.

Lemma test_threads_inv n threads items :
  Z.of_nat threads * Z.of_nat items <= 2 ^ 64 -> (threads * items <= n)%nat ->
  par_inv (n := n) (test_threads threads items) ∅.
Proof.
  intros Hb Hn. split.
  - intros t l (t' & -> & Ht)%list_lookup_fmap_Some. apply lookup_seq in Ht as [-> Ht]. cbn [Nat.add] in *.
    destruct (numbers_ok (Z.of_nat t * Z.of_nat items) items) as (Hd & Hs & _); [lia|nia|].
    unfold thread_body. apply local_ok_put_gets; [exact bang_fits|done|done|by intros; apply lookup_empty|].
    apply local_ok_gets; [exact bang_fits|]. intros i Hi. by apply numbered_in.
  - intros t t' l l' k Hne (t1 & -> & Ht1)%list_lookup_fmap_Some (t2 & -> & Ht2)%list_lookup_fmap_Some.
    apply lookup_seq in Ht1 as [-> Ht1]. apply lookup_seq in Ht2 as [-> Ht2]. cbn [Nat.add] in *.
    intros (i & Hi & ->)%uses_thread_body (j & Hj & E)%uses_thread_body.
    apply to_string_inj in E; [|nia|nia]. subst j. nia.
  - rewrite map_size_empty, puts_test_threads. lia.
Qed.

(** ** Properties *)
Section properties.
Context {W kv : Type} {Ops : PmkvOps W kv} (contents : W -> kv -> option (gmap bytes bytes))
  (Contract : PmkvContract W kv contents) (at_path : kv -> bytes -> Prop) (n : nat)
  (Durable : PmkvDurable W kv contents at_path n).

(** What the tests before the last need: room for eight entries, or for all
    the keys of the large ones. *)
Definition test_ok (l : list statement) : Prop :=
  (l ∈ small_tests /\ (8 <= n)%nat) \/
  (l ∈ [LargeAscendingTest; LargeAscendingAfterRecoveryTest; LargeDescendingTest; LargeDescendingAfterRecoveryTest] /\
   (Z.to_nat LARGE_LIMIT <= n)%nat).

Lemma checks_more a b l m m' : (a <= b)%nat -> checks a l m = Some m' -> checks b l m = Some m'.
Proof.
  intros Hab. revert m; induction l as [|c l IH]; intros m; [done|]. cbn [checks].
  intros (m1 & H1 & H2)%bind_Some. assert (check b c m = Some m1) as ->; [|by apply IH].
  destruct c; cbn [check] in *; try done.
  all: destruct (Nat.ltb_spec (size m) a); [|done]; by rewrite (proj2 (Nat.ltb_lt _ _)) by lia.
Qed.

Lemma test_ok_checks l : test_ok l -> exists m, checks n l ∅ = Some m.
Proof.
  intros [[Hl Hn]|[Hl Hn]]; [|by apply large_tests_check].
  pose proof small_tests_check as Hall. rewrite forallb_forall in Hall.
  destruct (passes_some 8 l (Hall l (proj1 (list_elem_of_In _ _) Hl))) as [m Hm].
  exists m. by apply (checks_more 8).
Qed.

(** C19: the tests of test/basic_test.cc pass on every implementation that keeps
    the contract of pmkv.h, reopens what was stored and has room for the keys:
    each of the nineteen tests on a few keys and the four on 500000 keys, from
    the constructor of the fixture to its destructor; and the one with eight
    threads, in every interleaving of the calls of the threads that runs them to
    their ends, with all its assertions. *)
Theorem basic_tests_pass size_ std_remove w
  (Hopen : forall w, exists h w', pmkv_open PATH size_ 1 w = Normal (Some h, w'))
  (Hn : (400 <= n)%nat) :
  (forall l, test_ok l -> exists w', run_fixture size_ std_remove l w = Normal (true, w')) /\
  (forall h w0 sched, pmkv_open PATH size_ 1 (std_remove PATH w) = Normal (Some h, w0) ->
     exists ths s', run_parallel size_ sched (test_threads 8 50) (Some h, w0) = Normal (true, ths, s') /\
       (Forall (fun l => l = []) ths -> exists s'', run_test size_ [CountIs 400] s' = Normal (true, s''))).
Proof.
  assert (Hfresh : forall h w', pmkv_open PATH size_ 1 (std_remove PATH w) = Normal (Some h, w') ->
    has (contents := contents) (at_path := at_path) (Some h, w') ∅).
  { intros h w' E. exists h, w'. split; [done|]. split; [by eapply open_at|by eapply open_fresh]. }
  split.
  - intros l (m & Hm)%test_ok_checks. destruct (Hopen (std_remove PATH w)) as (h & w' & E).
    unfold run_fixture. rewrite E. cbn [mbind outcome_bind].
    destruct (run_test_checks size_ l _ _ m (Hfresh h w' E) Hm) as (s' & -> & h' & w'' & -> & _). by eexists.
  - intros h w0 sched E.
    destruct (run_parallel_ok size_ sched (test_threads 8 50) _ ∅ (Hfresh h w0 E)
      (test_threads_inv n 8 50 ltac:(lia) ltac:(lia))) as (ths & s' & m' & H1 & H2 & _ & H3 & _).
    exists ths, s'. split; [done|]. intros Hall.
    assert (Hleft : puts_left ths = 0%nat).
    { clear -Hall. unfold puts_left. induction Hall as [|l ths -> _ IH]; [done|]. cbn. by rewrite IH. }
    rewrite puts_test_threads, map_size_empty, Hleft in H3.
    destruct (run_test_checks size_ [CountIs 400] s' m' m' H2) as (s'' & Hrun & _); [|by exists s''].
    cbn [checks check]. replace (size m') with 400%nat by lia. done.
Qed.

End properties.

(** The library of [Pmkv.MemLib], whose handles are the paths. *)
Lemma mem_open_eq path sz c w :
  @pmkv_open _ _ mem_ops path sz c w =
    if decide (u64 c = 1) then Normal (Some path, <[path := ∅]> w)
    else Normal (match w !! path with Some _ => Some path | None => None end, w).
Proof.
  cbn. unfold PmemkvImpl.pmkv_open. cbn. unfold MemLib.open_. cbn [MemLib.cfg_items MemLib.cfg_path].
  rewrite lookup_insert_eq, (decide_True (P := b!"path" = b!"path")) by done. cbn [MemLib.cfg_path].
  destruct (decide (u64 c = 1)) as [->|Hc]; [done|].
  destruct (u64 c) as [|[]|]; try (by destruct Hc); destruct (w !! path); done.
Qed.

Lemma mem_durable :
  @PmkvDurable MemLib.world bytes mem_ops MemLib.mem_store (fun h path => h = path) 1000.
Proof.
  split.
  - intros w path sz c h w'. rewrite mem_open_eq. repeat case_match; congruence.
  - intros w path sz h m -> Hm. exists path, w. rewrite mem_open_eq.
    rewrite decide_False by (vm_compute; discriminate).
    unfold MemLib.mem_store in Hm. change (pmkv_close (Some path) w) with w. by rewrite Hm.
  - intros w h m k v Hm Hs. change (fst (MemLib.put_ h k v w) = 0). unfold MemLib.put_, MemLib.mem_store in *.
    rewrite Hm. by rewrite decide_True.
Qed.

Lemma basic_tests_pass_witness :
  exists w', run_fixture (H := mem_ops) SIZE (fun _ w => w) RemoveExistingTest ∅ = Normal (true, w').
Proof.
  refine (proj1 (basic_tests_pass (Ops := mem_ops) MemLib.mem_store mem_contract (fun h path => h = path) 1000
    mem_durable SIZE (fun _ w => w) ∅ _ _) RemoveExistingTest _).
  - intros w. rewrite mem_open_eq. eexists _, _. reflexivity.
  - apply Nat.leb_le. vm_compute. reflexivity.
  - left. split; [|apply Nat.leb_le; vm_compute; reflexivity]. repeat (first [left; reflexivity | right]).
Defined.

(** The file handed out to be completed fails every test at its first line. *)
Lemma stub_fails_tests {W kv : Type} size_ std_remove (l : list statement) (w : W) :
  run_fixture (H := Stub.stub_ops W kv) size_ std_remove (IsValid :: l) w =
    Normal (false, std_remove PATH w).
Proof. done. Qed.
