(* ===== verification/RecoveryTests.v ===== *)
(** * The crash tests of an implementation (test/recovery_test.cc)

    A round of a test makes a fresh store, fills it in two of the three tests,
    and forks a child that fills, overwrites or deletes until it is killed; the
    parent opens the store again and compares the number of entries with the
    number of keys that have their value. *)

From S2P Require Import Prelude CLib Pmkv PmkvTests.

Local Open Scope Z_scope.

(** ** PMKVWrapper

    The wrapper of this file; [true] is [status::OK], [false]
    [status::NOT_FOUND].  The statuses of [put] and [count_all] are the numbers
    the store returns. *)
Module PMKVWrapper.
Section wrapper.
Context {W kv : Type} `{PmkvOps W kv}.

Definition new (path : bytes) (size : Z) (create : bool) (w : W) : outcome (option kv * W) :=
  pmkv_open path size (if create then 1 else 0) w.

Definition delete (o : option kv) (w : W) : W := pmkv_close o w.

Definition is_db_valid (o : option kv) : bool := match o with Some _ => true | None => false end.

Definition get (h : kv) (k value : bytes) (w : W) : bool * bytes :=
  let '(s, val) := pmkv_get h k w in
  if negb (s =? 0) then (false, value) else (true, val).

Definition put (h : kv) (k v : bytes) (w : W) : Z * W := pmkv_put h k v w.

Definition remove (h : kv) (k : bytes) (w : W) : bool * W :=
  let '(s, w) := pmkv_delete h k w in (if negb (s =? 0) then false else true, w).

Definition count_all (h : kv) (w : W) : Z * Z := pmkv_count_all h w.

Definition exists_ (h : kv) (k : bytes) (w : W) : bool := negb (pmkv_exists h k w =? 0).

End wrapper.
End PMKVWrapper.

(** ** Execution *)

(** the template arguments of [PMKVRecoveryTest], beside the pool size *)
Definition NUM_OP : nat := Z.to_nat 100000.

Section tests.
Context {W kv : Type} `{PmkvOps W kv}.
Variables (std_remove : bytes -> W -> W) (num : nat).
(** [killed h calls w w']: a child that makes the calls on [h] from [w] on, and
    is killed at some moment, may leave [w']. *)
Variable killed : kv -> list kv_call -> W -> W -> Prop.
(** whether [signal(SIGSEGV, handler) != SIG_ERR]: [true] is [sigsegv_handler],
    [false] [SIG_DFL] *)
Variable signal_ok : bool -> W -> bool.

Definition keys : list Z := numbers 1 num.

(** [FillSeq] in the parent, with its assertions, and in the child *)
Definition FillSeq : list statement := map (fun i => PutOk (to_string i) (bang i)) keys.

Definition fill_calls : list kv_call := map (fun i => CPut (to_string i) (bang i)) keys.

Definition delete_calls : list kv_call := map (fun i => CDelete (to_string i)) keys.

Definition Start (create : bool) (w : W) : outcome (bool * (option kv * W)) :=
  '(o, w) ← PMKVWrapper.new PATH SIZE create w;
  Normal (PMKVWrapper.is_db_valid o, (o, w)).

(** The constructor and the destructor of the fixture; an assertion that fails
    in the constructor is a failure of the test, whose body is then not run. *)
Definition PMKVBaseTest_new (w : W) : outcome (bool * (option kv * W)) := Start true (std_remove PATH w).

Definition PMKVBaseTest_delete (s : option kv * W) : W := let '(o, w) := s in PMKVWrapper.delete o w.

Definition Cleanup (s : option kv * W) : outcome (bool * (option kv * W)) :=
  let '(o, w) := s in Start true (std_remove PATH (PMKVWrapper.delete o w)).

(** the number of keys whose value is right *)
Definition right_keys (h : kv) (w : W) : nat :=
  length (filter (fun i => PMKVWrapper.get h (to_string i) [] w = (true, bang i)) keys).

Definition SanityCheck (h : kv) (w : W) : bool :=
  let '(st, cnt_all) := PMKVWrapper.count_all h w in (st =? 0) && (cnt_all =? Z.of_nat (right_keys h w)).

Definition Restart_ (s : option kv * W) : outcome (bool * (option kv * W)) :=
  let '(o, w) := s in Start false (PMKVWrapper.delete o w).

(** [Restart(); SanityCheck();]: a failed assertion ends only the function it is
    in.  The calls of [SanityCheck] on a null handle are undefined. *)
Definition recover (s : option kv * W) : outcome (bool * (option kv * W)) :=
  '(ok, (o, w)) ← Restart_ s;
  match o with
  | Some h => Normal (ok && SanityCheck h w, (o, w))
  | None => Undefined
  end.

(** A round up to the fork: [fill] says whether the parent fills the store. *)
Definition before_fork (fill : bool) (s : option kv * W) : outcome (bool * (option kv * W)) :=
  '(ok, s) ← Cleanup s;
  '(ok', s) ← run_test SIZE (if fill then FillSeq else []) s;
  Normal (ok && ok', s).

(** The rest of the round in the parent, once the child is dead: whether every
    assertion of the round held, and whether the test goes on, as it does not
    when one of the assertions on [signal] in its own body fails. *)
Definition after_fork (ok : bool) (s : option kv * W) : outcome (bool * bool * (option kv * W)) :=
  if signal_ok true s.2 then
    '(ok', s) ← recover s;
    Normal (ok && ok', signal_ok false s.2, s)
  else Normal (false, false, s).

(** A round; [child] are the calls of the child.  [fork] succeeds. *)
Inductive recovery_round (fill : bool) (child : list kv_call) (s : option kv * W)
  : outcome (bool * bool * (option kv * W)) -> Prop :=
  | round_ended o :
      before_fork fill s = o -> (forall r, o <> Normal r) -> recovery_round fill child s (_ ← o; Undefined)
  | round_no_store ok w :
      (* the child calls the store with a null handle *)
      before_fork fill s = Normal (ok, (None, w)) -> recovery_round fill child s Undefined
  | round_killed ok h w w' :
      before_fork fill s = Normal (ok, (Some h, w)) -> killed h child w w' ->
      recovery_round fill child s (after_fork ok (Some h, w')).

(** [iteration] rounds; a failed assertion of a function does not end the test. *)
Inductive recovery_test (fill : bool) (child : list kv_call)
  : nat -> option kv * W -> bool -> option kv * W -> Prop :=
  | test_done s : recovery_test fill child 0 s true s
  | test_round k s ok s1 ok' s2 :
      recovery_round fill child s (Normal (ok, true, s1)) -> recovery_test fill child k s1 ok' s2 ->
      recovery_test fill child (S k) s (ok && ok') s2
  | test_left k s ok s1 :
      recovery_round fill child s (Normal (ok, false, s1)) -> recovery_test fill child (S k) s false s1.

(** The three tests, of [ITERATION] rounds. *)
Definition ITERATION : nat := 10.

Definition FillSeqRecoveryTest : option kv * W -> bool -> option kv * W -> Prop :=
  recovery_test false fill_calls ITERATION.

Definition OverwriteSeqRecoveryTest : option kv * W -> bool -> option kv * W -> Prop :=
  recovery_test true fill_calls ITERATION.

Definition DeleteSeqRecoveryTest : option kv * W -> bool -> option kv * W -> Prop :=
  recovery_test true delete_calls ITERATION.

(** A test between the constructor and the destructor of its fixture. *)
Inductive run_fixture (test : option kv * W -> bool -> option kv * W -> Prop) (w : W) : bool -> W -> Prop :=
  | fixture_run s ok s' :
      PMKVBaseTest_new w = Normal (true, s) -> test s ok s' ->
      run_fixture test w ok (PMKVBaseTest_delete s')
  | fixture_failed s :
      PMKVBaseTest_new w = Normal (false, s) -> run_fixture test w false (PMKVBaseTest_delete s).

End tests.

(** ** Crash consistency *)

(** The map after a call that succeeded. *)
Definition after_call (m : gmap bytes bytes) (c : kv_call) : gmap bytes bytes :=
  match c with CPut k v => <[k := v]> m | CDelete k => delete k m | _ => m end.

Definition after_calls (cs : list kv_call) (m : gmap bytes bytes) : gmap bytes bytes := fold_left after_call cs m.

(** What README.md asks for: opened again after a crash, the store is in the
    state that some number of the calls left. *)
Class PmkvCrash (W kv : Type) `{PmkvOps W kv} (contents : W -> kv -> option (gmap bytes bytes))
  (at_path : kv -> bytes -> Prop) (killed : kv -> list kv_call -> W -> W -> Prop) : Prop := {
  crash w w' path sz h m cs :
    at_path h path -> contents w h = Some m -> killed h cs w w' ->
    exists h' w'' j, pmkv_open path sz 0 (pmkv_close (Some h) w') = Normal (Some h', w'') /\
      contents w'' h' = Some (after_calls (take j cs) m)
}.

(** ** The maps a crash leaves *)

(** [m] has the keys of [l], with their values, and no others. *)
Definition exactly (l : list Z) (m : gmap bytes bytes) : Prop :=
  (forall i, i ∈ l -> m !! to_string i = Some (bang i)) /\
  (forall k v, m !! k = Some v -> exists i, i ∈ l /\ k = to_string i).

Lemma exactly_size l m : NoDup l -> small_numbers l -> exactly l m -> size m = length l.
Proof.
  intros Hd Hs [H1 H2]. assert (E : m = numbered bang l ∅).
  { apply map_eq. intros k. destruct (m !! k) as [v|] eqn:Ek.
    - destruct (H2 k v Ek) as (i & Hi & ->). rewrite numbered_in by done. rewrite H1 in Ek by done. by injection Ek as <-.
    - rewrite numbered_notin; [by rewrite lookup_empty|]. intros i Hi <-. by rewrite H1 in Ek. }
  destruct (put_gets bang bang_fits (length l) l ∅) as [_ H]; [rewrite map_size_empty; lia|done|done|by intros; apply lookup_empty|].
  rewrite E, H, map_size_empty. done.
Qed.

Lemma exactly_put l m i : exactly l m -> exactly (l ++ [i]) (<[to_string i := bang i]> m).
Proof.
  intros [H1 H2]. split.
  - intros j Hj. destruct (decide (to_string i = to_string j)) as [E|Hne].
    + rewrite <- E, lookup_insert_eq. unfold bang. by rewrite E.
    + rewrite lookup_insert_ne by done. apply H1. apply elem_of_app in Hj as [?|Hj]; [done|].
      apply list_elem_of_singleton in Hj as ->. done.
  - intros k v [[<- _]|[_ Hk]]%lookup_insert_Some.
    + exists i. split; [apply elem_of_app; right; by apply list_elem_of_singleton|done].
    + destruct (H2 k v Hk) as (j & Hj & ->). exists j. split; [apply elem_of_app; by left|done].
Qed.

Lemma exactly_again l m i : i ∈ l -> exactly l m -> exactly l (<[to_string i := bang i]> m).
Proof. intros Hi [H1 H2]. rewrite insert_id by (by apply H1). by split. Qed.

Lemma exactly_delete l m i :
  NoDup (i :: l) -> small_numbers (i :: l) -> exactly (i :: l) m -> exactly l (delete (to_string i) m).
Proof.
  intros [Hi _]%NoDup_cons [Hsi Hs]%Forall_cons [H1 H2]. unfold small_numbers in *. rewrite Forall_forall in Hs. split.
  - intros j Hj. rewrite lookup_delete_ne; [apply H1; by right|].
    intros E. apply to_string_inj in E; [congruence|done|by apply Hs].
  - intros k v [Hne Hk]%lookup_delete_Some. destruct (H2 k v Hk) as (j & [->|Hj]%elem_of_cons & ->); [done|].
    by exists j.
Qed.

Lemma after_fill l l0 : forall m,
  exactly l0 m -> exactly (l0 ++ l) (after_calls (map (fun i => CPut (to_string i) (bang i)) l) m).
Proof.
  revert l0; induction l as [|i l IH]; intros l0 m Hm; [by rewrite app_nil_r|].
  cbn [map after_calls fold_left after_call]. fold (after_calls (map (fun i => CPut (to_string i) (bang i)) l)).
  replace (l0 ++ i :: l) with ((l0 ++ [i]) ++ l) by (by rewrite <- app_assoc). by apply IH, exactly_put.
Qed.

Lemma after_overwrite l l0 : forall m,
  (forall i, i ∈ l -> i ∈ l0) -> exactly l0 m ->
  exactly l0 (after_calls (map (fun i => CPut (to_string i) (bang i)) l) m).
Proof.
  induction l as [|i l IH]; intros m Hin Hm; [done|].
  cbn [map after_calls fold_left after_call]. fold (after_calls (map (fun i => CPut (to_string i) (bang i)) l)).
  apply IH; [intros; apply Hin; by right|]. apply exactly_again; [apply Hin; by left|done].
Qed.

Lemma after_delete l1 l2 : forall m,
  NoDup (l1 ++ l2) -> small_numbers (l1 ++ l2) -> exactly (l1 ++ l2) m ->
  exactly l2 (after_calls (map (fun i => CDelete (to_string i)) l1) m).
Proof.
  induction l1 as [|i l IH]; intros m Hd Hs Hm; [done|].
  cbn [map after_calls fold_left after_call]. fold (after_calls (map (fun i => CDelete (to_string i)) l)).
  apply IH; [by apply NoDup_cons in Hd as [_ Hd]|by apply Forall_cons in Hs as [_ Hs]|]. by apply exactly_delete.
Qed.

Section passes.
Context {W kv : Type} {Ops : PmkvOps W kv} {contents : W -> kv -> option (gmap bytes bytes)}
  {Contract : PmkvContract W kv contents} {at_path : kv -> bytes -> Prop} {n : nat}
  {Durable : PmkvDurable W kv contents at_path n} {killed : kv -> list kv_call -> W -> W -> Prop}
  {Crash : PmkvCrash W kv contents at_path killed}.
Context (std_remove : bytes -> W -> W) (num : nat).
Hypothesis Hopen : forall w, exists h w', pmkv_open PATH SIZE 1 w = Normal (Some h, w').
Hypothesis Hnum : (num <= n)%nat /\ Z.of_nat num < 2 ^ 64.
Context (signal_ok : bool -> W -> bool).
Hypothesis Hsignal : forall handler w, signal_ok handler w = true.

Lemma keys_ok : NoDup (keys num) /\ small_numbers (keys num) /\ length (keys num) = num.
Proof using Hnum. apply numbers_ok; lia. Qed.

Lemma right_key w h m l i :
  contents w h = Some m -> exactly l m -> small_numbers l -> 0 <= i < 2 ^ 64 ->
  PMKVWrapper.get h (to_string i) [] w = (true, bang i) <-> i ∈ l.
Proof using Contract.
  intros Hm [H1 H2] Hs Hi. change (w_get h (to_string i) [] w = (true, bang i) <-> i ∈ l). split.
  - intros Hg. destruct (m !! to_string i) as [v|] eqn:E; [|by rewrite (get_none_status w h m) in Hg].
    destruct (H2 _ _ E) as (j & Hj & Ej). apply to_string_inj in Ej; [congruence|done|].
    unfold small_numbers in Hs. rewrite Forall_forall in Hs. by apply Hs.
  - intros Hl. unfold w_get. by rewrite (get_found w h m _ (bang i)) by (done || by apply H1 || apply bang_fits).
Qed.

(** The check passes on a store that has some of the keys with their values. *)
Lemma sanity w h m l :
  contents w h = Some m -> exactly l m -> NoDup l -> (forall i, i ∈ l -> i ∈ keys num) ->
  SanityCheck num h w = true.
Proof using Contract Hnum.
  intros Hm Hl Hd Hin. destruct keys_ok as (Kd & Ks & _).
  assert (Hs : small_numbers l).
  { unfold small_numbers in *. rewrite Forall_forall in Ks |- *. auto. }
  unfold SanityCheck, PMKVWrapper.count_all. rewrite (count_all_size w h m Hm), (exactly_size l m Hd Hs Hl). cbn [Z.eqb andb].
  apply Z.eqb_eq. f_equal. unfold right_keys. apply Permutation_length, NoDup_Permutation; [done|by apply NoDup_filter|].
  intros i. rewrite list_elem_of_filter. split.
  - intros Hi. split; [|auto]. apply (right_key w h m l); try done. unfold small_numbers in Hs. rewrite Forall_forall in Hs. auto.
  - intros [Hg Hi]. apply (right_key w h m l) in Hg; try done. unfold small_numbers in Ks. rewrite Forall_forall in Ks. auto.
Qed.

(** The check compares two counts of what is there: a store that has lost every
    entry passes it. *)
Lemma forgetful_store_passes w h : contents w h = Some ∅ -> SanityCheck num h w = true.
Proof using Contract Hnum.
  intros Hm. apply (sanity w h ∅ []); [done| |constructor|by intros i ?%elem_of_nil].
  split; [by intros i ?%elem_of_nil|]. intros k v Hk. by rewrite lookup_empty in Hk.
Qed.

(** The three children, and the keys the store may have after the crash. *)
Definition child_ok (fill : bool) (child : list kv_call) : Prop :=
  child = fill_calls num \/ (fill = true /\ child = delete_calls num).

Lemma after_crash fill child m j :
  child_ok fill child -> exactly (if fill then keys num else []) m ->
  exists l, NoDup l /\ (forall i, i ∈ l -> i ∈ keys num) /\ exactly l (after_calls (take j child) m).
Proof using Hnum.
  destruct keys_ok as (Kd & Ks & _).
  assert (NoDup (take j (keys num)) /\ NoDup (drop j (keys num))) as [Kt Kdr].
  { rewrite <- (take_drop j (keys num)) in Kd. by apply NoDup_app in Kd as (? & _ & ?). }
  intros [->|[-> ->]] Hm.
  - unfold fill_calls. rewrite <- fmap_take. destruct fill.
    + exists (keys num). split; [done|]. split; [done|]. apply after_overwrite; [|done].
      intros i Hi. apply elem_of_take in Hi as (p & Hp & _). by eapply list_elem_of_lookup_2.
    + exists (take j (keys num)). split; [done|]. split.
      * intros i Hi. apply elem_of_take in Hi as (p & Hp & _). by eapply list_elem_of_lookup_2.
      * by apply (after_fill _ []).
  - unfold delete_calls. rewrite <- fmap_take. exists (drop j (keys num)). split; [done|]. split.
    + intros i Hi. rewrite <- (take_drop j (keys num)). apply elem_of_app. by right.
    + apply after_delete; by rewrite take_drop.
Qed.

Lemma FillSeq_checks : exists m, checks n (FillSeq num) ∅ = Some m /\ exactly (keys num) m.
Proof using Hnum.
  destruct keys_ok as (Kd & Ks & Kl). unfold FillSeq.
  assert (Hgen : forall l0 l m, exactly l0 m -> NoDup l -> small_numbers l ->
    (forall i, i ∈ l -> m !! to_string i = None) -> (size m + length l <= n)%nat ->
    exists m', checks n (map (fun i => PutOk (to_string i) (bang i)) l) m = Some m' /\ exactly (l0 ++ l) m').
  { intros l0 l. revert l0. induction l as [|i l IH]; intros l0 m Hm Hd Hs Hnew Hle; [exists m; by rewrite app_nil_r|].
    apply NoDup_cons in Hd as [Hi Hd]. apply Forall_cons in Hs as [Hsi Hs]. cbn [map checks check length] in *.
    rewrite (proj2 (Nat.ltb_lt _ _)) by lia. cbn [mbind option_bind].
    replace (l0 ++ i :: l) with ((l0 ++ [i]) ++ l) by (by rewrite <- app_assoc).
    apply IH; [by apply exactly_put|done|done| |].
    - intros j Hj. rewrite lookup_insert_ne; [apply Hnew; by right|].
      intros E. apply to_string_inj in E; [congruence|done|]. unfold small_numbers in Hs. rewrite Forall_forall in Hs. auto.
    - rewrite map_size_insert_None by (apply Hnew; by left). lia. }
  apply (Hgen []); [|done|done|by intros; apply lookup_empty|rewrite map_size_empty; lia].
  split; [by intros i ?%elem_of_nil|]. intros k v Hk. by rewrite lookup_empty in Hk.
Qed.

(** A round up to the fork. *)
Lemma round_start (fill : bool) (s : option kv * W) :
  exists h w m, before_fork std_remove num fill s = Normal (true, (Some h, w)) /\
    at_path h PATH /\ contents w h = Some m /\ exactly (if fill then keys num else []) m.
Proof using Contract Durable Hopen Hnum.
  destruct s as [o0 w0]. destruct (Hopen (std_remove PATH (pmkv_close o0 w0))) as (h1 & w1 & E1).
  assert (Hclean : Cleanup std_remove (o0, w0) = Normal (true, (Some h1, w1))).
  { unfold Cleanup, Start, PMKVWrapper.new, PMKVWrapper.delete. by rewrite E1. }
  assert (Hfresh : has (contents := contents) (at_path := at_path) (Some h1, w1) ∅).
  { exists h1, w1. split; [done|]. split; [by eapply open_at|by eapply open_fresh]. }
  unfold before_fork. rewrite Hclean. cbn [mbind outcome_bind]. destruct fill.
  - destruct FillSeq_checks as (m & Hm & He).
    destruct (run_test_checks SIZE _ _ _ m Hfresh Hm) as (s2 & H1 & h2 & w2 & -> & Hat & Hc). rewrite H1. by exists h2, w2, m.
  - exists h1, w1, ∅. destruct Hfresh as (h & w & E & Hat & Hc). injection E as <- <-. split; [done|].
    split; [done|]. split; [done|]. split; [by intros i ?%elem_of_nil|]. intros k v Hk. by rewrite lookup_empty in Hk.
Qed.

(** Wherever the child is killed, the parent finds what it asks for. *)
Lemma recover_passes (fill : bool) child h (w : W) m (w' : W) :
  child_ok fill child -> at_path h PATH -> contents w h = Some m ->
  exactly (if fill then keys num else []) m -> killed h child w w' ->
  exists s', recover num (Some h, w') = Normal (true, s').
Proof using Contract Crash Hnum.
  intros Hc Hat Hm He Hk. destruct (crash w w' PATH SIZE h m child Hat Hm Hk) as (h' & w'' & j & Eo & Hcont).
  destruct (after_crash fill child m j Hc He) as (l & Hd & Hin & Hl).
  unfold recover, Restart_, Start, PMKVWrapper.new, PMKVWrapper.delete. rewrite Eo. cbn [mbind outcome_bind].
  rewrite (sanity w'' h' _ l Hcont Hl Hd Hin). by eexists.
Qed.

Lemma round_passes fill child s o :
  child_ok fill child -> recovery_round std_remove num killed signal_ok fill child s o ->
  exists s', o = Normal (true, true, s').
Proof using All.
  intros Hc Hr. destruct (round_start fill s) as (h1 & w1 & m & E1 & Hat & Hm & He).
  destruct Hr as [o Ho Hno|ok w Ho|ok h w w' Ho Hk]; rewrite E1 in Ho.
  - by destruct (Hno (true, (Some h1, w1))).
  - done.
  - injection Ho as <- <- <-. destruct (recover_passes fill child h1 w1 m w' Hc Hat Hm He Hk) as [s' E].
    exists s'. unfold after_fork. rewrite Hsignal, E. cbn [mbind outcome_bind]. by rewrite Hsignal.
Qed.

(** Every run of the rounds succeeds. *)
Lemma rounds_pass fill child k s ok s' :
  child_ok fill child -> recovery_test std_remove num killed signal_ok fill child k s ok s' -> ok = true.
Proof using All.
  intros Hc. induction 1 as [|k s ok s1 ok' s2 Hr _ ->|k s ok s1 Hr]; [done|..];
    by destruct (round_passes fill child s _ Hc Hr) as [s3 [= -> _]].
Qed.

(** The rounds come to their ends. *)
Lemma rounds_end fill child :
  child_ok fill child -> (forall h w, exists w', killed h child w w') ->
  forall k s, exists s', recovery_test std_remove num killed signal_ok fill child k s true s'.
Proof using All.
  intros Hc Hkill. induction k as [|k IH]; intros s; [exists s; constructor|].
  destruct (round_start fill s) as (h & w & m & E1 & Hat & Hm & He).
  destruct (Hkill h w) as [w' Hk].
  pose proof (round_killed std_remove num killed signal_ok fill child s true h w w' E1 Hk) as Hr.
  destruct (round_passes fill child s _ Hc Hr) as [s2 E3]. rewrite E3 in Hr.
  destruct (IH s2) as [s3 H3]. exists s3. by apply (test_round _ _ _ _ _ _ _ s true s2 true s3).
Qed.

End passes.

(** ** Properties *)

(** C17: the crash tests of test/recovery_test.cc pass on every implementation
    that keeps the contract of pmkv.h, has room for the keys and, opened again
    after a crash, is in the state some number of the calls left: wherever the
    child is killed while it fills an empty store, overwrites a full one or
    deletes from it, and with [signal] accepting both handlers, as POSIX says it
    does for SIGSEGV, every round ends with the number of entries equal to the
    number of keys that have their value, and the test goes on, and so does every run of the tests
    between the constructor and the destructor of their fixture, which there are
    if a child can be killed at all. *)
Theorem recovery_tests_pass {W kv : Type} {Ops : PmkvOps W kv}
  (contents : W -> kv -> option (gmap bytes bytes)) (Contract : PmkvContract W kv contents)
  (at_path : kv -> bytes -> Prop) n (Durable : PmkvDurable W kv contents at_path n)
  (killed : kv -> list kv_call -> W -> W -> Prop) (Crash : PmkvCrash W kv contents at_path killed)
  signal_ok std_remove num s w0
  (Hsignal : forall handler w, signal_ok handler w = true)
  (Hopen : forall w, exists h w', pmkv_open PATH SIZE 1 w = Normal (Some h, w'))
  (Hnum : (num <= n)%nat /\ Z.of_nat num < 2 ^ 64) :
  (forall fill child o, child_ok num fill child ->
     recovery_round std_remove num killed signal_ok fill child s o -> exists s', o = Normal (true, true, s')) /\
  (forall test, test ∈ [FillSeqRecoveryTest std_remove num killed signal_ok;
                        OverwriteSeqRecoveryTest std_remove num killed signal_ok;
                        DeleteSeqRecoveryTest std_remove num killed signal_ok] ->
     (forall ok w', run_fixture std_remove test w0 ok w' -> ok = true) /\
     ((forall h cs w, exists w', killed h cs w w') -> exists w', run_fixture std_remove test w0 true w')).
Proof.
  split; [intros fill child o Hc Ho; by eapply (round_passes std_remove num Hopen Hnum signal_ok Hsignal fill child s)|].
  intros test Ht. assert (exists fill child, child_ok num fill child /\
    test = recovery_test std_remove num killed signal_ok fill child ITERATION) as (fill & child & Hc & ->).
  { rewrite !elem_of_cons, elem_of_nil in Ht. unfold child_ok.
    destruct Ht as [->|[->|[->|[]]]];
      [exists false, (fill_calls num)|exists true, (fill_calls num)|exists true, (delete_calls num)]; auto. }
  destruct (Hopen (std_remove PATH w0)) as (h & w1 & Eo).
  assert (Hnew : PMKVBaseTest_new std_remove w0 = Normal (true, (Some h, w1))).
  { unfold PMKVBaseTest_new, Start, PMKVWrapper.new. by rewrite Eo. }
  split.
  - intros ok w' [s1 ok1 s2 _ H2|s1 H1]; [|by rewrite Hnew in H1].
    by eapply (rounds_pass std_remove num Hopen Hnum signal_ok Hsignal fill child).
  - intros Hk. destruct (rounds_end std_remove num Hopen Hnum signal_ok Hsignal fill child Hc (fun h w => Hk h child w) ITERATION (Some h, w1))
      as [s' Hs']. exists (PMKVBaseTest_delete s').
    by apply (fixture_run _ _ _ (Some h, w1) true s').
Qed.

(** A child of [MemLib] that is killed between two calls. *)
Definition mem_killed (h : bytes) (cs : list kv_call) (w w' : MemLib.world) : Prop :=
  exists j m, w !! h = Some m /\ w' = <[h := after_calls (take j cs) m]> w.

Lemma mem_crash : @PmkvCrash MemLib.world bytes mem_ops MemLib.mem_store (fun h path => h = path) mem_killed.
Proof.
  split. intros w w' path sz h m cs -> Hm (j & m' & Hm' & ->).
  exists path, (<[path := after_calls (take j cs) m']> w), j. rewrite mem_open_eq.
  rewrite decide_False by (vm_compute; discriminate).
  change (pmkv_close (Some path) (<[path := after_calls (take j cs) m']> w))
    with (<[path := after_calls (take j cs) m']> w).
  unfold MemLib.mem_store in *. rewrite lookup_insert_eq. split; [done|]. congruence.
Qed.

(** Ten keys are stored, and the child is killed after it has deleted four. *)
Lemma recovery_tests_pass_witness :
  exists o s', recovery_round (H := mem_ops) (fun _ w => w) 10 mem_killed (fun _ _ => true) true (delete_calls 10)
      (None, ∅) o /\ o = Normal (true, true, s').
Proof.
  set (filled := numbered bang (keys 10) ∅).
  assert (Hround : recovery_round (H := mem_ops) (fun _ w => w) 10 mem_killed (fun _ _ => true) true (delete_calls 10)
    (None, ∅) (after_fork (H := mem_ops) 10 (fun _ _ => true) true
      (Some PATH, <[PATH := after_calls (take 4 (delete_calls 10)) filled]> {[ PATH := filled ]}))).
  { apply (round_killed _ _ _ _ _ _ _ true PATH {[ PATH := filled ]}).
    - vm_compute. reflexivity.
    - exists 4%nat, filled. split; [apply lookup_singleton_eq|reflexivity]. }
  destruct (proj1 (recovery_tests_pass (Ops := mem_ops) MemLib.mem_store mem_contract (fun h path => h = path) 1000
    mem_durable mem_killed mem_crash (fun _ _ => true) (fun _ w => w) 10 (None, ∅) ∅ (fun _ _ => eq_refl)
    (fun w => ex_intro _ PATH (ex_intro _ (<[PATH := ∅]> w) eq_refl))
    ltac:(split; [apply Nat.leb_le; vm_compute; reflexivity|vm_compute; reflexivity]))
    true (delete_calls 10) _ ltac:(right; split; reflexivity) Hround) as [s' Hs'].
  eexists _, s'. exact (conj Hround Hs').
Defined.
