(* ===== verification/Output.v ===== *)
(** * The text of a run and the script that reads it
    (bench/bench.cc, Benchmark::Run; bench/summarize.py)

    The lines [Run] prints, header first, as text, and the part of
    summarize.py that takes the rates of the last four lines of a file and adds
    them up. *)

From Stdlib Require Import SpecFloat.
From S2P Require Import Prelude CLib Random Pmkv Double Format Histogram Stats Report Workload WorkloadLogic Fill.
From S2P Require Import CommandLine MachineInfo Run Barrier ReadWriteThreads RunThreads ThreadRuns.

Local Open Scope Z_scope.
Import Benchmark.

(** ** What the program writes *)
Section output.
(** how the C library shows a NaN *)
Variable nan_text : bytes.

(** the constant [1e-3] *)
Definition d_1em3 : double := ddiv (d_of_Z 1) (d_of_Z 1000).

(** ["%-12s : %11.3f millis/op;\n"] *)
Definition millis_text (name : bytes) (micros : Z) : bytes :=
  pad_right 12 name ++ b!" : " ++ pad_left 11 (format_f nan_text 3 (dmul (d_of_Z micros) d_1em3)) ++
  b!" millis/op;" ++ [10].

(** what a line adds to stdout *)
Definition line_text (l : line) : outcome bytes :=
  match l with
  | Header text => Normal text
  | Removed micros => Normal (millis_text b!"removed" micros)
  | Opened micros => Normal (millis_text b!"open" micros)
  | UnknownBenchmark _ => Normal [] (* stderr *)
  | Reported r => report_text nan_text r
  end.

Fixpoint lines_text (l : list line) : outcome bytes :=
  match l with
  | [] => Normal []
  | x :: l' => t ← line_text x; rest ← lines_text l'; Normal (t ++ rest)
  end.

End output.

(** ** What the script reads *)

(** [f.readlines()]: the lines with their newlines *)
Fixpoint readlines_from (cur s : bytes) : list bytes :=
  match s with
  | [] => match cur with [] => [] | _ => [cur] end
  | c :: s' => if c =? 10 then (cur ++ [10]) :: readlines_from [] s' else readlines_from (cur ++ [c]) s'
  end.

Definition readlines (s : bytes) : list bytes := readlines_from [] s.

(** [line.strip().split()] *)
Fixpoint words_from (cur s : bytes) : list bytes :=
  match s with
  | [] => match cur with [] => [] | _ => [cur] end
  | c :: s' =>
      if isspace c then match cur with [] => words_from [] s' | _ => cur :: words_from [] s' end
      else words_from (cur ++ [c]) s'
  end.

Definition words (s : bytes) : list bytes := words_from [] s.

(** [int(word)]; [None]: ValueError *)
Definition py_int (w : bytes) : option Z :=
  let '(neg, ds) := match w with 45 :: ds => (true, ds) | 43 :: ds => (false, ds) | _ => (false, w) end in
  if negb (bool_decide (ds = [])) && forallb isdigit ds
  then Some (if neg : bool then - dec_value ds else dec_value ds) else None.

(** one round of the loop over the lines *)
Definition line_tput (name : bytes) (line : bytes) : option Z :=
  let ws := words line in
  bench_name ← ws !! 0%nat;
  if bool_decide (bench_name = name) then w ← ws !! 4%nat; py_int w else None.

Fixpoint sum_tputs (name : bytes) (tput : Z) (lines : list bytes) : option Z :=
  match lines with
  | [] => Some tput
  | line :: lines' => t ← line_tput name line; sum_tputs name (tput + t) lines'
  end.

(** [f.readlines()[-4:]]; an exception leaves 0 *)
Definition file_tput (name text : bytes) : Z :=
  let lines := readlines text in
  default 0 (sum_tputs name 0 (drop (length lines - 4) lines)).

(** ** Lemmas *)
Definition no_space (w : bytes) : Prop := Forall (fun c => isspace c = false) w.

Lemma words_from_spaces sp s : Forall (fun c => isspace c = true) sp -> words_from [] (sp ++ s) = words_from [] s.
Proof. induction 1 as [|c sp Hc _ IH]; [done|]. cbn. by rewrite Hc. Qed.

Lemma words_from_word w : forall cur c s,
  no_space w -> isspace c = true -> cur ++ w <> [] ->
  words_from cur (w ++ c :: s) = (cur ++ w) :: words_from [] s.
Proof.
  induction w as [|x w IH]; intros cur c s Hw Hc Hne; cbn [app words_from].
  - rewrite Hc. rewrite app_nil_r in *. by destruct cur.
  - apply Forall_cons in Hw as [Hx Hw]. rewrite Hx, IH; [by rewrite <- app_assoc|done|done|].
    rewrite <- app_assoc. by destruct cur.
Qed.

(** A word, then spaces. *)
Lemma words_word w c s :
  no_space w -> isspace c = true -> w <> [] -> words (w ++ c :: s) = w :: words s.
Proof. intros Hw Hc Hne. unfold words. by rewrite (words_from_word w [] c s). Qed.

Lemma words_spaces k s : words (replicate k 32 ++ s) = words s.
Proof. apply words_from_spaces. apply Forall_replicate. done. Qed.

Lemma words_space s : words (32 :: s) = words s.
Proof. done. Qed.

Lemma isdigit_no_space c : isdigit c = true -> isspace c = false.
Proof.
  unfold isdigit, isspace. intros [H1%Z.leb_le H2%Z.leb_le]%andb_prop.
  rewrite (proj2 (Z.eqb_neq c 32)) by lia. cbn. destruct (Z.leb_spec c 13); [lia|]. by rewrite andb_false_r.
Qed.

Lemma digits_isdigit n : 0 <= n -> Forall (fun c => isdigit c = true) (digits n).
Proof. intros Hn. apply dec_digits_isdigit; [done|constructor]. Qed.

Lemma digits_nonempty n : digits n <> [].
Proof.
  pose proof (dec_digits_nonempty (S (Z.to_nat (Z.log2 n))) n [] ltac:(lia)) as Hd.
  unfold digits. intros E. rewrite E in Hd. cbn in Hd. lia.
Qed.

Lemma fraction_no_space p n : no_space (fraction p n).
Proof.
  revert n; induction p as [|p IH]; intros n; cbn [fraction]; [constructor|].
  apply Forall_app. split; [apply IH|]. constructor; [|constructor]. apply isdigit_no_space.
  pose proof (Z.mod_pos_bound n 10). unfold isdigit. rewrite !(proj2 (Z.leb_le _ _)) by lia. done.
Qed.

Lemma digits_no_space n : 0 <= n -> no_space (digits n).
Proof. intros Hn. eapply Forall_impl; [by apply digits_isdigit|]. intros c. apply isdigit_no_space. Qed.

Lemma fixed_no_space p n : 0 <= n -> no_space (fixed p n) /\ fixed p n <> [].
Proof.
  intros Hn. destruct p as [|p]; cbn [fixed]; [split; [by apply digits_no_space|apply digits_nonempty]|].
  assert (0 <= n / 10 ^ Z.of_nat (S p)) by (apply Z.div_pos; [done|apply Z.pow_pos_nonneg; lia]).
  split; [|by destruct (digits _)].
  apply Forall_app. split; [by apply digits_no_space|]. apply Forall_app.
  split; [by repeat constructor|apply fraction_no_space].
Qed.

Lemma scaled_nonneg p m e : 0 <= m -> 0 <= scaled p m e.
Proof.
  intros Hm. assert (0 < 10 ^ Z.of_nat p) by (apply Z.pow_pos_nonneg; lia). unfold scaled.
  destruct (Z.leb_spec 0 e); [assert (0 <= 2 ^ e) by (apply Z.pow_nonneg; lia); nia|].
  assert (0 < 2 ^ (- e)) by (apply Z.pow_pos_nonneg; lia). unfold round_half_even.
  assert (0 <= m * 10 ^ Z.of_nat p / 2 ^ (- e)) by (apply Z.div_pos; nia). repeat case_match; lia.
Qed.

Lemma format_f_word nt p x :
  no_space nt -> nt <> [] -> no_space (format_f nt p x) /\ format_f nt p x <> [].
Proof.
  intros Hnt Hne. assert (Hs : forall s, no_space (sign s)) by (intros []; vm_compute; by repeat constructor).
  destruct x as [s|s| |s m e]; cbn [format_f]; [..|done|].
  - destruct (fixed_no_space p 0 ltac:(lia)) as [H1 H2]. split; [apply Forall_app; split; [apply Hs|done]|]. by destruct s.
  - split; [apply Forall_app; split; [apply Hs|vm_compute; by repeat constructor]|]. destruct s; vm_compute; discriminate.
  - destruct (fixed_no_space p (scaled p (Zpos m) e)) as [H1 H2]; [by apply scaled_nonneg|].
    split; [apply Forall_app; split; [apply Hs|done]|]. by destruct s.
Qed.

Lemma no_space_no_newline w : no_space w -> 10 ∉ w.
Proof. intros Hw Hin. unfold no_space in Hw. rewrite Forall_forall in Hw. by specialize (Hw 10 Hin). Qed.

Lemma c_str_sub s c : c ∈ c_str s -> c ∈ s.
Proof.
  induction s as [|x s IH]; cbn [c_str]; [done|]. destruct (x =? 0); [by intros Hc%not_elem_of_nil|].
  rewrite !elem_of_cons. naive_solver.
Qed.

Lemma c_str_id s : 0 ∉ s -> c_str s = s.
Proof.
  induction s as [|x s IH]; cbn [c_str]; [done|]. rewrite not_elem_of_cons. intros [Hx Hs].
  rewrite (proj2 (Z.eqb_neq x 0)) by congruence. by rewrite IH.
Qed.

(** A line that ends here. *)
Lemma readlines_line t rest : 10 ∉ t -> readlines (t ++ 10 :: rest) = (t ++ [10]) :: readlines rest.
Proof.
  unfold readlines. intros Ht. assert (Hgen : forall cur, readlines_from cur (t ++ 10 :: rest) =
    (cur ++ t ++ [10]) :: readlines_from [] rest); [|apply (Hgen [])].
  induction t as [|c t IH]; intros cur; cbn [app readlines_from]; [done|].
  apply not_elem_of_cons in Ht as [Hc Ht]. rewrite (proj2 (Z.eqb_neq c 10)) by congruence.
  rewrite IH by done. by rewrite <- app_assoc.
Qed.

(** What comes before a newline does not matter to what follows it. *)
Lemma readlines_app a rest : readlines (a ++ 10 :: rest) = readlines (a ++ [10]) ++ readlines rest.
Proof.
  unfold readlines. assert (Hgen : forall cur, readlines_from cur (a ++ 10 :: rest) =
    readlines_from cur (a ++ [10]) ++ readlines_from [] rest); [|apply Hgen].
  induction a as [|c a IH]; intros cur; cbn [app readlines_from]; [done|].
  destruct (c =? 10); cbn [app]; by rewrite IH.
Qed.

(** The whole number a rate is shown as; infinity and NaN are not numbers. *)
Definition shown_ops (x : double) : option Z :=
  match x with
  | S754_zero _ => Some 0
  | S754_finite s m e => Some (if s then - scaled 0 (Zpos m) e else scaled 0 (Zpos m) e)
  | _ => None
  end.

Lemma py_int_digits (neg : bool) ds :
  ds <> [] -> Forall (fun c => isdigit c = true) ds ->
  py_int (sign neg ++ ds) = Some (if neg then - dec_value ds else dec_value ds).
Proof.
  intros Hne Hd. assert (Hf : forallb isdigit ds = true).
  { apply forallb_forall. intros c Hc. rewrite Forall_forall in Hd. apply Hd. by apply list_elem_of_In. }
  destruct neg; unfold py_int.
  - change (sign true ++ ds) with (45 :: ds). cbv iota beta. by rewrite bool_decide_false, Hf.
  - change (sign false ++ ds) with ds.
    assert (Hm : match ds with 45 :: ds => (true, ds) | 43 :: ds => (false, ds) | _ => (false, ds) end = (false, ds)).
    { destruct ds as [|c ds]; [done|]. apply Forall_cons in Hd as [Hc _].
      destruct (decide (c = 45)) as [->|]; [done|]. destruct (decide (c = 43)) as [->|]; [done|].
      destruct c as [|p|p]; try done. do 6 (destruct p as [p|p|]; try done). }
    rewrite Hm. by rewrite bool_decide_false, Hf.
Qed.

Lemma py_int_shown nt x : py_int nt = None -> py_int (format_f nt 0 x) = shown_ops x.
Proof.
  intros Hnt. destruct x as [s|s| |s m e]; cbn [shown_ops format_f fixed]; [by destruct s|by destruct s|done|].
  assert (0 <= scaled 0 (Zpos m) e) by (by apply scaled_nonneg).
  rewrite py_int_digits; [by rewrite digits_value|apply digits_nonempty|by apply digits_isdigit].
Qed.

(** A word and the spaces after it. *)
Lemma words_field w k s : no_space w -> w <> [] -> words (w ++ replicate k 32 ++ 32 :: s) = w :: words s.
Proof.
  intros Hw Hne. assert (E : replicate k 32 ++ 32 :: s = 32 :: replicate k 32 ++ s).
  { induction k as [|k IH]; [done|]. cbn [replicate app]. by rewrite IH. }
  by rewrite E, words_word, words_spaces.
Qed.

(** The five words a report line begins with. *)
Lemma words_report name k1 k2 f3 f0 rest :
  no_space name -> name <> [] -> no_space f3 -> f3 <> [] -> no_space f0 -> f0 <> [] ->
  words (name ++ replicate k1 32 ++ b!" : " ++ replicate k2 32 ++ f3 ++ b!" micros/op " ++ f0 ++ 32 :: rest) =
    name :: b!":" :: f3 :: b!"micros/op" :: f0 :: words rest.
Proof.
  intros. change (b!" : ") with (32 :: b!":" ++ [32]). cbn [app]. rewrite words_field by done.
  rewrite <- app_assoc. cbn [app]. rewrite words_word by (vm_compute; repeat constructor || discriminate).
  rewrite words_spaces. change (b!" micros/op ") with (32 :: b!"micros/op" ++ [32]). cbn [app].
  rewrite words_word by done. rewrite <- app_assoc. cbn [app].
  rewrite words_word by (vm_compute; repeat constructor || discriminate).
  by rewrite words_word.
Qed.

(** ** The lines of a report *)
Section script.
Variable nan_text : bytes.
Hypothesis Hnan : no_space nan_text.
Hypothesis Hnonempty : nan_text <> [].

(** A name the script looks for. *)
Definition plain_name (name : bytes) : Prop := no_space name /\ name <> [] /\ 0 ∉ name.

(** A report without a histogram and with a message on one line. *)
Definition plain_line (name : bytes) (l : Stats.Line) : Prop :=
  Stats.line_name l = name /\ Stats.line_hist l = None /\ 10 ∉ Stats.line_message l.

Lemma pad_left_newline w s : 10 ∉ s -> 10 ∉ pad_left w s.
Proof. intros Hs [[H _]%elem_of_replicate|H]%elem_of_app; [discriminate|done]. Qed.

Lemma pad_right_newline w s : 10 ∉ s -> 10 ∉ pad_right w s.
Proof. intros Hs [H|[H _]%elem_of_replicate]%elem_of_app; [done|discriminate]. Qed.

Lemma format_f_newline p x : 10 ∉ format_f nan_text p x.
Proof using Hnan Hnonempty. by apply no_space_no_newline, format_f_word. Qed.

Lemma extra_newline l :
  10 ∉ Stats.line_message l ->
  10 ∉ Stats.AppendWithSpace (match Stats.line_rate l with
                              | None => []
                              | Some r => snprintf 100 (pad_left 6 (format_f nan_text 1 r) ++ b!" MB/s")
                              end) (Stats.line_message l).
Proof using Hnan Hnonempty.
  intros Hm. match goal with |- context [Stats.AppendWithSpace ?x _] => set (a := x) end.
  assert (Ha : 10 ∉ a).
  { subst a. destruct (Stats.line_rate l) as [r|]; [|by apply not_elem_of_nil].
    intros Hin. apply elem_of_take in Hin as (i & Hi & _). apply list_elem_of_lookup_2 in Hi.
    apply elem_of_app in Hi as [Hi|Hi]; [by apply pad_left_newline in Hi; [|apply format_f_newline]|].
    revert Hi. apply (bool_decide_unpack (10 ∉ b!" MB/s")). by vm_compute. }
  unfold Stats.AppendWithSpace. destruct (Stats.line_message l) eqn:E; [done|]. rewrite <- E in *.
  intros [H|H]%elem_of_app; [|done]. destruct a; [by apply not_elem_of_nil in H|].
  apply elem_of_app in H as [H|H]; [done|]. by apply list_elem_of_singleton in H.
Qed.

(** The words of a report line: the fifth is the rate. *)
Lemma report_line name l :
  plain_name name -> plain_line name l ->
  exists t, report_text nan_text l = Normal (t ++ [10]) /\ (10 ∉ t) /\
    line_tput name (t ++ [10]) = py_int (format_f nan_text 0 (Stats.line_ops l)).
Proof using Hnan Hnonempty.
  intros (Hn1 & Hn2 & Hn3) (Hname & Hh & Hmsg). unfold report_text. rewrite Hh, Hname, (c_str_id name Hn3).
  pose proof (extra_newline l Hmsg) as Hx. set (extra := Stats.AppendWithSpace _ _) in *. clearbody extra.
  cbn [mbind outcome_bind]. rewrite app_nil_r.
  destruct (format_f_word nan_text 3 (Stats.line_micros l) Hnan Hnonempty) as [Hm1 Hm2].
  destruct (format_f_word nan_text 0 (Stats.line_ops l) Hnan Hnonempty) as [Ho1 Ho2].
  set (f3 := format_f nan_text 3 _) in *. set (f0 := format_f nan_text 0 _) in *. clearbody f3 f0.
  exists (pad_right 12 name ++ b!" : " ++ pad_left 11 f3 ++ b!" micros/op " ++ f0 ++ b!" ops/sec;" ++
          match extra with [] => [] | _ => b!" " end ++ c_str extra).
  split; [by rewrite <- !app_assoc|]. split.
  - rewrite !not_elem_of_app. split_and!; try (apply (bool_decide_unpack (10 ∉ _)); by vm_compute).
    + by apply pad_right_newline, no_space_no_newline.
    + by apply pad_left_newline, no_space_no_newline.
    + by apply no_space_no_newline.
    + destruct extra; apply (bool_decide_unpack (10 ∉ _)); by vm_compute.
    + intros H%c_str_sub. done.
  - unfold line_tput, pad_right, pad_left. rewrite <- !app_assoc.
    change b!" ops/sec;" with (32 :: b!"ops/sec;"). cbn [app]. rewrite words_report by done.
    cbn [mbind option_bind lookup list_lookup]. by rewrite bool_decide_true.
Qed.

(** *** The text before the reports *)
Definition whole_lines (t : bytes) : Prop := t = [] \/ exists a, t = a ++ [10].

Lemma whole_lines_app a b : whole_lines a -> whole_lines b -> whole_lines (a ++ b).
Proof.
  intros Ha [->|[c ->]]; [by rewrite app_nil_r|]. right. exists (a ++ c). by rewrite app_assoc.
Qed.

Lemma ends_whole a : whole_lines (a ++ [10]).
Proof. right. by exists a. Qed.

Lemma normal_eq {A} (x y : A) : Normal x = Normal y -> y = x.
Proof. by intros [=]. Qed.

Lemma report_text_whole r t : report_text nan_text r = Normal t -> whole_lines t.
Proof using.
  unfold report_text. destruct (Stats.line_hist r) as [h|].
  - destruct (ToString nan_text h); try done. intros E%normal_eq. rewrite E, !app_assoc. apply ends_whole.
  - intros E%normal_eq. rewrite E, app_nil_r, !app_assoc. apply ends_whole.
Qed.

Lemma millis_whole name m : whole_lines (millis_text nan_text name m).
Proof using. unfold millis_text. rewrite !app_assoc. apply ends_whole. Qed.

(** A line of the header's text, or any other. *)
Definition header_whole (l : line) : Prop := match l with Header t => whole_lines t | _ => True end.

Lemma line_text_whole l t : header_whole l -> line_text nan_text l = Normal t -> whole_lines t.
Proof using.
  destruct l as [h|m|m|n|r]; intros Hw H; [..|by eapply report_text_whole]; apply normal_eq in H; rewrite H;
    [done|apply millis_whole..|by left].
Qed.

Lemma lines_text_app l1 l2 t :
  Forall header_whole l1 -> lines_text nan_text (l1 ++ l2) = Normal t ->
  exists t1 t2, whole_lines t1 /\ lines_text nan_text l2 = Normal t2 /\ t = t1 ++ t2.
Proof using.
  intros Hw. revert t; induction Hw as [|x l1 Hx Hw IH]; intros t; cbn [app lines_text].
  - intros Ht. exists [], t. split; [by left|done].
  - destruct (line_text nan_text x) as [tx| | | |] eqn:Ex; cbn [mbind outcome_bind]; try done.
    destruct (lines_text nan_text (l1 ++ l2)) as [rest| | | |]; cbn [outcome_bind]; try done. intros [= <-].
    destruct (IH rest eq_refl) as (t1 & t2 & H1 & H2 & ->).
    exists (tx ++ t1), t2. split; [|split; [done|by rewrite app_assoc]].
    apply whole_lines_app; [by eapply line_text_whole|done].
Qed.

Lemma readlines_whole t rest : whole_lines t -> readlines (t ++ rest) = readlines t ++ readlines rest.
Proof. intros [->|[a ->]]; [done|]. rewrite <- app_assoc. apply readlines_app. Qed.

(** Each report is one line, with its rate. *)
Lemma reports_lines name ls t :
  plain_name name -> Forall (plain_line name) ls ->
  lines_text nan_text (map Reported ls) = Normal t ->
  Forall2 (fun x l => line_tput name x = py_int (format_f nan_text 0 (Stats.line_ops l))) (readlines t) ls.
Proof using Hnan Hnonempty.
  intros Hn Hp. revert t; induction Hp as [|l ls Hl Hp IH]; intros t; cbn [map lines_text line_text].
  - intros [= <-]. constructor.
  - destruct (report_line name l Hn Hl) as (tl & -> & Hnl & Ht). cbn [mbind outcome_bind].
    destruct (lines_text nan_text (map Reported ls)) as [rest| | | |]; cbn [outcome_bind]; try done. intros [= <-].
    rewrite <- app_assoc. cbn [app]. rewrite readlines_line by done. constructor; [done|by apply IH].
Qed.

Lemma sum_tputs_shown name : py_int nan_text = None -> forall lines ls acc,
  Forall2 (fun x l => line_tput name x = py_int (format_f nan_text 0 (Stats.line_ops l))) lines ls ->
  sum_tputs name acc lines =
    (fun ns => acc + foldr Z.add 0 ns) <$> mapM (fun l => shown_ops (Stats.line_ops l)) ls.
Proof using.
  intros Hpy lines ls acc HF. revert acc. induction HF as [|x l lines ls Hx HF IH]; intros acc; cbn [sum_tputs mapM].
  - cbn. f_equal. lia.
  - rewrite Hx, (py_int_shown _ _ Hpy). destruct (shown_ops (Stats.line_ops l)) as [n|]; cbn [mbind option_bind]; [|done].
    rewrite IH. destruct (mapM _ ls); cbn; [f_equal; lia|done].
Qed.

(** *** The whole output *)
Definition is_header (l : line) : bool := match l with Header _ => true | _ => false end.

Lemma PrintHeader_whole machine f num t : PrintHeader machine f num = Normal t -> whole_lines t.
Proof using.
  unfold PrintHeader. destruct (PrintEnvironment _ _ _); cbn [mbind outcome_bind]; try done.
  destruct (int_result _); try done. intros E%normal_eq. rewrite E, !app_assoc. apply ends_whole.
Qed.

(** What the script adds up for four reports: their rates as they are shown,
    or 0 when one of them is not a number. *)
Definition rates_sum (ls : list Stats.Line) : Z :=
  default 0 ((fun ns => foldr Z.add 0 ns) <$> mapM (fun l => shown_ops (Stats.line_ops l)) ls).

Lemma file_tput_reports name head ls t :
  py_int nan_text = None -> plain_name name -> Forall (plain_line name) ls -> length ls = 4%nat ->
  whole_lines head -> lines_text nan_text (map Reported ls) = Normal t ->
  file_tput name (head ++ t) = rates_sum ls.
Proof using Hnan Hnonempty.
  intros Hpy Hn Hp Hlen Hh Ht. unfold file_tput. rewrite readlines_whole by done.
  pose proof (reports_lines name ls t Hn Hp Ht) as HF. pose proof (Forall2_length _ _ _ HF).
  rewrite length_app, drop_app_length' by lia. rewrite (sum_tputs_shown name Hpy _ ls) by done. done.
Qed.

(** When the last benchmark of a run of [bench] has four threads and shows
    no histogram, summarize.py, reading the file of the run's output, header first, finds
    the sum of the rates the four threads report: whatever the header and the
    earlier lines say, the rates come back from the text as they were rounded
    to whole numbers for it; if one thread's rate is infinite (its time was
    too short for the clock) or not a number, the script takes 0. *)
Theorem summarize_reads_rates {A} machine f head name pre (l : list (thread A)) text :
  PrintHeader machine f (FLAGS_num f) = Normal head -> Forall (fun x => is_header x = false) pre ->
  py_int nan_text = None -> plain_name name -> FLAGS_histogram f = false -> length l = 4%nat ->
  (forall th, th ∈ l -> 10 ∉ Stats.message_ (o_stats (th_own th))) ->
  lines_text nan_text (Header head :: pre ++ reports f name l) = Normal text ->
  file_tput name text =
    rates_sum (map (fun th => fst (Stats.Report false name (o_stats (th_own th)))) l).
Proof using Hnan Hnonempty.
  intros Eh Hpre Hpy Hn Hhist Hlen Hmsg. unfold reports. rewrite Hhist.
  rewrite app_comm_cons. intros Er.
  apply lines_text_app in Er as (t1 & t2 & H1 & H2 & ->).
  2:{ apply Forall_cons_2; [by eapply PrintHeader_whole|]. eapply Forall_impl; [exact Hpre|]. by intros []. }
  rewrite <- map_map with (f := fun th : thread A => fst (Stats.Report false name (o_stats (th_own th)))) in H2.
  eapply file_tput_reports; try done.
  - apply Forall_fmap, Forall_forall. intros th Hth. split; [done|]. split; [done|].
    unfold compose, Stats.Report. cbn [fst Stats.line_message]. case_match; by apply Hmsg.
  - by rewrite length_map.
Qed.
End script.

(** ** A run of four threads *)
Definition demo_rates : list Z := [66048; 66051; 66225; 66460].

(** [done] operations in one second *)
Definition demo_thread (done : Z) : thread unit :=
  mkThread Finished (mkOwn (Random.new 1) (Stats.mkStats (d_of_Z 0) (d_of_Z 1000000) (d_of_Z 1) done 0 68702699
    (d_of_Z 1000000) (Stats.hist_ demo_stats) [] false) []).

Definition demo_head : bytes :=
  match PrintHeader demo_machine default_flags (FLAGS_num default_flags) with Normal t => t | _ => [] end.

Lemma demo_head_eq : PrintHeader demo_machine default_flags (FLAGS_num default_flags) = Normal demo_head.
Proof. vm_compute. reflexivity. Qed.

Definition demo_text : outcome bytes :=
  lines_text b!"-nan" (Header demo_head ::
    [Removed 12; Opened 40] ++ reports default_flags b!"fillrandom" (map demo_thread demo_rates)).

Lemma summarize_reads_rates_witness :
  match demo_text with Normal text => file_tput b!"fillrandom" text = 264784 | _ => False end.
Proof.
  destruct demo_text as [text| | | |] eqn:E; [|vm_compute in E; discriminate E..].
  rewrite (summarize_reads_rates b!"-nan" ltac:(vm_compute; repeat constructor) ltac:(vm_compute; discriminate)
    demo_machine default_flags demo_head b!"fillrandom" [Removed 12; Opened 40]
    (map demo_thread demo_rates) text);
    [vm_compute; reflexivity|exact demo_head_eq|repeat constructor|vm_compute; reflexivity|..|exact E].
  - split_and!; [vm_compute; repeat constructor|vm_compute; discriminate|].
    apply (bool_decide_unpack _). by vm_compute.
  - reflexivity.
  - reflexivity.
  - intros th Hth. unfold demo_rates in Hth. cbn [map] in Hth. rewrite !elem_of_cons in Hth.
    destruct Hth as [->|[->|[->|[->|Hth]]]]; [by apply not_elem_of_nil..|by apply not_elem_of_nil in Hth].
Defined.
