(* ===== verification/Summary.v ===== *)
(** * The mean of the benchmarks (bench/summarize.py, util/Runner.py)

    The whole of summarize.py: it reads the outputs of fourteen runs, adds up
    the rates of each and writes them behind their mean as two lines of
    comma-separated values.  The grader's
    [extract_from_first_csv_line_by_field] takes the mean from there again; the
    module [csv] it uses is modelled as the automaton of its reader. *)

From Stdlib Require Import SpecFloat.
From S2P Require Import Prelude CLib Random Pmkv Double Format Histogram Stats Report Workload WorkloadLogic Fill.
From S2P Require Import CommandLine MachineInfo Run Barrier ReadWriteThreads RunThreads ThreadRuns Output.

Local Open Scope Z_scope.

(** ** summarize.py *)

(** [sep.join(l)] *)
Fixpoint join (sep : bytes) (l : list bytes) : bytes :=
  match l with
  | [] => []
  | [x] => x
  | x :: l' => x ++ sep ++ join sep l'
  end.

(** [str(z)], and what [print] shows of [z] in a list *)
Definition py_str (z : Z) : bytes := sign (z <? 0) ++ digits (Z.abs z).

Definition py_repr (z : Z) : bytes :=
  py_str z ++ (if (- 2 ^ 63 <=? z) && (z <? 2 ^ 63) then [] else b!"L").

Definition benchmarks : list (bytes * bytes) :=
  [(b!"fillseq", b!"100"); (b!"fillseq", b!"1024"); (b!"fillrandom", b!"100"); (b!"fillrandom", b!"1024");
   (b!"overwrite", b!"100"); (b!"overwrite", b!"1024"); (b!"readseq", b!"100"); (b!"readseq", b!"1024");
   (b!"readrandom", b!"100"); (b!"readrandom", b!"1024"); (b!"deleteseq", b!"100"); (b!"deleteseq", b!"1024");
   (b!"deleterandom", b!"100"); (b!"deleterandom", b!"1024")].

Definition file_name (b : bytes * bytes) : bytes := fst b ++ b!"_" ++ snd b ++ b!".txt".

(** The rate of a benchmark; [files] says what a file of the directory holds,
    and one that cannot be opened counts 0. *)
Definition bench_tput (files : bytes -> option bytes) (b : bytes * bytes) : Z :=
  match files (file_name b) with Some text => file_tput (fst b) text | None => 0 end.

Definition tputs (files : bytes -> option bytes) : list Z := map (bench_tput files) benchmarks.

(** [int(sum(tputs) / len(tputs))]: the quotient of two integers is rounded
    down in Python 2 *)
Definition mean (l : list Z) : Z := foldr Z.add 0 l / zlen l.

Definition csv_text (files : bytes -> option bytes) : bytes :=
  join b!"," (b!"AverageThroughput" :: map file_name benchmarks) ++ [10] ++
  join b!"," (map py_str (mean (tputs files) :: tputs files)) ++ [10].

(** The script with the arguments [argv]: what it prints, the status it exits
    with, and the file it writes. *)
Definition summarize (argv : list bytes) (files : bytes -> option bytes) : bytes * Z * option (bytes * bytes) :=
  match argv with
  | [_; outfile_name] =>
      (b!"[" ++ join b!", " (map py_repr (tputs files)) ++ b!"]" ++ [10] ++
       b!"avg: " ++ py_str (mean (tputs files)) ++ b!" ops/sec" ++ [10],
       0, Some (outfile_name, csv_text files))
  | _ => (b!"python " ++ hd [] argv ++ b!" output_file" ++ [10], 1, None)
  end.

(** ** The reader of the module csv *)

(** The states of the reader with the default dialect: comma, double quotes
    doubled inside quotes, not strict. *)
Inductive csv_state := StartRecord | StartField | InField | InQuotedField | QuoteInQuotedField | EatCrnl.

Record csv_reader := mkReader { c_state : csv_state; c_field : bytes; c_row : list bytes }.

Definition fresh : csv_reader := mkReader StartRecord [] [].

(** [parse_save_field], and then the state [st] *)
Definition save_field (st : csv_state) (r : csv_reader) : csv_reader :=
  mkReader st [] (c_row r ++ [c_field r]).

Definition add_char (st : csv_state) (c : Z) (r : csv_reader) : csv_reader :=
  mkReader st (c_field r ++ [c]) (c_row r).

Definition set_state (st : csv_state) (r : csv_reader) : csv_reader := mkReader st (c_field r) (c_row r).

(** A character, or the end of a line ([None]), in front of a field. *)
Definition start_field (c : option Z) (r : csv_reader) : csv_reader :=
  match c with
  | None => save_field StartRecord r
  | Some c =>
      if (c =? 10) || (c =? 13) then save_field EatCrnl r
      else if c =? 34 then set_state InQuotedField r
      else if c =? 44 then save_field StartField r
      else add_char InField c r
  end.

(** [parse_process_char]; [None]: [csv.Error] *)
Definition process_char (r : csv_reader) (c : option Z) : option csv_reader :=
  match c_state r, c with
  | StartRecord, None => Some r
  | StartRecord, Some c' =>
      if (c' =? 10) || (c' =? 13) then Some (set_state EatCrnl r) else Some (start_field c r)
  | StartField, _ => Some (start_field c r)
  | InField, None => Some (save_field StartRecord r)
  | InField, Some c =>
      if (c =? 10) || (c =? 13) then Some (save_field EatCrnl r)
      else if c =? 44 then Some (save_field StartField r)
      else Some (add_char InField c r)
  | InQuotedField, None => Some r
  | InQuotedField, Some c =>
      if c =? 34 then Some (set_state QuoteInQuotedField r) else Some (add_char InQuotedField c r)
  | QuoteInQuotedField, None => Some (save_field StartRecord r)
  | QuoteInQuotedField, Some c =>
      if c =? 34 then Some (add_char InQuotedField c r)
      else if c =? 44 then Some (save_field StartField r)
      else if (c =? 10) || (c =? 13) then Some (save_field EatCrnl r)
      else Some (add_char InField c r)
  | EatCrnl, None => Some (set_state StartRecord r)
  | EatCrnl, Some c => if (c =? 10) || (c =? 13) then Some r else None
  end.

Fixpoint process_line (line : bytes) (r : csv_reader) : option csv_reader :=
  match line with
  | [] => process_char r None
  | c :: line' => r ← process_char r (Some c); process_line line' r
  end.

(** The rows of the lines; a row ends where the reader is at the start of a
    record again. *)
Fixpoint csv_rows (lines : list bytes) (r : csv_reader) : option (list (list bytes)) :=
  match lines with
  | [] =>
      match c_field r, c_state r with
      | [], InQuotedField | _ :: _, _ => Some [c_row r ++ [c_field r]]
      | [], _ => Some []
      end
  | line :: lines' =>
      r ← process_line line r;
      match c_state r with
      | StartRecord => rows ← csv_rows lines' fresh; Some (c_row r :: rows)
      | _ => csv_rows lines' r
      end
  end.

(** ** extract_from_first_csv_line_by_field *)

(** [float(w)] of a whole number; other numerals are not among the values of
    the file. *)
Definition py_float (w : bytes) : option double := d_of_Z <$> py_int w.

(** [dict(zip(names, row))[field]]: the last of the columns with this name *)
Fixpoint column (field : bytes) (names row : list bytes) : option bytes :=
  match names, row with
  | n :: names', x :: row' =>
      match column field names' row' with
      | Some y => Some y
      | None => if bool_decide (n = field) then Some x else None
      end
  | _, _ => None
  end.

(** [list(csv.DictReader(StringIO(file_contents)))]: empty rows are skipped.
    [None]: an exception; [Some None]: there is no row. *)
Definition extract_from_first_csv_line_by_field (file_contents field : bytes) : option (option double) :=
  rows ← csv_rows (readlines file_contents) fresh;
  match rows with
  | [] => Some None
  | names :: rest =>
      match filter (fun row => row <> []) rest with
      | [] => Some None
      | row :: _ => x ← column field names row; Some <$> py_float x
      end
  end.

(** ** Lemmas *)

(** A field without commas, quotes and ends of lines. *)
Definition plain (w : bytes) : Prop := w <> [] /\ Forall (fun c => c ∉ [10; 13; 34; 44]) w.

#[export] Instance plain_dec w : Decision (plain w).
Proof. unfold plain. apply _. Defined.

Lemma plain_char c : c ∉ [10; 13; 34; 44] -> (c =? 10) || (c =? 13) = false /\ (c =? 34) = false /\ (c =? 44) = false.
Proof.
  rewrite !not_elem_of_cons. intros (H1 & H2 & H3 & H4 & _).
  rewrite !(proj2 (Z.eqb_neq _ _)) by done. done.
Qed.

Lemma process_line_cons c line r r' :
  process_char r (Some c) = Some r' -> process_line (c :: line) r = process_line line r'.
Proof. intros E. cbn [process_line]. by rewrite E. Qed.

Lemma process_field w rest f row :
  Forall (fun c => c ∉ [10; 13; 34; 44]) w ->
  process_line (w ++ rest) (mkReader InField f row) = process_line rest (mkReader InField (f ++ w) row).
Proof.
  intros Hw. revert f. induction Hw as [|c w Hc Hw IH]; intros f; cbn [app]; [by rewrite app_nil_r|].
  apply plain_char in Hc as (H1 & H2 & H3).
  rewrite (process_line_cons _ _ _ (mkReader InField (f ++ [c]) row)) by (cbn; by rewrite H1, H3).
  by rewrite IH, <- app_assoc.
Qed.

Lemma process_start w rest st row :
  plain w -> st = StartRecord \/ st = StartField ->
  process_line (w ++ rest) (mkReader st [] row) = process_line rest (mkReader InField w row).
Proof.
  intros [Hne Hw] Hst. destruct w as [|c w]; [done|]. apply Forall_cons in Hw as [Hc Hw].
  apply plain_char in Hc as (H1 & H2 & H3). cbn [app].
  rewrite (process_line_cons _ _ _ (mkReader InField [c] row)).
  - by rewrite process_field.
  - destruct Hst as [-> | ->]; cbn [process_char c_state start_field]; by rewrite ?H1, H2, H3.
Qed.

(** A line of plain fields is read as these fields. *)
Lemma process_fields cells : forall st row,
  cells <> [] -> Forall plain cells -> st = StartRecord \/ st = StartField ->
  process_line (join b!"," cells ++ [10]) (mkReader st [] row) = Some (mkReader StartRecord [] (row ++ cells)).
Proof.
  induction cells as [|w cells IH]; intros st row Hne Hall Hst; [done|].
  apply Forall_cons in Hall as [Hw Hall]. destruct cells as [|w' cells].
  - cbn [join]. by rewrite process_start.
  - assert (E : join b!"," (w :: w' :: cells) ++ [10] = w ++ 44 :: join b!"," (w' :: cells) ++ [10]).
    { change (join b!"," (w :: w' :: cells)) with (w ++ b!"," ++ join b!"," (w' :: cells)). by rewrite <- !app_assoc. }
    rewrite E, process_start by done.
    rewrite (process_line_cons _ _ _ (mkReader StartField [] (row ++ [w]))) by done. rewrite IH by auto. by rewrite <- app_assoc.
Qed.

Lemma join_no_newline cells : Forall plain cells -> 10 ∉ join b!"," cells.
Proof.
  assert (Hp : forall w, plain w -> 10 ∉ w).
  { intros w [_ Hw] Hin. rewrite Forall_forall in Hw. apply (Hw 10 Hin). by left. }
  induction 1 as [|w cells Hw Hall IH]; [by apply not_elem_of_nil|]. destruct cells as [|w' cells]; cbn [join]; [auto|].
  rewrite !not_elem_of_app. split_and!; [auto| |done]. by intros H%list_elem_of_singleton.
Qed.

(** Two lines of fields come back as two rows. *)
Lemma csv_two_rows names row :
  names <> [] -> row <> [] -> Forall plain names -> Forall plain row ->
  csv_rows (readlines (join b!"," names ++ [10] ++ join b!"," row ++ [10])) fresh = Some [names; row].
Proof.
  intros Hn Hr Pn Pr. cbn [app]. rewrite readlines_line by (by apply join_no_newline).
  rewrite readlines_line by (by apply join_no_newline). cbn [readlines readlines_from csv_rows]. unfold fresh.
  rewrite (process_fields names) by auto. cbn [mbind option_bind c_state].
  rewrite (process_fields row) by auto. done.
Qed.

(** *** Numbers *)
Lemma py_int_str z : py_int (py_str z) = Some z.
Proof.
  unfold py_str. rewrite py_int_digits; [|apply digits_nonempty|apply digits_isdigit; lia].
  rewrite digits_value by lia. f_equal. destruct (Z.ltb_spec z 0); lia.
Qed.

Lemma py_str_plain z : plain (py_str z).
Proof.
  unfold py_str. split; [pose proof (digits_nonempty (Z.abs z)); destruct (z <? 0); [done|]; by destruct (digits _)|].
  apply Forall_app. split.
  - destruct (z <? 0); [|constructor]. constructor; [|constructor]. apply (bool_decide_unpack _). by vm_compute.
  - eapply Forall_impl; [apply digits_isdigit; lia|]. intros c. unfold isdigit.
    intros [H1%Z.leb_le H2%Z.leb_le]%andb_prop. rewrite !not_elem_of_cons. split_and!; try lia. apply not_elem_of_nil.
Qed.

(** *** Columns *)
Lemma column_lookup names row i n x :
  NoDup names -> names !! i = Some n -> row !! i = Some x -> column n names row = Some x.
Proof.
  intros Hd. revert row i. induction Hd as [|n0 names Hn Hd IH]; intros row i Hi Hx; [done|].
  destruct row as [|x0 row]; [by rewrite lookup_nil in Hx|]. destruct i as [|i]; cbn in Hi, Hx.
  - simplify_eq. cbn [column]. rewrite bool_decide_true by done. case_match eqn:E; [|done].
    assert (Hin : forall r, is_Some (column n names r) -> n ∈ names).
    { clear. induction names as [|m names IH]; intros [|y r] [v Hv]; cbn [column] in Hv; try done.
      destruct (column n names r) as [u|] eqn:E; [right; apply (IH r); by eexists|].
      case_bool_decide; [subst; by left|done]. }
    destruct Hn. apply (Hin row). by eexists.
  - cbn [column]. by rewrite (IH row i Hi Hx).
Qed.

(** ** What the file gives back *)
Section figure.
Context (files : bytes -> option bytes).

Definition names_row : list bytes := b!"AverageThroughput" :: map file_name benchmarks.

Definition values_row : list Z := mean (tputs files) :: tputs files.

Lemma names_plain : NoDup names_row /\ Forall plain names_row.
Proof.
  split; [apply (bool_decide_unpack _); vm_compute; done|].
  apply (bool_decide_unpack _). vm_compute. done.
Qed.

(** Every column of the file gives its number. *)
Lemma extract_column i n z :
  names_row !! i = Some n -> values_row !! i = Some z ->
  extract_from_first_csv_line_by_field (csv_text files) n = Some (Some (d_of_Z z)).
Proof.
  intros Hn Hz. destruct names_plain as [Hd Hp]. unfold extract_from_first_csv_line_by_field.
  change (csv_text files) with (join b!"," names_row ++ [10] ++ join b!"," (map py_str values_row) ++ [10]).
  rewrite csv_two_rows; [|done|done|done|apply Forall_fmap, Forall_forall; intros; apply py_str_plain].
  cbn [mbind option_bind]. rewrite filter_cons_True by done.
  rewrite (column_lookup names_row _ i n (py_str z)); [|done|done|].
  - cbn [mbind option_bind]. unfold py_float. by rewrite py_int_str.
  - change (map py_str values_row) with (py_str <$> values_row). by rewrite list_lookup_fmap, Hz.
Qed.

End figure.

(** ** Properties *)

(** [text] is the output of a run of [bench] whose last benchmark was [name] with
    four threads, without a histogram, and [ls] what they reported. *)
Definition run_output (nan_text name text : bytes) (ls : list Stats.Line) : Prop :=
  exists A (l : list (thread A)) machine f head pre,
    PrintHeader machine f (FLAGS_num f) = Normal head /\ Forall (fun x => is_header x = false) pre /\
    FLAGS_histogram f = false /\ length l = 4%nat /\
    (forall th, th ∈ l -> 10 ∉ Stats.message_ (o_stats (th_own th))) /\
    lines_text nan_text (Header head :: pre ++ reports f name l) = Normal text /\
    ls = map (fun th => fst (Stats.Report false name (o_stats (th_own th)))) l.

Lemma benchmark_names : Forall (fun b => plain_name (fst b)) benchmarks.
Proof. unfold plain_name, no_space. apply (bool_decide_unpack _). vm_compute. done. Qed.

Lemma bench_tput_runs nan_text files bs runs :
  no_space nan_text -> nan_text <> [] -> py_int nan_text = None ->
  Forall (fun b => plain_name (fst b)) bs ->
  Forall2 (fun b ls => match files (file_name b) with
                       | Some text => run_output nan_text (fst b) text ls
                       | None => ls = []
                       end) bs runs ->
  map (bench_tput files) bs = map rates_sum runs.
Proof.
  intros Hns Hne Hpy Hb. induction 1 as [|b ls bs runs Hr _ IH]; [done|]. apply Forall_cons in Hb as [Hn Hb].
  cbn [map]. rewrite (IH Hb). f_equal. unfold bench_tput. destruct (files (file_name b)) as [text|]; [|by rewrite Hr].
  destruct Hr as (A & l & machine & f & head & pre & Hhd & Hpre & Hh & Hl & Hm & Ht & ->).
  by eapply summarize_reads_rates.
Qed.

(** C31: the figure of merit of a submission.  When each of the fourteen files
    summarize.py looks for is missing or is the output of a run of [bench] whose
    last benchmark had four threads and no histogram, the grader reads from
    the file the script writes the mean, rounded down, of the sums of the rates
    the runs reported: whatever the headers and the earlier lines of the outputs
    say, the rates come back from the text as they were rounded to whole numbers
    for it, a run with a rate that is infinite or not a number counts 0, and the
    mean comes back from the comma-separated values. *)
Theorem figure_of_merit nan_text files runs prog outfile
  (Hns : no_space nan_text) (Hne : nan_text <> []) (Hpy : py_int nan_text = None)
  (Hruns : Forall2 (fun b ls => match files (file_name b) with
                                | Some text => run_output nan_text (fst b) text ls
                                | None => ls = []
                                end) benchmarks runs) :
  exists out text, summarize [prog; outfile] files = (out, 0, Some (outfile, text)) /\
    extract_from_first_csv_line_by_field text b!"AverageThroughput" =
      Some (Some (d_of_Z (foldr Z.add 0 (map rates_sum runs) / 14))).
Proof.
  eexists _, _. split; [reflexivity|]. rewrite (extract_column files 0 _ (mean (tputs files))) by done.
  unfold mean, tputs. rewrite (bench_tput_runs nan_text files benchmarks runs) by (done || apply benchmark_names).
  unfold zlen. rewrite length_map, <- (Forall2_length _ _ _ Hruns). done.
Qed.

(** One run, of four threads that fill the store; the other files are missing. *)
Definition demo_files (text name : bytes) : option bytes :=
  if bool_decide (name = b!"fillrandom_100.txt") then Some text else None.

Lemma figure_of_merit_witness :
  match demo_text with
  | Normal text =>
      exists out csv, summarize [b!"summarize.py"; b!"perf.csv"] (demo_files text) = (out, 0, Some (b!"perf.csv", csv)) /\
        extract_from_first_csv_line_by_field csv b!"AverageThroughput" = Some (Some (d_of_Z 18913))
  | _ => False
  end.
Proof.
  destruct demo_text as [text| | | |] eqn:E; [|vm_compute in E; discriminate E..].
  set (ls := map (fun th => fst (Stats.Report false b!"fillrandom" (o_stats (th_own th)))) (map demo_thread demo_rates)).
  assert (Hruns : Forall2 (fun b ls => match demo_files text (file_name b) with
                                       | Some text => run_output b!"-nan" (fst b) text ls
                                       | None => ls = []
                                       end) benchmarks ([[]; []; ls] ++ replicate 11 [])).
  { unfold benchmarks. cbn [app replicate].
    assert (Hno : forall b : bytes * bytes, file_name b <> b!"fillrandom_100.txt" ->
      match demo_files text (file_name b) with
      | Some text => run_output b!"-nan" (fst b) text []
      | None => [] = @nil Stats.Line
      end).
    { intros b Hb. unfold demo_files. by rewrite bool_decide_false. }
    repeat (apply Forall2_cons; split; [first [apply Hno; vm_compute; discriminate|idtac]|]); [|apply Forall2_nil; exact I].
    unfold demo_files. rewrite bool_decide_true by reflexivity.
    exists unit, (map demo_thread demo_rates), demo_machine, default_flags, demo_head,
      [Removed 12; Opened 40]. split; [exact demo_head_eq|]. split; [repeat constructor|]. split; [reflexivity|]. split; [reflexivity|]. split; [|split; [exact E|reflexivity]].
    intros th Hth. unfold demo_rates in Hth. cbn [map] in Hth. rewrite !elem_of_cons in Hth.
    destruct Hth as [->|[->|[->|[->|Hth]]]]; [by apply not_elem_of_nil..|by apply not_elem_of_nil in Hth]. }
  destruct (figure_of_merit b!"-nan" (demo_files text) _ b!"summarize.py" b!"perf.csv"
    ltac:(vm_compute; repeat constructor) ltac:(vm_compute; discriminate) ltac:(vm_compute; reflexivity) Hruns)
    as (out & csv & H1 & H2).
  exists out, csv. split; [exact H1|]. rewrite H2. vm_compute. reflexivity.
Defined.
