(* ===== verification/Usage.v ===== *)
(** * The usage text (bench/bench.cc, USAGE, main)

    What [main] writes to stderr when it ends at the command line, and that the
    text agrees with the flags the program reads, their defaults and the names
    of the benchmarks it runs. *)

From S2P Require Import Prelude CLib Slice Workload CommandLine Run Output.

Local Open Scope Z_scope.

Definition USAGE : bytes :=
  b!"pmkv_bench" ++ [10] ++
  b!"--engine=<name>            (storage engine name, default: pmkv)" ++ [10] ++
  b!"--db=<location>            (path to persistent pool, default: /mnt/ramdisk/bench)" ++ [10] ++
  b!"                           (note: file on DAX filesystem, DAX device, or poolset file)" ++ [10] ++
  b!"--db_size_in_gb=<integer>  (size of persistent pool to create in GB, default: 1)" ++ [10] ++
  b!"                           (note: always use 0 with existing poolset or device DAX configs)" ++ [10] ++
  b!"                           (note: when pool path is non-existing, value should be > 0)" ++ [10] ++
  b!"--histogram=<0|1>          (show histograms when reporting latencies)" ++ [10] ++
  b!"--num=<integer>            (number of keys to place in database, default: 1000000)" ++ [10] ++
  b!"--reads=<integer>          (number of read operations, default: 1000000)" ++ [10] ++
  b!"--threads=<integer>        (number of concurrent threads, default: 1)" ++ [10] ++
  b!"--key_size=<integer>         (size of keys in bytes, default: 16)" ++ [10] ++
  b!"--value_size=<integer>     (size of values in bytes, default: 100)" ++ [10] ++
  b!"--readwritepercent=<integer> (Ratio of reads to reads/writes (expressed " ++
  b!"as percentage) for the ReadRandomWriteRandom workload. The default value " ++
  b!"90 means 90% operations out of all reads and writes operations are reads. " ++
  b!"In other words, 9 gets for every 1 put.) type: int32 default: 90" ++ [10] ++
  b!"--benchmarks=<name>,       (comma-separated list of benchmarks to run)" ++ [10] ++
  b!"    fillseq                (load N values in sequential key order)" ++ [10] ++
  b!"    fillrandom             (load N values in random key order)" ++ [10] ++
  b!"    overwrite              (replace N values in random key order)" ++ [10] ++
  b!"    readseq                (read N values in sequential key order)" ++ [10] ++
  b!"    readrandom             (read N values in random key order)" ++ [10] ++
  b!"    readmissing            (read N missing values in random key order)" ++ [10] ++
  b!"    deleteseq              (delete N values in sequential key order)" ++ [10] ++
  b!"    deleterandom           (delete N values in random key order)" ++ [10] ++
  b!"    readwhilewriting       (1 writer, N threads doing random reads)" ++ [10] ++
  b!"    readrandomwriterandom  (N threads doing random-read, random-write)" ++ [10].

(** ["Invalid flag '%s'\n"] of the first argument that is not a flag *)
Fixpoint args_stderr (args : list bytes) (f : Flags) : bytes :=
  match args with
  | [] => []
  | a :: args' =>
      match parse_arg a f with
      | Normal f => args_stderr args' f
      | Exited _ => b!"Invalid flag '" ++ a ++ b!"'" ++ [10]
      | _ => []
      end
  end.

Definition main_stderr (args : list bytes) : bytes :=
  match args with
  | a :: _ => if is_help a then USAGE else args_stderr args default_flags
  | [] => args_stderr args default_flags
  end.

(** ** What the text says *)

(** the text up to the first [c], and after it *)
Fixpoint split_at (c : Z) (s : bytes) : bytes * bytes :=
  match s with
  | [] => ([], [])
  | x :: s' => if x =? c then ([], s') else let '(a, b) := split_at c s' in (x :: a, b)
  end.

(** the lines that explain a flag: the flag with its [=], and the explanation *)
Definition usage_flags : list (bytes * bytes) :=
  omap (fun l => match l with
                 | 45 :: 45 :: _ => let '(name, text) := split_at 61 l in Some (name ++ [61], text)
                 | _ => None
                 end) (readlines USAGE).

(** the names on the lines indented by four spaces *)
Definition usage_benchmarks : list bytes :=
  omap (fun l => match l with
                 | 32 :: 32 :: 32 :: 32 :: c :: _ => if isspace c then None else head (words l)
                 | _ => None
                 end) (readlines USAGE).

(** what follows the last ["default: "] of a text, up to a parenthesis or the end of the line *)
Fixpoint default_in (s : bytes) : option bytes :=
  match s with
  | [] => None
  | _ :: s' =>
      match default_in s' with
      | Some d => Some d
      | None => (fun d => fst (split_at 10 (fst (split_at 41 d)))) <$> strip_prefix b!"default: " s
      end
  end.

Definition usage_default (flag : bytes) : option bytes :=
  '(_, text) ← list_find (fun x => fst x = flag) usage_flags ≫= (fun x => Some (snd x)); default_in text.

(** ** Lemmas *)

(** The text explains the flags that are read, each once. *)
Lemma usage_flags_read : NoDup (map fst usage_flags) /\ forall p, p ∈ map fst usage_flags <-> p ∈ flag_names.
Proof.
  assert (H : bool_decide (NoDup (map fst usage_flags)) = true /\
    bool_decide (Forall (fun p => p ∈ flag_names) (map fst usage_flags)) = true /\
    bool_decide (Forall (fun p => p ∈ map fst usage_flags) flag_names) = true) by (vm_compute; done).
  destruct H as (H1%bool_decide_eq_true & H2%bool_decide_eq_true & H3%bool_decide_eq_true).
  rewrite Forall_forall in H2, H3. split; [done|]. intros p. split; auto.
Qed.

(** The names it lists are the ones [Run] has a method for. *)
Lemma usage_benchmarks_run name : is_Some (fst (fst (select name))) <-> name ∈ usage_benchmarks.
Proof.
  assert (Hu : usage_benchmarks = [b!"fillseq"; b!"fillrandom"; b!"overwrite"; b!"readseq"; b!"readrandom";
    b!"readmissing"; b!"deleteseq"; b!"deleterandom"; b!"readwhilewriting"; b!"readrandomwriterandom"])
    by (vm_compute; reflexivity).
  rewrite Hu. clear Hu. rewrite !elem_of_cons. unfold select.
  split.
  - intros Hs. repeat (case_bool_decide; [tauto|]). by destruct Hs.
  - intros Hin. repeat (case_bool_decide; [by eexists|]). rewrite elem_of_nil in Hin. tauto.
Qed.

(** The defaults it gives are the ones of the program; [--reads] is read as
    [--num] where it is negative, as it is by default. *)
Lemma usage_defaults {kv} (h : kv) :
  usage_default b!"--engine=" = Some (FLAGS_engine default_flags) /\
  usage_default b!"--db=" = Some (FLAGS_db default_flags) /\
  usage_default b!"--db_size_in_gb=" = Some (format_d (FLAGS_db_size_in_gb default_flags)) /\
  usage_default b!"--num=" = Some (format_d (FLAGS_num default_flags)) /\
  usage_default b!"--reads=" = Some (format_d (Benchmark.reads_ (Benchmark.new default_flags h))) /\
  usage_default b!"--threads=" = Some (format_d (FLAGS_threads default_flags)) /\
  usage_default b!"--key_size=" = Some (format_d (FLAGS_key_size default_flags)) /\
  usage_default b!"--value_size=" = Some (format_d (FLAGS_value_size default_flags)) /\
  usage_default b!"--readwritepercent=" = Some (format_d (FLAGS_readwritepercent default_flags)).
Proof. split_and!; vm_compute; reflexivity. Qed.

(** Wherever [main] ends at the command line, it has said why: with the usage
    for the help words, and else with the first argument that is not a flag. *)
Lemma args_exit_explained args : forall f c,
  parse_args args f = Exited c ->
  exists good bad rest f', args = good ++ bad :: rest /\ parse_args good f = Normal f' /\
    parse_arg bad f' = Exited c /\ args_stderr args f = b!"Invalid flag '" ++ bad ++ b!"'" ++ [10].
Proof.
  induction args as [|a args IH]; intros f c; cbn [parse_args args_stderr]; [done|].
  destruct (parse_arg a f) as [f1| | | |] eqn:Ea; cbn [mbind outcome_bind]; try done.
  - intros (good & bad & rest & f' & -> & H1 & H2 & H3)%IH. exists (a :: good), bad, rest, f'.
    cbn [app parse_args]. rewrite Ea. by cbn [mbind outcome_bind].
  - intros [= <-]. exists [], a, args, f. done.
Qed.

Lemma main_exit_explained args c :
  main_flags args = Exited c ->
  (exists a rest, args = a :: rest /\ is_help a = true /\ main_stderr args = USAGE) \/
  (exists good bad rest f, args = good ++ bad :: rest /\ parse_args good default_flags = Normal f /\
     parse_arg bad f = Exited c /\ main_stderr args = b!"Invalid flag '" ++ bad ++ b!"'" ++ [10]).
Proof.
  destruct args as [|a args]; [intros H; by right; apply args_exit_explained|].
  unfold main_flags, main_stderr. destruct (is_help a) eqn:Eh; [left; by exists a, args|].
  intros H. right. by apply args_exit_explained.
Qed.
