(* ===== verification/Grading.v ===== *)
(** * The results of the tests (test/run_all.sh, test/parse_result.py, util/Runner.py, lab.py)

    run_all.sh runs each test in a process of its own, which writes its report
    as XML; parse_result.py turns the reports into one file per test, and the
    grader collects these files.  The XML text and its parser are left out: a
    report is the tree googletest writes, or [None] when it cannot be parsed. *)

From S2P Require Import Prelude.

Local Open Scope Z_scope.

(** ** The lists of tests *)

Definition BASIC_TEST : list bytes :=
  [b!"PMKVTest.BasicTest"; b!"PMKVTest.SimpleTest"; b!"PMKVTest.BinaryKeyTest"; b!"PMKVTest.BinaryValueTest";
   b!"PMKVTest.EmptyKeyTest"; b!"PMKVTest.EmptyValueTest"; b!"PMKVTest.GetClearExternalValueTest";
   b!"PMKVTest.GetHeadlessTest"; b!"PMKVTest.GetMultipleTest"; b!"PMKVTest.GetMultiple2Test";
   b!"PMKVTest.GetNonexistentTest"; b!"PMKVTest.PutTest"; b!"PMKVTest.PutKeysOfDifferentSizesTest";
   b!"PMKVTest.PutValuesOfDifferentSizesTest"; b!"PMKVTest.RemoveAllTest"; b!"PMKVTest.RemoveAndInsertTest";
   b!"PMKVTest.RemoveExistingTest"; b!"PMKVTest.RemoveHeadlessTest"; b!"PMKVTest.RemoveNonexistentTest";
   b!"PMKVTest.SimpleMultithreadedTest"; b!"PMKVLargeTest.LargeAscendingTest";
   b!"PMKVLargeTest.LargeAscendingAfterRecoveryTest"; b!"PMKVLargeTest.LargeDescendingTest";
   b!"PMKVLargeTest.LargeDescendingAfterRecoveryTest"].

Definition RECOVERY_TEST : list bytes :=
  [b!"PMKVRecoveryTest.FillSeqRecoveryTest"; b!"PMKVRecoveryTest.OverwriteSeqRecoveryTest";
   b!"PMKVRecoveryTest.DeleteSeqRecoveryTest"].

(** [spec] of parse_result.py *)
Definition spec : list bytes :=
  [b!"PMKVTest.BasicTest"; b!"PMKVTest.SimpleTest"; b!"PMKVTest.BinaryKeyTest"; b!"PMKVTest.BinaryValueTest";
   b!"PMKVTest.EmptyKeyTest"; b!"PMKVTest.EmptyValueTest"; b!"PMKVTest.GetClearExternalValueTest";
   b!"PMKVTest.GetHeadlessTest"; b!"PMKVTest.GetMultipleTest"; b!"PMKVTest.GetMultiple2Test";
   b!"PMKVTest.GetNonexistentTest"; b!"PMKVTest.PutTest"; b!"PMKVTest.PutKeysOfDifferentSizesTest";
   b!"PMKVTest.PutValuesOfDifferentSizesTest"; b!"PMKVTest.RemoveAllTest"; b!"PMKVTest.RemoveAndInsertTest";
   b!"PMKVTest.RemoveExistingTest"; b!"PMKVTest.RemoveHeadlessTest"; b!"PMKVTest.RemoveNonexistentTest";
   b!"PMKVTest.SimpleMultithreadedTest"; b!"PMKVLargeTest.LargeAscendingTest";
   b!"PMKVLargeTest.LargeAscendingAfterRecoveryTest"; b!"PMKVLargeTest.LargeDescendingTest";
   b!"PMKVLargeTest.LargeDescendingAfterRecoveryTest"; b!"PMKVRecoveryTest.FillSeqRecoveryTest";
   b!"PMKVRecoveryTest.OverwriteSeqRecoveryTest"; b!"PMKVRecoveryTest.DeleteSeqRecoveryTest"].

(** [output_files] of lab.py *)
Definition output_files : list bytes :=
  [b!"PMKVTest.BasicTest"; b!"PMKVTest.SimpleTest"; b!"PMKVTest.BinaryKeyTest"; b!"PMKVTest.BinaryValueTest";
   b!"PMKVTest.EmptyKeyTest"; b!"PMKVTest.EmptyValueTest"; b!"PMKVTest.GetClearExternalValueTest";
   b!"PMKVTest.GetHeadlessTest"; b!"PMKVTest.GetMultipleTest"; b!"PMKVTest.GetMultiple2Test";
   b!"PMKVTest.GetNonexistentTest"; b!"PMKVTest.PutTest"; b!"PMKVTest.PutKeysOfDifferentSizesTest";
   b!"PMKVTest.PutValuesOfDifferentSizesTest"; b!"PMKVTest.RemoveAllTest"; b!"PMKVTest.RemoveAndInsertTest";
   b!"PMKVTest.RemoveExistingTest"; b!"PMKVTest.RemoveHeadlessTest"; b!"PMKVTest.RemoveNonexistentTest";
   b!"PMKVTest.SimpleMultithreadedTest"; b!"PMKVLargeTest.LargeAscendingTest";
   b!"PMKVLargeTest.LargeAscendingAfterRecoveryTest"; b!"PMKVLargeTest.LargeDescendingTest";
   b!"PMKVLargeTest.LargeDescendingAfterRecoveryTest"; b!"PMKVRecoveryTest.FillSeqRecoveryTest";
   b!"PMKVRecoveryTest.OverwriteSeqRecoveryTest"; b!"PMKVRecoveryTest.DeleteSeqRecoveryTest"; b!"bench/perf.csv"].

(** ** parse_result.py *)

(** The elements of a report the script looks at: the name of a case and the
    message of its failure; the name of a suite and its cases. *)
Record testcase := mkCase { case_name : bytes; failure : option bytes }.

Record testsuite := mkSuite { suite_name : bytes; cases : list testcase }.

Definition report : Type := list testsuite.

#[export] Instance testcase_eq_dec : EqDecision testcase.
Proof. solve_decision. Defined.

#[export] Instance testsuite_eq_dec : EqDecision testsuite.
Proof. solve_decision. Defined.

#[export] Instance report_eq_dec : EqDecision report.
Proof. unfold report. apply _. Defined.

(** ['%s.%s' % (testsuite.attrib['name'], testcase.attrib['name'])] *)
Definition test_name (s : testsuite) (c : testcase) : bytes := suite_name s ++ b!"." ++ case_name c.

(** The dictionary [ret]: whether the test passed, and what goes into its file *)
Definition add_case (s : testsuite) (ret : gmap bytes (bool * bytes)) (c : testcase) : gmap bytes (bool * bytes) :=
  <[test_name s c := match failure c with None => (true, []) | Some message => (false, message) end]> ret.

Definition add_suite (ret : gmap bytes (bool * bytes)) (s : testsuite) : gmap bytes (bool * bytes) :=
  fold_left (add_case s) (cases s) ret.

(** [parse_test_result]: the files of the result directory after it.  The
    entries of a dictionary have different names, so that the order they are
    written in does not matter. *)
Definition parse_test_result (xml : option report) (out : gmap bytes bytes) : gmap bytes bytes :=
  match xml with
  | None => out
  | Some testsuites => (snd <$> fold_left add_suite testsuites ∅) ∪ out
  end.

Definition no_output : bytes := b!"Error: output file couldn't be produced".

Definition xml_name (test : bytes) : bytes := test ++ b!".xml".

(** [generate_failed_result] *)
Definition failed_result (xml_dir : list (bytes * option report)) (out : gmap bytes bytes) (test : bytes)
  : gmap bytes bytes :=
  if bool_decide (xml_name test ∈ map fst xml_dir) then out else <[test := no_output]> out.

Definition generate_failed_result (xml_dir : list (bytes * option report)) (tests : list bytes)
    (out : gmap bytes bytes) : gmap bytes bytes :=
  fold_left (failed_result xml_dir) tests out.

(** The script, for the files of [xml_dir] in the order [os.listdir] has them. *)
Definition parse_result (xml_dir : list (bytes * option report)) (out : gmap bytes bytes) : gmap bytes bytes :=
  generate_failed_result xml_dir spec (fold_left (fun out x => parse_test_result (snd x) out) xml_dir out).

(** The script with the arguments [argv]: what it prints, the status it exits
    with, and the files after it. *)
Definition parse_main (argv : list bytes) (xml_dir : list (bytes * option report)) (out : gmap bytes bytes)
  : bytes * Z * gmap bytes bytes :=
  match argv with
  | [_; dir] =>
      (concat (map (fun x => match snd x with
                             | None => dir ++ b!"/" ++ fst x ++ b!" not found. skip." ++ [10]
                             | Some _ => []
                             end) xml_dir), 0, parse_result xml_dir out)
  | _ => (b!"python " ++ hd [] argv ++ b!" xml_dir" ++ [10], 1, out)
  end.

(** ** Collecting the files (Runner.py, run_submission_locally) *)
Inductive sub_status := SUCCESS | TIMEOUT | MISSING_OUTPUT | ERROR.

#[export] Instance sub_status_eq_dec : EqDecision sub_status.
Proof. solve_decision. Defined.

Definition missing_file : bytes := b!"<This output file did not exist>".

(** one round of the loop over [spec.output_files] *)
Definition collect_file (dir : gmap bytes bytes) (acc : gmap bytes bytes * sub_status) (i : bytes)
  : gmap bytes bytes * sub_status :=
  let '(result_files, status) := acc in
  if bool_decide (i = b!"STDERR") || bool_decide (i = b!"STDOUT") then acc
  else match dir !! i with
       | Some text => (<[i := text]> result_files, status)
       | None => (<[i := missing_file]> result_files,
                  if bool_decide (status = SUCCESS) then MISSING_OUTPUT else status)
       end.

Definition collect (files : list bytes) (dir : gmap bytes bytes) (status : sub_status)
  : gmap bytes bytes * sub_status :=
  fold_left (collect_file dir) files (∅, status).

(** ** run_all.sh *)

(** Each test of the two lists in turn, with [--gtest_filter=$TEST] and
    [--gtest_output=xml:xml/$TEST.xml]; [run test] is the report the process
    leaves, [None] when it leaves none. *)
Definition run_all (run : bytes -> option (option report)) : list (bytes * option report) :=
  omap (fun t => (fun x => (xml_name t, x)) <$> run t) (BASIC_TEST ++ RECOVERY_TEST).

(** ** Lemmas *)

(** The cases of a report, with their suites. *)
Definition all_cases (r : report) : list (testsuite * testcase) := r ≫= fun s => map (pair s) (cases s).

(** The report of a process that was given one test by [--gtest_filter]. *)
Definition reports_only (test : bytes) (r : report) : Prop :=
  map (fun '(s, c) => test_name s c) (all_cases r) = [test].

(** What the test's file says: nothing when the test passed. *)
Definition message (r : report) : bytes :=
  match all_cases r with (_, c) :: _ => default [] (failure c) | [] => [] end.

Lemma add_suites_cases r : forall ret,
  fold_left add_suite r ret = fold_left (fun ret '(s, c) => add_case s ret c) (all_cases r) ret.
Proof.
  induction r as [|s r IH]; intros ret; [done|]. cbn [fold_left]. rewrite IH.
  change (all_cases (s :: r)) with (map (pair s) (cases s) ++ all_cases r). rewrite fold_left_app. f_equal.
  unfold add_suite. generalize (cases s). intros l. revert ret.
  induction l as [|c l IHl]; intros ret; cbn [fold_left map]; [done|]. apply IHl.
Qed.

Lemma parse_one test r out : reports_only test r -> parse_test_result (Some r) out = <[test := message r]> out.
Proof.
  unfold reports_only, message, parse_test_result. rewrite add_suites_cases.
  destruct (all_cases r) as [|[s c] [|]]; try done. cbn [map fold_left]. intros [= <-]. unfold add_case.
  rewrite fmap_insert, fmap_empty, insert_empty, <- insert_union_singleton_l. f_equal. by destruct (failure c).
Qed.

#[export] Instance xml_name_inj : Inj (=) (=) xml_name.
Proof. intros x y. unfold xml_name. apply app_inj_2. done. Qed.

(** The three lists are the same tests. *)
Lemma same_tests : BASIC_TEST ++ RECOVERY_TEST = spec /\ output_files = spec ++ [b!"bench/perf.csv"] /\ NoDup spec.
Proof. split_and!; [reflexivity..|]. apply (bool_decide_unpack _). vm_compute. done. Qed.

Section results.
Context (run : bytes -> option (option report)).

(** Every report is about the test it was asked for. *)
Hypothesis Hrun : forall t r, run t = Some (Some r) -> reports_only t r.

(** The entries [run_all] makes. *)
Definition entry_ok (e : bytes * option report) : Prop := exists t, t ∈ spec /\ e.1 = xml_name t /\ run t = Some e.2.

Lemma run_all_entries e : e ∈ run_all run <-> entry_ok e.
Proof.
  unfold run_all, entry_ok. rewrite (proj1 same_tests), list_elem_of_omap. split.
  - intros (t & Ht & (x & Hx & ->)%fmap_Some). exists t. done.
  - intros (t & Ht & H1 & H2). exists t. split; [done|]. rewrite H2. cbn. rewrite <- H1. by destruct e.
Qed.

(** The files after the reports have been read. *)
Lemma parsed_lookup l out t :
  (forall e, e ∈ l -> entry_ok e) ->
  fold_left (fun out x => parse_test_result (snd x) out) l out !! t =
    match run t with
    | Some (Some r) => if decide ((xml_name t, Some r) ∈ l) then Some (message r) else out !! t
    | _ => out !! t
    end.
Proof using Hrun.
  induction l as [|[n x] l IH] using rev_ind; intros Hl.
  - cbn [fold_left]. destruct (run t) as [[r|]|]; [|done..]. by rewrite decide_False by apply not_elem_of_nil.
  - rewrite fold_left_app. cbn [fold_left snd].
    destruct (Hl (n, x)) as (t' & Hs & Hn & Hx); [apply elem_of_app; right; by left|]. cbn [fst snd] in *. subst n.
    specialize (IH (fun e He => Hl e (proj2 (elem_of_app _ _ _) (or_introl He)))).
    set (out1 := fold_left _ l out) in *. clearbody out1.
    assert (Hin : forall r, (xml_name t, Some r) ∈ l ++ [(xml_name t', x)] <->
      (xml_name t, Some r) ∈ l \/ (t = t' /\ x = Some r)).
    { intros r. rewrite elem_of_app, list_elem_of_singleton. split.
      - intros [?|[= H1 H2]]; [by left|right]. split; [by apply (inj xml_name)|done].
      - intros [?|[-> ->]]; auto. }
    destruct x as [r'|].
    + rewrite (parse_one t' r') by (by apply Hrun). destruct (decide (t = t')) as [<-|Hne].
      * rewrite lookup_insert_eq, Hx. rewrite decide_True; [done|]. apply Hin. by right.
      * rewrite lookup_insert_ne, IH by done. destruct (run t) as [[r|]|]; [|done..].
        destruct (decide ((xml_name t, Some r) ∈ l)) as [H1|H1].
        -- rewrite decide_True; [done|]. apply Hin. by left.
        -- rewrite decide_False; [done|]. rewrite Hin. by intros [?|[? _]].
    + cbn [parse_test_result]. rewrite IH. destruct (run t) as [[r|]|]; [|done..].
      destruct (decide ((xml_name t, Some r) ∈ l)) as [H1|H1].
      * rewrite decide_True; [done|]. apply Hin. by left.
      * rewrite decide_False; [done|]. rewrite Hin. by intros [?|[_ ?]].
Qed.

Lemma failed_lookup dir tests out t :
  generate_failed_result dir tests out !! t =
    if decide (t ∈ tests /\ xml_name t ∉ map fst dir) then Some no_output else out !! t.
Proof.
  unfold generate_failed_result. induction tests as [|x tests IH] using rev_ind.
  - cbn [fold_left]. rewrite decide_False; [done|]. intros [H _]. by apply elem_of_nil in H.
  - rewrite fold_left_app. cbn [fold_left]. set (out1 := fold_left _ tests out) in *. clearbody out1. unfold failed_result.
    assert (Hin : t ∈ tests ++ [x] <-> t ∈ tests \/ t = x) by (by rewrite elem_of_app, list_elem_of_singleton).
    destruct (decide (t = x)) as [->|Hne].
    + case_bool_decide as Hd.
      * rewrite IH, !decide_False; [done|tauto|tauto].
      * rewrite lookup_insert_eq, decide_True; [done|]. split; [apply Hin; by right|done].
    + assert (E : (if bool_decide (xml_name x ∈ map fst dir) then out1 else <[x := no_output]> out1) !! t = out1 !! t).
      { case_bool_decide; [done|]. by rewrite lookup_insert_ne. }
      rewrite E, IH. apply decide_ext. rewrite Hin. tauto.
Qed.

(** What the test's file holds after parse_result.py; a report that cannot be
    parsed leaves it as it was. *)
Definition verdict (out : gmap bytes bytes) (t : bytes) : option bytes :=
  match run t with
  | None => Some no_output
  | Some None => out !! t
  | Some (Some r) => Some (message r)
  end.

Lemma parse_result_verdict dir out t :
  Permutation dir (run_all run) -> t ∈ spec -> parse_result dir out !! t = verdict out t.
Proof using Hrun.
  intros Hp Ht. assert (Hl : forall e, e ∈ dir <-> entry_ok e) by (intros e; rewrite Hp; apply run_all_entries).
  unfold parse_result, verdict. rewrite failed_lookup.
  assert (Hx : xml_name t ∈ map fst dir <-> is_Some (run t)).
  { rewrite list_elem_of_fmap. split.
    - intros ([n x] & Hn & He%Hl). destruct He as (t' & _ & H1 & H2). cbn [fst snd] in Hn, H1, H2. rewrite H1 in Hn.
      apply (inj xml_name) in Hn as ->. rewrite H2. by eexists.
    - intros [x Hx]. exists (xml_name t, x). split; [done|]. apply Hl. exists t. split; [exact Ht|]. by split. }
  rewrite parsed_lookup by (intros e; apply Hl). destruct (run t) as [[r|]|] eqn:Er.
  - rewrite decide_False by (intros [_ []]; apply Hx; by eexists). rewrite decide_True; [done|]. apply Hl. exists t. split; [exact Ht|]. by split.
  - rewrite decide_False by (intros [_ []]; apply Hx; by eexists). done.
  - rewrite decide_True; [done|]. split; [exact Ht|]. rewrite Hx. by intros [? ?].
Qed.

End results.

(** *** Collecting *)
Lemma collect_files dir l : forall acc,
  (forall i, i ∈ l -> i <> b!"STDERR" /\ i <> b!"STDOUT") ->
  let '(res, st) := fold_left (collect_file dir) l acc in
  (forall i, res !! i = if decide (i ∈ l) then Some (default missing_file (dir !! i)) else fst acc !! i) /\
  st = (if decide (Forall (fun i => is_Some (dir !! i)) l) then snd acc
        else if bool_decide (snd acc = SUCCESS) then MISSING_OUTPUT else snd acc).
Proof.
  induction l as [|x l IH]; intros [res0 st0] Hl; cbn [fold_left].
  - split; [|by rewrite decide_True]. intros i. rewrite decide_False; [done|]. apply not_elem_of_nil.
  - destruct (Hl x) as [H1 H2]; [by left|]. unfold collect_file at 2.
    rewrite (bool_decide_false _ H1), (bool_decide_false _ H2). cbn [orb].
    assert (Hstep : match dir !! x with
       | Some text => (<[x:=text]> res0, st0)
       | None => (<[x:=missing_file]> res0, if bool_decide (st0 = SUCCESS) then MISSING_OUTPUT else st0)
       end = (<[x := default missing_file (dir !! x)]> res0,
              if decide (is_Some (dir !! x)) then st0 else if bool_decide (st0 = SUCCESS) then MISSING_OUTPUT else st0)).
    { destruct (dir !! x) eqn:E; [by rewrite decide_True|by rewrite decide_False by (apply is_Some_None)]. }
    rewrite Hstep. specialize (IH (<[x := default missing_file (dir !! x)]> res0,
              if decide (is_Some (dir !! x)) then st0 else if bool_decide (st0 = SUCCESS) then MISSING_OUTPUT else st0)
      (fun i Hi => Hl i (proj2 (elem_of_cons _ _ _) (or_intror Hi)))).
    destruct (fold_left _ l _) as [res st]. cbn [fst snd] in *. destruct IH as [IH1 IH2]. split.
    + intros i. rewrite IH1. destruct (decide (i ∈ l)) as [Hi|Hi].
      * rewrite decide_True; [done|by right].
      * destruct (decide (i = x)) as [->|Hne]; [rewrite lookup_insert_eq, decide_True; [done|by left]|].
        rewrite lookup_insert_ne, decide_False; [done| |done]. rewrite elem_of_cons. tauto.
    + rewrite IH2. destruct (decide (is_Some (dir !! x))) as [Hx|Hx];
        destruct (decide (Forall (fun i => is_Some (dir !! i)) l)) as [Hf|Hf];
        destruct (decide (Forall (fun i => is_Some (dir !! i)) (x :: l))) as [Hc|Hc];
        rewrite Forall_cons in Hc; try tauto; by destruct st0.
Qed.

(** A file that is not a test's stays as it was. *)
Lemma parse_result_other run dir out i :
  (forall t r, run t = Some (Some r) -> reports_only t r) ->
  Permutation dir (run_all run) -> (i ∉ spec) -> parse_result dir out !! i = out !! i.
Proof.
  intros Hrun Hp Hi. assert (Hl : forall e, e ∈ dir <-> entry_ok run e) by (intros e; rewrite Hp; apply run_all_entries).
  unfold parse_result. rewrite failed_lookup, decide_False by tauto.
  rewrite (parsed_lookup run Hrun) by (intros e; apply Hl). destruct (run i) as [[r|]|]; [|reflexivity..].
  rewrite decide_False; [reflexivity|]. intros (t & Ht & H1 & _)%Hl. cbn [fst] in H1. apply (inj xml_name) in H1. by subst t.
Qed.

Lemma output_names i : i ∈ output_files -> i <> b!"STDERR" /\ i <> b!"STDOUT".
Proof.
  intros Hi. assert (Hall : Forall (fun i => i <> b!"STDERR" /\ i <> b!"STDOUT") output_files).
  { apply (bool_decide_unpack _). vm_compute. done. }
  rewrite Forall_forall in Hall. by apply Hall.
Qed.

(** ** Properties *)


(** One test fails, another crashes before it writes its report, the others pass. *)
Definition demo_run (t : bytes) : option (option report) :=
  if bool_decide (t = b!"PMKVTest.PutTest") then
    Some (Some [mkSuite b!"PMKVTest" [mkCase b!"PutTest" (Some b!"Value of: s")]])
  else if bool_decide (t = b!"PMKVTest.BasicTest") then
    Some (Some [mkSuite b!"PMKVTest" [mkCase b!"BasicTest" None]])
  else None.

